(* ===== verification/_CoqProject ===== *)
-Q . S2P
Prelude.v
PyFloat.v
Metrics.v
Protocol.v
CachePolicy.v
OffloadManager.v
Lifecycle.v
LifecycleThms.v
FreeQueue.v
Request.v
BlockHash.v
BlockPool.v
BlockPoolThms.v
SingleType.v
KVManager.v
KVManagerThms.v
CacheHitThms.v
Scheduling.v
SchedulingThms.v
CapacityThms.v
RequestQueue.v
EncoderCache.v
EncoderCacheThms.v
Scheduler.v
SchedulerRuns.v
SchedulerCore.v
SchedulerStepThms.v
SchedulerUpdateThms.v
SchedulerThms.v
