(* ===== verification/Prelude.v ===== *)
(** * TokenCake: a verification development of the serving core

    TokenCake is a fork of vLLM that schedules the requests of agents.  This
    development models its engine core: the KV cache, the scheduler, the scheduling
    of agents, the offloading of KV blocks to CPU memory and the lifecycles of agent
    requests.  Python code is translated function by function; names are those of
    the source, with a prefix for the class where two classes use the same one.

    ** Parts and files

    - [Prelude]: record setters, the error monad [res] (Python exceptions are values
      of [pyerr]), the state monad [st] over it, Python lists, slices, ordered
      dictionaries ([od_get], [od_set], ...), sums, the tactics and hints shared by
      all files.  [PyFloat]: floats, as an interface with binary64 and rational
      instances.
    - [Metrics], [Protocol], [Lifecycle], [LifecycleThms]: vllm/tokencake/metrics.py;
      config.py, protocol.py and events.py; lifecycle.py.
    - [CachePolicy], [OffloadManager]: vllm/v1/kv_offload/cpu (the policies LRU and ARC
      as instances of one interface with a contract, and the manager of CPU slots,
      verified against the contract).
    - [FreeQueue], [BlockHash], [BlockPool], [BlockPoolThms]: the queue of free blocks
      and the block hashes of vllm/v1/core/kv_cache_utils.py, and
      vllm/v1/core/block_pool.py.
    - [Request]: vllm/v1/request.py and vllm/v1/core/sched/utils.py.
    - [SingleType], [KVManager], [KVManagerThms], [CacheHitThms]:
      vllm/v1/core/single_type_kv_cache_manager.py, kv_cache_coordinator.py and
      kv_cache_manager.py.
    - [Scheduling], [SchedulingThms], [CapacityThms]: vllm/tokencake/scheduling.py.
    - [RequestQueue]: vllm/v1/core/sched/request_queue.py.
    - [EncoderCache], [EncoderCacheThms]: vllm/v1/core/encoder_cache_manager.py and the
      methods of the scheduler that drive it.
    - [Scheduler], [SchedulerRuns]: vllm/v1/core/sched/scheduler.py and
      async_scheduler.py, and single runs of them.  [SchedulerCore],
      [SchedulerStepThms], [SchedulerUpdateThms], [SchedulerThms]: the invariant of the
      scheduler, a step, the other operations, and all runs.

    ** How the parts interact

    The scheduler owns the queues of requests and the running list, and calls the KV
    cache manager for blocks, the encoder cache for multi-modal inputs, the controller
    of agent scheduling for admission, growth, order and victims, and the registry of
    lifecycles when a generation ends.  The KV cache manager drives one manager per
    group of layers; all of them share a block pool, which keeps free blocks in the
    queue and cached ones in an index by hash.  The registry retains blocks of the CPU
    offloading manager for generations that wait for a tool.

    Objects that the code shares are references into a heap: the blocks of the free
    queue ([fq_heap]), the lifecycles ([lr_heap]), the requests ([sd_heap]).  An
    attribute assignment is an update of the heap, so aliasing is that of the code.
    An operation is a function of type [st S A], from a state to an error or a new
    state and a result; a method of an inner object runs on its part of the state.

    ** What the theorems show

    - Scheduler: on every run of a scheduler over one group of full attention, without
      a connector, agent scheduling, drafts, adapters and sessions, but with any number
      of steps in flight, no operation raises ([scheduler_never_raises]), every request
      is in exactly one list and holds the blocks that its place requires
      ([requests_in_place]), a step keeps its budgets ([schedule_bounds]), an abort
      removes exactly what it names ([finish_exact]) and a reset with the running
      requests succeeds ([reset_succeeds]).
    - Blocks: the linked list implements a list and its batch operations are the
      iterated ones ([free_queue_refines_list], [batch_ops_equal_iterated]); reference
      counts equal the number of holders and the free queue holds exactly the
      unreferenced blocks, in every reachable pool and in every reachable manager with
      one group of full, sliding-window or chunked attention ([pool_accounting],
      [kv_accounting]); blocks are never lost ([free_drains]).
    - Allocation, with one such group: [allocate_slots] never raises in a reachable state
      and either changes nothing but skipped blocks or covers the tokens
      ([allocate_slots_sound]); what the lookup of full attention returns can be given
      to it ([lookup_admits]).  With two groups and external tokens, hits can be handed
      out twice ([hybrid_external_alias]).
    - Prefix cache: for requests that are created and extended by generated tokens, equal
      hashes mean equal prefixes; a hit serves blocks that were cached for the same
      prefix and not handed out since, and the lookup returns the longest one
      ([equal_hash_equal_prefix], [prefix_hit_sound], [full_hit_longest]); the search
      over several groups ends ([hybrid_search_terminates]).
    - Agents: the charges of the controller equal the references, capacity is not
      promised twice, an admitted request is served ([controller_accounting],
      [capacity_offered], [admission_sound]); executed tokens are counted once.
    - Offloading and lifecycles: CPU slots are neither shared nor lost, a store does
      what it says, assertions fail only for a cause, retained blocks are neither
      evicted nor overwritten, the registry raises for duplicate identifiers only
      ([registry_raises_only_duplicates]), and the end of a lifecycle is final.
    - Queues and encoder cache: both queues serve in their order
      ([queue_refines_list]); encoder outputs the target model looks up are in the
      scheduler's record ([encoder_outputs_present]), which is not the memory of the
      worker.
    - Runs and counterexamples: theorems of kind "error" exhibit inputs on which the
      code does not do what it means to; those of [SchedulerRuns] are whole runs of
      the scheduler.

    ** Loops and fuel

    Loops over a list are structural.  The remaining loops take fuel, and running out
    is the error [OutOfFuel] (or [None]), never a result: the alignment loop by the
    length of the hit, the hash loop by the number of tokens, the heap loops by the
    length of the heap, the search over groups by the length of the hit
    ([hybrid_search_terminates] shows it is enough), the loops of [schedule] by the
    number of requests ([scheduler_never_raises] shows it is enough).

    ** Parameters

    What is not in the repository's engine core is an argument: the hash function (with
    the law [CollisionFree] where a theorem needs it), digests of embeddings, clocks,
    the iteration order of sets, [log1p], pydantic's strict readers, the KV connector
    and the grammar backend of the scheduler.

    ** Not modelled

    The grouping of layers and the sizing of memory at start-up (the rest of
    kv_cache_utils.py), the HTTP route and the front end, workers, model code and GPU
    kernels, log messages, statistics for display, log probabilities, routed experts,
    and the connector side of offloading (vllm/tokencake/offloading.py and
    offload_policy.py), which the scheduler sees through [KVConnector]. *)

From stdpp Require Export base gmap strings list sets sorting.
From Stdlib Require Export ZArith Lia.
From Stdlib Require Import Ascii OrderedTypeEx.

Declare Scope py_scope.
Delimit Scope py_scope with py.
#[global] Open Scope Z_scope.
#[global] Open Scope py_scope.
#[global] Arguments filter : simpl never.
#[global] Arguments decide : simpl never.

(** ** Field setters

    Python objects are records; an attribute assignment is [r <| f := v |>] and
    an augmented assignment is [r <| f ::= g |>].  A record declares how it is
    rebuilt from its projections ([Settable]); the setter of each field is then
    derived by abstracting that field's projection. *)

Class Settable (R : Type) := mk_settable { rebuild : R → R }.
Class Setter {R T : Type} (field : R → T) := update_field : (T → T) → R → R.

Ltac derive_setter :=
  match goal with
  | |- @Setter ?R ?T ?field =>
      let body := eval cbv beta iota delta [rebuild] in (@rebuild R _) in
      let body := eval hnf in body in
      let abs := eval pattern field in body in
      lazymatch abs with
      | ?mk _ =>
          let s := eval cbv beta in
            (fun (f : T → T) => mk (fun r => f (field r))) in
          exact s
      end
  end.
#[global] Hint Extern 1 (Setter _) => derive_setter : typeclass_instances.

Notation "r <| f := v |>" := (update_field (field := f) (fun _ => v) r)
  (at level 1, left associativity, format "r  <| f  :=  v |>") : py_scope.
Notation "r <| f ::= g |>" := (update_field (field := f) g r)
  (at level 1, left associativity, format "r  <| f  ::=  g |>") : py_scope.

(** ** Exceptions

    A call that may raise returns [res A]. *)

Inductive pyerr :=
  | AssertionError | KeyError | ValueError | IndexError | OverflowError
  | ZeroDivisionError | RuntimeError | TypeError | AttributeError | StopIteration | NotImplementedError
  (** of [tokencake.lifecycle], a [ValueError] *)
  | DuplicateLifecycleError
  (** not an exception: a loop that went on after its fuel was used up *)
  | OutOfFuel.

Inductive res (A : Type) : Type :=
  | Ok (a : A)
  | Err (e : pyerr).
Arguments Ok {A} a.
Arguments Err {A} e.

#[global] Instance pyerr_eq_dec : EqDecision pyerr.
Proof. solve_decision. Defined.
#[global] Instance res_ret : MRet res := fun A a => Ok a.
#[global] Instance res_fmap : FMap res := fun A B f m =>
  match m with Ok a => Ok (f a) | Err e => Err e end.
#[global] Instance res_bind : MBind res := fun A B f m =>
  match m with Ok a => f a | Err e => Err e end.

(** [assert b] of the source. *)
Definition passert (b : bool) : res unit := if b then Ok tt else Err AssertionError.

(** [d[k]] on a value that may be missing. *)
Definition or_raise {A} (e : pyerr) (o : option A) : res A :=
  match o with Some a => Ok a | None => Err e end.

(** A [for] loop whose body may raise. *)
Fixpoint foldM {S A : Type} (f : S → A → res S) (s : S) (l : list A) : res S :=
  match l with
  | [] => Ok s
  | a :: l => s' ← f s a; foldM f s' l
  end.

Definition is_ok {A} (m : res A) : bool := match m with Ok _ => true | Err _ => false end.

(** To name the result of a computation whose shape is known by evaluation. *)
(** The value of a computation that is known to return. *)
Definition from_ok {A} (m : res A) : is_ok m = true → A :=
  match m with Ok a => fun _ => a | Err e => fun H => match Bool.diff_false_true H with end end.
Lemma from_ok_eq {A} (m : res A) H : m = Ok (from_ok m H).
Proof. by destruct m. Qed.

Lemma from_ok_unit {A} (m : res (A * unit)) H : m = Ok ((from_ok m H).1, tt).
Proof. by destruct m as [[? []]|]. Qed.

Lemma ok_such {A} (f : A → bool) (x : res A) :
  match x with Ok a => f a | Err _ => false end = true → ∃ a, x = Ok a ∧ f a = true.
Proof. destruct x as [a|]; [by exists a|done]. Qed.

Lemma some_such {A} (f : A → bool) (x : option A) :
  from_option f false x = true → ∃ a, x = Some a ∧ f a = true.
Proof. destruct x as [a|]; [by exists a|done]. Qed.

(** The result, or [a] where there is none; for concrete examples. *)
Definition default_ok {A} (a : A) (m : res A) : A := match m with Ok a => a | Err _ => a end.

Lemma bind_Ok {A B} (m : res A) (f : A → res B) b :
  (m ≫= f) = Ok b ↔ ∃ a, m = Ok a ∧ f a = Ok b.
Proof. destruct m; cbn; naive_solver. Qed.

Lemma passert_Ok b u : passert b = Ok u ↔ b = true.
Proof. destruct b, u; cbn; naive_solver. Qed.

Lemma or_raise_Ok {A} e (o : option A) a : or_raise e o = Ok a ↔ o = Some a.
Proof. destruct o; cbn; naive_solver. Qed.

Lemma foldM_app {S A} (f : S → A → res S) s l1 l2 :
  foldM f s (l1 ++ l2) = (s' ← foldM f s l1; foldM f s' l2).
Proof. revert s; induction l1 as [|a l1 IH]; intros s; cbn; [done|]. destruct (f s a); cbn; auto. Qed.

(** A loop invariant of [foldM], stated on the processed prefix. *)
Lemma foldM_invariant {S A} (f : S → A → res S) (P : list A → S → Prop) s l s' :
  P [] s →
  (∀ done a t t', P done t → a ∈ l → f t a = Ok t' → P (done ++ [a]) t') →
  foldM f s l = Ok s' → P l s'.
Proof.
  intros H0 Hstep Hf.
  assert (∀ pre suf t, l = pre ++ suf → P pre t → foldM f t suf = Ok s' → P l s') as Hgo.
  { intros pre suf; revert pre; induction suf as [|a suf IH]; intros pre t -> Hp Hr.
    - cbn in Hr. injection Hr as ->. by rewrite app_nil_r.
    - cbn in Hr. apply bind_Ok in Hr as (t' & Ht & Hr).
      apply (IH (pre ++ [a]) t'); [by rewrite <- app_assoc| |done].
      eapply Hstep; [done| |done]. set_solver. }
  eapply (Hgo [] l s); done.
Qed.

(** A loop whose body cannot raise while its invariant holds does not raise. *)
Lemma foldM_total {S A} (f : S → A → res S) (P : S → Prop) s l :
  P s →
  (∀ a t, P t → a ∈ l → ∃ t', f t a = Ok t' ∧ P t') →
  ∃ s', foldM f s l = Ok s' ∧ P s'.
Proof.
  revert s; induction l as [|a l IH]; intros s Hs Hstep; cbn; [eauto|].
  destruct (Hstep a s Hs) as (t & -> & Ht); [set_solver|]. cbn.
  apply IH; [done|]. intros; apply Hstep; set_solver.
Qed.

(** Split the conjunctions, existentials and monadic binds of the context. *)
Ltac inv_res :=
  repeat match goal with
  | H : ex _ |- _ => let x := fresh "x" in destruct H as [x H]
  | H : _ ∧ _ |- _ => destruct H
  | H : Ok _ = Ok _ |- _ => injection H; clear H; intros; subst
  | H : Some _ = Some _ |- _ => injection H; clear H; intros; subst
  | H : Ok _ = Err _ |- _ => discriminate H
  | H : Err _ = Ok _ |- _ => discriminate H
  | H : (_ ≫= _) = Ok _ |- _ => apply bind_Ok in H
  | H : passert _ = Ok _ |- _ => apply passert_Ok in H
  | H : or_raise _ _ = Ok _ |- _ => apply or_raise_Ok in H
  | H : (_, _) = (_, _) |- _ => injection H; clear H; intros; subst
  end.

(** ** Stateful code

    [st S A]: code that reads and writes a state [S], returns an [A] or raises. *)

Definition st (S A : Type) : Type := S → res (S * A).

#[global] Instance st_ret {S} : MRet (st S) := fun A a s => Ok (s, a).
#[global] Instance st_bind {S} : MBind (st S) := fun A B f m s =>
  match m s with Ok (s, a) => f a s | Err e => Err e end.
#[global] Instance st_fmap {S} : FMap (st S) := fun A B f m s =>
  match m s with Ok (s, a) => Ok (s, f a) | Err e => Err e end.

Definition st_get {S} : st S S := fun s => Ok (s, s).
Definition st_modify {S} (f : S → S) : st S unit := fun s => Ok (f s, tt).
Definition st_raise {S A} (e : pyerr) : st S A := fun _ => Err e.
Definition st_lift {S A} (m : res A) : st S A := fun s => match m with Ok a => Ok (s, a) | Err e => Err e end.
Definition st_assert {S} (b : bool) : st S unit := st_lift (passert b).

(** [if b: m] *)
Definition st_when {S} (b : bool) (m : st S unit) : st S unit := if b then m else mret tt.

(** [for a in l: f(a)] *)
Fixpoint st_iter {S A} (f : A → st S unit) (l : list A) : st S unit :=
  match l with [] => mret tt | a :: l => f a;; st_iter f l end.

Lemma st_bind_Ok {S A B} (f : A → st S B) (m : st S A) s r :
  (m ≫= f) s = Ok r ↔ ∃ s' a, m s = Ok (s', a) ∧ f a s' = Ok r.
Proof. unfold mbind, st_bind. destruct (m s) as [[s' a]|]; naive_solver. Qed.

Lemma st_bind_eq {S A B} (f : A → st S B) (m : st S A) s s' a :
  m s = Ok (s', a) → (m ≫= f) s = f a s'.
Proof. unfold mbind, st_bind. by intros ->. Qed.

(** Runs the next step of a monadic program whose result is known. *)
Ltac st_step Heq := rewrite (st_bind_eq _ _ _ _ _ Heq).

Lemma st_bind_get {S A} (f : S → st S A) s : (st_get ≫= f) s = f s s.
Proof. done. Qed.

Lemma st_bind_modify {S A} (g : S → S) (f : unit → st S A) s : (st_modify g ≫= f) s = f tt (g s).
Proof. done. Qed.

Lemma st_bind_assert {S A} (b : bool) (f : unit → st S A) s : b = true → (st_assert b ≫= f) s = f tt s.
Proof. by intros ->. Qed.

Lemma st_bind_assert_false {S A} (b : bool) (f : unit → st S A) s :
  b = false → (st_assert b ≫= f) s = Err AssertionError.
Proof. by intros ->. Qed.

Lemma st_bind_lift {S A B} (x : res A) v (f : A → st S B) s : x = Ok v → (st_lift x ≫= f) s = f v s.
Proof. by intros ->. Qed.

Lemma st_bind_assoc {S A B C} (m : st S A) (f : A → st S B) (g : B → st S C) s :
  ((m ≫= f) ≫= g) s = (m ≫= (fun a => f a ≫= g)) s.
Proof. unfold mbind, st_bind. by destruct (m s) as [[s' a]|]. Qed.

(** A loop keeps an invariant that each iteration keeps; it does not raise if no
    iteration raises. *)
Lemma st_iter_invariant {S A} (f : A → st S unit) (P : S → Prop) l s :
  P s → (∀ a s, a ∈ l → P s → ∃ s', f a s = Ok (s', tt) ∧ P s') →
  ∃ s', st_iter f l s = Ok (s', tt) ∧ P s'.
Proof.
  revert s; induction l as [|a l IH]; intros s Hs Hf; [by exists s|].
  destruct (Hf a s) as (s1 & H1 & Hs1); [left|done|].
  destruct (IH s1 Hs1) as (s2 & H2 & Hs2); [intros; apply Hf; [by right|done]|].
  exists s2. split; [|done]. cbn. by rewrite (st_bind_eq _ _ _ _ _ H1).
Qed.

(** ** Insertion-ordered dictionaries

    [dict] and [OrderedDict] where the order of iteration matters: an
    association list without duplicate keys.  Assignment to a present key keeps
    its position. *)

Section odict.
Context {K V : Type} `{EqDecision K}.
Implicit Types (d : list (K * V)) (k : K) (v : V).

Fixpoint od_get (k : K) (d : list (K * V)) : option V :=
  match d with
  | [] => None
  | (k', v) :: d => if decide (k' = k) then Some v else od_get k d
  end.

Fixpoint od_set (k : K) (v : V) (d : list (K * V)) : list (K * V) :=
  match d with
  | [] => [(k, v)]
  | (k', v') :: d => if decide (k' = k) then (k', v) :: d else (k', v') :: od_set k v d
  end.

Fixpoint od_del (k : K) (d : list (K * V)) : list (K * V) :=
  match d with
  | [] => []
  | (k', v') :: d => if decide (k' = k) then d else (k', v') :: od_del k d
  end.

Fixpoint od_alter (f : V → V) (k : K) (d : list (K * V)) : list (K * V) :=
  match d with
  | [] => []
  | (k', v') :: d => if decide (k' = k) then (k', f v') :: d else (k', v') :: od_alter f k d
  end.

Definition od_has (k : K) (d : list (K * V)) : bool :=
  match od_get k d with Some _ => true | None => false end.

Definition od_move_to_end (k : K) (d : list (K * V)) : list (K * V) :=
  match od_get k d with
  | Some v => od_del k d ++ [(k, v)]
  | None => d
  end.

Definition od_wf (d : list (K * V)) : Prop := NoDup d.*1.

Lemma od_get_None k d : od_get k d = None ↔ k ∉ d.*1.
Proof.
  induction d as [|[k' v] d IH]; csimpl; [set_solver|].
  case_decide; [set_solver|]. rewrite IH. set_solver.
Qed.

Lemma od_get_In k v d : od_get k d = Some v → (k, v) ∈ d.
Proof.
  induction d as [|[k' v'] d IH]; csimpl; [done|].
  case_decide; [intros; simplify_eq; set_solver|]. intros; right; auto.
Qed.

Lemma od_In_get k v d : od_wf d → (k, v) ∈ d → od_get k d = Some v.
Proof.
  unfold od_wf. induction d as [|[k' v'] d IH]; csimpl; [set_solver|].
  rewrite NoDup_cons. intros [Hn Hd] [?|Hin]%elem_of_cons; simplify_eq; [by rewrite decide_True|].
  rewrite decide_False; [auto|]. intros ->. apply Hn.
  apply list_elem_of_fmap. by exists (k, v).
Qed.

Lemma od_has_true k d : od_has k d = true ↔ k ∈ d.*1.
Proof.
  unfold od_has. destruct (od_get k d) eqn:E.
  - split; [|done]. intros _. apply od_get_In in E. apply list_elem_of_fmap. by exists (k, v).
  - apply od_get_None in E. split; [done|]. intros; contradiction.
Qed.

Lemma od_get_set k k' v d :
  od_get k (od_set k' v d) = if decide (k' = k) then Some v else od_get k d.
Proof.
  induction d as [|[k1 v1] d IH]; csimpl; [done|].
  repeat (case_decide; csimpl); simplify_eq; try done; by rewrite IH, ?decide_True, ?decide_False.
Qed.

Lemma od_get_del k k' d :
  od_wf d → od_get k (od_del k' d) = if decide (k' = k) then None else od_get k d.
Proof.
  unfold od_wf. induction d as [|[k1 v1] d IH]; csimpl; [by case_decide|].
  rewrite NoDup_cons. intros [Hn Hd].
  repeat (case_decide; csimpl); simplify_eq; try done;
    rewrite ?IH, ?decide_True, ?decide_False by done; try done.
  by apply od_get_None.
Qed.

Lemma od_get_alter f k k' d :
  od_get k (od_alter f k' d) = if decide (k' = k) then f <$> od_get k d else od_get k d.
Proof.
  induction d as [|[k1 v1] d IH]; csimpl; [by case_decide|].
  repeat (case_decide; csimpl); simplify_eq; try done; by rewrite IH, ?decide_True, ?decide_False.
Qed.

Lemma od_keys_alter f k d : (od_alter f k d).*1 = d.*1.
Proof. induction d as [|[k1 v1] d IH]; csimpl; [done|]. case_decide; csimpl; by rewrite ?IH. Qed.

Lemma od_keys_set_new k v d : k ∉ d.*1 → od_set k v d = d ++ [(k, v)].
Proof.
  induction d as [|[k1 v1] d IH]; csimpl; [done|]. intros Hn.
  rewrite decide_False by set_solver. rewrite IH by set_solver. done.
Qed.

Lemma od_keys_set_old k v d : k ∈ d.*1 → (od_set k v d).*1 = d.*1.
Proof.
  induction d as [|[k1 v1] d IH]; csimpl; [set_solver|]. intros Hn.
  case_decide; csimpl; [done|]. rewrite IH by set_solver. done.
Qed.

Lemma elem_of_od_keys_set k k' v d : k ∈ (od_set k' v d).*1 ↔ k = k' ∨ k ∈ d.*1.
Proof.
  destruct (decide (k' ∈ d.*1)) as [Hin|Hn].
  - rewrite od_keys_set_old by done. set_solver.
  - rewrite od_keys_set_new by done. rewrite fmap_app. set_solver.
Qed.

Lemma od_del_sublist k d : od_del k d `sublist_of` d.
Proof.
  induction d as [|[k1 v1] d IH]; csimpl; [done|].
  case_decide; [by apply sublist_cons|by apply sublist_skip].
Qed.

Lemma elem_of_od_keys_del k k' d : od_wf d → k ∈ (od_del k' d).*1 ↔ k ≠ k' ∧ k ∈ d.*1.
Proof.
  intros Hwf. pose proof (od_get_del k k' d Hwf) as Hg.
  destruct (decide (k' = k)) as [->|Hne].
  - apply od_get_None in Hg. set_solver.
  - split.
    + intros Hin. split; [done|]. destruct (decide (k ∈ d.*1)) as [|Hn]; [done|].
      rewrite (proj2 (od_get_None k d) Hn) in Hg. by apply od_get_None in Hg.
    + intros [_ Hin]. destruct (decide (k ∈ (od_del k' d).*1)) as [|Hn]; [done|].
      rewrite (proj2 (od_get_None _ _) Hn) in Hg. symmetry in Hg. by apply od_get_None in Hg.
Qed.

Lemma od_wf_nil : od_wf [].
Proof. constructor. Qed.

Lemma od_wf_set k v d : od_wf d → od_wf (od_set k v d).
Proof.
  unfold od_wf. intros Hd. destruct (decide (k ∈ d.*1)) as [Hin|Hn].
  - by rewrite od_keys_set_old.
  - rewrite od_keys_set_new, fmap_app, NoDup_app by done. csimpl.
    split_and!; [done|set_solver|apply NoDup_singleton].
Qed.

Lemma od_wf_del k d : od_wf d → od_wf (od_del k d).
Proof. unfold od_wf. intros. eapply sublist_NoDup; [done|apply fmap_sublist, od_del_sublist]. Qed.

Lemma od_wf_alter f k d : od_wf d → od_wf (od_alter f k d).
Proof. unfold od_wf. by rewrite od_keys_alter. Qed.

Lemma od_get_filter (Pr : K * V → Prop) `{∀ kv, Decision (Pr kv)} k d :
  od_wf d → od_get k (filter Pr d) =
    match od_get k d with
    | Some v => if decide (Pr (k, v)) then Some v else None
    | None => None
    end.
Proof.
  unfold od_wf. induction d as [|[k1 v1] d IH]; csimpl; [done|]. intros [Hn Hd]%NoDup_cons.
  rewrite filter_cons. destruct (decide (k1 = k)) as [->|Hne].
  - case_decide; csimpl; [by rewrite decide_True|]. rewrite IH by done. by apply od_get_None in Hn as ->.
  - case_decide; csimpl; rewrite ?decide_False by done; by apply IH.
Qed.

(** Deleting a present key drops its entry. *)
Lemma od_del_filter `{!EqDecision V} k v d :
  od_wf d → (k, v) ∈ d → od_del k d = filter (fun kv => kv ≠ (k, v)) d.
Proof.
  unfold od_wf. induction d as [|[k' v'] d IH]; intros Hd Hin; [set_solver|].
  csimpl in Hd. apply NoDup_cons in Hd as [Hn Hd]. rewrite filter_cons. csimpl.
  destruct (decide (k' = k)) as [->|Hne].
  - assert (v' = v) as ->.
    { apply elem_of_cons in Hin as [?|Hin]; [congruence|]. destruct Hn. apply list_elem_of_fmap. by exists (k, v). }
    rewrite decide_False by tauto.
    assert (∀ l : list (K * V), k ∉ l.*1 → filter (fun kv => kv ≠ (k, v)) l = l) as Hall; [|by rewrite Hall].
    clear. induction l as [|[k1 v1] l IH]; [done|]. csimpl. intros [? ?]%not_elem_of_cons.
    rewrite filter_cons, decide_True by congruence. by rewrite IH.
  - rewrite decide_True by congruence. f_equal. apply IH; [done|]. apply elem_of_cons in Hin as [?|?]; [congruence|done].
Qed.

Lemma od_wf_tail d : od_wf d → od_wf (tail d).
Proof. unfold od_wf. destruct d as [|[k v] d]; csimpl; [done|]. by rewrite NoDup_cons; intros []. Qed.

Lemma od_move_to_end_perm k d : od_wf d → od_move_to_end k d ≡ₚ d.
Proof.
  unfold od_move_to_end. destruct (od_get k d) as [v|] eqn:E; [|done]. intros _.
  revert E; induction d as [|[k1 v1] d IH]; csimpl; [done|].
  case_decide; [intros; simplify_eq; by rewrite Permutation_app_comm|].
  intros. csimpl. by rewrite IH.
Qed.

Lemma od_wf_move k d : od_wf d → od_wf (od_move_to_end k d).
Proof. unfold od_wf. intros. by rewrite od_move_to_end_perm. Qed.

Lemma od_get_perm k d d' : od_wf d → d ≡ₚ d' → od_get k d = od_get k d'.
Proof.
  intros Hd Hp. assert (od_wf d') as Hd' by (unfold od_wf in *; by rewrite <- Hp).
  destruct (od_get k d) as [v|] eqn:E.
  - symmetry. apply od_In_get; [done|]. rewrite <- Hp. by apply od_get_In.
  - symmetry. rewrite od_get_None in *. by rewrite <- Hp.
Qed.

Lemma od_get_move k k' d : od_wf d → od_get k (od_move_to_end k' d) = od_get k d.
Proof. intros. apply od_get_perm; [by apply od_wf_move|by apply od_move_to_end_perm]. Qed.

Lemma od_length_set k v d :
  length (od_set k v d) = (if od_has k d then length d else S (length d)).
Proof.
  destruct (od_has k d) eqn:E.
  - apply od_has_true in E. rewrite <- (length_fmap fst), od_keys_set_old by done. by rewrite length_fmap.
  - rewrite od_keys_set_new; [rewrite length_app; cbn; lia|].
    intros Hin. apply od_has_true in Hin. congruence.
Qed.

Lemma od_length_del k d :
  length (od_del k d) = (if od_has k d then Nat.pred (length d) else length d).
Proof.
  unfold od_has. induction d as [|[k1 v1] d IH]; csimpl; [done|].
  case_decide; [done|]. csimpl. rewrite IH. destruct (od_get k d) eqn:E; [|done].
  destruct d; done.
Qed.

(** Deleting several keys. *)
Fixpoint od_del_all (ks : list K) (d : list (K * V)) : list (K * V) :=
  match ks with [] => d | k :: ks => od_del_all ks (od_del k d) end.

Lemma od_wf_del_all ks d : od_wf d → od_wf (od_del_all ks d).
Proof. revert d; induction ks as [|k ks IH]; intros d Hd; cbn; [done|]. by apply IH, od_wf_del. Qed.

Lemma od_get_del_all k ks d :
  od_wf d → od_get k (od_del_all ks d) = if decide (k ∈ ks) then None else od_get k d.
Proof.
  revert d; induction ks as [|k' ks IH]; intros d Hd; cbn.
  - rewrite decide_False; [done|set_solver].
  - rewrite IH, od_get_del by auto using od_wf_del.
    repeat case_decide; set_solver.
Qed.

End odict.

Arguments od_wf {K V} d.
#[export] Hint Resolve od_wf_nil od_wf_set od_wf_del od_wf_alter od_wf_move od_wf_tail : od.

(** The finite map a dictionary denotes. *)
Section odmap.
Context {K V : Type} `{Countable K}.
Implicit Types (d : list (K * V)) (k : K) (v : V).

Definition od_map (d : list (K * V)) : gmap K V := list_to_map d.

Lemma od_map_lookup k d : od_map d !! k = od_get k d.
Proof.
  unfold od_map. induction d as [|[k' v] d IH]; csimpl; [apply lookup_empty|].
  rewrite lookup_insert. case_decide; [done|apply IH].
Qed.

Lemma od_map_set k v d : od_map (od_set k v d) = <[k:=v]> (od_map d).
Proof.
  apply map_eq. intros k'. rewrite od_map_lookup, od_get_set, lookup_insert, od_map_lookup.
  by repeat case_decide.
Qed.

Lemma od_map_del k d : od_wf d → od_map (od_del k d) = delete k (od_map d).
Proof.
  intros Hd. apply map_eq. intros k'.
  rewrite od_map_lookup, od_get_del, lookup_delete, od_map_lookup by done.
  by repeat case_decide.
Qed.

Lemma od_map_alter f k d : od_map (od_alter f k d) = alter f k (od_map d).
Proof.
  apply map_eq. intros k'. rewrite od_map_lookup, od_get_alter, lookup_alter, !od_map_lookup.
  by case_decide; subst.
Qed.

Lemma od_map_move k d : od_wf d → od_map (od_move_to_end k d) = od_map d.
Proof. intros. apply map_eq. intros k'. by rewrite !od_map_lookup, od_get_move. Qed.

Lemma od_map_length d : od_wf d → size (od_map d) = length d.
Proof.
  intros Hd. unfold od_map. rewrite <- length_map_to_list.
  rewrite map_to_list_to_map; done.
Qed.

End odmap.
#[global] Arguments od_map : simpl never.
#[global] Arguments od_wf : simpl never.

(** ** Machine integers *)

(** The value kept by a [ctypes.c_int32] field. *)
Definition wrap32 (z : Z) : Z := (z + 2 ^ 31) mod 2 ^ 32 - 2 ^ 31.

#[global] Arguments wrap32 : simpl never.

Lemma wrap32_id z : - 2 ^ 31 <= z < 2 ^ 31 → wrap32 z = z.
Proof. intros. unfold wrap32. rewrite Z.mod_small; lia. Qed.

(** ** Sums *)

Fixpoint sumZ {A} (f : A → Z) (l : list A) : Z :=
  match l with [] => 0 | a :: l => f a + sumZ f l end.

Lemma sumZ_app {A} (f : A → Z) l1 l2 : sumZ f (l1 ++ l2) = sumZ f l1 + sumZ f l2.
Proof. induction l1; cbn; lia. Qed.

Lemma sumZ_perm {A} (f : A → Z) l1 l2 : l1 ≡ₚ l2 → sumZ f l1 = sumZ f l2.
Proof. induction 1; cbn; lia. Qed.

Lemma sumZ_nonneg {A} (f : A → Z) l : (∀ a, a ∈ l → 0 <= f a) → 0 <= sumZ f l.
Proof.
  induction l as [|a l IH]; cbn; [lia|]. intros H.
  pose proof (H a ltac:(set_solver)). assert (0 <= sumZ f l); [|lia].
  apply IH. set_solver.
Qed.

Lemma sumZ_ext {A} (f g : A → Z) l : (∀ a, a ∈ l → f a = g a) → sumZ f l = sumZ g l.
Proof.
  induction l as [|a l IH]; cbn; [done|]. intros H.
  rewrite (H a) by set_solver. rewrite IH; [done|]. set_solver.
Qed.

Lemma sumZ_le {A} (f g : A → Z) l : (∀ a, a ∈ l → f a <= g a) → sumZ f l <= sumZ g l.
Proof.
  induction l as [|a l IH]; cbn; [lia|]. intros H.
  pose proof (H a ltac:(set_solver)). assert (sumZ f l <= sumZ g l); [|lia].
  apply IH. set_solver.
Qed.

Lemma sumZ_fmap {A B} (g : A → B) (f : B → Z) l : sumZ f (g <$> l) = sumZ (fun a => f (g a)) l.
Proof. induction l; csimpl; lia. Qed.

Lemma sumZ_elem_le {A} (f : A → Z) l a : (∀ x, x ∈ l → 0 <= f x) → a ∈ l → f a <= sumZ f l.
Proof.
  induction l as [|b l IH]; [set_solver|]. intros H Hin. cbn.
  pose proof (H b ltac:(set_solver)).
  pose proof (sumZ_nonneg f l ltac:(set_solver)).
  apply elem_of_cons in Hin as [->|Hin]; [lia|].
  specialize (IH ltac:(set_solver) Hin). lia.
Qed.

(** Sums over the values of a map. *)
Definition sum_map {K A} `{Countable K} (f : A → Z) (m : gmap K A) : Z := sumZ f (map_to_list m).*2.

Section sum_map.
Context {K A : Type} `{Countable K} (f : A → Z).
Implicit Types (m : gmap K A) (k : K) (a : A).

Lemma sum_map_delete m k a : m !! k = Some a → sum_map f m = f a + sum_map f (delete k m).
Proof.
  intros Hk. unfold sum_map. by erewrite (sumZ_perm _ (map_to_list m).*2) by (by rewrite <- (map_to_list_delete m k a)).
Qed.

Lemma sum_map_insert_new m k a : m !! k = None → sum_map f (<[k := a]> m) = f a + sum_map f m.
Proof. intros Hk. rewrite (sum_map_delete _ k a) by apply lookup_insert_eq. by rewrite delete_insert_id. Qed.

Lemma sum_map_insert m k a a' : m !! k = Some a → sum_map f (<[k := a']> m) = sum_map f m - f a + f a'.
Proof.
  intros Hk. rewrite (sum_map_delete m k a Hk), (sum_map_delete (<[k := a']> m) k a') by apply lookup_insert_eq.
  rewrite delete_insert_eq. lia.
Qed.

Lemma sum_map_nonneg m : (∀ a, 0 <= f a) → 0 <= sum_map f m.
Proof. intros Hf. by apply sumZ_nonneg. Qed.

Lemma sum_map_ge m k a : (∀ a, 0 <= f a) → m !! k = Some a → f a <= sum_map f m.
Proof. intros Hf Hk. rewrite (sum_map_delete m k a Hk). pose proof (sum_map_nonneg (delete k m) Hf). lia. Qed.

Lemma sum_map_zero m : (∀ k a, m !! k = Some a → f a = 0) → sum_map f m = 0.
Proof.
  intros Hm. unfold sum_map. rewrite (sumZ_ext _ (fun _ => 0)); [by induction (map_to_list m).*2|].
  intros a ([k a'] & -> & Hin%elem_of_map_to_list)%list_elem_of_fmap. by apply (Hm k).
Qed.

Lemma sum_map_pos m : 0 < sum_map f m → ∃ k a, m !! k = Some a ∧ 0 < f a.
Proof.
  induction m as [|k a m Hk IH] using map_ind; [done|]. rewrite sum_map_insert_new by done. intros Hpos.
  destruct (decide (0 < f a)) as [Ha|Ha]; [exists k, a; by rewrite lookup_insert_eq|].
  destruct IH as (k' & a' & Hk' & Ha'); [lia|]. exists k', a'. split; [|done]. rewrite lookup_insert_ne; [done|]. intros ->. congruence.
Qed.

End sum_map.

(** ** Lists *)

Lemma list_filter_all {A} (P : A → Prop) `{!∀ x, Decision (P x)} (l : list A) :
  (∀ x, x ∈ l → P x) → filter P l = l.
Proof.
  induction l as [|x l IH]; intros Hl; [done|]. rewrite filter_cons, decide_True by (apply Hl; left).
  f_equal. apply IH. intros y Hy. apply Hl. by right.
Qed.

Lemma list_filter_none {A} (P : A → Prop) `{!∀ x, Decision (P x)} (l : list A) :
  (∀ x, x ∈ l → ¬ P x) → filter P l = [].
Proof.
  induction l as [|x l IH]; intros Hl; [done|]. rewrite filter_cons, decide_False by (apply Hl; left).
  apply IH. intros y Hy. apply Hl. by right.
Qed.

Lemma NoDup_rev {A} (l : list A) : NoDup (reverse l) ↔ NoDup l.
Proof. by rewrite reverse_Permutation. Qed.

Lemma NoDup_fmap_elem {A B} (f : A → B) (l : list A) x y :
  NoDup (f <$> l) → x ∈ l → y ∈ l → f x = f y → x = y.
Proof.
  intros Hnd (i & Hi)%list_elem_of_lookup (j & Hj)%list_elem_of_lookup Hf.
  assert (i = j) as ->.
  { eapply (NoDup_lookup (f <$> l)); [done| |]; rewrite list_lookup_fmap.
    - by rewrite Hi.
    - rewrite Hj. cbn. by rewrite Hf. }
  congruence.
Qed.

Lemma list_filter_ext_in {A} (P Q : A → Prop) `{!∀ x, Decision (P x), !∀ x, Decision (Q x)} (l : list A) :
  (∀ x, x ∈ l → P x ↔ Q x) → filter P l = filter Q l.
Proof.
  induction l as [|x l IH]; intros Hpq; [done|]. rewrite !filter_cons.
  rewrite (decide_ext (P x) (Q x)) by (apply Hpq; set_solver).
  rewrite IH by set_solver. done.
Qed.

Lemma NoDup_filter_sub {A} (P Q : A → Prop) `{!∀ x, Decision (P x), !∀ x, Decision (Q x)} (l : list A) :
  (∀ x, x ∈ l → P x → Q x) → NoDup (filter Q l) → NoDup (filter P l).
Proof.
  intros HPQ HQ. rewrite (list_filter_ext_in P (fun x => P x ∧ Q x)) by naive_solver.
  rewrite <- list_filter_filter. by apply NoDup_filter.
Qed.

Notation lenZ l := (Z.of_nat (length l)).

(** ** Indexing and slicing *)

(** [l[i]]: a negative index counts from the end. *)
Definition py_index {A} (l : list A) (i : Z) : res A :=
  let i := if i <? 0 then i + lenZ l else i in
  if i <? 0 then Err IndexError else or_raise IndexError (l !! Z.to_nat i).

(** A bound of a slice, as [slice.indices] clamps it. *)
Definition py_bound (n i : Z) : Z := if i <? 0 then Z.max 0 (i + n) else Z.min i n.

(** [l[a:b]] *)
Definition py_slice {A} (l : list A) (a b : Z) : list A :=
  let a := py_bound (lenZ l) a in
  let b := py_bound (lenZ l) b in
  take (Z.to_nat (b - a)) (drop (Z.to_nat a) l).

Lemma py_index_nonneg {A} (l : list A) (i : nat) : py_index l (Z.of_nat i) = or_raise IndexError (l !! i).
Proof.
  unfold py_index. destruct (Z.ltb_spec (Z.of_nat i) 0); [lia|]. cbn.
  destruct (Z.ltb_spec (Z.of_nat i) 0); [lia|]. by rewrite Nat2Z.id.
Qed.

(** [l[-i]] for [1 <= i <= len(l)]. *)
Lemma py_index_neg {A} (l : list A) (i : nat) :
  (1 ≤ i ≤ length l)%nat → py_index l (- Z.of_nat i) = or_raise IndexError (l !! (length l - i)%nat).
Proof.
  intros Hi. unfold py_index. destruct (Z.ltb_spec (- Z.of_nat i) 0); [|lia].
  destruct (Z.ltb_spec (- Z.of_nat i + lenZ l) 0); [lia|]. do 2 f_equal. lia.
Qed.

Lemma py_slice_nonneg {A} (l : list A) a b :
  0 <= a → 0 <= b → py_slice l a b = take (Z.to_nat (b - a)) (drop (Z.to_nat a) l).
Proof.
  intros Ha Hb. unfold py_slice, py_bound.
  destruct (Z.ltb_spec a 0); [lia|]. destruct (Z.ltb_spec b 0); [lia|].
  destruct (Z.le_gt_cases (lenZ l) a).
  - rewrite !(drop_ge l) by lia. by rewrite !take_nil.
  - rewrite (Z.min_l a) by lia. destruct (Z.le_gt_cases b (lenZ l)); [by rewrite Z.min_l|].
    rewrite Z.min_r by lia. rewrite !(take_ge (drop _ _)) by (rewrite length_drop; lia). done.
Qed.

Lemma py_slice_length {A} (l : list A) a b :
  0 <= a <= b → b <= lenZ l → length (py_slice l a b) = Z.to_nat (b - a).
Proof. intros Ha Hb. rewrite py_slice_nonneg, length_take, length_drop by lia. lia. Qed.

(** ** Bytes

    [bytes] are strings; four big-endian bytes encode a 32-bit integer. *)

Definition byte_of (z : Z) : ascii := ascii_of_N (Z.to_N (z mod 256)).
Definition be32 (z : Z) : string :=
  String (byte_of (z / 2 ^ 24)) (String (byte_of (z / 2 ^ 16))
    (String (byte_of (z / 2 ^ 8)) (String (byte_of z) EmptyString))).

(** [int.from_bytes(s, "big")] *)
Definition be_value (s : string) : Z :=
  fold_left (fun acc c => acc * 256 + Z.of_N (N_of_ascii c)) (String.list_ascii_of_string s) 0.

Lemma substring_all t : String.substring 0 (String.length t) t = t.
Proof. induction t as [|c t IH]; cbn; [done|]. by rewrite IH. Qed.

Lemma substring_app_l s t : String.substring 0 (String.length s) (s +:+ t) = s.
Proof.
  induction s as [|c s IH]; [by destruct t|].
  change (String c s +:+ t) with (String c (s +:+ t)). cbn. by rewrite IH.
Qed.

Lemma substring_app_r s t : String.substring (String.length s) (String.length t) (s +:+ t) = t.
Proof.
  induction s as [|c s IH]; [apply substring_all|].
  change (String c s +:+ t) with (String c (s +:+ t)). cbn. exact IH.
Qed.

Lemma string_length_app s t : String.length (s +:+ t) = (String.length s + String.length t)%nat.
Proof.
  induction s as [|c s IH]; [done|]. change (String c s +:+ t) with (String c (s +:+ t)).
  cbn. by rewrite IH.
Qed.

Lemma byte_of_val z : Z.of_N (N_of_ascii (byte_of z)) = z mod 256.
Proof.
  unfold byte_of. pose proof (Z.mod_pos_bound z 256). rewrite N_ascii_embedding; lia.
Qed.

Lemma be32_val z : 0 <= z < 2 ^ 32 →
  be_value (be32 z) = z.
Proof.
  intros Hz. unfold be_value. cbn [be32 String.list_ascii_of_string fold_left]. rewrite !byte_of_val.
  change (2 ^ 24) with (256 * (256 * 256)). change (2 ^ 16) with (256 * 256). change (2 ^ 8) with 256.
  rewrite <- !Z.div_div by lia. Z.to_euclidean_division_equations. lia.
Qed.

(** A prefix and an integer packed after it are read back. *)
Lemma be32_suffix s z : 0 <= z < 2 ^ 32 →
  String.substring 0 (String.length (s +:+ be32 z) - 4) (s +:+ be32 z) = s ∧
  be_value (String.substring (String.length (s +:+ be32 z) - 4) 4 (s +:+ be32 z)) = z.
Proof.
  intros Hz. rewrite string_length_app.
  change (String.length (be32 z)) with 4%nat. rewrite Nat.add_sub, substring_app_l.
  change 4%nat with (String.length (be32 z)). rewrite substring_app_r.
  split; [done|]. by apply be32_val.
Qed.

(** ** Sorting

    [sorted(l, key=...)] with [lt] the comparison of the keys: stable, by insertion;
    with [reverse=True] the comparison is turned round and equal elements keep their
    order. *)

Section sorting.
Context {A : Type} (lt : A → A → bool).

Fixpoint sort_insert (x : A) (l : list A) : list A :=
  match l with
  | [] => [x]
  | y :: l => if lt y x then y :: sort_insert x l else x :: y :: l
  end.
Definition py_sorted (l : list A) : list A := foldr sort_insert [] l.

(** [min(l, key=...)]: the first of the smallest. *)
Definition py_min (l : list A) : res A :=
  match l with
  | [] => Err ValueError
  | x :: l => Ok (foldl (fun m y => if lt y m then y else m) x l)
  end.

Lemma sort_insert_perm x l : sort_insert x l ≡ₚ x :: l.
Proof. induction l as [|y l IH]; [done|]. cbn. destruct (lt y x); [|done]. rewrite IH. apply Permutation_swap. Qed.

Lemma py_sorted_perm l : py_sorted l ≡ₚ l.
Proof. induction l as [|x l IH]; [done|]. cbn. by rewrite sort_insert_perm, IH. Qed.

(** Sorted: no later element is smaller. *)
Definition in_order (l : list A) : Prop := ∀ i j x y, (i < j)%nat → l !! i = Some x → l !! j = Some y → lt y x = false.

Lemma in_order_cons x l : in_order (x :: l) ↔ (∀ y, y ∈ l → lt y x = false) ∧ in_order l.
Proof.
  split.
  - intros Ho. split.
    + intros y [j Hj]%list_elem_of_lookup. by apply (Ho 0%nat (S j) x y); [lia|..].
    + intros i j a b Hij Hi Hj. by apply (Ho (S i) (S j) a b); [lia|..].
  - intros [Hx Ho] i j a b Hij Hi Hj. destruct i as [|i], j as [|j]; [lia| |lia|].
    + injection Hi as <-. apply Hx. by eapply list_elem_of_lookup_2.
    + by apply (Ho i j a b); [lia|..].
Qed.

(** [lt] is a strict weak order. *)
Class WeakOrder : Prop := {
  wo_asym : ∀ x y, lt x y = true → lt y x = false;
  wo_trans : ∀ x y z, lt y x = false → lt z y = false → lt z x = false;
}.

Lemma sort_insert_order `{!WeakOrder} x l : in_order l → in_order (sort_insert x l).
Proof.
  induction l as [|y l IH]; intros Ho; cbn; [apply in_order_cons; split; [by intros ? ?%elem_of_nil|done]|].
  apply in_order_cons in Ho as [Hy Ho]. destruct (lt y x) eqn:Hyx; apply in_order_cons.
  - split; [|by apply IH]. intros z. rewrite sort_insert_perm, elem_of_cons. intros [->|Hz]; [by apply wo_asym|by apply Hy].
  - split; [|by apply in_order_cons]. intros z [->|Hz]%elem_of_cons; [done|]. by apply (wo_trans x y); [|apply Hy].
Qed.

Lemma py_sorted_order `{!WeakOrder} l : in_order (py_sorted l).
Proof. induction l as [|x l IH]; cbn; [by intros i j x y|]. by apply sort_insert_order. Qed.

(** Sorted by a number that the comparison respects, ties apart. *)
Lemma py_sorted_by (k : A → Z) l :
  (∀ x y, lt x y = true → k x <= k y) → (∀ x y, lt x y = false → k y <= k x) →
  ∀ i j x y, (i <= j)%nat → py_sorted l !! i = Some x → py_sorted l !! j = Some y → k x <= k y.
Proof.
  intros Ht Hf. set (ok := fun l : list A => ∀ i j x y, (i <= j)%nat → l !! i = Some x → l !! j = Some y → k x <= k y).
  assert (∀ x l, ok (x :: l) ↔ (∀ y, y ∈ l → k x <= k y) ∧ ok l) as Hcons.
  { clear. intros x l. split.
    - intros Ho. split; [intros y [j Hj]%list_elem_of_lookup; apply (Ho 0%nat (S j) x y); [lia|done..]|].
      intros i j a b Hij Hi Hj. apply (Ho (S i) (S j) a b); [lia|done..].
    - intros [Hx Ho] [|i] [|j] a b Hij Hi Hj; cbn in Hi, Hj; simplify_eq; [lia| |lia|].
      + apply Hx. by eapply list_elem_of_lookup_2.
      + apply (Ho i j a b); [lia|done..]. }
  assert (∀ x s, ok s → ok (sort_insert x s)) as Hins.
  { intros x s. induction s as [|y s IHs]; intros Ho; cbn [sort_insert].
    { apply Hcons. split; [by intros ? ?%elem_of_nil|done]. }
    apply Hcons in Ho as [Hy Hs]. destruct (lt y x) eqn:Hyx; apply Hcons; split.
    - intros z. rewrite sort_insert_perm, elem_of_cons. intros [->|Hz]; [by apply Ht|by apply Hy].
    - by apply IHs.
    - intros z [->|Hz]%elem_of_cons; [by apply Hf|]. specialize (Hf y x Hyx). specialize (Hy z Hz). lia.
    - by apply Hcons. }
  change (ok (py_sorted l)). induction l as [|x l IH]; [by intros i j x y|]. by apply Hins.
Qed.

Lemma py_min_spec `{!WeakOrder} l x : py_min l = Ok x → x ∈ l ∧ ∀ y, y ∈ l → lt y x = false.
Proof.
  destruct l as [|a l]; [done|]. intros [= <-].
  assert (∀ l m, (∀ x, lt x x = false) → let r := foldl (fun m y => if lt y m then y else m) m l in
    r ∈ m :: l ∧ (∀ y, y ∈ m :: l → lt y r = false)) as Hf.
  { clear a l. intros l m Hirr. revert m; induction l as [|b l IH]; intros m; cbn.
    - split; [left|]. intros y [->|Hy]%elem_of_cons; [done|by apply elem_of_nil in Hy].
    - destruct (IH (if lt b m then b else m)) as [Hin Hmin]. split.
      + apply elem_of_cons in Hin as [->|Hin]; [destruct (lt b m); [right; left|left]|by right; right].
      + intros y [->|[->|Hy]%elem_of_cons]%elem_of_cons.
        * apply (wo_trans _ (if lt b m then b else m)); [apply Hmin; left|]. destruct (lt b m) eqn:E; [by apply wo_asym|done].
        * apply (wo_trans _ (if lt b m then b else m)); [apply Hmin; left|]. destruct (lt b m) eqn:E; done.
        * apply Hmin. by right. }
  apply Hf. intros x. destruct (lt x x) eqn:E; [|done]. by rewrite (wo_asym x x E) in E.
Qed.

End sorting.
#[global] Arguments in_order {A} lt l.
#[global] Arguments WeakOrder {A} lt.

(** Comparison of tuples: the first components that differ decide. *)
Definition lex (eq lt rest : bool) : bool := if eq then rest else lt.

(** [eq] holds of the pairs that [lt] does not order. *)
Definition ties {A} (lt eq : A → A → bool) : Prop := ∀ x y, eq x y = true ↔ lt x y = false ∧ lt y x = false.

Lemma weak_irrefl {A} (lt : A → A → bool) `{!WeakOrder lt} x : lt x x = false.
Proof. destruct (lt x x) eqn:Hx; [|done]. by rewrite (wo_asym lt x x Hx) in Hx. Qed.

Lemma weak_lex {A} (lt eq rest : A → A → bool) :
  WeakOrder lt → ties lt eq → WeakOrder rest → WeakOrder (fun x y => lex (eq x y) (lt x y) (rest x y)).
Proof.
  intros Hlt Heq Hrest. unfold lex, ties in *.
  assert (∀ x y, eq x y = false → lt x y = false → lt y x = true) as Hne.
  { intros x y He Hxy. destruct (lt y x) eqn:Hyx; [done|]. assert (eq x y = true) by (by apply Heq). congruence. }
  assert (∀ x y, eq x y = eq y x) as Hsym by (intros x y; apply eq_true_iff_eq; rewrite !Heq; tauto).
  split.
  - intros x y. rewrite (Hsym y x). destruct (eq x y); [apply wo_asym, _|apply wo_asym, _].
  - intros x y z Hyx Hzy. destruct (eq y x) eqn:E1, (eq z y) eqn:E2.
    + assert (eq z x = true) as ->; [|by apply (wo_trans rest x y z)].
      apply Heq in E1 as [? ?], E2 as [? ?]. apply Heq. split; [by apply (wo_trans lt x y z)|by apply (wo_trans lt z y x)].
    + apply Heq in E1 as [E1 E1']. pose proof (Hne _ _ E2 Hzy) as Hlt'. destruct (eq z x) eqn:E3; [|by apply (wo_trans lt x y z)].
      apply Heq in E3 as [_ E3]. pose proof (wo_trans lt z x y E3 E1). congruence.
    + apply Heq in E2 as [E2 E2']. pose proof (Hne _ _ E1 Hyx) as Hlt'. destruct (eq z x) eqn:E3; [|by apply (wo_trans lt x y z)].
      apply Heq in E3 as [_ E3]. pose proof (wo_trans lt y z x E2 E3). congruence.
    + pose proof (Hne _ _ E1 Hyx) as H1. destruct (eq z x) eqn:E3; [|by apply (wo_trans lt x y z)].
      apply Heq in E3 as [E3 E3']. pose proof (wo_trans lt y z x Hzy E3'). congruence.
Qed.

Lemma weak_map {A B} (f : B → A) (lt : A → A → bool) : WeakOrder lt → WeakOrder (fun x y => lt (f x) (f y)).
Proof. intros H. split; intros *; [apply wo_asym, _|apply wo_trans, _]. Qed.

Lemma weak_Z : WeakOrder Z.ltb.
Proof. split; intros; rewrite ?Z.ltb_ge, ?Z.ltb_lt in *; lia. Qed.
Lemma ties_Z : ties Z.ltb Z.eqb.
Proof. intros x y. rewrite Z.eqb_eq, !Z.ltb_ge. lia. Qed.

Lemma string_ltb_spec (a b : string) : String.ltb a b = true ↔ String_as_OT.lt a b.
Proof. rewrite <- String_as_OT.cmp_lt. unfold String.ltb. change (String_as_OT.cmp a b) with (String.compare a b). by destruct (String.compare a b). Qed.
Lemma string_ltb_total (a b : string) : String.ltb a b = false → String.ltb b a = false → a = b.
Proof.
  unfold String.ltb. rewrite (String.compare_antisym b a). destruct (String.compare a b) eqn:E; try done.
  intros _ _. by apply String.compare_eq_iff.
Qed.
Lemma weak_string : WeakOrder String.ltb.
Proof.
  split.
  - intros a b Hab. destruct (String.ltb b a) eqn:Hba; [|done]. apply string_ltb_spec in Hab, Hba.
    by pose proof (String_as_OT.lt_not_eq a a (String_as_OT.lt_trans _ _ _ Hab Hba) eq_refl).
  - intros a b c Hba Hcb. destruct (String.ltb c a) eqn:Hca; [|done]. destruct (String.ltb b c) eqn:Hbc.
    + apply string_ltb_spec in Hca, Hbc. pose proof (String_as_OT.lt_trans _ _ _ Hbc Hca) as Hlt. apply string_ltb_spec in Hlt. congruence.
    + pose proof (string_ltb_total b c Hbc Hcb) as ->. congruence.
Qed.
Lemma ties_string : ties String.ltb (fun a b => bool_decide (a = b)).
Proof.
  intros a b. rewrite bool_decide_eq_true. split; [intros ->; split; apply weak_irrefl, weak_string|].
  intros [? ?]. by apply string_ltb_total.
Qed.

(** ** Comprehensions that may raise *)

Lemma mapM_lookup {A B} (f : A → res B) l l' x : mapM f l = Ok l' → x ∈ l → ∃ b, f x = Ok b.
Proof.
  revert l'; induction l as [|y l IH]; intros l'; [by intros _ ?%elem_of_nil|]. cbn. destruct (f y) as [b|] eqn:Hy; [|done]. cbn.
  destruct (mapM f l) as [bs|]; [|done]. intros _ [->|Hx]%elem_of_cons; [by eexists|by apply (IH bs)].
Qed.

Lemma mapM_fmap {A B C} (f : A → res B) (g : B → C) (h : A → C) l l' :
  (∀ a b, f a = Ok b → g b = h a) → mapM f l = Ok l' → g <$> l' = h <$> l.
Proof.
  intros Hf. revert l'; induction l as [|y l IH]; intros l'; cbn; [by intros [= <-]|]. destruct (f y) as [b|] eqn:Hy; [|done]. cbn.
  destruct (mapM f l) as [bs|]; [|done]. intros [= <-]. cbn. by rewrite (Hf _ _ Hy), (IH bs).
Qed.

Lemma mapM_length {A B} (f : A → res B) l l' : mapM f l = Ok l' → length l' = length l.
Proof.
  intros Hl. apply (mapM_fmap f (fun _ => tt) (fun _ => tt)) in Hl; [|done].
  by rewrite <- (length_fmap (fun _ => tt) l'), Hl, length_fmap.
Qed.

Lemma mapM_elem {A B} (f : A → res B) l l' b : mapM f l = Ok l' → b ∈ l' → ∃ a, a ∈ l ∧ f a = Ok b.
Proof.
  revert l'; induction l as [|y l IH]; intros l'; cbn; [by intros [= <-] ?%elem_of_nil|]. destruct (f y) as [c|] eqn:Hy; [|done]. cbn.
  destruct (mapM f l) as [bs|]; [|done]. intros [= <-] [->|Hb]%elem_of_cons; [exists y; by split; [left|]|].
  destruct (IH bs eq_refl Hb) as (a & ? & ?). exists a. by split; [right|].
Qed.
