(* ===== verification/PyFloat.v ===== *)
(** * Python floats

    Every [float] of the source is a value of a type [F] with the operations of
    [PyFloat F]; the components are written once, over any such type.  Three
    readings of [F] are provided.

    - [b64]: IEEE 754 binary64 with round-to-nearest-even, computed exactly by
      the standard library's [SpecFloat] (infinities and NaN included).  It is
      what CPython computes; concrete executions are evaluated in it.
    - [rounded rnd]: rational numbers, each operation being the exact result
      followed by a rounding [rnd].  Theorems proved for every monotone [rnd]
      ([MonoRound]) do not depend on the precision; they leave out overflow to
      an infinity and NaN.
    - [exact]: [rounded] with the identity, real-number arithmetic.

    Theorems that only follow the decisions taken by comparisons are proved for
    an arbitrary [PyFloat]. *)

From Stdlib Require Import QArith Qround Qminmax Lqa SpecFloat.
From S2P Require Import Prelude.

Class PyFloat (F : Type) := {
  fadd : F → F → F;
  fsub : F → F → F;
  fmul : F → F → F;
  (** IEEE division; Python raises on a zero divisor, see [pydiv] *)
  fdiv : F → F → F;
  (** [<], [<=] and [==] of Python *)
  fltb : F → F → bool;
  fleb : F → F → bool;
  feqb : F → F → bool;
  (** the correctly rounded quotient of two integers: literals, [float(n)] and
      [n / d] on integers *)
  fratio : Z → positive → F;
  (** [math.isfinite] *)
  ffinite : F → bool;
  (** [int(x)] *)
  ftrunc : F → res Z;
}.

(** Literals: [lit 3 4] is [0.75]; [flt 60] is [60.0]. *)
Definition lit {F} `{PyFloat F} (n : Z) (d : positive) : F := fratio n d.
Definition flt {F} `{PyFloat F} (n : Z) : F := fratio n 1.

(** Implicit conversion of an [int] operand, which raises when it is too large. *)
Definition fint {F} `{PyFloat F} (n : Z) : res F :=
  let x := fratio n 1 in if ffinite x then Ok x else Err OverflowError.

(** [n / d] on two integers. *)
Definition fdivZ {F} `{PyFloat F} (n d : Z) : res F :=
  match d with
  | Z0 => Err ZeroDivisionError
  | Zpos p => let x := fratio n p in if ffinite x then Ok x else Err OverflowError
  | Zneg p => let x := fratio (- n) p in if ffinite x then Ok x else Err OverflowError
  end.

(** [x / y] on floats. *)
Definition pydiv {F} `{PyFloat F} (x y : F) : res F :=
  if feqb y (flt 0) then Err ZeroDivisionError else Ok (fdiv x y).

(** [max(x, y)] keeps its first argument unless the second is larger. *)
Definition pymax {F} `{PyFloat F} (x y : F) : F := if fltb x y then y else x.
Definition pymin {F} `{PyFloat F} (x y : F) : F := if fltb y x then y else x.

(** [float(b)] of a boolean used as a number. *)
Definition fbool {F} `{PyFloat F} (b : bool) : F := if b then flt 1 else flt 0.

Infix "+@" := fadd (at level 50, left associativity) : py_scope.
Infix "-@" := fsub (at level 50, left associativity) : py_scope.
Infix "*@" := fmul (at level 40, left associativity) : py_scope.
Infix "/@" := fdiv (at level 40, left associativity) : py_scope.
Infix "<=@" := fleb (at level 70, no associativity) : py_scope.
Infix "<@" := fltb (at level 70, no associativity) : py_scope.
Notation "x >=@ y" := (fleb y x) (at level 70, no associativity, only parsing) : py_scope.
Notation "x >@ y" := (fltb y x) (at level 70, no associativity, only parsing) : py_scope.

(** ** binary64 *)

Notation b64 := spec_float.

Definition b64_ratio (n : Z) (d : positive) : b64 :=
  let go s m :=
    let '(q, e, l) := SFdiv_core_binary 53 1024 (Zpos m) 0 (Zpos d) 0 in
    binary_round_aux 53 1024 s q e l in
  match n with
  | Z0 => S754_zero false
  | Zpos m => go false m
  | Zneg m => go true m
  end.

Definition b64_trunc (x : b64) : res Z :=
  match x with
  | S754_zero _ => Ok 0
  | S754_infinity _ => Err OverflowError
  | S754_nan => Err ValueError
  | S754_finite s m e =>
      let a := if (0 <=? e)%Z then Z.shiftl (Zpos m) e else Z.shiftr (Zpos m) (- e) in
      Ok (if s then (- a)%Z else a)
  end.

Definition b64_finite (x : b64) : bool :=
  match x with S754_zero _ | S754_finite _ _ _ => true | _ => false end.

#[global] Instance b64_float : PyFloat b64 := {
  fadd := SFadd 53 1024;
  fsub := SFsub 53 1024;
  fmul := SFmul 53 1024;
  fdiv := SFdiv 53 1024;
  fltb := SFltb;
  fleb := SFleb;
  feqb := SFeqb;
  fratio := b64_ratio;
  ffinite := b64_finite;
  ftrunc := b64_trunc;
}.

(** [0.1 + 0.2] in binary64, with CPython's result. *)
Example b64_sum : lit 1 10 +@ lit 2 10 = S754_finite false 5404319552844596 (-54) :> b64.
Proof. vm_compute. reflexivity. Qed.

(** ** Rounded rationals *)

Definition q_trunc (x : Q) : Z := Z.quot (Qnum x) (Zpos (Qden x)).

Definition rounded (rnd : Q → Q) : PyFloat Q := {|
  fadd x y := rnd (x + y)%Q;
  fsub x y := rnd (x - y)%Q;
  fmul x y := rnd (x * y)%Q;
  fdiv x y := rnd (x / y)%Q;
  fltb x y := negb (Qle_bool y x);
  fleb := Qle_bool;
  feqb := Qeq_bool;
  fratio n d := rnd (n # d)%Q;
  ffinite _ := true;
  ftrunc x := Ok (q_trunc x);
|}.

Definition exact : PyFloat Q := rounded (fun x => x).

(** What is used of a rounding: it is monotone and keeps the integers up to
    [2^53]. *)
Class MonoRound (rnd : Q → Q) := {
  rnd_mono : ∀ x y, (x <= y)%Q → (rnd x <= rnd y)%Q;
  rnd_int : ∀ z : Z, (Z.abs z <= 2 ^ 53)%Z → (rnd (inject_Z z) == inject_Z z)%Q;
}.

#[global] Instance MonoRound_id : MonoRound (fun x => x).
Proof. split; intros; [done|reflexivity]. Qed.

Section rounded.
Context (rnd : Q → Q) `{!MonoRound rnd}.
#[local] Instance F_rounded : PyFloat Q := rounded rnd.
Implicit Types x y z c : Q.

Lemma rle_spec x y : x <=@ y = true ↔ (x <= y)%Q.
Proof. apply Qle_bool_iff. Qed.

Lemma rlt_spec x y : x <@ y = true ↔ (x < y)%Q.
Proof.
  cbn. rewrite negb_true_iff, <- not_true_iff_false, Qle_bool_iff. split.
  - apply Qnot_le_lt.
  - apply Qlt_not_le.
Qed.

Lemma rnd_0 : (rnd 0 == 0)%Q.
Proof. apply (rnd_int 0). cbn. lia. Qed.

Lemma rnd_le_int (q : Q) (z : Z) : (Z.abs z <= 2 ^ 53)%Z → (q <= inject_Z z)%Q → (rnd q <= inject_Z z)%Q.
Proof. intros Hz Hq. rewrite <- (rnd_int z Hz). by apply rnd_mono. Qed.

Lemma rnd_ge_int (q : Q) (z : Z) : (Z.abs z <= 2 ^ 53)%Z → (inject_Z z <= q)%Q → (inject_Z z <= rnd q)%Q.
Proof. intros Hz Hq. rewrite <- (rnd_int z Hz). by apply rnd_mono. Qed.

Lemma rlit_0_le n d : (0 <= n)%Z → (0 <= lit n d)%Q.
Proof.
  intros Hn. unfold lit. cbn. rewrite <- rnd_0. apply rnd_mono. unfold Qle; cbn. lia.
Qed.

Lemma rlit_int n : (Z.abs n <= 2 ^ 53)%Z → (flt n == inject_Z n)%Q.
Proof. apply rnd_int. Qed.

Lemma radd_mono x x' y y' : (x <= x')%Q → (y <= y')%Q → (x +@ y <= x' +@ y')%Q.
Proof. intros. cbn. apply rnd_mono. lra. Qed.

Lemma rsub_mono x x' y : (x <= x')%Q → (x -@ y <= x' -@ y)%Q.
Proof. intros. cbn. apply rnd_mono. lra. Qed.

Lemma rmul_mono_r c x x' : (0 <= c)%Q → (x <= x')%Q → (c *@ x <= c *@ x')%Q.
Proof. intros. cbn. apply rnd_mono. nra. Qed.

Lemma rmul_mono_l c x x' : (0 <= c)%Q → (x <= x')%Q → (x *@ c <= x' *@ c)%Q.
Proof. intros. cbn. apply rnd_mono. nra. Qed.

Lemma radd_nonneg x y : (0 <= x)%Q → (0 <= y)%Q → (0 <= x +@ y)%Q.
Proof. intros. cbn. rewrite <- rnd_0. apply rnd_mono. lra. Qed.

Lemma rmul_nonneg x y : (0 <= x)%Q → (0 <= y)%Q → (0 <= x *@ y)%Q.
Proof. intros. cbn. rewrite <- rnd_0. apply rnd_mono. nra. Qed.

Lemma rdiv_nonneg x y : (0 <= x)%Q → (0 < y)%Q → (0 <= x /@ y)%Q.
Proof.
  intros. cbn. rewrite <- rnd_0. apply rnd_mono.
  apply Qle_shift_div_l; [done|]. lra.
Qed.

Lemma pymax_cases x y :
  ((x < y)%Q ∧ pymax x y = y) ∨ ((y <= x)%Q ∧ pymax x y = x).
Proof.
  unfold pymax. destruct (x <@ y) eqn:E; [left; by rewrite rlt_spec in E|right].
  split; [|done]. apply Qnot_lt_le. rewrite <- rlt_spec. congruence.
Qed.

Lemma pymin_cases x y :
  ((y < x)%Q ∧ pymin x y = y) ∨ ((x <= y)%Q ∧ pymin x y = x).
Proof.
  unfold pymin. destruct (y <@ x) eqn:E; [left; by rewrite rlt_spec in E|right].
  split; [|done]. apply Qnot_lt_le. rewrite <- rlt_spec. congruence.
Qed.

Lemma pymax_mono x x' y y' : (x <= x')%Q → (y <= y')%Q → (pymax x y <= pymax x' y')%Q.
Proof. destruct (pymax_cases x y) as [[? ->]|[? ->]], (pymax_cases x' y') as [[? ->]|[? ->]]; lra. Qed.

Lemma pymin_mono x x' y y' : (x <= x')%Q → (y <= y')%Q → (pymin x y <= pymin x' y')%Q.
Proof. destruct (pymin_cases x y) as [[? ->]|[? ->]], (pymin_cases x' y') as [[? ->]|[? ->]]; lra. Qed.

Lemma pymax_le_l x y : (x <= pymax x y)%Q.
Proof. destruct (pymax_cases x y) as [[? ->]|[? ->]]; lra. Qed.

Lemma pymax_le_r x y : (y <= pymax x y)%Q.
Proof. destruct (pymax_cases x y) as [[? ->]|[? ->]]; lra. Qed.

Lemma pymin_ge x y z : (z <= x)%Q → (z <= y)%Q → (z <= pymin x y)%Q.
Proof. destruct (pymin_cases x y) as [[? ->]|[? ->]]; lra. Qed.

Lemma div_cross_le n d m e : (0 < d)%Z → (0 < e)%Z → (n * e <= m * d)%Z → (n / d <= m / e)%Z.
Proof.
  intros Hd He H. apply Z.div_le_lower_bound; [done|].
  apply Z.mul_le_mono_pos_l with (p := d); [done|].
  pose proof (Z.mul_div_le n d Hd). nia.
Qed.

Lemma q_trunc_mono x y : (x <= y)%Q → (q_trunc x <= q_trunc y)%Z.
Proof.
  destruct x as [n d], y as [m e]. unfold Qle, q_trunc; cbn. intros H.
  destruct (Z.le_gt_cases 0 n) as [Hn|Hn].
  - assert (0 <= m)%Z by nia. rewrite !Z.quot_div_nonneg by lia. apply div_cross_le; lia.
  - destruct (Z.le_gt_cases 0 m) as [Hm|Hm].
    + transitivity 0%Z; [|by apply Z.quot_pos; lia].
      rewrite <- (Z.opp_involutive n), Z.quot_opp_l by lia.
      pose proof (Z.quot_pos (- n) (Zpos d)). lia.
    + rewrite <- (Z.opp_involutive n), <- (Z.opp_involutive m), !(Z.quot_opp_l (- _)) by lia.
      apply Z.opp_le_mono. rewrite !Z.opp_involutive, !Z.quot_div_nonneg by lia.
      apply div_cross_le; lia.
Qed.

End rounded.

#[export] Hint Resolve radd_mono rsub_mono rmul_mono_r rmul_mono_l radd_nonneg
  rmul_nonneg rdiv_nonneg pymax_mono pymin_mono pymax_le_l pymax_le_r pymin_ge
  Qle_refl : pyfloat.
