(* ===== verification/Metrics.v ===== *)
(** * Counters

    [vllm/tokencake/metrics.py]: the fixed set of outcomes ([Metric]), the counters
    kept by the scheduler ([TokenCakeMetrics]) and their export to Prometheus
    ([TokenCakeProm]).  The Prometheus client is third-party code: a [Counter] is
    represented by the sum of its increments and a [Gauge] by the last value set,
    which is all the code relies on. *)

From S2P Require Import Prelude PyFloat.

(** ** Outcomes *)

Inductive Metric :=
  | ASSOCIATED | COMPLETED | STARTED | FINISHED | ABORTED
  | ERROR | EXPIRED | RESET | DUPLICATE | LATE_FINISH
  | UNKNOWN | CONFLICT | NOT_ELIGIBLE | EMPTY | LOW_PRESSURE
  | NO_WAITING_DEMAND | BACKOFF | UNPROFITABLE | PREFIX_GAP | CPU_CAPACITY
  | SELECTED | STALE | EXTERNAL | FENCE_WAIT | TRANSFER_FAILURE
  | SAVED | DEFERRED | PREEMPTED | PREFILL_CAPPED | PHYSICAL_PREEMPTED
  | RESERVATION_PREEMPTED | RESERVATION_DENIED | PREFILL_CAPACITY_DENIED | GENERATION_CAPACITY_DENIED | GENERATION_PROGRESS_DEFERRED
  | RECLAIM_BENEFICIARY | RESUME_DEFERRED | ADMITTED | WORK_CONSERVING_ADMITTED | CACHE_AFFINITY_ADMITTED
  | JOIN_PRIORITY_ADMITTED | PRIORITY_BORROW_ADMITTED | CRITICAL_ADMITTED | CRITICAL_WAIT_GE_60S | CRITICAL_WAIT_GE_180S
  | EXECUTED_TOKENS | RECOMPUTED_TOKENS | GPU_HIT_TOKENS | GPU_SHARED_HIT_BLOCKS | GPU_EXCLUSIVE_HIT_BLOCKS
  | CPU_HIT_TOKENS | RESUME_GPU_HIT_TOKENS | RESUME_CPU_HIT_TOKENS.

Definition all_metrics : list Metric :=
  [ASSOCIATED; COMPLETED; STARTED; FINISHED; ABORTED;
   ERROR; EXPIRED; RESET; DUPLICATE; LATE_FINISH;
   UNKNOWN; CONFLICT; NOT_ELIGIBLE; EMPTY; LOW_PRESSURE;
   NO_WAITING_DEMAND; BACKOFF; UNPROFITABLE; PREFIX_GAP; CPU_CAPACITY;
   SELECTED; STALE; EXTERNAL; FENCE_WAIT; TRANSFER_FAILURE;
   SAVED; DEFERRED; PREEMPTED; PREFILL_CAPPED; PHYSICAL_PREEMPTED;
   RESERVATION_PREEMPTED; RESERVATION_DENIED; PREFILL_CAPACITY_DENIED; GENERATION_CAPACITY_DENIED; GENERATION_PROGRESS_DEFERRED;
   RECLAIM_BENEFICIARY; RESUME_DEFERRED; ADMITTED; WORK_CONSERVING_ADMITTED; CACHE_AFFINITY_ADMITTED;
   JOIN_PRIORITY_ADMITTED; PRIORITY_BORROW_ADMITTED; CRITICAL_ADMITTED; CRITICAL_WAIT_GE_60S; CRITICAL_WAIT_GE_180S;
   EXECUTED_TOKENS; RECOMPUTED_TOKENS; GPU_HIT_TOKENS; GPU_SHARED_HIT_BLOCKS; GPU_EXCLUSIVE_HIT_BLOCKS;
   CPU_HIT_TOKENS; RESUME_GPU_HIT_TOKENS; RESUME_CPU_HIT_TOKENS].
#[global] Arguments all_metrics : simpl never.

(** [metric.value] *)
Definition metric_value (m : Metric) : string :=
  match m with
  | ASSOCIATED => "lifecycle.associated"
  | COMPLETED => "lifecycle.completed"
  | STARTED => "lifecycle.started"
  | FINISHED => "lifecycle.finished"
  | ABORTED => "lifecycle.aborted"
  | ERROR => "lifecycle.error"
  | EXPIRED => "lifecycle.expired"
  | RESET => "lifecycle.reset"
  | DUPLICATE => "lifecycle.duplicate"
  | LATE_FINISH => "lifecycle.late_finish"
  | UNKNOWN => "lifecycle.unknown"
  | CONFLICT => "lifecycle.conflict"
  | NOT_ELIGIBLE => "decision.not_eligible"
  | EMPTY => "decision.empty"
  | LOW_PRESSURE => "decision.low_pressure"
  | NO_WAITING_DEMAND => "decision.no_waiting_demand"
  | BACKOFF => "decision.backoff"
  | UNPROFITABLE => "decision.unprofitable"
  | PREFIX_GAP => "decision.prefix_gap"
  | CPU_CAPACITY => "decision.cpu_capacity"
  | SELECTED => "decision.selected"
  | STALE => "decision.stale_snapshot"
  | EXTERNAL => "decision.snapshot_external"
  | FENCE_WAIT => "decision.fence_wait"
  | TRANSFER_FAILURE => "decision.transfer_failure"
  | SAVED => "saved_blocks.completed"
  | DEFERRED => "scheduling.deferred"
  | PREEMPTED => "scheduling.preempted"
  | PREFILL_CAPPED => "scheduling.prefill_capped"
  | PHYSICAL_PREEMPTED => "scheduling.physical_preempted"
  | RESERVATION_PREEMPTED => "scheduling.reservation_preempted"
  | RESERVATION_DENIED => "scheduling.reservation_denied"
  | PREFILL_CAPACITY_DENIED => "scheduling.prefill_capacity_denied"
  | GENERATION_CAPACITY_DENIED => "scheduling.generation_capacity_denied"
  | GENERATION_PROGRESS_DEFERRED => "scheduling.generation_progress_deferred"
  | RECLAIM_BENEFICIARY => "scheduling.reclaim_beneficiary"
  | RESUME_DEFERRED => "scheduling.resume_deferred"
  | ADMITTED => "scheduling.admitted"
  | WORK_CONSERVING_ADMITTED => "scheduling.work_conserving_admitted"
  | CACHE_AFFINITY_ADMITTED => "scheduling.cache_affinity_admitted"
  | JOIN_PRIORITY_ADMITTED => "scheduling.join_priority_admitted"
  | PRIORITY_BORROW_ADMITTED => "scheduling.priority_borrow_admitted"
  | CRITICAL_ADMITTED => "scheduling.critical_admitted"
  | CRITICAL_WAIT_GE_60S => "scheduling.critical_wait_ge_60s"
  | CRITICAL_WAIT_GE_180S => "scheduling.critical_wait_ge_180s"
  | EXECUTED_TOKENS => "scheduling.executed_tokens"
  | RECOMPUTED_TOKENS => "scheduling.recomputed_tokens"
  | GPU_HIT_TOKENS => "scheduling.gpu_hit_tokens"
  | GPU_SHARED_HIT_BLOCKS => "scheduling.gpu_shared_hit_blocks"
  | GPU_EXCLUSIVE_HIT_BLOCKS => "scheduling.gpu_exclusive_hit_blocks"
  | CPU_HIT_TOKENS => "scheduling.cpu_hit_tokens"
  | RESUME_GPU_HIT_TOKENS => "scheduling.resume_gpu_hit_tokens"
  | RESUME_CPU_HIT_TOKENS => "scheduling.resume_cpu_hit_tokens"
  end.

(** The position of a metric in the enumeration. *)
Definition metric_index (m : Metric) : nat :=
  match m with
  | ASSOCIATED => 0 | COMPLETED => 1 | STARTED => 2 | FINISHED => 3 | ABORTED => 4
  | ERROR => 5 | EXPIRED => 6 | RESET => 7 | DUPLICATE => 8 | LATE_FINISH => 9
  | UNKNOWN => 10 | CONFLICT => 11 | NOT_ELIGIBLE => 12 | EMPTY => 13 | LOW_PRESSURE => 14
  | NO_WAITING_DEMAND => 15 | BACKOFF => 16 | UNPROFITABLE => 17 | PREFIX_GAP => 18 | CPU_CAPACITY => 19
  | SELECTED => 20 | STALE => 21 | EXTERNAL => 22 | FENCE_WAIT => 23 | TRANSFER_FAILURE => 24
  | SAVED => 25 | DEFERRED => 26 | PREEMPTED => 27 | PREFILL_CAPPED => 28 | PHYSICAL_PREEMPTED => 29
  | RESERVATION_PREEMPTED => 30 | RESERVATION_DENIED => 31 | PREFILL_CAPACITY_DENIED => 32 | GENERATION_CAPACITY_DENIED => 33 | GENERATION_PROGRESS_DEFERRED => 34
  | RECLAIM_BENEFICIARY => 35 | RESUME_DEFERRED => 36 | ADMITTED => 37 | WORK_CONSERVING_ADMITTED => 38 | CACHE_AFFINITY_ADMITTED => 39
  | JOIN_PRIORITY_ADMITTED => 40 | PRIORITY_BORROW_ADMITTED => 41 | CRITICAL_ADMITTED => 42 | CRITICAL_WAIT_GE_60S => 43 | CRITICAL_WAIT_GE_180S => 44
  | EXECUTED_TOKENS => 45 | RECOMPUTED_TOKENS => 46 | GPU_HIT_TOKENS => 47 | GPU_SHARED_HIT_BLOCKS => 48 | GPU_EXCLUSIVE_HIT_BLOCKS => 49
  | CPU_HIT_TOKENS => 50 | RESUME_GPU_HIT_TOKENS => 51 | RESUME_CPU_HIT_TOKENS => 52
  end.

Lemma all_metrics_index m : all_metrics !! metric_index m = Some m.
Proof. by destruct m. Qed.

#[global] Instance metric_index_inj : Inj (=) (=) metric_index.
Proof.
  intros m1 m2 Heq. pose proof (all_metrics_index m1) as H1. pose proof (all_metrics_index m2) as H2.
  rewrite Heq in H1. congruence.
Qed.

#[global] Instance Metric_eq_dec : EqDecision Metric.
Proof.
  refine (fun m1 m2 => cast_if (decide (metric_index m1 = metric_index m2))); [by apply (inj metric_index)|].
  by intros ->.
Defined.

#[global] Instance Metric_countable : Countable Metric :=
  inj_countable metric_index (fun i => all_metrics !! i) all_metrics_index.

Lemma elem_of_all_metrics m : m ∈ all_metrics.
Proof. eapply list_elem_of_lookup_2, all_metrics_index. Qed.

Lemma NoDup_all_metrics : NoDup all_metrics.
Proof. apply (bool_decide_unpack _). vm_compute. exact I. Qed.

Lemma NoDup_metric_values : NoDup (metric_value <$> all_metrics).
Proof. apply (bool_decide_unpack _). vm_compute. exact I. Qed.

(** [Metric(value)]: the member with that value. *)
Definition metric_of_value (value : string) : res Metric :=
  or_raise ValueError (snd <$> list_find (fun m => metric_value m = value) all_metrics).

(** ** TokenCakeMetrics *)

Record TokenCakeMetrics := mkTokenCakeMetrics {
  tm_counters : list (Metric * Z);
  tm_max_critical_wait_ms : Z;
  tm_max_critical_growth_wait_ms : Z;
}.
#[global] Instance TokenCakeMetrics_settable : Settable TokenCakeMetrics :=
  { rebuild t := mkTokenCakeMetrics (tm_counters t) (tm_max_critical_wait_ms t)
                   (tm_max_critical_growth_wait_ms t) }.

Definition metrics_init : TokenCakeMetrics := mkTokenCakeMetrics ((fun m => (m, 0)) <$> all_metrics) 0 0.

Definition metrics_count (metric : Metric) (amount : Z) (t : TokenCakeMetrics) : res TokenCakeMetrics :=
  passert (0 <=? amount);;
  if od_has metric (tm_counters t)
  then Ok (t <| tm_counters ::= od_alter (Z.add amount) metric |>)
  else Err KeyError.

(** [snapshot]: a fresh dictionary with the counters under their names. *)
Definition metrics_snapshot (active : Z) (t : TokenCakeMetrics) : list (string * Z) :=
  foldl (fun d kv => od_set kv.1 kv.2 d) (prod_map metric_value id <$> tm_counters t)
    [("active", active); ("max_critical_wait_ms", tm_max_critical_wait_ms t);
     ("max_critical_growth_wait_ms", tm_max_critical_growth_wait_ms t)].

Section waits.
Context {F : Type} `{PyFloat F}.

Definition growth_wait (seconds : F) (t : TokenCakeMetrics) : res TokenCakeMetrics :=
  ms ← ftrunc (seconds *@ flt 1000);
  Ok (t <| tm_max_critical_growth_wait_ms ::= fun w => Z.max w ms |>).

Definition admission_wait (seconds : F) (critical : bool) (t : TokenCakeMetrics) : res TokenCakeMetrics :=
  t ← metrics_count ADMITTED 1 t;
  if critical then
    t ← metrics_count CRITICAL_ADMITTED 1 t;
    ms ← ftrunc (seconds *@ flt 1000);
    let t := t <| tm_max_critical_wait_ms ::= fun w => Z.max w ms |> in
    t ← (if flt 60 <=@ seconds then metrics_count CRITICAL_WAIT_GE_60S 1 t else Ok t);
    if flt 180 <=@ seconds then metrics_count CRITICAL_WAIT_GE_180S 1 t else Ok t
  else Ok t.

End waits.

(** ** TokenCakeProm *)

Record TokenCakeProm {F : Type} := mkProm {
  pr_previous : gmap Z (list (string * Z));
  (** total of each counter, by engine and metric name *)
  pr_counters : gmap (Z * string) Z;
  pr_active : gmap Z Z;
  pr_wait : gmap Z F;
  pr_growth_wait : gmap Z F;
}.
Arguments TokenCakeProm F : clear implicits.

Section prom.
Context {F : Type} `{PyFloat F}.

#[global] Instance TokenCakeProm_settable : Settable (TokenCakeProm F) :=
  { rebuild p := mkProm _ (pr_previous p) (pr_counters p) (pr_active p) (pr_wait p) (pr_growth_wait p) }.

Definition prom_init (engine_indexes : list Z) : TokenCakeProm F :=
  mkProm _ (list_to_map ((fun i => (i, [])) <$> engine_indexes))
    (list_to_map (i ← engine_indexes; (fun m => ((i, metric_value m), 0)) <$> all_metrics))
    (list_to_map ((fun i => (i, 0)) <$> engine_indexes))
    (list_to_map ((fun i => (i, flt 0)) <$> engine_indexes))
    (list_to_map ((fun i => (i, flt 0)) <$> engine_indexes)).

Definition prom_inc (engine_idx : Z) (values previous : list (string * Z))
    (counters : gmap (Z * string) Z) (metric : Metric) : res (gmap (Z * string) Z) :=
  let name := metric_value metric in
  value ← or_raise KeyError (od_get name values);
  let delta := value - default 0 (od_get name previous) in
  passert (0 <=? delta);;
  old ← or_raise KeyError (counters !! (engine_idx, name));
  Ok (<[(engine_idx, name) := old + delta]> counters).

Definition prom_observe (values : list (string * Z)) (engine_idx : Z) (p : TokenCakeProm F) :
    res (TokenCakeProm F) :=
  previous ← or_raise KeyError (pr_previous p !! engine_idx);
  counters ← foldM (prom_inc engine_idx values previous) (pr_counters p) all_metrics;
  active ← or_raise KeyError (od_get "active" values);
  wait ← fdivZ (default 0 (od_get "max_critical_wait_ms" values)) 1000;
  growth ← fdivZ (default 0 (od_get "max_critical_growth_wait_ms" values)) 1000;
  Ok (p <| pr_counters := counters |>
        <| pr_active ::= <[engine_idx := active]> |>
        <| pr_wait ::= <[engine_idx := wait]> |>
        <| pr_growth_wait ::= <[engine_idx := growth]> |>
        <| pr_previous ::= <[engine_idx := values]> |>).

End prom.

#[global] Arguments metrics_snapshot : simpl never.
#[global] Arguments prom_inc : simpl never.

(** ** Well-formed counters *)

Definition counter (t : TokenCakeMetrics) (m : Metric) : Z := default 0 (od_get m (tm_counters t)).

Record metrics_wf (t : TokenCakeMetrics) : Prop := {
  tmw_keys : (tm_counters t).*1 = all_metrics;
  tmw_nonneg : ∀ m, 0 <= counter t m;
}.

Lemma metrics_wf_get t m : metrics_wf t → od_get m (tm_counters t) = Some (counter t m).
Proof.
  intros [Hk _]. unfold counter. destruct (od_get m (tm_counters t)) eqn:E; [done|].
  apply od_get_None in E. rewrite Hk in E. destruct E. apply elem_of_all_metrics.
Qed.

Lemma metrics_init_wf : metrics_wf metrics_init.
Proof.
  split; [vm_compute; reflexivity|]. intros m. unfold counter.
  destruct (od_get m _) as [v|] eqn:E; [|done]. cbn. apply od_get_In in E.
  apply list_elem_of_fmap in E as (m' & Heq & _). by simplify_eq.
Qed.

Lemma metrics_count_spec m a t :
  metrics_wf t → 0 <= a →
  ∃ t', metrics_count m a t = Ok t' ∧ metrics_wf t' ∧
    (∀ m', counter t' m' = counter t m' + if decide (m' = m) then a else 0) ∧
    tm_max_critical_wait_ms t' = tm_max_critical_wait_ms t ∧
    tm_max_critical_growth_wait_ms t' = tm_max_critical_growth_wait_ms t.
Proof.
  intros Hwf Ha. unfold metrics_count. rewrite (proj2 (Z.leb_le _ _)) by done. cbn.
  unfold od_has. rewrite metrics_wf_get by done.
  assert (∀ m', counter (t <| tm_counters ::= od_alter (Z.add a) m |>) m' =
    counter t m' + if decide (m' = m) then a else 0) as Hc.
  { intros m'. unfold counter. cbn. rewrite od_get_alter, metrics_wf_get by done.
    repeat case_decide; subst; cbn; try done; lia. }
  eexists; split_and!; try done. split.
  - cbn. rewrite od_keys_alter. by destruct Hwf.
  - intros m'. rewrite Hc. pose proof (tmw_nonneg _ Hwf m'). case_decide; lia.
Qed.

(** [t'] comes later than [t]. *)
Definition metrics_le (t t' : TokenCakeMetrics) : Prop :=
  (∀ m, counter t m <= counter t' m) ∧
  tm_max_critical_wait_ms t <= tm_max_critical_wait_ms t' ∧
  tm_max_critical_growth_wait_ms t <= tm_max_critical_growth_wait_ms t'.

#[global] Instance metrics_le_preorder : PreOrder metrics_le.
Proof.
  split.
  - intros t. split_and!; lia.
  - intros t1 t2 t3 (H1 & H2 & H3) (H4 & H5 & H6). split_and!; try lia.
    intros m. specialize (H1 m). specialize (H4 m). lia.
Qed.

Lemma metrics_count_le m a t t' :
  metrics_wf t → metrics_count m a t = Ok t' → metrics_wf t' ∧ metrics_le t t'.
Proof.
  intros Hwf Hc. assert (0 <= a) as Ha.
  { unfold metrics_count in Hc. destruct (0 <=? a) eqn:E; [by apply Z.leb_le in E|done]. }
  destruct (metrics_count_spec m a t Hwf Ha) as (t1 & Heq & Hwf' & Hcnt & Hw & Hg).
  rewrite Heq in Hc. injection Hc as <-. split; [done|]. split_and!; [|lia..].
  intros m'. rewrite Hcnt. case_decide; lia.
Qed.

(** The names that are not counters do not clash with the counters. *)
Lemma metric_value_neq m k :
  k ∈ ["active"; "max_critical_wait_ms"; "max_critical_growth_wait_ms"] → metric_value m ≠ k.
Proof. intros Hk Heq. subst k. apply (bool_decide_pack _) in Hk. by destruct m. Qed.

#[global] Instance metric_value_inj : Inj (=) (=) metric_value.
Proof.
  intros m1 m2 Heq. apply (inj metric_index).
  eapply (NoDup_lookup (metric_value <$> all_metrics)); [apply NoDup_metric_values| |];
    rewrite list_lookup_fmap, all_metrics_index; cbn; [done|by f_equal].
Qed.

Lemma od_get_fmap_value m (d : list (Metric * Z)) :
  od_get (metric_value m) (prod_map metric_value id <$> d) = od_get m d.
Proof.
  induction d as [|[m' v] d IH]; [done|]. csimpl. rewrite IH.
  destruct (decide (m' = m)) as [->|Hne]; [by rewrite decide_True|].
  rewrite decide_False; [done|]. by intros ?%(inj metric_value).
Qed.

Lemma snapshot_counter t a m :
  metrics_wf t → od_get (metric_value m) (metrics_snapshot a t) = Some (counter t m).
Proof.
  intros Hwf. unfold metrics_snapshot. cbn. rewrite !od_get_set.
  rewrite !decide_False by (apply not_eq_sym, metric_value_neq; set_solver).
  by rewrite od_get_fmap_value, metrics_wf_get.
Qed.

Lemma snapshot_fields t a :
  od_get "active" (metrics_snapshot a t) = Some a ∧
  od_get "max_critical_wait_ms" (metrics_snapshot a t) = Some (tm_max_critical_wait_ms t) ∧
  od_get "max_critical_growth_wait_ms" (metrics_snapshot a t) = Some (tm_max_critical_growth_wait_ms t).
Proof. unfold metrics_snapshot. cbn. by rewrite !od_get_set. Qed.

(** ** Export *)

Section export.
Context {F : Type} `{PyFloat F}.

(** One engine's counters and the exporter: any counting, any report of the
    engine, and any report of the other engines. *)
Inductive prom_step (i : Z) : TokenCakeMetrics * TokenCakeProm F → TokenCakeMetrics * TokenCakeProm F → Prop :=
  | step_count t p m a t' :
      metrics_count m a t = Ok t' → prom_step i (t, p) (t', p)
  | step_admission t p (seconds : F) critical t' :
      admission_wait seconds critical t = Ok t' → prom_step i (t, p) (t', p)
  | step_growth t p (seconds : F) t' :
      growth_wait seconds t = Ok t' → prom_step i (t, p) (t', p)
  | step_observe t p active p' :
      prom_observe (metrics_snapshot active t) i p = Ok p' → prom_step i (t, p) (t, p')
  | step_observe_other t p j values p' :
      j ≠ i → prom_observe values j p = Ok p' → prom_step i (t, p) (t, p').

(** Every counter of the engine stands at the value last reported, which is not
    above the current one. *)
Record prom_inv (i : Z) (t : TokenCakeMetrics) (p : TokenCakeProm F) : Prop := {
  pi_wf : metrics_wf t;
  pi_prev : ∃ previous, pr_previous p !! i = Some previous ∧
    ∀ m, pr_counters p !! (i, metric_value m) = Some (default 0 (od_get (metric_value m) previous)) ∧
         default 0 (od_get (metric_value m) previous) <= counter t m;
}.

Lemma growth_wait_le (s : F) t t' :
  metrics_wf t → growth_wait s t = Ok t' → metrics_wf t' ∧ metrics_le t t'.
Proof.
  intros Hwf Hg. unfold growth_wait in Hg. inv_res. split; [by destruct Hwf; split|].
  split_and!; cbn; try lia. intros m. unfold counter. cbn. lia.
Qed.

Lemma admission_wait_le (s : F) c t t' :
  metrics_wf t → admission_wait s c t = Ok t' → metrics_wf t' ∧ metrics_le t t'.
Proof.
  intros Hwf Hg. unfold admission_wait in Hg. apply bind_Ok in Hg as (t1 & H1 & Hg).
  apply metrics_count_le in H1 as [Hwf1 Hle1]; [|done]. destruct c; [|by inv_res].
  apply bind_Ok in Hg as (t2 & H2 & Hg). apply metrics_count_le in H2 as [Hwf2 Hle2]; [|done].
  apply bind_Ok in Hg as (ms & _ & Hg).
  set (t3 := t2 <| tm_max_critical_wait_ms ::= fun w => Z.max w ms |>) in Hg.
  assert (metrics_wf t3 ∧ metrics_le t2 t3) as [Hwf3 Hle3].
  { split; [by destruct Hwf2; split|]. split_and!; cbn; try lia. intros m. unfold counter. cbn. lia. }
  apply bind_Ok in Hg as (t4 & H4 & Hg).
  assert (metrics_wf t4 ∧ metrics_le t3 t4) as [Hwf4 Hle4].
  { destruct (flt 60 <=@ s); [by eapply metrics_count_le|]. by inv_res. }
  assert (metrics_wf t' ∧ metrics_le t4 t') as [Hwf5 Hle5].
  { destruct (flt 180 <=@ s); [by eapply metrics_count_le|]. by inv_res. }
  split; [done|]. by etrans; [exact Hle1|]; etrans; [exact Hle2|]; etrans; [exact Hle3|]; etrans.
Qed.

(** The loop over the counters adds the differences. *)
Lemma prom_inc_loop i values previous counters ms :
  NoDup ms →
  (∀ m, m ∈ ms → ∃ v, od_get (metric_value m) values = Some v ∧
     default 0 (od_get (metric_value m) previous) <= v ∧
     counters !! (i, metric_value m) = Some (default 0 (od_get (metric_value m) previous))) →
  ∃ counters', foldM (prom_inc i values previous) counters ms = Ok counters' ∧
    (∀ m, m ∈ ms → counters' !! (i, metric_value m) = od_get (metric_value m) values) ∧
    (∀ x, (∀ m, m ∈ ms → x ≠ (i, metric_value m)) → counters' !! x = counters !! x).
Proof.
  revert counters; induction ms as [|m ms IH]; intros counters Hnd Hms; cbn.
  { eexists; split_and!; [done|set_solver|done]. }
  apply NoDup_cons in Hnd as [Hn Hnd]. destruct (Hms m) as (v & Hv & Hle & Hc); [set_solver|].
  assert (prom_inc i values previous counters m = Ok (<[(i, metric_value m):=v]> counters)) as ->.
  { unfold prom_inc. rewrite Hv. cbn. rewrite (proj2 (Z.leb_le _ _)) by lia. cbn. rewrite Hc. cbn.
    do 2 f_equal. lia. }
  cbn.
  destruct (IH (<[(i, metric_value m):=v]> counters)) as (c' & Hf & Hin & Hout); [done| |].
  { intros m' Hm'. destruct (Hms m') as (v' & ? & ? & ?); [set_solver|]. exists v'. split_and!; [done..|].
    rewrite lookup_insert_ne; [done|]. intros [= Heq%(inj metric_value)]. by subst. }
  exists c'. split_and!; [done| |].
  - intros m' [->|Hm']%elem_of_cons; [|by apply Hin]. rewrite Hout, lookup_insert_eq; [done|].
    intros m2 Hm2 [= Heq%(inj metric_value)]. by subst.
  - intros x Hx. rewrite Hout by set_solver. rewrite lookup_insert_ne; [done|].
    apply not_eq_sym, Hx. set_solver.
Qed.

Lemma prom_observe_spec i t p active :
  prom_inv i t p →
  (∃ p', prom_observe (metrics_snapshot active t) i p = Ok p' ∧ prom_inv i t p' ∧
     pr_active p' !! i = Some active ∧
     ∀ m, pr_counters p' !! (i, metric_value m) = Some (counter t m)) ∨
  prom_observe (metrics_snapshot active t) i p = Err OverflowError.
Proof.
  intros [Hwf (previous & Hprev & Hc)]. unfold prom_observe. rewrite Hprev. cbn.
  destruct (prom_inc_loop i (metrics_snapshot active t) previous (pr_counters p) all_metrics)
    as (c' & -> & Hin & _); [apply NoDup_all_metrics| |].
  { intros m _. exists (counter t m). rewrite snapshot_counter by done. by destruct (Hc m). }
  destruct (snapshot_fields t active) as (-> & -> & ->). cbn.
  destruct (ffinite (fratio (tm_max_critical_wait_ms t) 1000)); [|by right]. cbn.
  destruct (ffinite (fratio (tm_max_critical_growth_wait_ms t) 1000)); [|by right]. cbn. left.
  assert (∀ m, c' !! (i, metric_value m) = Some (counter t m)) as Hc'.
  { intros m. rewrite Hin by apply elem_of_all_metrics. by apply snapshot_counter. }
  eexists; split_and!; [done| |by cbn; rewrite lookup_insert_eq|done].
  split; [done|]. exists (metrics_snapshot active t). split; [by cbn; rewrite lookup_insert_eq|].
  intros m. cbn. rewrite Hc', snapshot_counter by done. done.
Qed.

Lemma prom_observe_other i j t p values p' :
  j ≠ i → prom_inv i t p → prom_observe values j p = Ok p' → prom_inv i t p'.
Proof.
  intros Hj [Hwf (previous & Hprev & Hc)] Hobs. split; [done|]. unfold prom_observe in Hobs. inv_res.
  exists previous. cbn. rewrite lookup_insert_ne by done. split; [done|]. intros m.
  destruct (Hc m) as [<- ?]. split; [|done].
  match goal with Hf : foldM _ _ _ = Ok _ |- _ => revert Hf end.
  apply (foldM_invariant _ (fun _ c => c !! (i, metric_value m) = pr_counters p !! (i, metric_value m)));
    [done|]. intros _ m' c c' Heq _ Hinc. unfold prom_inc in Hinc. inv_res.
  rewrite lookup_insert_ne; [done|]. by intros [= ? _].
Qed.

Lemma prom_inv_le i t t' p : metrics_wf t' → metrics_le t t' → prom_inv i t p → prom_inv i t' p.
Proof.
  intros Hwf (Hle & _) [_ (previous & Hp & Hc)]. split; [done|]. exists previous. split; [done|].
  intros m. destruct (Hc m). specialize (Hle m). split; [done|lia].
Qed.

Lemma prom_init_inv i engines : i ∈ engines → prom_inv i metrics_init (prom_init engines).
Proof.
  intros Hi. split; [apply metrics_init_wf|]. exists []. split.
  - cbn. apply elem_of_list_to_map_1'.
    + intros y (j & Hj & _)%list_elem_of_fmap. by simplify_eq.
    + apply list_elem_of_fmap. by exists i.
  - intros m. split; [|apply (tmw_nonneg _ metrics_init_wf)]. cbn. apply elem_of_list_to_map_1'.
    + intros y (j & (m' & Hm' & _)%list_elem_of_fmap & _)%list_elem_of_bind. by simplify_eq.
    + apply list_elem_of_bind. exists i. split; [|done]. apply list_elem_of_fmap. exists m.
      split; [done|apply elem_of_all_metrics].
Qed.

Lemma prom_reachable_inv i engines t p :
  i ∈ engines → rtc (prom_step i) (metrics_init, prom_init engines) (t, p) → prom_inv i t p.
Proof.
  intros Hi Hr. change (prom_inv i (t, p).1 (t, p).2). revert Hr.
  apply (rtc_ind_r (fun s => prom_inv i s.1 s.2)); [by apply prom_init_inv|].
  intros s s' _ Hst Hinv. inversion Hst as [? ? m a ? Hs|? ? sec c ? Hs|? ? sec ? Hs|? ? act ? Hs|? ? j v ? Hj Hs];
    subst; cbn in *.
  - apply metrics_count_le in Hs as [? ?]; [by eapply prom_inv_le|apply Hinv].
  - apply admission_wait_le in Hs as [? ?]; [by eapply prom_inv_le|apply Hinv].
  - apply growth_wait_le in Hs as [? ?]; [by eapply prom_inv_le|apply Hinv].
  - destruct (prom_observe_spec _ _ _ act Hinv) as [(p1 & Heq & ? & _)|Heq]; rewrite Heq in Hs; [|done].
    by injection Hs as <-.
  - by eapply prom_observe_other.
Qed.

(** The exported counters never run backwards: from the start, whatever the
    engine counts and whatever the other engines report, a report of the engine
    does not fail its assertion, and it brings every exported counter to the
    engine's current count.  The only way it can raise is a waiting time too
    large for a float. *)
Theorem prom_tracks_counters i engines t p active :
  i ∈ engines → rtc (prom_step i) (metrics_init, prom_init engines) (t, p) →
  (∃ p', prom_observe (metrics_snapshot active t) i p = Ok p' ∧
     pr_active p' !! i = Some active ∧
     ∀ m, pr_counters p' !! (i, metric_value m) = Some (counter t m)) ∨
  prom_observe (metrics_snapshot active t) i p = Err OverflowError.
Proof.
  intros Hi Hr. destruct (prom_observe_spec i t p active (prom_reachable_inv i engines t p Hi Hr))
    as [(p' & ? & _ & ? & ?)|?]; [left; by exists p'|by right].
Qed.

End export.

Definition ex_metrics : TokenCakeMetrics :=
  default_ok metrics_init (metrics_count SAVED 7 metrics_init).

Lemma prom_tracks_counters_witness :
  ∃ p', prom_observe (metrics_snapshot 2 ex_metrics) 0 (prom_init [0; 1] : TokenCakeProm b64) = Ok p' ∧
    pr_counters p' !! (0, "saved_blocks.completed") = Some 7.
Proof.
  destruct (prom_tracks_counters (F := b64) 0 [0; 1] ex_metrics (prom_init [0; 1]) 2)
    as [(p' & Hp & _ & Hc)|Herr].
  - left.
  - eapply rtc_once, step_count with (m := SAVED) (a := 7). vm_compute. reflexivity.
  - exists p'. split; [exact Hp|]. exact (Hc SAVED).
  - assert (is_ok (prom_observe (metrics_snapshot 2 ex_metrics) 0
      (prom_init [0; 1] : TokenCakeProm b64)) = true) as Hok by (vm_compute; reflexivity).
    rewrite Herr in Hok. discriminate Hok.
Defined.
