(* ===== verification/Protocol.v ===== *)
(** * Settings, request metadata and events

    [vllm/tokencake/config.py], [protocol.py] and [events.py]: the validated
    settings, the metadata attached to a request and the lifecycle events.

    Pydantic is third-party code.  What it does with one JSON value for a strict
    scalar field is the parameter [StrictReaders], with the behaviour the code
    relies on as the laws [StrictReadersSpec]; [json_readers] is an instance.
    The fields, defaults, bounds and model validators are those of the source. *)

From Stdlib Require Import Ascii.
From S2P Require Import Prelude PyFloat.

(** ** JSON *)

Inductive json {F : Type} :=
  | JNull
  | JBool (b : bool)
  | JInt (z : Z)
  | JFloat (x : F)
  | JStr (s : string)
  | JList (l : list json)
  | JDict (d : list (string * json)).
Arguments json F : clear implicits.

Notation jdict F := (list (string * json F)).

(** Strict scalar fields with [allow_inf_nan=False]. *)
Class StrictReaders (F : Type) := {
  read_str : json F → res string;
  read_int : json F → res Z;
  read_float : json F → res F;
  read_bool : json F → res bool;
}.

Class StrictReadersSpec (F : Type) `{PyFloat F} `{StrictReaders F} := {
  read_str_ok : ∀ s, read_str (JStr s) = Ok s;
  read_int_ok : ∀ z, read_int (JInt z) = Ok z;
  read_bool_ok : ∀ b, read_bool (JBool b) = Ok b;
  read_float_ok : ∀ x, ffinite x = true → read_float (JFloat x) = Ok x;
  read_float_finite : ∀ j x, read_float j = Ok x → ffinite x = true;
  read_errors : ∀ j e, read_str j = Err e ∨ read_int j = Err e ∨ read_bool j = Err e ∨
    read_float j = Err e → e = ValueError;
}.

(** A field of a model: the default when the key is absent (defaults are not
    validated), the checked value otherwise. *)
Definition field {F A} (read : json F → res A) (check : A → bool) (dflt : A) (name : string)
    (d : jdict F) : res A :=
  match od_get name d with
  | None => Ok dflt
  | Some j => x ← read j; if check x then Ok x else Err ValueError
  end.

Definition unchecked {A} (_ : A) : bool := true.

Section models.
Context {F : Type} `{PyFloat F} `{StrictReaders F}.

Definition ge_0 (x : F) : bool := flt 0 <=@ x.
Definition gt_0 (x : F) : bool := flt 0 <@ x.
Definition ratio (x : F) : bool := (flt 0 <=@ x) && (x <=@ flt 1).
Definition positive_ratio (x : F) : bool := (flt 0 <@ x) && (x <=@ flt 1).
Definition int_ge (n : Z) (z : Z) : bool := n <=? z.

(** [extra="forbid"] *)
Definition forbid_extra (known : list string) (d : jdict F) : res unit :=
  if forallb (fun k => bool_decide (k ∈ known)) d.*1 then Ok tt else Err ValueError.

(** [Literal[...]] *)
Definition read_literal (allowed : list string) (j : json F) : res string :=
  match j with
  | JStr s => if bool_decide (s ∈ allowed) then Ok s else Err ValueError
  | _ => Err ValueError
  end.

(** A nested section; [default_factory] when absent. *)
Definition section {A} (validate : jdict F → res A) (name : string) (d : jdict F) : res A :=
  match od_get name d with
  | None => validate []
  | Some (JDict s) => validate s
  | Some _ => Err ValueError
  end.

(** ** [config.py] *)

Inductive ReserveMode := ReserveAll | ReserveProgress | ReserveReclaim.
#[global] Instance ReserveMode_eq_dec : EqDecision ReserveMode.
Proof. solve_decision. Defined.

Inductive TemporalSelection := FirstFit | BestFit | PriorityFirst.
#[global] Instance TemporalSelection_eq_dec : EqDecision TemporalSelection.
Proof. solve_decision. Defined.

Definition read_reserve_mode (j : json F) : res ReserveMode :=
  s ← read_literal ["all"; "progress"; "reclaim"] j;
  Ok (if bool_decide (s = "all") then ReserveAll
      else if bool_decide (s = "progress") then ReserveProgress else ReserveReclaim).

Definition read_temporal (j : json F) : res TemporalSelection :=
  s ← read_literal ["first_fit"; "best_fit"; "priority_first"] j;
  Ok (if bool_decide (s = "first_fit") then FirstFit
      else if bool_decide (s = "best_fit") then BestFit else PriorityFirst).

Record SchedulingConfig := mkSchedulingConfig {
  sc_enabled : bool;
  sc_reserve_generation_tokens : bool;
  sc_generation_reserve_mode : ReserveMode;
  sc_decode_prefill_token_budget : Z;
  sc_cache_affinity_score_band : Z;
  sc_inherit_join_priority : bool;
  sc_priority_borrow_score_margin : Z;
  sc_temporal_selection : TemporalSelection;
  sc_critical_ratio : F;
  sc_reserve_ratio_min : F;
  sc_reserve_ratio_max : F;
  sc_gpu_usage_low : F;
  sc_gpu_usage_high : F;
  sc_reserve_adjustment_step : F;
}.

Definition scheduling_fields : list string :=
  ["enabled"; "reserve_generation_tokens"; "generation_reserve_mode"; "decode_prefill_token_budget";
   "cache_affinity_score_band"; "inherit_join_priority"; "priority_borrow_score_margin";
   "temporal_selection"; "critical_ratio"; "reserve_ratio_min"; "reserve_ratio_max";
   "gpu_usage_low"; "gpu_usage_high"; "reserve_adjustment_step"].

Definition validate_scheduling (d : jdict F) : res SchedulingConfig :=
  forbid_extra scheduling_fields d;;
  enabled ← field read_bool unchecked true "enabled" d;
  reserve ← field read_bool unchecked true "reserve_generation_tokens" d;
  mode ← field read_reserve_mode unchecked ReserveAll "generation_reserve_mode" d;
  budget ← field read_int (int_ge 0) 0 "decode_prefill_token_budget" d;
  band ← field read_int (int_ge 0) 500 "cache_affinity_score_band" d;
  inherit ← field read_bool unchecked true "inherit_join_priority" d;
  margin ← field read_int (int_ge 0) 500 "priority_borrow_score_margin" d;
  temporal ← field read_temporal unchecked FirstFit "temporal_selection" d;
  critical ← field read_float positive_ratio (lit 3 4) "critical_ratio" d;
  rmin ← field read_float ratio (lit 5 100) "reserve_ratio_min" d;
  rmax ← field read_float ratio (lit 30 100) "reserve_ratio_max" d;
  low ← field read_float ratio (lit 40 100) "gpu_usage_low" d;
  high ← field read_float ratio (lit 75 100) "gpu_usage_high" d;
  step ← field read_float positive_ratio (lit 5 100) "reserve_adjustment_step" d;
  (** [validate_bounds] *)
  if rmin >@ rmax then Err ValueError
  else if low >=@ high then Err ValueError
  else Ok (mkSchedulingConfig enabled reserve mode budget band inherit margin temporal critical
             rmin rmax low high step).

Record TransferConfig := mkTransferConfig {
  tc_d2h_bandwidth_gbps : F;
  tc_h2d_bandwidth_gbps : F;
  tc_d2h_base_time_s : F;
  tc_h2d_base_time_s : F;
  tc_submission_time_per_run_s : F;
}.

Definition validate_transfer (d : jdict F) : res TransferConfig :=
  forbid_extra ["d2h_bandwidth_gbps"; "h2d_bandwidth_gbps"; "d2h_base_time_s"; "h2d_base_time_s";
                "submission_time_per_run_s"] d;;
  d2h ← field read_float gt_0 (flt 12) "d2h_bandwidth_gbps" d;
  h2d ← field read_float gt_0 (flt 12) "h2d_bandwidth_gbps" d;
  d2hb ← field read_float ge_0 (flt 0) "d2h_base_time_s" d;
  h2db ← field read_float ge_0 (flt 0) "h2d_base_time_s" d;
  sub ← field read_float ge_0 (lit 3 1000000) "submission_time_per_run_s" d;
  Ok (mkTransferConfig d2h h2d d2hb h2db sub).

Record OffloadConfig := mkOffloadConfig {
  oc_enabled : bool;
  oc_min_gpu_usage : F;
  oc_high_pressure_gpu_usage : F;
  oc_score_threshold : F;
  oc_backoff_steps : Z;
  oc_eviction_window_blocks : Z;
  oc_max_relief_blocks : Z;
  oc_default_stall_s : F;
  oc_release_lead_s : F;
  oc_ewma_alpha : F;
  oc_transfer : TransferConfig;
}.

Definition offload_fields : list string :=
  ["enabled"; "min_gpu_usage"; "high_pressure_gpu_usage"; "score_threshold"; "backoff_steps";
   "eviction_window_blocks"; "max_relief_blocks"; "default_stall_s"; "release_lead_s";
   "ewma_alpha"; "transfer"].

Definition validate_offload (d : jdict F) : res OffloadConfig :=
  forbid_extra offload_fields d;;
  enabled ← field read_bool unchecked true "enabled" d;
  usage ← field read_float ratio (lit 60 100) "min_gpu_usage" d;
  high ← field read_float ratio (lit 85 100) "high_pressure_gpu_usage" d;
  threshold ← field read_float ge_0 (flt 1) "score_threshold" d;
  backoff ← field read_int (int_ge 0) 8 "backoff_steps" d;
  window ← field read_int (int_ge 1) 128 "eviction_window_blocks" d;
  relief ← field read_int (int_ge 0) 0 "max_relief_blocks" d;
  stall ← field read_float gt_0 (flt 1) "default_stall_s" d;
  lead ← field read_float ge_0 (lit 10 100) "release_lead_s" d;
  alpha ← field read_float positive_ratio (lit 1 2) "ewma_alpha" d;
  transfer ← section validate_transfer "transfer" d;
  (** [validate_bounds] *)
  if usage >=@ high then Err ValueError
  else Ok (mkOffloadConfig enabled usage high threshold backoff window relief stall lead alpha transfer).

Record TokenCakeConfig := mkTokenCakeConfig {
  cfg_scheduling : SchedulingConfig;
  cfg_offload : OffloadConfig;
}.

Definition cfg_temporal_selection (c : TokenCakeConfig) : TemporalSelection :=
  if sc_enabled (cfg_scheduling c) then sc_temporal_selection (cfg_scheduling c) else FirstFit.

Definition validate_config (d : jdict F) : res TokenCakeConfig :=
  forbid_extra ["scheduling"; "offload"] d;;
  s ← section validate_scheduling "scheduling" d;
  o ← section validate_offload "offload" d;
  Ok (mkTokenCakeConfig s o).

(** A disabled section must not supply other fields. *)
Definition disabled_with_fields (value : jdict F) (name : string) : bool :=
  match od_get name value with
  | Some (JDict s) =>
      match od_get "enabled" s with
      | Some (JBool false) => existsb (fun k => bool_decide (k ≠ "enabled")) s.*1
      | _ => false
      end
  | _ => false
  end.

Definition parse_tokencake_config (additional_config : json F) : res (option TokenCakeConfig) :=
  match additional_config with
  | JDict d =>
      match od_get "tokencake" d with
      | None => Ok None
      | Some (JDict value) =>
          if existsb (disabled_with_fields value) ["scheduling"; "offload"] then Err ValueError
          else Some <$> validate_config value
      | Some _ => Err ValueError
      end
  | _ => Ok None
  end.

(** The parts of the engine configuration that [validate_prerequisites] reads. *)
Record EngineSettings := mkEngineSettings {
  es_data_parallel_size : Z;
  es_kv_offloading_size : option F;
  es_kv_offloading_backend : string;
  es_use_simple_kv_offload : bool;
  es_kv_transfer_config : option (option string * option string * list (string * string));
}.

Definition validate_prerequisites (e : EngineSettings) (settings : TokenCakeConfig) : res unit :=
  if negb (sc_enabled (cfg_scheduling settings) || oc_enabled (cfg_offload settings)) then Ok tt
  else if 1 <? es_data_parallel_size e then Err ValueError
  else if negb (oc_enabled (cfg_offload settings)) then Ok tt
  else
    let capacity_ok := match es_kv_offloading_size e with
                       | None => false
                       | Some c => ffinite c && negb (c <=@ flt 0)
                       end in
    if negb capacity_ok then Err ValueError
    else if bool_decide (es_kv_offloading_backend e ≠ "native") then Err ValueError
    else if es_use_simple_kv_offload e then Err ValueError
    else
      match es_kv_transfer_config e with
      | None => Ok tt
      | Some (connector, module_path, extra) =>
          if bool_decide (connector ∉ [None; Some "OffloadingConnector"; Some "TokenCakeConnector"])
          then Err ValueError
          else if bool_decide (module_path ≠ None) then Err ValueError
          else if bool_decide (default "CPUOffloadingSpec" (od_get "spec_name" extra) ≠ "CPUOffloadingSpec")
          then Err ValueError
          else Ok tt
      end.

End models.

Arguments SchedulingConfig F : clear implicits.
Arguments TransferConfig F : clear implicits.
Arguments OffloadConfig F : clear implicits.
Arguments TokenCakeConfig F : clear implicits.
Arguments EngineSettings F : clear implicits.

(** ** Lifecycle identifiers *)

(** *** [int(s, 16)] and [uuid.UUID] of the Python standard library *)

Notation chars := (list ascii).

Definition code (c : ascii) : Z := Z.of_N (N_of_ascii c).

(** The value of a hexadecimal digit, both cases. *)
Definition hex_value (c : ascii) : option Z :=
  let n := code c in
  if (48 <=? n) && (n <=? 57) then Some (n - 48)
  else if (97 <=? n) && (n <=? 102) then Some (n - 87)
  else if (65 <=? n) && (n <=? 70) then Some (n - 55)
  else None.

Definition is_space (c : ascii) : bool :=
  let n := code c in ((9 <=? n) && (n <=? 13)) || ((28 <=? n) && (n <=? 32)).

Fixpoint lstrip (p : ascii → bool) (s : chars) : chars :=
  match s with c :: s' => if p c then lstrip p s' else s | [] => [] end.
Definition strip (p : ascii → bool) (s : chars) : chars := reverse (lstrip p (reverse (lstrip p s))).

(** Digits with single underscores between them; [first] until a digit was read. *)
Fixpoint hex_digits (s : chars) (acc : Z) (under : bool) : option Z :=
  match s with
  | [] => if under then None else Some acc
  | c :: s =>
      if bool_decide (c = "_"%char) then (if under then None else hex_digits s acc true)
      else v ← hex_value c; hex_digits s (acc * 16 + v) false
  end.

Definition hex_number (s : chars) : option Z :=
  match s with
  | [] => None
  | c :: s' => if bool_decide (c = "_"%char) then None else hex_digits s 0 false
  end.

(** An optional [0x] prefix, after which one underscore is allowed. *)
Definition hex_prefixed (s : chars) : option Z :=
  match s with
  | "0"%char :: x :: s' =>
      if bool_decide (x = "x"%char ∨ x = "X"%char) then
        match s' with
        | "_"%char :: s'' => hex_number s''
        | _ => hex_number s'
        end
      else hex_number s
  | _ => hex_number s
  end.

(** [int(s, 16)] on ASCII text. *)
Definition int16 (s : chars) : option Z :=
  match strip is_space s with
  | "-"%char :: s => Z.opp <$> hex_prefixed s
  | "+"%char :: s => hex_prefixed s
  | s => hex_prefixed s
  end.

(** [s.replace(old, "")], with [old] given by its first character and the rest. *)
Fixpoint delete_all (fuel : nat) (o : ascii) (old : chars) (s : chars) : chars :=
  match fuel, s with
  | S fuel, c :: s' =>
      if bool_decide (take (S (length old)) s = o :: old)
      then delete_all fuel o old (drop (S (length old)) s)
      else c :: delete_all fuel o old s'
  | _, _ => []
  end.
Definition replace_all (old : string) (s : chars) : chars :=
  match String.list_ascii_of_string old with
  | [] => s
  | o :: old => delete_all (length s) o old s
  end.

(** [UUID(hex=s)]: its integer, or [ValueError]. *)
Definition uuid_of_hex (s : chars) : res Z :=
  let hex := replace_all "uuid:" (replace_all "urn:" s) in
  let hex := replace_all "-" (strip (fun c => bool_decide (c = "{"%char ∨ c = "}"%char)) hex) in
  if negb (length hex =? 32)%nat then Err ValueError
  else
    n ← or_raise ValueError (int16 hex);
    if (0 <=? n) && (n <? 2 ^ 128) then Ok n else Err ValueError.

(** [UUID.version]: only defined for the RFC 4122 variant. *)
Definition uuid_version (n : Z) : option Z :=
  if Z.testbit n 63 && negb (Z.testbit n 62) then Some (Z.land (Z.shiftr n 76) 15) else None.

Definition hex_digit (v : Z) : ascii :=
  ascii_of_N (Z.to_N (if v <? 10 then v + 48 else v + 87)).

(** [UUID.hex]: [%032x]. *)
Definition uuid_hex (n : Z) : chars :=
  (fun i => hex_digit (n / 16 ^ (31 - Z.of_nat i) mod 16)) <$> seq 0 32.

Definition validate_lifecycle_id (value : string) : res string :=
  let s := String.list_ascii_of_string value in
  if negb (length s =? 35)%nat || negb (bool_decide (take 3 s = String.list_ascii_of_string "tc-"))
  then Err ValueError
  else
    identifier ← uuid_of_hex (drop 3 s);
    if bool_decide (uuid_version identifier ≠ Some 4) || bool_decide (uuid_hex identifier ≠ drop 3 s)
    then Err ValueError
    else Ok value.

Example lifecycle_id_ok :
  is_ok (validate_lifecycle_id "tc-0123456789ab4def89abcdef01234567") = true ∧
  is_ok (validate_lifecycle_id "tc-0123456789AB4def89abcdef01234567") = false ∧
  is_ok (validate_lifecycle_id "tc-0123456789ab5def89abcdef01234567") = false.
Proof. vm_compute. auto. Qed.

(** ** [protocol.py] *)

Record TokenCakeMetadata {F : Type} := mkMetadata {
  md_lifecycle_id : string;
  md_agent_type : string;
  md_agent_name : string;
  md_importance : F;
  md_depth : Z;
  md_in_degree : Z;
  md_out_degree : Z;
  md_similarity : F;
  md_application_started_at_s : F;
  md_application_start_offset_s : F;
  md_application_elapsed_s : F;
  md_application_max_depth : Z;
  md_remaining_depth : Z;
  md_critical_path : bool;
  md_near_completion : bool;
  md_join_group : string;
  md_dependency_depth : Z;
  md_fanout_width : Z;
  md_memory_weight : F;
  md_offload_eligible : bool;
  md_reusable_prefix : bool;
  (** the names that were given, and the values of the unknown ones *)
  md_fields_set : gset string;
  md_extra : list (string * json F);
}.
Arguments TokenCakeMetadata F : clear implicits.

Section metadata.
Context {F : Type} `{PyFloat F} `{StrictReaders F}.

Definition read_lifecycle_id (j : json F) : res string := s ← read_str j; validate_lifecycle_id s.

(** The declared fields with their values, in order. *)
Definition metadata_fields (m : TokenCakeMetadata F) : jdict F :=
  [("lifecycle_id", JStr (md_lifecycle_id m)); ("agent_type", JStr (md_agent_type m));
   ("agent_name", JStr (md_agent_name m)); ("importance", JFloat (md_importance m));
   ("depth", JInt (md_depth m)); ("in_degree", JInt (md_in_degree m));
   ("out_degree", JInt (md_out_degree m)); ("similarity", JFloat (md_similarity m));
   ("application_started_at_s", JFloat (md_application_started_at_s m));
   ("application_start_offset_s", JFloat (md_application_start_offset_s m));
   ("application_elapsed_s", JFloat (md_application_elapsed_s m));
   ("application_max_depth", JInt (md_application_max_depth m));
   ("remaining_depth", JInt (md_remaining_depth m)); ("critical_path", JBool (md_critical_path m));
   ("near_completion", JBool (md_near_completion m)); ("join_group", JStr (md_join_group m));
   ("dependency_depth", JInt (md_dependency_depth m)); ("fanout_width", JInt (md_fanout_width m));
   ("memory_weight", JFloat (md_memory_weight m)); ("offload_eligible", JBool (md_offload_eligible m));
   ("reusable_prefix", JBool (md_reusable_prefix m))].

Definition metadata_names : list string :=
  ["lifecycle_id"; "agent_type"; "agent_name"; "importance"; "depth"; "in_degree"; "out_degree";
   "similarity"; "application_started_at_s"; "application_start_offset_s"; "application_elapsed_s";
   "application_max_depth"; "remaining_depth"; "critical_path"; "near_completion"; "join_group";
   "dependency_depth"; "fanout_width"; "memory_weight"; "offload_eligible"; "reusable_prefix"].

Definition validate_depths (m : TokenCakeMetadata F) : res unit :=
  if bool_decide ("application_max_depth" ∈ md_fields_set m) then
    if md_application_max_depth m <? md_depth m then Err ValueError
    else if md_application_max_depth m <? md_remaining_depth m then Err ValueError
    else Ok tt
  else Ok tt.

Definition metadata_validate (d : jdict F) : res (TokenCakeMetadata F) :=
  id ← (j ← or_raise ValueError (od_get "lifecycle_id" d); read_lifecycle_id j);
  agent_type ← field read_str unchecked EmptyString "agent_type" d;
  agent_name ← field read_str unchecked EmptyString "agent_name" d;
  importance ← field read_float ge_0 (flt 0) "importance" d;
  depth ← field read_int (int_ge 0) 0 "depth" d;
  in_degree ← field read_int (int_ge 0) 0 "in_degree" d;
  out_degree ← field read_int (int_ge 0) 0 "out_degree" d;
  similarity ← field read_float ratio (flt 0) "similarity" d;
  started ← field read_float ge_0 (flt 0) "application_started_at_s" d;
  offset ← field read_float ge_0 (flt 0) "application_start_offset_s" d;
  elapsed ← field read_float ge_0 (flt 0) "application_elapsed_s" d;
  max_depth ← field read_int (int_ge 0) 0 "application_max_depth" d;
  remaining ← field read_int (int_ge 0) 0 "remaining_depth" d;
  critical ← field read_bool unchecked false "critical_path" d;
  near ← field read_bool unchecked false "near_completion" d;
  join ← field read_str unchecked EmptyString "join_group" d;
  dependency ← field read_int (int_ge 0) 0 "dependency_depth" d;
  fanout ← field read_int (int_ge 1) 1 "fanout_width" d;
  weight ← field read_float ge_0 (flt 1) "memory_weight" d;
  eligible ← field read_bool unchecked false "offload_eligible" d;
  reusable ← field read_bool unchecked false "reusable_prefix" d;
  let m := mkMetadata _ id agent_type agent_name importance depth in_degree out_degree similarity started
    offset elapsed max_depth remaining critical near join dependency fanout weight eligible reusable
    (list_to_set d.*1) (filter (fun kv => kv.1 ∉ metadata_names) d) in
  validate_depths m;;
  Ok m.

(** [model_dump(exclude_unset=True)] *)
Definition metadata_dump (m : TokenCakeMetadata F) : jdict F :=
  filter (fun kv => kv.1 ∈ md_fields_set m) (metadata_fields m) ++ md_extra m.

Definition metadata_from_extra_args (extra_args : option (jdict F)) : res (option (TokenCakeMetadata F)) :=
  match extra_args with
  | None => Ok None
  | Some args =>
      match od_get "tokencake" args with
      | None => Ok None
      | Some (JDict value) => Some <$> metadata_validate value
      | Some _ => Err ValueError
      end
  end.

(** The updated [extra_args]: the dictionary is mutated in place. *)
Definition validate_request_metadata (extra_args : option (jdict F)) (request_id : string)
    (n : option Z) (use_beam_search : bool) : res (option (jdict F)) :=
  metadata ← metadata_from_extra_args extra_args;
  match metadata with
  | None => Ok extra_args
  | Some metadata =>
      if bool_decide (md_lifecycle_id metadata ≠ request_id) then Err ValueError
      else if bool_decide (n ∉ [None; Some 1]) || use_beam_search then Err ValueError
      else
        args ← or_raise AssertionError extra_args;
        Ok (Some (od_set "tokencake" (JDict (metadata_dump metadata)) args))
  end.

Definition validate_generation_count (extra_args : option (jdict F)) (count : Z) (builtin_tools : bool) :
    res unit :=
  match extra_args with
  | Some args =>
      if od_has "tokencake" args && (negb (count =? 1) || builtin_tools) then Err ValueError else Ok tt
  | None => Ok tt
  end.

(** ** [events.py] *)

Inductive EventName := StallStartedEvent | StallFinishedEvent.
Inductive Disposition := Applied | Duplicate | LateFinish | Unknown | Conflict | Unavailable.

Record LifecycleEvent := mkLifecycleEvent {
  ev_event : EventName;
  ev_lifecycle_id : string;
  ev_kind : string;
  ev_estimated_duration_s : option F;
}.

Record LifecycleEventResult := mkLifecycleEventResult {
  er_lifecycle_id : string;
  er_event : EventName;
  er_state : string;
  er_disposition : Disposition;
  er_status_code : Z;
}.

(** The body of [POST /v1/tokencake/events]: [StallStarted] or [StallFinished],
    discriminated by [event]; then the message built by the router. *)
Definition validate_event (d : jdict F) : res LifecycleEvent :=
  j ← or_raise ValueError (od_get "event" d);
  name ← read_literal ["stall_started"; "stall_finished"] j;
  id ← (j ← or_raise ValueError (od_get "lifecycle_id" d); read_lifecycle_id j);
  if bool_decide (name = "stall_started") then
    forbid_extra ["event"; "lifecycle_id"; "kind"; "estimated_duration_s"] d;;
    kind ← field read_str (fun s => negb (bool_decide (s = EmptyString))) "stall" "kind" d;
    (** a null estimate is rejected *)
    estimate ← field (fun j => x ← read_float j; if gt_0 x then Ok (Some x) else Err ValueError)
                 unchecked None "estimated_duration_s" d;
    Ok (mkLifecycleEvent StallStartedEvent id kind estimate)
  else
    forbid_extra ["event"; "lifecycle_id"] d;;
    Ok (mkLifecycleEvent StallFinishedEvent id "stall" None).

End metadata.

Arguments LifecycleEvent F : clear implicits.
#[global] Instance EventName_eq_dec : EqDecision EventName.
Proof. solve_decision. Defined.
#[global] Instance Disposition_eq_dec : EqDecision Disposition.
Proof. solve_decision. Defined.

(** ** Lifecycle identifiers are canonical *)

Definition hex_ok (d : Z) : Prop := 0 <= d < 16.

Lemma hex_forall (p : Z → bool) d : forallb p (seqZ 0 16) = true → hex_ok d → p d = true.
Proof.
  rewrite forallb_forall. intros Hp Hd. apply Hp, list_elem_of_In, elem_of_seqZ. unfold hex_ok in Hd. lia.
Qed.

Lemma hex_value_digit d : hex_ok d → hex_value (hex_digit d) = Some d.
Proof.
  intros Hd.
  pose proof (hex_forall (fun d => bool_decide (hex_value (hex_digit d) = Some d)) d eq_refl Hd) as Hb.
  by apply bool_decide_eq_true in Hb.
Qed.

Lemma lstrip_id p (s : chars) : (∀ c, c ∈ s → p c = false) → lstrip p s = s.
Proof. destruct s as [|c s]; intros Hs; cbn; [done|]. by rewrite Hs by left. Qed.

Lemma strip_id p (s : chars) : (∀ c, c ∈ s → p c = false) → strip p s = s.
Proof.
  intros Hs. unfold strip. rewrite (lstrip_id p s Hs), lstrip_id, reverse_involutive; [done|].
  intros c Hc. apply Hs. by rewrite elem_of_reverse in Hc.
Qed.

Lemma delete_all_id fuel o old (s : chars) :
  o ∉ s → (length s ≤ fuel)%nat → delete_all fuel o old s = s.
Proof.
  revert s; induction fuel as [|fuel IH]; intros [|c s] Hs Hf; cbn in *; try done; [lia|].
  apply not_elem_of_cons in Hs as [Hc Hs]. rewrite bool_decide_eq_false_2; [|by intros [= -> _]].
  f_equal. apply IH; [done|lia].
Qed.

(** The number written by a list of hexadecimal digits. *)
Definition digits_val (ds : list Z) : Z := foldl (fun acc d => acc * 16 + d) 0 ds.

Lemma digits_val_snoc ds d : digits_val (ds ++ [d]) = digits_val ds * 16 + d.
Proof. unfold digits_val. by rewrite foldl_app. Qed.

Lemma digits_val_bound ds : Forall hex_ok ds → 0 <= digits_val ds < 16 ^ lenZ ds.
Proof.
  induction ds as [|d ds IH] using rev_ind; [cbn; lia|]. intros [Hds Hd]%Forall_app.
  rewrite Forall_singleton in Hd. unfold hex_ok in Hd. specialize (IH Hds).
  rewrite digits_val_snoc, length_app. cbn [length]. rewrite Nat2Z.inj_add, Z.pow_add_r by lia.
  change (Z.of_nat 1) with 1. rewrite Z.pow_1_r. lia.
Qed.

Lemma digits_val_digit ds i d :
  Forall hex_ok ds → ds !! i = Some d → digits_val ds / 16 ^ (lenZ ds - 1 - Z.of_nat i) mod 16 = d.
Proof.
  revert i; induction ds as [|d' ds IH] using rev_ind; intros i; [done|].
  intros [Hds Hd]%Forall_app Hi. rewrite Forall_singleton in Hd. unfold hex_ok in Hd.
  rewrite digits_val_snoc, length_app. cbn [length].
  apply lookup_app_Some in Hi as [Hi|[Hl Hi]].
  - pose proof (lookup_lt_Some _ _ _ Hi). specialize (IH i Hds Hi).
    replace (Z.of_nat (length ds + 1) - 1 - Z.of_nat i) with (1 + (lenZ ds - 1 - Z.of_nat i)) by lia.
    rewrite Z.pow_add_r by lia. rewrite <- Z.div_div by lia.
    change (16 ^ 1) with 16. rewrite Z.div_add_l, (Z.div_small d') by lia. by rewrite Z.add_0_r.
  - apply list_lookup_singleton_Some in Hi as [Hi0 ->].
    replace (Z.of_nat (length ds + 1) - 1 - Z.of_nat i) with 0 by lia.
    rewrite Z.pow_0_r, Z.div_1_r, Z.add_comm, Z.mod_add by lia. apply Z.mod_small. lia.
Qed.

Lemma uuid_hex_digits ds :
  Forall hex_ok ds → length ds = 32%nat → uuid_hex (digits_val ds) = hex_digit <$> ds.
Proof.
  intros Hds Hlen. apply list_eq. intros i. unfold uuid_hex. rewrite !list_lookup_fmap.
  destruct (decide (i < 32)%nat) as [Hi|Hi].
  - rewrite lookup_seq_lt by done. cbn [fmap option_fmap option_map].
    destruct (lookup_lt_is_Some_2 ds i) as [d Hd]; [lia|]. rewrite Hd. cbn.
    do 2 f_equal. rewrite <- (digits_val_digit ds i d Hds Hd). do 3 f_equal. lia.
  - rewrite lookup_seq_ge by lia. rewrite (lookup_ge_None_2 ds i) by lia. done.
Qed.

Lemma hex_digits_val ds acc :
  Forall hex_ok ds →
  hex_digits (hex_digit <$> ds) acc false = Some (foldl (fun acc d => acc * 16 + d) acc ds).
Proof.
  revert acc; induction ds as [|d ds IH]; intros acc Hds; [done|]. apply Forall_cons in Hds as [Hd Hds].
  cbn [fmap list_fmap map hex_digits foldl].
  assert (negb (bool_decide (hex_digit d = "_"%char)) = true) as Hu%negb_true_iff
    by exact (hex_forall (fun d => negb (bool_decide (hex_digit d = "_"%char))) d eq_refl Hd).
  rewrite Hu, hex_value_digit by done. cbn. by apply IH.
Qed.

Lemma hex_digits_none (p : ascii → bool) ds :
  forallb (fun d => negb (p (hex_digit d))) (seqZ 0 16) = true → Forall hex_ok ds →
  ∀ c, c ∈ hex_digit <$> ds → p c = false.
Proof.
  intros Hp Hds c (d & -> & Hd)%list_elem_of_fmap. rewrite Forall_forall in Hds.
  apply negb_true_iff. exact (hex_forall (fun d => negb (p (hex_digit d))) d Hp (Hds d Hd)).
Qed.

Lemma hex_digits_not_in (c : ascii) ds :
  forallb (fun d => negb (bool_decide (hex_digit d = c))) (seqZ 0 16) = true → Forall hex_ok ds →
  c ∉ hex_digit <$> ds.
Proof.
  intros Hc Hds Hin.
  pose proof (hex_digits_none (fun c' => bool_decide (c' = c)) ds Hc Hds c Hin) as Hf.
  by apply bool_decide_eq_false in Hf.
Qed.

Lemma int16_digits ds : Forall hex_ok ds → ds ≠ [] → int16 (hex_digit <$> ds) = Some (digits_val ds).
Proof.
  intros Hds Hne. unfold int16.
  rewrite strip_id by (by apply hex_digits_none; [vm_compute; reflexivity|]).
  assert (hex_number (hex_digit <$> ds) = Some (digits_val ds)) as Hnum.
  { destruct ds as [|d ds]; [done|]. unfold hex_number. cbn [fmap list_fmap map].
    rewrite bool_decide_eq_false_2.
    - apply (hex_digits_val (d :: ds) 0 Hds).
    - intros Heq. eapply (hex_digits_not_in "_"%char (d :: ds)); [vm_compute; reflexivity|done|].
      csimpl. rewrite Heq. left. }
  assert (hex_prefixed (hex_digit <$> ds) = Some (digits_val ds)) as Hpre.
  { rewrite <- Hnum. destruct ds as [|d [|d' ds]]; [done| |].
    - cbn [fmap list_fmap map]. unfold hex_prefixed. by destruct (hex_digit d) as [[] [] [] [] [] [] [] []].
    - cbn [fmap list_fmap map]. unfold hex_prefixed. rewrite bool_decide_eq_false_2.
      + by destruct (hex_digit d) as [[] [] [] [] [] [] [] []].
      + apply Forall_cons in Hds as [_ Hds].
        intros [Heq|Heq]; [eapply (hex_digits_not_in "x"%char (d' :: ds))|
          eapply (hex_digits_not_in "X"%char (d' :: ds))]; try done; csimpl; rewrite Heq; left. }
  destruct ds as [|d ds]; [done|]. cbn [fmap list_fmap map] in *.
  assert (hex_digit d ≠ "-"%char ∧ hex_digit d ≠ "+"%char) as [Hm Hp].
  { split; intros Heq; [eapply (hex_digits_not_in "-"%char (d :: ds))|
      eapply (hex_digits_not_in "+"%char (d :: ds))]; try done; csimpl; rewrite Heq; left. }
  revert Hm Hp Hpre. generalize (hex_digit d). intros [[] [] [] [] [] [] [] []]; done.
Qed.

Lemma uuid_of_hex_digits ds :
  Forall hex_ok ds → length ds = 32%nat → uuid_of_hex (hex_digit <$> ds) = Ok (digits_val ds).
Proof.
  intros Hds Hlen. unfold uuid_of_hex, replace_all. cbn [String.list_ascii_of_string].
  rewrite (delete_all_id _ "u"%char _ (hex_digit <$> ds)) by (done || by apply hex_digits_not_in).
  rewrite (delete_all_id _ "u"%char _ (hex_digit <$> ds)) by (done || by apply hex_digits_not_in).
  rewrite strip_id by (by apply (hex_digits_none (fun c => bool_decide (c = "{"%char ∨ c = "}"%char)))).
  rewrite (delete_all_id _ "-"%char _ (hex_digit <$> ds)) by (done || by apply hex_digits_not_in).
  rewrite length_fmap, Hlen. cbn [Nat.eqb negb]. rewrite int16_digits; [|done|by destruct ds].
  pose proof (digits_val_bound ds Hds) as Hb. rewrite Hlen in Hb. change (16 ^ Z.of_nat 32) with (2 ^ 128) in Hb.
  cbn [or_raise mbind res_bind]. by rewrite (proj2 (Z.leb_le _ _)), (proj2 (Z.ltb_lt _ _)) by lia.
Qed.

(** The version and the variant, read from the digits. *)
Lemma uuid_version_digits n :
  0 <= n → uuid_version n = Some 4 ↔
  n / 16 ^ 19 mod 16 = 4 ∧ 8 <= n / 16 ^ 15 mod 16 <= 11.
Proof.
  intros Hn. unfold uuid_version.
  assert (∀ k, 0 <= k < 4 → Z.testbit n (60 + k) = Z.testbit (n / 16 ^ 15 mod 16) k) as Hbit.
  { intros k Hk. change 16 with (2 ^ 4) at 2. rewrite Z.mod_pow2_bits_low by lia.
    change (16 ^ 15) with (2 ^ 60). rewrite Z.div_pow2_bits by lia. f_equal. lia. }
  rewrite (Hbit 3 ltac:(lia) : Z.testbit n 63 = _), (Hbit 2 ltac:(lia) : Z.testbit n 62 = _).
  change (Z.land (Z.shiftr n 76) 15) with (Z.land (Z.shiftr n 76) (Z.ones 4)).
  rewrite Z.land_ones, Z.shiftr_div_pow2 by lia. change (2 ^ 76) with (16 ^ 19). change (2 ^ 4) with 16.
  pose proof (Z.mod_pos_bound (n / 16 ^ 15) 16 ltac:(lia)) as Hx.
  generalize dependent (n / 16 ^ 15 mod 16). intros x _ Hx.
  assert (Z.testbit x 3 && negb (Z.testbit x 2) = bool_decide (8 <= x <= 11)) as ->.
  { pose proof (hex_forall (fun x => bool_decide (Z.testbit x 3 && negb (Z.testbit x 2) =
      bool_decide (8 <= x <= 11))) x eq_refl Hx) as Hb. by apply bool_decide_eq_true in Hb. }
  case_bool_decide; split.
  - intros Heq. split; [congruence|done].
  - by intros [-> _].
  - done.
  - by intros [_ ?].
Qed.

(** [tc-] followed by 32 lower-case hexadecimal digits with version 4 and the RFC
    4122 variant. *)
Definition canonical_id (value : string) : Prop :=
  ∃ ds x, String.list_ascii_of_string value = String.list_ascii_of_string "tc-" ++ (hex_digit <$> ds) ∧
    length ds = 32%nat ∧ Forall hex_ok ds ∧ ds !! 12%nat = Some 4 ∧ ds !! 16%nat = Some x ∧ 8 <= x <= 11.

Lemma validate_lifecycle_id_sound value r :
  validate_lifecycle_id value = Ok r → r = value ∧ canonical_id value.
Proof.
  unfold validate_lifecycle_id. set (s := String.list_ascii_of_string value). intros Hv.
  destruct (length s =? 35)%nat eqn:Hlen; [|done]. cbn [negb orb] in Hv.
  destruct (bool_decide (take 3 s = _)) eqn:Htake; [|done]. cbn [negb] in Hv.
  apply bool_decide_eq_true in Htake. apply Nat.eqb_eq in Hlen.
  apply bind_Ok in Hv as (n & Hn & Hv).
  destruct (bool_decide (uuid_version n ≠ Some 4)) eqn:Hver; [done|].
  destruct (bool_decide (uuid_hex n ≠ drop 3 s)) eqn:Hhex; [done|]. cbn [orb] in Hv.
  apply bool_decide_eq_false, dec_stable in Hver, Hhex. injection Hv as <-. split; [done|].
  assert (0 <= n) as H0.
  { unfold uuid_of_hex in Hn. destruct (negb _); [done|]. apply bind_Ok in Hn as (k & _ & Hn).
    destruct (0 <=? k) eqn:E; [|done]. destruct (k <? 2 ^ 128); [|done]. injection Hn as <-.
    by apply Z.leb_le. }
  apply uuid_version_digits in Hver as [Hv4 Hx]; [|done].
  set (ds := (fun i => n / 16 ^ (31 - Z.of_nat i) mod 16) <$> seq 0 32).
  exists ds, (n / 16 ^ 15 mod 16). split_and!; try lia.
  - fold s. rewrite <- (take_drop 3 s), Htake, <- Hhex. f_equal.
  - done.
  - apply Forall_fmap, Forall_forall. intros i _. apply Z.mod_pos_bound. lia.
  - unfold ds. rewrite list_lookup_fmap, lookup_seq_lt by lia. cbn [fmap option_fmap option_map].
    f_equal. exact Hv4.
  - unfold ds. by rewrite list_lookup_fmap, lookup_seq_lt by lia.
Qed.

Lemma validate_lifecycle_id_complete value :
  canonical_id value → validate_lifecycle_id value = Ok value.
Proof.
  intros (ds & x & Hs & Hlen & Hds & H12 & H16 & Hx). unfold validate_lifecycle_id. rewrite Hs.
  change (String.list_ascii_of_string "tc-") with ["t"%char; "c"%char; "-"%char].
  cbn [app length firstn skipn]. rewrite length_fmap, Hlen. cbn [Nat.eqb negb orb].
  rewrite bool_decide_eq_true_2 by done. cbn [negb].
  rewrite drop_0, uuid_of_hex_digits by done. cbn [mbind res_bind]. rewrite uuid_hex_digits by done.
  rewrite (bool_decide_eq_false_2 (uuid_version _ ≠ _)), (bool_decide_eq_false_2 (_ ≠ _)); [done| |].
  - by intros [].
  - intros Hn. apply Hn. pose proof (digits_val_bound ds Hds). apply uuid_version_digits; [lia|].
    rewrite <- (digits_val_digit ds 12 4 Hds H12), <- (digits_val_digit ds 16 x Hds H16) in *.
    rewrite Hlen in *. done.
Qed.

(** A lifecycle identifier is accepted, and returned unchanged, if and only
    if it is [tc-] followed by the canonical hexadecimal form of a version 4
    UUID: 32 lower-case digits, the thirteenth being 4 and the seventeenth one of
    8 to b.  Everything else [int(s, 16)] and [UUID] would tolerate (upper case,
    braces, dashes, prefixes, underscores) is rejected. *)
Theorem lifecycle_id_canonical value r :
  validate_lifecycle_id value = Ok r ↔ r = value ∧ canonical_id value.
Proof.
  split; [apply validate_lifecycle_id_sound|]. intros [-> Hc]. by apply validate_lifecycle_id_complete.
Qed.

(** ** Metadata survives the transport to the engine *)

Section round_trip.
Context {F : Type} `{StrictReadersSpec F}.
Implicit Types (m : TokenCakeMetadata F) (d : jdict F).

Lemma od_get_app {V} (k : string) (d1 d2 : list (string * V)) :
  od_get k (d1 ++ d2) = match od_get k d1 with Some v => Some v | None => od_get k d2 end.
Proof. induction d1 as [|[k' v] d1 IH]; csimpl; [done|]. by case_decide. Qed.

Lemma od_get_filter_keys {V} (Q : string → Prop) `{!∀ k, Decision (Q k)} k (d : list (string * V)) :
  od_get k (filter (fun kv => Q kv.1) d) = if decide (Q k) then od_get k d else None.
Proof.
  induction d as [|[k' v] d IH]; [by case_decide|]. rewrite filter_cons. cbn.
  destruct (decide (Q k')); csimpl; rewrite IH; destruct (decide (k' = k)); subst;
    rewrite ?decide_True by done; rewrite ?decide_False by done; try done; by case_decide.
Qed.

(** What the dump holds under a declared name. *)
Lemma metadata_dump_get d m k :
  md_fields_set m = list_to_set d.*1 → md_extra m = filter (fun kv => kv.1 ∉ metadata_names) d →
  k ∈ metadata_names →
  od_get k (metadata_dump m) = if od_has k d then od_get k (metadata_fields m) else None.
Proof.
  intros Hs He Hk. unfold metadata_dump. rewrite od_get_app, He.
  pose proof (od_get_filter_keys (fun k => k ∈ md_fields_set m) k (metadata_fields m)) as ->.
  pose proof (od_get_filter_keys (fun k => k ∉ metadata_names) k d) as ->.
  rewrite (decide_False (P := k ∉ metadata_names)) by tauto. rewrite Hs.
  destruct (od_has k d) eqn:E.
  - rewrite od_has_true in E. rewrite decide_True by set_solver. by destruct (od_get k (metadata_fields m)).
  - assert (k ∉ d.*1) by (rewrite <- od_has_true; congruence). by rewrite decide_False by set_solver.
Qed.

Lemma field_dump {A} (read : json F → res A) (check : A → bool) (dflt x : A) J d d' k :
  field read check dflt k d = Ok x →
  (∀ j, read j = Ok x → read J = Ok x) →
  od_get k d' = (if od_has k d then Some J else None) →
  field read check dflt k d' = Ok x.
Proof.
  unfold field, od_has. intros Hx HJ ->. destruct (od_get k d) as [j|]; [|done].
  apply bind_Ok in Hx as (y & Hj & Hx). destruct (check y) eqn:Ec; [|done]. injection Hx as ->.
  rewrite (HJ j Hj). cbn. by rewrite Ec.
Qed.

Lemma metadata_names_fields m : (metadata_fields m).*1 = metadata_names.
Proof. done. Qed.

Lemma dump_keys (m : TokenCakeMetadata F) d :
  md_fields_set m = list_to_set d.*1 → md_extra m = filter (fun kv => kv.1 ∉ metadata_names) d →
  list_to_set (metadata_dump m).*1 =@{gset string} list_to_set d.*1.
Proof.
  intros Hs He. apply set_eq. intros k. rewrite !elem_of_list_to_set.
  rewrite <- !od_has_true. unfold od_has, metadata_dump.
  rewrite od_get_app, He.
  pose proof (od_get_filter_keys (fun k => k ∈ md_fields_set m) k (metadata_fields m)) as ->.
  pose proof (od_get_filter_keys (fun k => k ∉ metadata_names) k d) as ->.
  rewrite Hs. destruct (decide (k ∈ metadata_names)) as [Hk|Hk].
  - rewrite (decide_False (P := k ∉ metadata_names)) by tauto.
    rewrite <- (metadata_names_fields m), <- od_has_true in Hk. unfold od_has in Hk.
    destruct (od_get k (metadata_fields m)); [|done]. case_decide as Hd.
    + rewrite elem_of_list_to_set, <- od_has_true in Hd. unfold od_has in Hd. done.
    + rewrite elem_of_list_to_set, <- od_has_true in Hd. unfold od_has in Hd. done.
  - rewrite (decide_True (P := k ∉ metadata_names)) by done.
    assert (od_get k (metadata_fields m) = None) as -> by (apply od_get_None; by rewrite metadata_names_fields).
    by case_decide.
Qed.

Lemma dump_extra m d :
  md_extra m = filter (fun kv => kv.1 ∉ metadata_names) d →
  filter (fun kv => kv.1 ∉ metadata_names) (metadata_dump m) = md_extra m.
Proof.
  intros He. unfold metadata_dump. rewrite filter_app.
  assert (filter (fun kv => kv.1 ∉ metadata_names)
    (filter (fun kv => kv.1 ∈ md_fields_set m) (metadata_fields m)) = []) as ->.
  { apply list_filter_none. intros kv [_ Hkv]%list_elem_of_filter Hn.
    apply Hn. rewrite <- (metadata_names_fields m). by apply list_elem_of_fmap_2. }
  cbn. apply list_filter_all. intros kv. rewrite He. by intros [? _]%list_elem_of_filter.
Qed.

(** Replays one field of [metadata_validate] on the dump. *)
Ltac replay_field m d Hs He :=
  match goal with
  | Hf : field ?r ?c ?df ?k d = Ok ?x |- context [field ?r ?c ?df ?k (metadata_dump m)] =>
      let HJ := fresh in
      assert (field r c df k (metadata_dump m) = Ok x) as HJ;
      [ eapply (field_dump r c df x _ d); [exact Hf| |apply (metadata_dump_get d m k Hs He); apply (bool_decide_unpack _); vm_compute; exact I];
        intros; cbn; first [apply read_str_ok|apply read_int_ok|apply read_bool_ok|
          apply read_float_ok; by eapply read_float_finite]
      | rewrite HJ; clear HJ; cbn [mbind res_bind] ]
  end.

Lemma read_lifecycle_id_dump j id : read_lifecycle_id j = Ok id → read_lifecycle_id (JStr id : json F) = Ok id.
Proof.
  unfold read_lifecycle_id. intros Hj. apply bind_Ok in Hj as (s & _ & Hs).
  destruct (validate_lifecycle_id_sound _ _ Hs) as [-> _]. by rewrite read_str_ok.
Qed.

Lemma metadata_validate_dump d m : metadata_validate d = Ok m → metadata_validate (metadata_dump m) = Ok m.
Proof.
  intros Hv. unfold metadata_validate in Hv. inv_res.
  match goal with |- metadata_validate (metadata_dump ?m) = _ => set (m0 := m) in * end.
  assert (md_fields_set m0 = list_to_set d.*1) as Hs by done.
  assert (md_extra m0 = filter (fun kv => kv.1 ∉ metadata_names) d) as He by done.
  unfold metadata_validate.
  rewrite (metadata_dump_get d m0 "lifecycle_id" Hs He) by set_solver. unfold od_has.
  match goal with Hg : od_get "lifecycle_id" d = Some _ |- _ => rewrite Hg; clear Hg end.
  cbn [metadata_fields od_get or_raise mbind res_bind].
  rewrite decide_True by done. cbn [or_raise mbind res_bind].
  erewrite read_lifecycle_id_dump by eassumption. cbn [mbind res_bind].
  repeat replay_field m0 d Hs He.
  rewrite (dump_keys m0 d Hs He), (dump_extra m0 d He), He, <- Hs.
  match goal with |- (validate_depths ?r ≫= _) = _ => change r with m0 end.
  match goal with Hd : validate_depths _ = Ok _ |- _ => rewrite Hd end. done.
Qed.

(** C29. Request metadata reaches the engine unchanged: when the front end accepts
    a request with TokenCake metadata, the lifecycle is named after the request,
    there is exactly one generation, and the metadata that the engine reads from
    the rewritten arguments is the metadata that was validated; all other
    arguments are untouched. *)
Theorem request_metadata_transport args request_id n beam m args' :
  metadata_from_extra_args (Some args) = Ok (Some m) →
  validate_request_metadata (Some args) request_id n beam = Ok (Some args') →
  metadata_from_extra_args (Some args') = Ok (Some m) ∧
  md_lifecycle_id m = request_id ∧ (n = None ∨ n = Some 1) ∧ beam = false ∧
  ∀ k, k ≠ "tokencake" → od_get k args' = od_get k args.
Proof.
  intros Hm Hv. unfold validate_request_metadata in Hv. rewrite Hm in Hv. cbn [mbind res_bind] in Hv.
  case_bool_decide as Hid; [done|].
  case_bool_decide as Hn; [done|]. destruct beam; [done|]. cbn in Hv. injection Hv as <-.
  assert (metadata_validate (metadata_dump m) = Ok m) as Hd.
  { cbn in Hm. destruct (od_get "tokencake" args) as [[]|]; try done.
    destruct (metadata_validate d) eqn:E; cbn in Hm; [|done]. injection Hm as <-.
    by eapply metadata_validate_dump. }
  split_and!.
  - cbn. rewrite od_get_set, decide_True by done. by rewrite Hd.
  - done.
  - apply elem_of_cons in Hn as [?|[?|[]%elem_of_nil]%elem_of_cons]; auto.
  - done.
  - intros k Hk. by rewrite od_get_set, decide_False by done.
Qed.

End round_trip.

(** ** An instance of the readers *)

Section instances.
Context {F : Type} `{PyFloat F}.

(** Strict mode: no coercion but from integers to floats. *)
#[global] Instance json_readers : StrictReaders F := {
  read_str j := match j with JStr s => Ok s | _ => Err ValueError end;
  read_int j := match j with JInt z => Ok z | _ => Err ValueError end;
  read_bool j := match j with JBool b => Ok b | _ => Err ValueError end;
  read_float j :=
    match j with
    | JFloat x => if ffinite x then Ok x else Err ValueError
    | JInt z => let x := fratio z 1 in if ffinite x then Ok x else Err ValueError
    | _ => Err ValueError
    end;
}.

#[global] Instance json_readers_spec : StrictReadersSpec F.
Proof.
  split; try done.
  - intros x Hx. cbn. by rewrite Hx.
  - intros j x Hx. cbn in Hx. destruct j; try done; case_match; naive_solver.
  - intros j e. destruct j; cbn; repeat case_match; naive_solver.
Qed.

End instances.

Definition ex_metadata_json : jdict b64 :=
  [("lifecycle_id", JStr "tc-0123456789ab4def89abcdef01234567"); ("agent_type", JStr "planner");
   ("importance", JInt 3); ("note", JStr "kept")].
Definition ex_args : jdict b64 := [("tokencake", JDict ex_metadata_json); ("seed", JInt 1)].
Definition ex_request_id : string := "tc-0123456789ab4def89abcdef01234567".

Lemma request_metadata_transport_witness :
  ∃ m args', metadata_from_extra_args (Some ex_args) = Ok (Some m) ∧
    validate_request_metadata (Some ex_args) ex_request_id (Some 1) false = Ok (Some args') ∧
    metadata_from_extra_args (Some args') = Ok (Some m) ∧ md_importance m = flt 3.
Proof.
  eexists _, _. split; [vm_compute; reflexivity|]. split; [vm_compute; reflexivity|].
  match goal with |- metadata_from_extra_args (Some ?args') = Ok (Some ?m) ∧ _ =>
    destruct (request_metadata_transport ex_args ex_request_id (Some 1) false m args') as [Hm _] end.
  - vm_compute. reflexivity.
  - vm_compute. reflexivity.
  - split; [exact Hm|vm_compute; reflexivity].
Defined.

(** ** Validated values are within their bounds *)

Section bounds.
Context `{!StrictReaders b64, !StrictReadersSpec b64}.

(** A finite, nonnegative float. *)
Definition float_ge_0 (x : b64) : Prop := ffinite x = true ∧ flt 0 <=@ x = true.

Record metadata_ok (m : TokenCakeMetadata b64) : Prop := {
  mok_id : canonical_id (md_lifecycle_id m);
  mok_importance : float_ge_0 (md_importance m);
  mok_started : float_ge_0 (md_application_started_at_s m);
  mok_offset : float_ge_0 (md_application_start_offset_s m);
  mok_elapsed : float_ge_0 (md_application_elapsed_s m);
  mok_weight : float_ge_0 (md_memory_weight m);
  mok_similarity : float_ge_0 (md_similarity m) ∧ md_similarity m <=@ flt 1 = true;
  mok_ints : 0 <= md_depth m ∧ 0 <= md_in_degree m ∧ 0 <= md_out_degree m ∧
    0 <= md_application_max_depth m ∧ 0 <= md_remaining_depth m ∧ 0 <= md_dependency_depth m;
  mok_fanout : 1 <= md_fanout_width m;
  mok_depths : "application_max_depth" ∈ md_fields_set m →
    md_depth m <= md_application_max_depth m ∧ md_remaining_depth m <= md_application_max_depth m;
}.

Lemma field_check {A} (read : json b64 → res A) (check : A → bool) dflt k (d : jdict b64) x :
  check dflt = true → field read check dflt k d = Ok x → check x = true.
Proof.
  unfold field. intros Hd Hx. destruct (od_get k d); [|congruence].
  apply bind_Ok in Hx as (y & _ & Hx). destruct (check y) eqn:E; congruence.
Qed.

Lemma field_float (check : b64 → bool) dflt k (d : jdict b64) x :
  ffinite dflt && check dflt = true → field read_float check dflt k d = Ok x →
  ffinite x = true ∧ check x = true.
Proof.
  intros [Hf Hd]%andb_true_iff Hx. split; [|by eapply field_check].
  unfold field in Hx. destruct (od_get k d) as [j|]; [|congruence].
  apply bind_Ok in Hx as (y & Hy & Hx). destruct (check y); [|done]. injection Hx as <-.
  by eapply read_float_finite.
Qed.

Lemma field_int_ge n dflt k (d : jdict b64) x :
  n <= dflt → field read_int (int_ge n) dflt k d = Ok x → n <= x.
Proof. intros Hd Hx. apply Z.leb_le. eapply (field_check read_int (int_ge n)); [by apply Z.leb_le|exact Hx]. Qed.

Ltac float_bound := eapply (field_float ge_0); [|eassumption]; vm_compute; reflexivity.
Ltac int_bound := eapply field_int_ge; [|eassumption]; lia.

(** Accepted metadata is within its documented bounds: a canonical identifier,
    finite nonnegative floats, a similarity in the unit interval, nonnegative
    integers, a fan-out of at least one, and depths below the maximal depth when
    that is given. *)
Theorem metadata_validate_bounds (d : jdict b64) m : metadata_validate d = Ok m → metadata_ok m.
Proof.
  intros Hv. unfold metadata_validate in Hv. inv_res. split; cbn -[fleb flt]; try float_bound; try int_bound.
  - match goal with Hr : read_lifecycle_id _ = Ok _ |- _ => unfold read_lifecycle_id in Hr;
      apply bind_Ok in Hr as (s & _ & Hs) end.
    by destruct (validate_lifecycle_id_sound _ _ Hs) as [-> ?].
  - match goal with Hf : field _ ratio _ _ _ = Ok _ |- _ => apply field_float in Hf as [Hfin Hr];
      [|vm_compute; reflexivity] end.
    apply andb_true_iff in Hr as [? ?]. unfold float_ge_0. auto.
  - split_and!; int_bound.
  - match goal with Hd : validate_depths _ = Ok _ |- _ => unfold validate_depths in Hd; cbn in Hd; revert Hd end.
    case_bool_decide; [|done]. intros Hd _. repeat case_match; try done.
    rewrite !Z.ltb_ge in *. lia.
Qed.

End bounds.

Lemma metadata_validate_bounds_witness :
  ∃ m, metadata_validate ex_metadata_json = Ok m ∧ metadata_ok m.
Proof.
  eexists. split; [vm_compute; reflexivity|].
  apply (metadata_validate_bounds ex_metadata_json). vm_compute. reflexivity.
Defined.

Section config_bounds.
Context `{!StrictReaders b64, !StrictReadersSpec b64}.

Record scheduling_ok (c : SchedulingConfig b64) : Prop := {
  sok_budget : 0 <= sc_decode_prefill_token_budget c;
  sok_band : 0 <= sc_cache_affinity_score_band c;
  sok_margin : 0 <= sc_priority_borrow_score_margin c;
  sok_critical : ffinite (sc_critical_ratio c) = true ∧ positive_ratio (sc_critical_ratio c) = true;
  sok_step : ffinite (sc_reserve_adjustment_step c) = true ∧
    positive_ratio (sc_reserve_adjustment_step c) = true;
  sok_min : ffinite (sc_reserve_ratio_min c) = true ∧ ratio (sc_reserve_ratio_min c) = true;
  sok_max : ffinite (sc_reserve_ratio_max c) = true ∧ ratio (sc_reserve_ratio_max c) = true;
  sok_low : ffinite (sc_gpu_usage_low c) = true ∧ ratio (sc_gpu_usage_low c) = true;
  sok_high : ffinite (sc_gpu_usage_high c) = true ∧ ratio (sc_gpu_usage_high c) = true;
  sok_min_max : sc_reserve_ratio_max c <@ sc_reserve_ratio_min c = false;
  sok_low_high : sc_gpu_usage_high c <=@ sc_gpu_usage_low c = false;
}.

Record offload_ok (c : OffloadConfig b64) : Prop := {
  ook_usage : ffinite (oc_min_gpu_usage c) = true ∧ ratio (oc_min_gpu_usage c) = true;
  ook_high : ffinite (oc_high_pressure_gpu_usage c) = true ∧ ratio (oc_high_pressure_gpu_usage c) = true;
  ook_threshold : ffinite (oc_score_threshold c) = true ∧ ge_0 (oc_score_threshold c) = true;
  ook_stall : ffinite (oc_default_stall_s c) = true ∧ gt_0 (oc_default_stall_s c) = true;
  ook_lead : ffinite (oc_release_lead_s c) = true ∧ ge_0 (oc_release_lead_s c) = true;
  ook_alpha : ffinite (oc_ewma_alpha c) = true ∧ positive_ratio (oc_ewma_alpha c) = true;
  ook_backoff : 0 <= oc_backoff_steps c;
  ook_window : 1 <= oc_eviction_window_blocks c;
  ook_relief : 0 <= oc_max_relief_blocks c;
  ook_order : oc_high_pressure_gpu_usage c <=@ oc_min_gpu_usage c = false;
  ook_d2h : ffinite (tc_d2h_bandwidth_gbps (oc_transfer c)) = true ∧
    gt_0 (tc_d2h_bandwidth_gbps (oc_transfer c)) = true;
  ook_h2d : ffinite (tc_h2d_bandwidth_gbps (oc_transfer c)) = true ∧
    gt_0 (tc_h2d_bandwidth_gbps (oc_transfer c)) = true;
}.

Ltac cfg_bound :=
  first [ eapply field_float; [|eassumption]; vm_compute; reflexivity
        | eapply field_int_ge; [|eassumption]; lia ].

Lemma section_validated {A} (validate : jdict b64 → res A) name d x :
  section validate name d = Ok x → ∃ s, validate s = Ok x.
Proof. unfold section. repeat case_match; try done; eauto. Qed.

Lemma validate_scheduling_ok (d : jdict b64) c : validate_scheduling d = Ok c → scheduling_ok c.
Proof.
  intros Hv. unfold validate_scheduling in Hv. inv_res.
  repeat match goal with Hb : (if ?b then _ else _) = Ok _ |- _ => destruct b eqn:?; [done|] end.
  inv_res. split; cbn -[fleb fltb flt ffinite ratio positive_ratio]; try done; cfg_bound.
Qed.

Lemma validate_offload_ok (d : jdict b64) c : validate_offload d = Ok c → offload_ok c.
Proof.
  intros Hv. unfold validate_offload in Hv. inv_res.
  repeat match goal with Hb : (if ?b then _ else _) = Ok _ |- _ => destruct b eqn:?; [done|] end.
  inv_res. split; cbn -[fleb fltb flt ffinite ratio positive_ratio ge_0 gt_0]; try done; try cfg_bound.
  all: match goal with Hs : section validate_transfer _ _ = Ok _ |- _ =>
      apply section_validated in Hs as [s Ht] end;
    unfold validate_transfer in Ht; inv_res; cbn -[ffinite gt_0 flt]; cfg_bound.
Qed.

(** A section that is switched off supplies nothing else. *)
Definition off_means_bare (value : jdict b64) (name : string) : Prop :=
  ∀ s, od_get name value = Some (JDict s) → od_get "enabled" s = Some (JBool false) →
    ∀ k, k ∈ s.*1 → k = "enabled".

(** An accepted configuration is consistent: every setting is within its
    bounds, the lower limits are below the upper ones, and a section that is
    switched off supplies no tuning fields. *)
Theorem parse_config_bounds (j : json b64) c :
  parse_tokencake_config j = Ok (Some c) →
  scheduling_ok (cfg_scheduling c) ∧ offload_ok (cfg_offload c) ∧
  ∃ d value, j = JDict d ∧ od_get "tokencake" d = Some (JDict value) ∧
    off_means_bare value "scheduling" ∧ off_means_bare value "offload".
Proof.
  unfold parse_tokencake_config. intros Hp. destruct j as [| | | | | |d]; try done.
  destruct (od_get "tokencake" d) as [[| | | | | |value]|] eqn:Ed; try done.
  destruct (existsb _ _) eqn:Ex; [done|].
  destruct (validate_config value) as [c'|] eqn:Hc; cbn in Hp; [|done]. injection Hp as ->.
  unfold validate_config in Hc. inv_res. split_and!.
  - match goal with Hs : section validate_scheduling _ _ = Ok _ |- _ =>
      apply section_validated in Hs as [s Hs] end. by eapply validate_scheduling_ok.
  - match goal with Hs : section validate_offload _ _ = Ok _ |- _ =>
      apply section_validated in Hs as [s Hs] end. by eapply validate_offload_ok.
  - exists d, value. cbn in Ex. apply orb_false_iff in Ex as [E1 [E2 _]%orb_false_iff].
    assert (∀ name, disabled_with_fields value name = false → off_means_bare value name) as Hoff.
    { intros name Hn s Hs He k Hk. unfold disabled_with_fields in Hn. rewrite Hs, He in Hn.
      destruct (decide (k = "enabled")); [done|]. exfalso.
      apply not_true_iff_false in Hn. apply Hn, existsb_exists. exists k.
      split; [by apply list_elem_of_In|by apply bool_decide_eq_true]. }
    auto.
Qed.

End config_bounds.

Definition ex_config_json : json b64 :=
  JDict [("tokencake", JDict [("scheduling", JDict [("enabled", JBool false)]);
                              ("offload", JDict [("backoff_steps", JInt 4)])])].

Lemma parse_config_bounds_witness :
  ∃ c, parse_tokencake_config ex_config_json = Ok (Some c) ∧ scheduling_ok (cfg_scheduling c) ∧
    oc_backoff_steps (cfg_offload c) = 4.
Proof.
  eexists. split; [vm_compute; reflexivity|].
  match goal with |- scheduling_ok (cfg_scheduling ?c) ∧ _ =>
    destruct (parse_config_bounds ex_config_json c) as [Hs _] end; [vm_compute; reflexivity|].
  split; [exact Hs|reflexivity].
Defined.
