(* ===== verification/CachePolicy.v ===== *)
(** * CPU cache replacement policies

    [vllm/v1/kv_offload/cpu/policies]: the [BlockStatus] of one offloaded block,
    the [CachePolicy] interface, and its two implementations, LRU and ARC.

    The interface is a typeclass of operations, [CachePolicy], with its contract
    [CachePolicySpec]: a policy represents a finite map from offload keys to
    block statuses, every operation acts on that map as its name says, and an
    eviction takes exactly [n] unpinned, unprotected entries or changes nothing.
    [lru] and [arc] are shown to meet the contract; the offloading manager is
    verified against it.

    A [BlockStatus] is a mutable object shared by reference; it is only reached
    through the policy's dictionaries, so a mutation through the reference that
    [get] returns is [pol_mutate], which changes the entry in place. *)

From Stdlib Require Import QArith Lqa.
From S2P Require Import Prelude PyFloat.

(** [OffloadKey], raw bytes. *)
Notation okey := string.

(** ** BlockStatus *)

Record BlockStatus := mkBlockStatus {
  (** a [c_int32]: transfers or lifecycles using the block; -1 when not ready *)
  bs_ref_cnt : Z;
  (** index of the physical CPU buffer slot *)
  bs_block_id : Z;
}.
#[global] Instance BlockStatus_settable : Settable BlockStatus :=
  { rebuild b := mkBlockStatus (bs_ref_cnt b) (bs_block_id b) }.
#[global] Instance BlockStatus_eq_dec : EqDecision BlockStatus.
Proof. solve_decision. Defined.

Definition new_block_status (block_id : Z) : BlockStatus := mkBlockStatus (-1) block_id.
Definition is_ready (b : BlockStatus) : bool := 0 <=? bs_ref_cnt b.

(** ** The interface *)

Class CachePolicy (P : Type) := {
  pol_init : Z → P;
  pol_get : P → okey → option BlockStatus;
  pol_insert : P → okey → BlockStatus → P;
  pol_remove : P → okey → res P;
  pol_touch : P → list okey → P;
  pol_evict : P → Z → gset okey → res (option (P * list (okey * BlockStatus)));
  pol_clear : P → P;
  pol_mutate : P → okey → (BlockStatus → BlockStatus) → P;
}.

(** [block.ref_cnt == 0 and key not in protected] *)
Definition evictable (protected : gset okey) (kb : okey * BlockStatus) : bool :=
  bool_decide (bs_ref_cnt kb.2 = 0) && bool_decide (kb.1 ∉ protected).

(** The outcome promised by a successful [evict]. *)
Record evicted_from (m : gmap okey BlockStatus) (n : Z) (protected : gset okey)
    (ev : list (okey * BlockStatus)) (m' : gmap okey BlockStatus) : Prop := {
  ev_count : lenZ ev = n;
  ev_nodup : NoDup ev.*1;
  ev_from : ∀ k b, (k, b) ∈ ev → m !! k = Some b;
  ev_free : ∀ k b, (k, b) ∈ ev → evictable protected (k, b) = true;
  ev_map : ∀ k, m' !! k = if decide (k ∈ ev.*1) then None else m !! k;
}.

Class CachePolicySpec (P : Type) `{CachePolicy P} := {
  pol_wf : P → Prop;
  pol_map : P → gmap okey BlockStatus;
  pol_init_spec : ∀ c, pol_wf (pol_init c) ∧ pol_map (pol_init c) = ∅;
  pol_get_spec : ∀ p k, pol_wf p → pol_get p k = pol_map p !! k;
  pol_insert_spec : ∀ p k b, pol_wf p → pol_map p !! k = None →
    pol_wf (pol_insert p k b) ∧ pol_map (pol_insert p k b) = <[k:=b]> (pol_map p);
  pol_remove_spec : ∀ p k, pol_wf p → is_Some (pol_map p !! k) →
    ∃ p', pol_remove p k = Ok p' ∧ pol_wf p' ∧ pol_map p' = delete k (pol_map p);
  pol_touch_spec : ∀ p ks, pol_wf p →
    pol_wf (pol_touch p ks) ∧ pol_map (pol_touch p ks) = pol_map p;
  pol_evict_spec : ∀ p n prot p' ev, pol_wf p → 0 <= n →
    pol_evict p n prot = Ok (Some (p', ev)) →
    pol_wf p' ∧ evicted_from (pol_map p) n prot ev (pol_map p');
  pol_clear_spec : ∀ p, pol_wf p → pol_wf (pol_clear p) ∧ pol_map (pol_clear p) = ∅;
  pol_mutate_spec : ∀ p k f, pol_wf p →
    pol_wf (pol_mutate p k f) ∧ pol_map (pol_mutate p k f) = alter f k (pol_map p);
}.

(** ** LRU *)

Record lru := mkLru { lru_blocks : list (okey * BlockStatus) }.
#[global] Instance lru_settable : Settable lru := { rebuild p := mkLru (lru_blocks p) }.

Definition lru_init (cache_capacity : Z) : lru := mkLru [].
Definition lru_get (p : lru) (key : okey) : option BlockStatus := od_get key (lru_blocks p).
Definition lru_insert (p : lru) (key : okey) (block : BlockStatus) : lru :=
  p <| lru_blocks ::= od_set key block |>.
Definition lru_remove (p : lru) (key : okey) : res lru :=
  if od_has key (lru_blocks p) then Ok (p <| lru_blocks ::= od_del key |>) else Err KeyError.
Definition lru_touch (p : lru) (keys : list okey) : lru :=
  p <| lru_blocks ::= fun d => foldl (fun d key => od_move_to_end key d) d (reverse keys) |>.
Definition lru_clear (p : lru) : lru := p <| lru_blocks := [] |>.

(** The scan for candidates stops as soon as [n] are found. *)
Fixpoint lru_collect (n : Z) (protected : gset okey) (candidates : list (okey * BlockStatus))
    (items : list (okey * BlockStatus)) : list (okey * BlockStatus) :=
  match items with
  | [] => candidates
  | kb :: items =>
      if evictable protected kb then
        let candidates := candidates ++ [kb] in
        if lenZ candidates =? n then candidates
        else lru_collect n protected candidates items
      else lru_collect n protected candidates items
  end.

Definition lru_evict (p : lru) (n : Z) (protected : gset okey) :
    option (lru * list (okey * BlockStatus)) :=
  if n =? 0 then Some (p, [])
  else
    let candidates := lru_collect n protected [] (lru_blocks p) in
    if lenZ candidates <? n then None
    else Some (p <| lru_blocks ::= fun d => foldl (fun d kb => od_del kb.1 d) d candidates |>,
               candidates).

Definition lru_mutate (p : lru) (key : okey) (f : BlockStatus → BlockStatus) : lru :=
  p <| lru_blocks ::= od_alter f key |>.

#[global] Instance lru_policy : CachePolicy lru := {
  pol_init := lru_init;
  pol_get := lru_get;
  pol_insert := lru_insert;
  pol_remove := lru_remove;
  pol_touch := lru_touch;
  pol_evict p n prot := Ok (lru_evict p n prot);
  pol_clear := lru_clear;
  pol_mutate := lru_mutate;
}.

(** ** ARC *)

Record arc {F : Type} := mkArc {
  arc_capacity : Z;
  arc_target_t1_size : F;
  arc_t1 : list (okey * BlockStatus);
  arc_t2 : list (okey * BlockStatus);
  arc_b1 : list (okey * unit);
  arc_b2 : list (okey * unit);
}.
Arguments arc F : clear implicits.

Section arc_ops.
Context {F : Type} `{PyFloat F}.

#[global] Instance arc_settable : Settable (arc F) :=
  { rebuild p := mkArc _ (arc_capacity p) (arc_target_t1_size p) (arc_t1 p) (arc_t2 p)
                   (arc_b1 p) (arc_b2 p) }.

Definition arc_init (cache_capacity : Z) : arc F := mkArc _ cache_capacity (flt 0) [] [] [] [].

Definition arc_get (p : arc F) (key : okey) : option BlockStatus :=
  match od_get key (arc_t1 p) with
  | Some b => Some b
  | None => od_get key (arc_t2 p)
  end.

Definition arc_insert (p : arc F) (key : okey) (block : BlockStatus) : arc F :=
  p <| arc_t1 ::= od_set key block |> <| arc_b1 ::= od_del key |> <| arc_b2 ::= od_del key |>.

Definition arc_remove (p : arc F) (key : okey) : arc F :=
  if od_has key (arc_t1 p) then p <| arc_t1 ::= od_del key |>
  else p <| arc_t2 ::= od_del key |>.

(** [len(a) / len(b)] with [b] not empty. *)
Definition ghost_ratio (a b : list (okey * unit)) : F := fratio (lenZ a) (Z.to_pos (lenZ b)).

Definition arc_touch_one (p : arc F) (key : okey) : arc F :=
  match od_get key (arc_t1 p) with
  | Some block =>
      let p := p <| arc_t1 ::= od_del key |> in
      if negb (is_ready block) then p <| arc_t1 ::= od_set key block |>
      else p <| arc_t2 ::= od_set key block |>
  | None =>
      if od_has key (arc_t2 p) then p <| arc_t2 ::= od_move_to_end key |>
      else if od_has key (arc_b1 p) then
        let delta := pymax (flt 1) (ghost_ratio (arc_b2 p) (arc_b1 p)) in
        p <| arc_target_t1_size ::= fun t => pymin (t +@ delta) (flt (arc_capacity p)) |>
          <| arc_b1 ::= od_move_to_end key |>
      else if od_has key (arc_b2 p) then
        let delta := pymax (flt 1) (ghost_ratio (arc_b1 p) (arc_b2 p)) in
        p <| arc_target_t1_size ::= fun t => pymax (t -@ delta) (flt 0) |>
          <| arc_b2 ::= od_move_to_end key |>
      else p
  end.

Definition arc_touch (p : arc F) (keys : list okey) : arc F :=
  foldl arc_touch_one p (reverse keys).

Definition arc_clear (p : arc F) : arc F :=
  p <| arc_t1 := [] |> <| arc_t2 := [] |> <| arc_b1 := [] |> <| arc_b2 := [] |>
    <| arc_target_t1_size := flt 0 |>.

(** The first item of a partition that may be evicted. *)
Definition arc_scan (protected selected : gset okey) (items : list (okey * BlockStatus)) :
    option (okey * BlockStatus) :=
  snd <$> list_find (fun kb => evictable protected kb && bool_decide (kb.1 ∉ selected)) items.

(** The selection loop: [n] more candidates, with the size T1 would have. *)
Fixpoint arc_select (p : arc F) (target : Z) (protected : gset okey) (n : nat)
    (candidates : list (okey * BlockStatus * bool)) (selected : gset okey) (virtual_t1_size : Z) :
    option (list (okey * BlockStatus * bool)) :=
  match n with
  | O => Some candidates
  | S n =>
      let from_t1 :=
        if target <=? virtual_t1_size then arc_scan protected selected (arc_t1 p) else None in
      match from_t1 with
      | Some kb =>
          arc_select p target protected n (candidates ++ [(kb, true)]) ({[kb.1]} ∪ selected)
            (virtual_t1_size - 1)
      | None =>
          match arc_scan protected selected (arc_t2 p) with
          | Some kb =>
              arc_select p target protected n (candidates ++ [(kb, false)]) ({[kb.1]} ∪ selected)
                virtual_t1_size
          | None => None
          end
      end
  end.

Definition arc_apply_one (p : arc F) (c : okey * BlockStatus * bool) : arc F :=
  let '(key, _, from_t1) := c in
  if from_t1 : bool then p <| arc_t1 ::= od_del key |> <| arc_b1 ::= od_set key tt |>
  else p <| arc_t2 ::= od_del key |> <| arc_b2 ::= od_set key tt |>.

Definition trim_ghost (capacity : Z) (g : list (okey * unit)) : list (okey * unit) :=
  drop (Z.to_nat (lenZ g - capacity)) g.

Definition arc_evict (p : arc F) (n : Z) (protected : gset okey) :
    res (option (arc F * list (okey * BlockStatus))) :=
  if n =? 0 then Ok (Some (p, []))
  else
    target ← ftrunc (arc_target_t1_size p);
    match arc_select p target protected (Z.to_nat n) [] ∅ (lenZ (arc_t1 p)) with
    | None => Ok None
    | Some candidates =>
        let p := foldl arc_apply_one p candidates in
        Ok (Some (p <| arc_b1 ::= trim_ghost (arc_capacity p) |>
                    <| arc_b2 ::= trim_ghost (arc_capacity p) |>,
                  candidates.*1))
    end.

Definition arc_mutate (p : arc F) (key : okey) (f : BlockStatus → BlockStatus) : arc F :=
  if od_has key (arc_t1 p) then p <| arc_t1 ::= od_alter f key |>
  else p <| arc_t2 ::= od_alter f key |>.

#[global] Instance arc_policy : CachePolicy (arc F) := {
  pol_init := arc_init;
  pol_get := arc_get;
  pol_insert := arc_insert;
  pol_remove p k := Ok (arc_remove p k);
  pol_touch := arc_touch;
  pol_evict := arc_evict;
  pol_clear := arc_clear;
  pol_mutate := arc_mutate;
}.

End arc_ops.

(** ** LRU meets the contract *)

Definition lru_wf (p : lru) : Prop := od_wf (lru_blocks p).
Definition lru_map (p : lru) : gmap okey BlockStatus := od_map (lru_blocks p).

(** The scan computes the first [n] evictable entries in recency order. *)
Lemma lru_collect_take n prot acc items :
  lenZ acc < n →
  lru_collect n prot acc items =
  acc ++ take (Z.to_nat n - length acc) (filter (fun kb => Is_true (evictable prot kb)) items).
Proof.
  revert acc; induction items as [|kb items IH]; intros acc Hn; cbn.
  - by rewrite filter_nil, take_nil, app_nil_r.
  - rewrite filter_cons. destruct (evictable prot kb) eqn:E.
    + rewrite decide_True by done. rewrite length_app; cbn.
      replace (Z.to_nat n - length acc)%nat with (S (Z.to_nat n - length acc - 1)) by lia. cbn.
      destruct (_ =? n) eqn:En.
      * apply Z.eqb_eq in En.
        replace (Z.to_nat n - length acc - 1)%nat with 0%nat by lia. done.
      * apply Z.eqb_neq in En.
        rewrite IH by (rewrite length_app; cbn; lia).
        rewrite length_app, <- app_assoc; cbn. do 3 f_equal. lia.
    + rewrite decide_False by (cbn; tauto). by apply IH.
Qed.

Lemma lru_touch_spec p ks : lru_wf p → lru_wf (lru_touch p ks) ∧ lru_map (lru_touch p ks) = lru_map p.
Proof.
  unfold lru_wf, lru_map, lru_touch. cbn. generalize (reverse ks) as l. clear ks.
  intros l; revert p; induction l as [|k l IH]; intros [d] Hd; cbn in *; [done|].
  destruct (IH (mkLru (od_move_to_end k d))) as [H1 H2]; cbn in *; [eauto with od|].
  split; [done|]. by rewrite H2, od_map_move.
Qed.

Lemma foldl_od_del {V} (l d : list (okey * V)) :
  foldl (fun d kb => od_del kb.1 d) d l = od_del_all l.*1 d.
Proof. revert d; induction l as [|kb l IH]; intros d; cbn; [done|]. apply IH. Qed.

Lemma lru_evict_inv p n prot p' ev :
  lru_wf p → 0 <= n → lru_evict p n prot = Some (p', ev) →
  ev = take (Z.to_nat n) (filter (fun kb => Is_true (evictable prot kb)) (lru_blocks p)) ∧
  lenZ ev = n ∧ lru_blocks p' = od_del_all ev.*1 (lru_blocks p).
Proof.
  unfold lru_evict. intros Hwf Hn. destruct (n =? 0) eqn:E0.
  { apply Z.eqb_eq in E0 as ->. intros [= <- <-]. done. }
  apply Z.eqb_neq in E0. rewrite lru_collect_take by (cbn; lia). cbn.
  rewrite Nat.sub_0_r. set (sel := take _ _).
  destruct (_ <? n) eqn:El; [done|]. apply Z.ltb_ge in El. intros [= <- <-].
  split_and!; [done| |].
  - assert (length sel ≤ Z.to_nat n)%nat by (unfold sel; rewrite length_take; lia). lia.
  - apply foldl_od_del.
Qed.

Lemma lru_evict_spec p n prot p' ev :
  lru_wf p → 0 <= n → lru_evict p n prot = Some (p', ev) →
  lru_wf p' ∧ evicted_from (lru_map p) n prot ev (lru_map p').
Proof.
  intros Hwf Hn Hev. destruct (lru_evict_inv p n prot p' ev) as (Hsel & Hlen & Hp'); try done.
  assert (ev `sublist_of` lru_blocks p) as Hsub.
  { rewrite Hsel. etrans; [apply sublist_take|]. apply sublist_filter. }
  split; [unfold lru_wf; rewrite Hp'; by apply od_wf_del_all|].
  split.
  - done.
  - eapply sublist_NoDup; [exact Hwf|by apply fmap_sublist].
  - intros k b Hin. unfold lru_map. rewrite od_map_lookup. apply od_In_get; [done|].
    by eapply elem_of_sublist.
  - intros k b Hin. rewrite Hsel in Hin.
    eapply elem_of_sublist in Hin; [|apply sublist_take].
    apply list_elem_of_filter in Hin as [Hin _]. by apply Is_true_true.
  - intros k. unfold lru_map. rewrite !od_map_lookup, Hp'. by apply od_get_del_all.
Qed.

#[global] Program Instance lru_policy_spec : CachePolicySpec lru :=
  {| pol_wf := lru_wf; pol_map := lru_map |}.
Next Obligation. split; [apply od_wf_nil|done]. Qed.
Next Obligation. intros. symmetry. apply od_map_lookup. Qed.
Next Obligation.
  intros p k b Hwf Hk. split; [by apply od_wf_set|apply od_map_set].
Qed.
Next Obligation.
  intros p k Hwf [b Hb]. unfold lru_map in *. rewrite od_map_lookup in Hb. cbn. unfold lru_remove, od_has.
  rewrite Hb. eexists; split_and!; [done|by apply od_wf_del|by apply od_map_del].
Qed.
Next Obligation. exact lru_touch_spec. Qed.
Next Obligation. cbn. intros * Hwf Hn [= Hev]. by apply lru_evict_spec. Qed.
Next Obligation. split; [apply od_wf_nil|done]. Qed.
Next Obligation. intros p k f Hwf. split; [by apply od_wf_alter|apply od_map_alter]. Qed.

(** ** ARC meets the contract *)

Section arc_spec.
Context {F : Type} `{PyFloat F}.
Implicit Types p : arc F.

(** The four lists hold pairwise disjoint sets of keys. *)
Record arc_wf (p : arc F) : Prop := {
  awf_t1 : od_wf (arc_t1 p);
  awf_t2 : od_wf (arc_t2 p);
  awf_b1 : od_wf (arc_b1 p);
  awf_b2 : od_wf (arc_b2 p);
  awf_t1_excl : ∀ k, k ∈ (arc_t1 p).*1 → k ∉ (arc_t2 p).*1 ∧ k ∉ (arc_b1 p).*1 ∧ k ∉ (arc_b2 p).*1;
  awf_t2_excl : ∀ k, k ∈ (arc_t2 p).*1 → k ∉ (arc_b1 p).*1 ∧ k ∉ (arc_b2 p).*1;
  awf_b1_excl : ∀ k, k ∈ (arc_b1 p).*1 → k ∉ (arc_b2 p).*1;
}.

Definition arc_map (p : arc F) : gmap okey BlockStatus := od_map (arc_t1 p) ∪ od_map (arc_t2 p).

Lemma arc_map_lookup p k : arc_map p !! k = arc_get p k.
Proof.
  unfold arc_map, arc_get. rewrite lookup_union, !od_map_lookup.
  by destruct (od_get k (arc_t1 p)), (od_get k (arc_t2 p)).
Qed.

Lemma arc_get_t1 p k b : od_get k (arc_t1 p) = Some b → arc_get p k = Some b.
Proof. unfold arc_get. by intros ->. Qed.

Lemma arc_get_None p k : arc_get p k = None ↔ k ∉ (arc_t1 p).*1 ∧ k ∉ (arc_t2 p).*1.
Proof.
  unfold arc_get. rewrite <- !od_get_None.
  destruct (od_get k (arc_t1 p)), (od_get k (arc_t2 p)); naive_solver.
Qed.

Lemma od_has_false {V} k (d : list (okey * V)) : od_has k d = false ↔ k ∉ d.*1.
Proof. rewrite <- od_has_true. destruct (od_has k d); naive_solver. Qed.

Lemma od_get_Some_keys {V} k (v : V) (d : list (okey * V)) : od_get k d = Some v → k ∈ d.*1.
Proof. intros Hg. apply od_has_true. unfold od_has. by rewrite Hg. Qed.

Lemma arc_move_keys {V} k k' (d : list (okey * V)) :
  od_wf d → k ∈ (od_move_to_end k' d).*1 ↔ k ∈ d.*1.
Proof. intros Hd. by rewrite od_move_to_end_perm. Qed.

(** Case analysis on membership of a key in the four lists. *)
Ltac arc_excl :=
  intros; repeat match goal with
  | Hk : context [_ ∈ (od_set _ _ _).*1] |- _ => rewrite elem_of_od_keys_set in Hk
  | Hk : context [_ ∈ (od_del _ _).*1] |- _ => rewrite elem_of_od_keys_del in Hk by eauto with od
  | Hk : context [_ ∈ (od_move_to_end _ _).*1] |- _ => rewrite arc_move_keys in Hk by eauto with od
  | |- context [_ ∈ (od_set _ _ _).*1] => rewrite elem_of_od_keys_set
  | |- context [_ ∈ (od_del _ _).*1] => rewrite elem_of_od_keys_del by eauto with od
  | |- context [_ ∈ (od_move_to_end _ _).*1] => rewrite arc_move_keys by eauto with od
  end; naive_solver.

Lemma arc_insert_spec p k b :
  arc_wf p → arc_map p !! k = None →
  arc_wf (arc_insert p k b) ∧ arc_map (arc_insert p k b) = <[k:=b]> (arc_map p).
Proof.
  intros [] Hk. rewrite arc_map_lookup, arc_get_None in Hk. split.
  - split; cbn; eauto with od; arc_excl.
  - apply map_eq. intros k'. rewrite lookup_insert, !arc_map_lookup. unfold arc_get. cbn.
    rewrite od_get_set. by case_decide.
Qed.

Lemma arc_remove_spec p k :
  arc_wf p → arc_wf (arc_remove p k) ∧ arc_map (arc_remove p k) = delete k (arc_map p).
Proof.
  intros []. unfold arc_remove. destruct (od_has k (arc_t1 p)) eqn:E.
  - apply od_has_true in E. split; [split; cbn; eauto with od; arc_excl|].
    apply map_eq. intros k'. rewrite lookup_delete, !arc_map_lookup. unfold arc_get. cbn.
    rewrite od_get_del by done. case_decide; [subst|done]. apply od_get_None. naive_solver.
  - apply od_has_false in E. split; [split; cbn; eauto with od; arc_excl|].
    apply map_eq. intros k'. rewrite lookup_delete, !arc_map_lookup. unfold arc_get. cbn.
    rewrite od_get_del by done. case_decide; [subst|done].
    by rewrite (proj2 (od_get_None _ _) E).
Qed.

Lemma arc_mutate_spec p k f :
  arc_wf p → arc_wf (arc_mutate p k f) ∧ arc_map (arc_mutate p k f) = alter f k (arc_map p).
Proof.
  intros []. unfold arc_mutate. destruct (od_has k (arc_t1 p)) eqn:E.
  - apply od_has_true in E. split; [split; cbn; rewrite ?od_keys_alter; eauto with od|].
    apply map_eq. intros k'. rewrite lookup_alter, !arc_map_lookup. unfold arc_get. cbn.
    rewrite od_get_alter. case_decide; [subst|done].
    destruct (od_get k' (arc_t1 p)) eqn:E1; [done|]. by apply od_get_None in E1.
  - apply od_has_false in E. split; [split; cbn; rewrite ?od_keys_alter; eauto with od|].
    apply map_eq. intros k'. rewrite lookup_alter, !arc_map_lookup. unfold arc_get. cbn.
    rewrite od_get_alter. case_decide; [subst|done].
    by rewrite (proj2 (od_get_None _ _) E).
Qed.

Lemma arc_touch_one_spec p k :
  arc_wf p → arc_wf (arc_touch_one p k) ∧ arc_map (arc_touch_one p k) = arc_map p.
Proof.
  intros Hwf; pose proof Hwf as []. unfold arc_touch_one.
  destruct (od_get k (arc_t1 p)) as [b|] eqn:E1.
  { pose proof (od_get_Some_keys _ _ _ E1) as Hk. destruct (is_ready b); cbn.
    - split; [split; cbn; eauto with od; arc_excl|].
      apply map_eq. intros k'. rewrite !arc_map_lookup. unfold arc_get. cbn.
      rewrite od_get_set, od_get_del by done. case_decide; [subst; by rewrite E1|done].
    - split; [split; cbn; eauto with od; arc_excl|].
      apply map_eq. intros k'. rewrite !arc_map_lookup. unfold arc_get. cbn.
      rewrite od_get_set, od_get_del by done. case_decide; [subst; by rewrite E1|done]. }
  destruct (od_has k (arc_t2 p)) eqn:E2.
  { split; [split; cbn; eauto with od; arc_excl|].
    apply map_eq. intros k'. rewrite !arc_map_lookup. unfold arc_get. cbn.
    by rewrite od_get_move. }
  destruct (od_has k (arc_b1 p)) eqn:E3; [split; [split; cbn; eauto with od; arc_excl|done]|].
  destruct (od_has k (arc_b2 p)) eqn:E4; [split; [split; cbn; eauto with od; arc_excl|done]|done].
Qed.

Lemma arc_touch_spec p ks : arc_wf p → arc_wf (arc_touch p ks) ∧ arc_map (arc_touch p ks) = arc_map p.
Proof.
  unfold arc_touch. generalize (reverse ks) as l. clear ks.
  intros l; revert p; induction l as [|k l IH]; intros p Hwf; cbn; [done|].
  destruct (arc_touch_one_spec p k Hwf) as [H1 H2].
  destruct (IH _ H1) as [H3 H4]. split; [done|]. by rewrite H4.
Qed.

Lemma arc_scan_Some prot sel items kb :
  arc_scan prot sel items = Some kb →
  kb ∈ items ∧ evictable prot kb = true ∧ kb.1 ∉ sel.
Proof.
  unfold arc_scan. intros (x & Hx & ->)%fmap_Some. destruct x as [i kb]; cbn.
  apply list_find_Some in Hx as (Hi & Hp & _).
  apply Is_true_true, andb_true_iff in Hp as [Hp1 Hp2]. apply bool_decide_eq_true in Hp2.
  split_and!; [by eapply list_elem_of_lookup_2|done|done].
Qed.

(** The candidates chosen so far: distinct, evictable, each from the list it is tagged with. *)
Record selection_ok (p : arc F) (prot sel : gset okey)
    (cands : list (okey * BlockStatus * bool)) : Prop := {
  sel_nodup : NoDup cands.*1.*1;
  sel_keys : ∀ k, k ∈ cands.*1.*1 → k ∈ sel;
  sel_from : ∀ kb (t : bool), (kb, t) ∈ cands → kb ∈ (if t then arc_t1 p else arc_t2 p);
  sel_evictable : ∀ kb (t : bool), (kb, t) ∈ cands → evictable prot kb = true;
}.

Lemma selection_ok_snoc p prot sel cands kb (t : bool) :
  selection_ok p prot sel cands →
  arc_scan prot sel (if t then arc_t1 p else arc_t2 p) = Some kb →
  selection_ok p prot ({[kb.1]} ∪ sel) (cands ++ [(kb, t)]).
Proof.
  intros [Hn Hk Hf He] (Hin & Hev & Hs)%arc_scan_Some. split.
  - rewrite !fmap_app; cbn. apply NoDup_app. split_and!; [done| |apply NoDup_singleton].
    intros k Hkc ->%list_elem_of_singleton. auto.
  - intros k. rewrite !fmap_app; cbn. set_solver.
  - intros kb' t' [Hx|Hx]%elem_of_app; [by apply Hf|].
    apply list_elem_of_singleton in Hx. by simplify_eq.
  - intros kb' t' [Hx|Hx]%elem_of_app; [by eapply He|].
    apply list_elem_of_singleton in Hx. by simplify_eq.
Qed.

Lemma arc_select_spec p target prot n cands sel vt cands' :
  selection_ok p prot sel cands →
  arc_select p target prot n cands sel vt = Some cands' →
  length cands' = (length cands + n)%nat ∧ ∃ sel', selection_ok p prot sel' cands'.
Proof.
  revert cands sel vt; induction n as [|n IH]; intros cands sel vt Hok; cbn.
  { intros [= <-]. split; [lia|eauto]. }
  destruct (if target <=? vt then _ else _) as [kb|] eqn:E1.
  - destruct (target <=? vt); [|done]. intros Hs.
    apply (IH _ _ _ (selection_ok_snoc p prot sel cands kb true Hok E1)) in Hs as [Hl Hs].
    rewrite length_app in Hl; cbn in Hl. split; [lia|done].
  - destruct (arc_scan prot sel (arc_t2 p)) as [kb|] eqn:E2; [|done]. intros Hs.
    apply (IH _ _ _ (selection_ok_snoc p prot sel cands kb false Hok E2)) in Hs as [Hl Hs].
    rewrite length_app in Hl; cbn in Hl. split; [lia|done].
Qed.

Lemma arc_apply_one_spec p kb (t : bool) :
  arc_wf p → kb ∈ (if t then arc_t1 p else arc_t2 p) →
  arc_wf (arc_apply_one p (kb, t)) ∧
  arc_map (arc_apply_one p (kb, t)) = delete kb.1 (arc_map p) ∧
  (∀ (t' : bool) kb', kb'.1 ≠ kb.1 → kb' ∈ (if t' then arc_t1 p else arc_t2 p) →
     kb' ∈ (if t' then arc_t1 (arc_apply_one p (kb, t)) else arc_t2 (arc_apply_one p (kb, t)))).
Proof.
  intros Hwf Hin; pose proof Hwf as []. destruct kb as [k b]; cbn.
  assert (∀ (k0 : okey) (b0 : BlockStatus) d, k0 ≠ k → od_wf d → (k0, b0) ∈ d → (k0, b0) ∈ od_del k d) as Hdel.
  { intros k0 b0 d Hne Hd Hx. apply od_get_In. rewrite od_get_del, decide_False by done.
    by apply od_In_get. }
  destruct t; cbn.
  - pose proof (od_get_Some_keys _ _ _ (od_In_get _ _ _ awf_t3 Hin)) as Hk. split_and!.
    + split; cbn; eauto with od; arc_excl.
    + apply map_eq. intros k'. rewrite lookup_delete, !arc_map_lookup. unfold arc_get. cbn.
      rewrite od_get_del by done. case_decide; [subst|done]. apply od_get_None. naive_solver.
    + intros [] [k0 b0] Hne Hx; cbn in *; [by apply Hdel|done].
  - pose proof (od_get_Some_keys _ _ _ (od_In_get _ _ _ awf_t4 Hin)) as Hk. split_and!.
    + split; cbn; eauto with od; arc_excl.
    + apply map_eq. intros k'. rewrite lookup_delete, !arc_map_lookup. unfold arc_get. cbn.
      rewrite od_get_del by done. case_decide; [subst|done].
      destruct (od_get k' (arc_t1 p)) eqn:E; [|done]. apply od_get_Some_keys in E. naive_solver.
    + intros [] [k0 b0] Hne Hx; cbn in *; [done|by apply Hdel].
Qed.

Lemma arc_apply_spec p cands :
  arc_wf p → NoDup cands.*1.*1 →
  (∀ kb (t : bool), (kb, t) ∈ cands → kb ∈ (if t then arc_t1 p else arc_t2 p)) →
  arc_wf (foldl arc_apply_one p cands) ∧
  ∀ k, arc_map (foldl arc_apply_one p cands) !! k =
       if decide (k ∈ cands.*1.*1) then None else arc_map p !! k.
Proof.
  revert p; induction cands as [|[kb t] cands IH]; intros p Hwf Hnd Hfrom; cbn.
  { split; [done|]. intros k. rewrite decide_False by set_solver. done. }
  csimpl in Hnd. apply NoDup_cons in Hnd as [Hn Hnd].
  destruct (arc_apply_one_spec p kb t Hwf) as (Hwf' & Hmap & Hkeep); [apply Hfrom; set_solver|].
  destruct (IH _ Hwf' Hnd) as [H1 H2].
  { intros kb' t' Hin. apply Hkeep; [|apply Hfrom; set_solver]. intros Heq. apply Hn.
    rewrite <- Heq. apply list_elem_of_fmap. exists kb'. split; [done|].
    apply list_elem_of_fmap. by exists (kb', t'). }
  split; [done|]. intros k. rewrite H2, Hmap, lookup_delete. csimpl.
  repeat case_decide; set_solver.
Qed.

Lemma trim_ghost_sublist c g : trim_ghost c g `sublist_of` g.
Proof. apply sublist_drop. Qed.

Lemma arc_trim_spec p c :
  arc_wf p → let p' := p <| arc_b1 ::= trim_ghost c |> <| arc_b2 ::= trim_ghost c |> in
  arc_wf p' ∧ arc_map p' = arc_map p.
Proof.
  intros []; cbn.
  assert (∀ g k, k ∈ (trim_ghost c g).*1 → k ∈ g.*1) as Hs.
  { intros g k Hk. eapply elem_of_sublist; [done|apply fmap_sublist, trim_ghost_sublist]. }
  split; [|done]. split; cbn; try done.
  - eapply sublist_NoDup; [exact awf_b3|apply fmap_sublist, trim_ghost_sublist].
  - eapply sublist_NoDup; [exact awf_b4|apply fmap_sublist, trim_ghost_sublist].
  - naive_solver.
  - naive_solver.
  - naive_solver.
Qed.

Lemma arc_evict_spec p n prot p' ev :
  arc_wf p → 0 <= n → arc_evict p n prot = Ok (Some (p', ev)) →
  arc_wf p' ∧ evicted_from (arc_map p) n prot ev (arc_map p').
Proof.
  unfold arc_evict. intros Hwf Hn. destruct (n =? 0) eqn:E0.
  { apply Z.eqb_eq in E0 as ->. intros [= <- <-]. split; [done|].
    split; cbn; try set_solver by constructor. }
  intros Hb. apply bind_Ok in Hb as (target & _ & Hb).
  destruct (arc_select _ _ _ _ _ _ _) as [cands|] eqn:Es; [|done]. injection Hb as <- <-.
  apply arc_select_spec in Es as [Hlen [sel [Hnd Hkeys Hfrom Hev]]].
  2: { split; cbn; set_solver by constructor. }
  destruct (arc_apply_spec p cands Hwf Hnd Hfrom) as [Hwf' Hmap].
  apply (arc_trim_spec _ (arc_capacity (foldl arc_apply_one p cands))) in Hwf' as [Hwf'' Heq].
  split; [exact Hwf''|]. split.
  - rewrite length_fmap, Hlen. cbn. lia.
  - done.
  - intros k0 b0 Hin. apply list_elem_of_fmap in Hin as ([kb t] & Heq' & Hin); cbn in Heq'; subst kb.
    specialize (Hfrom _ t Hin). pose proof Hwf as [].
    rewrite arc_map_lookup. unfold arc_get. destruct t.
    + by rewrite (od_In_get _ _ _ awf_t3 Hfrom).
    + pose proof (od_In_get _ _ _ awf_t4 Hfrom) as Hg. cbn. rewrite Hg.
      destruct (od_get k0 (arc_t1 p)) eqn:E; [|done].
      apply od_get_Some_keys in E. apply od_get_Some_keys in Hg. naive_solver.
  - intros k b Hin. apply list_elem_of_fmap in Hin as ([kb t] & Heq' & Hin); cbn in Heq'; subst kb.
    by eapply Hev.
  - intros k. rewrite Heq. apply Hmap.
Qed.

#[global] Program Instance arc_policy_spec : CachePolicySpec (arc F) :=
  {| pol_wf := arc_wf; pol_map := arc_map |}.
Next Obligation. intros c. split; [split; cbn; try apply od_wf_nil; set_solver|done]. Qed.
Next Obligation. intros. symmetry. apply arc_map_lookup. Qed.
Next Obligation. exact arc_insert_spec. Qed.
Next Obligation. intros p k Hwf _. eexists; split; [done|]. by apply arc_remove_spec. Qed.
Next Obligation. exact arc_touch_spec. Qed.
Next Obligation. exact arc_evict_spec. Qed.
Next Obligation. intros p _. split; [split; cbn; try apply od_wf_nil; set_solver|done]. Qed.
Next Obligation. exact arc_mutate_spec. Qed.

End arc_spec.

(** ** Properties of LRU *)

(** The entries LRU may evict, least recently used first. *)
Definition lru_evictable (p : lru) (prot : gset okey) : list (okey * BlockStatus) :=
  filter (fun kb => Is_true (evictable prot kb)) (lru_blocks p).

(** LRU evicts exactly the [n] least recently used entries that are unpinned
    and unprotected, and refuses if and only if there are fewer than [n]. *)
Theorem lru_evict_exact p n prot :
  0 <= n →
  lru_evict p n prot =
    if n <=? lenZ (lru_evictable p prot)
    then let ev := take (Z.to_nat n) (lru_evictable p prot) in
         Some (mkLru (od_del_all ev.*1 (lru_blocks p)), ev)
    else None.
Proof.
  intros Hn. unfold lru_evict. destruct (n =? 0) eqn:E0.
  { apply Z.eqb_eq in E0 as ->. rewrite (proj2 (Z.leb_le _ _)) by lia. by destruct p. }
  apply Z.eqb_neq in E0. rewrite lru_collect_take by (cbn; lia). cbn. rewrite Nat.sub_0_r.
  fold (lru_evictable p prot). rewrite length_take.
  destruct (n <=? lenZ (lru_evictable p prot)) eqn:El.
  - apply Z.leb_le in El. rewrite (proj2 (Z.ltb_ge _ _)) by lia. do 2 f_equal.
    by rewrite <- foldl_od_del.
  - apply Z.leb_gt in El. by rewrite (proj2 (Z.ltb_lt _ _)) by lia.
Qed.
Lemma lru_evict_exact_witness :
  lru_evict (mkLru [("a", mkBlockStatus 1 0); ("b", mkBlockStatus 0 1); ("c", mkBlockStatus 0 2)]) 1 ∅
  = Some (mkLru [("a", mkBlockStatus 1 0); ("c", mkBlockStatus 0 2)], [("b", mkBlockStatus 0 1)]).
Proof. rewrite lru_evict_exact by lia. vm_compute. reflexivity. Defined.

Lemma od_keys_del (k : okey) (d : list (okey * BlockStatus)) :
  od_wf d → (od_del k d).*1 = filter (fun k' => k' ≠ k) d.*1.
Proof.
  unfold od_wf. induction d as [|[k' v] d IH]; [done|]. csimpl. intros [Hn Hd]%NoDup_cons.
  rewrite filter_cons. destruct (decide (k' = k)) as [->|Hne].
  - rewrite decide_False by tauto. symmetry. apply list_filter_all. set_solver.
  - rewrite decide_True by done. csimpl. by rewrite IH.
Qed.

(** The keys of the dictionary after a touch, in recency order. *)
Definition touched (ks keys : list okey) : list okey :=
  filter (fun k => k ∉ ks) keys ++ filter (fun k => k ∈ keys) (reverse ks).

Lemma od_keys_move_all l (d : list (okey * BlockStatus)) :
  od_wf d → NoDup l →
  (foldl (fun d k => od_move_to_end k d) d l).*1 =
  filter (fun k => k ∉ l) d.*1 ++ filter (fun k => k ∈ d.*1) l.
Proof.
  revert d; induction l as [|k l IH]; intros d Hd Hnd; csimpl.
  { rewrite filter_nil, app_nil_r, list_filter_all; [done|]. set_solver. }
  apply NoDup_cons in Hnd as [Hn Hnd]. rewrite IH by (done || by apply od_wf_move).
  assert (∀ k', k' ∈ (od_move_to_end k d).*1 ↔ k' ∈ d.*1) as Hin by (intros; by apply arc_move_keys).
  rewrite (list_filter_ext_in (fun k' => k' ∈ (od_move_to_end k d).*1) (fun k' => k' ∈ d.*1)) by auto.
  rewrite filter_cons. unfold od_move_to_end. destruct (od_get k d) as [v|] eqn:E.
  - rewrite decide_True by (by eapply od_get_Some_keys).
    rewrite fmap_app, filter_app, od_keys_del, list_filter_filter by done. csimpl.
    rewrite filter_cons, filter_nil, decide_True by done. rewrite <- app_assoc. f_equal.
    apply list_filter_ext_in. intros k' _. rewrite not_elem_of_cons. tauto.
  - apply od_get_None in E. rewrite decide_False by done. f_equal.
    apply list_filter_ext_in. intros k' Hk'. rewrite not_elem_of_cons. set_solver.
Qed.

(** Touching makes keys the most recently used ones, the first key of the
    request last, and leaves the order of all others as it was; keys that are
    not cached are ignored. *)
Theorem lru_touch_order p ks :
  lru_wf p → NoDup ks → (lru_blocks (lru_touch p ks)).*1 = touched ks (lru_blocks p).*1.
Proof.
  intros Hwf Hnd. unfold touched, lru_touch. cbn. rewrite od_keys_move_all; [|done|by rewrite reverse_Permutation].
  f_equal. apply list_filter_ext_in. intros k _. by rewrite elem_of_reverse.
Qed.
Lemma lru_touch_order_witness :
  let p := mkLru [("a", mkBlockStatus 0 0); ("b", mkBlockStatus 0 1); ("c", mkBlockStatus 0 2)] in
  (lru_blocks (lru_touch p ["a"; "z"; "b"])).*1 = ["c"; "b"; "a"].
Proof.
  intros p. rewrite lru_touch_order; [vm_compute; reflexivity| |];
    apply (bool_decide_unpack _); vm_compute; exact I.
Defined.

(** ** Properties of ARC *)

Inductive arc_op :=
  | ArcInsert (key : okey) (block : BlockStatus)
  | ArcRemove (key : okey)
  | ArcTouch (keys : list okey)
  | ArcEvict (n : Z) (protected : gset okey)
  | ArcMutate (key : okey) (f : BlockStatus → BlockStatus)
  | ArcClear.

Section arc_properties.
Context (rnd : Q → Q) `{!MonoRound rnd}.
#[local] Hint Extern 0 (PyFloat Q) => exact (F_rounded rnd) : typeclass_instances.
Implicit Types p : arc Q.

Definition arc_step (p : arc Q) (op : arc_op) : res (arc Q) :=
  match op with
  | ArcInsert key block => Ok (arc_insert p key block)
  | ArcRemove key => Ok (arc_remove p key)
  | ArcTouch keys => Ok (arc_touch p keys)
  | ArcEvict n prot => r ← arc_evict p n prot; Ok (from_option fst p r)
  | ArcMutate key f => Ok (arc_mutate p key f)
  | ArcClear => Ok (arc_clear p)
  end.

(** Keys are inserted when absent and evictions ask for a natural number, as the
    offloading manager does. *)
Definition arc_pre (p : arc Q) (op : arc_op) : Prop :=
  match op with
  | ArcInsert key _ => arc_get p key = None
  | ArcEvict n _ => 0 <= n
  | _ => True
  end.

Inductive arc_reachable (capacity : Z) : arc Q → Prop :=
  | arc_reach_init : arc_reachable capacity (arc_init capacity)
  | arc_reach_step p op p' :
      arc_reachable capacity p → arc_pre p op → arc_step p op = Ok p' → arc_reachable capacity p'.

#[global] Instance arc_pre_dec p op : Decision (arc_pre p op).
Proof. destruct op; cbn; apply _. Defined.

Fixpoint arc_run (p : arc Q) (ops : list arc_op) : option (arc Q) :=
  match ops with
  | [] => Some p
  | op :: ops =>
      if bool_decide (arc_pre p op) then
        match arc_step p op with Ok p => arc_run p ops | Err _ => None end
      else None
  end.

Lemma arc_run_reachable c p ops p' : arc_reachable c p → arc_run p ops = Some p' → arc_reachable c p'.
Proof.
  revert p; induction ops as [|op ops IH]; intros p Hr; cbn; [by intros [= ->]|].
  case_bool_decide; [|done]. destruct (arc_step p op) as [p1|] eqn:E; [|done].
  apply IH. by eapply arc_reach_step.
Qed.

Record arc_bounded (cap : Z) (p : arc Q) : Prop := {
  ab_cap : arc_capacity p = cap;
  ab_b1 : lenZ (arc_b1 p) <= cap;
  ab_b2 : lenZ (arc_b2 p) <= cap;
  ab_target : (0 <= arc_target_t1_size p <= inject_Z cap)%Q;
}.

Lemma od_del_length {V} k (d : list (okey * V)) : (length (od_del k d) ≤ length d)%nat.
Proof. apply sublist_length, od_del_sublist. Qed.

Lemma od_move_length {V} k (d : list (okey * V)) : od_wf d → length (od_move_to_end k d) = length d.
Proof. intros Hd. by rewrite od_move_to_end_perm. Qed.

Lemma trim_ghost_length c g : 0 <= c → lenZ (trim_ghost c g) <= c.
Proof. intros Hc. unfold trim_ghost. rewrite length_drop. lia. Qed.

Lemma flt_0_between cap : 0 <= cap → (0 <= flt 0 <= inject_Z cap)%Q.
Proof. intros. rewrite (rlit_int rnd) by lia. unfold Qle. cbn. lia. Qed.

Lemma arc_touch_one_bounded cap p k :
  0 <= cap <= 2 ^ 53 → arc_wf p → arc_bounded cap p → arc_bounded cap (arc_touch_one p k).
Proof.
  intros Hcap [] [Hc H1 H2 [Ht Ht']].
  assert (∀ g1 g2, (0 <= pymax (flt 1) (ghost_ratio g1 g2))%Q) as Hdelta.
  { intros g1 g2. eapply Qle_trans; [|apply pymax_le_l]. by apply (rlit_0_le rnd). }
  assert (flt cap == inject_Z cap)%Q as Hflt by (apply (rlit_int rnd); lia).
  unfold arc_touch_one. destruct (od_get k (arc_t1 p)) as [b|]; [destruct (is_ready b); by split|].
  destruct (od_has k (arc_t2 p)); [by split|].
  destruct (od_has k (arc_b1 p)); [|destruct (od_has k (arc_b2 p)); [|by split]].
  - specialize (Hdelta (arc_b2 p) (arc_b1 p)). set (delta := pymax _ _) in *.
    split; cbn -[pymin fadd flt]; rewrite ?od_move_length by done; try done. rewrite Hc. split.
    + apply pymin_ge; [by apply (radd_nonneg rnd)|]. apply (rlit_0_le rnd); lia.
    + destruct (pymin_cases rnd (arc_target_t1_size p +@ delta) (flt cap)) as [[? ->]|[? ->]]; lra.
  - specialize (Hdelta (arc_b1 p) (arc_b2 p)). set (delta := pymax _ _) in *.
    split; cbn -[pymax fsub flt]; rewrite ?od_move_length by done; try done. split.
    + eapply Qle_trans; [|apply pymax_le_r]. by apply (rlit_0_le rnd).
    + destruct (pymax_cases rnd (arc_target_t1_size p -@ delta) (flt 0)) as [[? ->]|[? ->]].
      * rewrite (rlit_int rnd) by lia. rewrite <- Zle_Qle. lia.
      * apply (rnd_le_int rnd); [lia|lra].
Qed.

Lemma arc_touch_bounded cap p ks :
  0 <= cap <= 2 ^ 53 → arc_wf p → arc_bounded cap p → arc_bounded cap (arc_touch p ks).
Proof.
  intros Hcap. unfold arc_touch. generalize (reverse ks) as l. clear ks.
  intros l; revert p; induction l as [|k l IH]; intros p Hwf Hb; cbn; [done|].
  apply IH; [by apply arc_touch_one_spec|by apply arc_touch_one_bounded].
Qed.

Lemma arc_apply_same p cands :
  let p' := foldl arc_apply_one p cands in
  arc_capacity p' = arc_capacity p ∧ arc_target_t1_size p' = arc_target_t1_size p.
Proof.
  revert p; induction cands as [|[[k b] t] cands IH]; intros p; [done|]. cbn [foldl].
  destruct (IH (arc_apply_one p (k, b, t))) as [IH1 IH2]. rewrite IH1, IH2. by destruct t.
Qed.

Lemma arc_evict_bounded cap p n prot p' ev :
  0 <= cap → arc_bounded cap p → arc_evict p n prot = Ok (Some (p', ev)) → arc_bounded cap p'.
Proof.
  intros Hcap [Hc H1 H2 Ht]. unfold arc_evict. destruct (n =? 0); [by intros [= <- <-]|].
  cbn. destruct (arc_select _ _ _ _ _ _ _) as [cands|]; [|done]. intros [= <- <-].
  destruct (arc_apply_same p cands) as [Hc' Ht'].
  split; cbn; rewrite ?Hc', ?Hc, ?Ht'; try done; by apply trim_ghost_length.
Qed.

Lemma arc_step_inv cap p op p' :
  0 <= cap <= 2 ^ 53 → arc_pre p op → arc_step p op = Ok p' →
  arc_wf p → arc_bounded cap p → arc_wf p' ∧ arc_bounded cap p'.
Proof.
  intros Hcap Hpre Hs Hwf Hb. pose proof Hb as [Hc H1 H2 Ht].
  destruct op; cbn in Hpre, Hs; try injection Hs as <-.
  - split; [apply arc_insert_spec; [done|by rewrite arc_map_lookup]|].
    pose proof (od_del_length key (arc_b1 p)). pose proof (od_del_length key (arc_b2 p)).
    split; cbn; try done; lia.
  - split; [by apply arc_remove_spec|]. unfold arc_remove. destruct (od_has _ _); by split.
  - split; [by apply arc_touch_spec|by apply arc_touch_bounded].
  - destruct (arc_evict p n protected) as [[[p1 ev]|]|] eqn:E; cbn in Hs; [| |done];
      injection Hs as <-; [|done].
    split; [by eapply arc_evict_spec|].
    eapply arc_evict_bounded; [|done..]. lia.
  - split; [by apply arc_mutate_spec|]. unfold arc_mutate. destruct (od_has _ _); by split.
  - split; [split; cbn; try apply od_wf_nil; set_solver|]. split; cbn -[flt]; try (done || lia).
    apply flt_0_between. lia.
Qed.

(** C25. In every reachable state of the ARC policy the four lists are disjoint
    and without duplicates, each ghost list holds at most the capacity, the
    target size of T1 lies between 0 and the capacity, and an eviction does not
    raise.  This holds for every monotone rounding of the floating point
    operations. *)
Theorem arc_invariant cap p :
  0 <= cap <= 2 ^ 53 → arc_reachable cap p →
  arc_wf p ∧ lenZ (arc_b1 p) <= cap ∧ lenZ (arc_b2 p) <= cap ∧
  (0 <= arc_target_t1_size p <= inject_Z cap)%Q ∧
  ∀ n prot, is_ok (arc_evict p n prot) = true.
Proof.
  intros Hcap Hr. assert (arc_wf p ∧ arc_bounded cap p) as [Hwf []].
  { induction Hr as [|p op p' _ [IH1 IH2] Hpre Hs]; [|by eapply arc_step_inv].
    split; [split; cbn; try apply od_wf_nil; set_solver|]. split; cbn -[flt]; try (done || lia).
    apply flt_0_between. lia. }
  do 4 (split; [done|]). intros n prot. unfold arc_evict. destruct (n =? 0); [done|]. cbn.
  by destruct (arc_select _ _ _ _ _ _ _).
Qed.

End arc_properties.

(** A capacity of 2; ["a"] is evicted and asked for twice. *)
Definition ex_arc_ops : list arc_op :=
  [ArcInsert "a" (mkBlockStatus 0 0); ArcInsert "b" (mkBlockStatus 0 1); ArcEvict 1 ∅;
   ArcTouch ["a"]; ArcTouch ["a"]].
Definition ex_arc : arc Q :=
  default (@arc_init Q exact 2) (arc_run (fun x => x) (@arc_init Q exact 2) ex_arc_ops).

Lemma arc_invariant_witness :
  arc_wf ex_arc ∧ (arc_b1 ex_arc).*1 = ["a"] ∧ (0 <= arc_target_t1_size ex_arc <= 2)%Q.
Proof.
  destruct (arc_invariant (fun x => x) 2 ex_arc) as (H1 & _ & _ & H2 & _); [lia| |].
  - apply (arc_run_reachable _ 2 (@arc_init Q exact 2) ex_arc_ops); [constructor|].
    vm_compute. reflexivity.
  - split; [exact H1|]. split; [vm_compute; reflexivity|exact H2].
Defined.
