(* ===== verification/OffloadManager.v ===== *)
(** * The CPU offloading manager

    [vllm/v1/kv_offload/cpu/manager.py], [CPUOffloadingManager], over any
    replacement policy that meets [CachePolicySpec].  The manager owns the CPU
    slots: a slot is fresh (never allocated), on the free list, or held by the
    block of exactly one key.  A block is in flight while its reference count is
    -1, and pinned while the count is positive (loads in progress and lifecycles
    that retain it).

    The invariant [mgr_wf] says that slots are never shared nor lost; it is
    preserved by every operation, and the assertions of the code do not fail
    under it. *)

From Stdlib Require Import Ascii.
From S2P Require Import Prelude PyFloat CachePolicy.

(** ** Data *)

(** [make_offload_key] and its inverses: the block hash followed by the group
    index on four big-endian bytes. *)
(** [group_idx.to_bytes(4, "big", signed=False)] raises outside of 32 bits. *)
Definition make_offload_key (block_hash : string) (group_idx : Z) : res okey :=
  if (0 <=? group_idx) && (group_idx <? 2 ^ 32)
  then Ok (block_hash +:+ be32 group_idx) else Err OverflowError.

(** [key[:-4]] and [key[-4:]]. *)
Definition get_offload_block_hash (key : okey) : string :=
  String.substring 0 (String.length key - 4) key.
Definition get_offload_group_idx (key : okey) : Z :=
  be_value (String.substring (String.length key - 4) 4 key).

Record OffloadingEvent := mkOffloadingEvent {
  oe_keys : list okey;
  oe_medium : string;
  oe_removed : bool;
}.

Record PrepareStoreOutput := mkPrepareStoreOutput {
  ps_keys_to_store : list okey;
  (** the CPU slots of the store, in the order of the keys *)
  ps_store_spec : list Z;
  ps_evicted_keys : list okey;
}.

Definition cpu_medium : string := "CPU".

Record cpu_manager {P : Type} := mkManager {
  mg_num_blocks : Z;
  mg_num_allocated_blocks : Z;
  (** the free list, last element first *)
  mg_free_list : list Z;
  mg_events : option (list OffloadingEvent);
  mg_policy : P;
  mg_store_threshold : Z;
  mg_max_tracker_size : Z;
  mg_counts : option (list (okey * Z));
}.
Arguments cpu_manager P : clear implicits.

Section manager.
Context {P : Type} `{CachePolicy P}.

#[global] Instance manager_settable : Settable (cpu_manager P) :=
  { rebuild m := mkManager _ (mg_num_blocks m) (mg_num_allocated_blocks m) (mg_free_list m)
      (mg_events m) (mg_policy m) (mg_store_threshold m) (mg_max_tracker_size m) (mg_counts m) }.

Definition mgr_init (num_blocks : Z) (enable_events : bool) (store_threshold max_tracker_size : Z) :
    cpu_manager P :=
  mkManager _ num_blocks 0 [] (if enable_events then Some [] else None) (pol_init num_blocks)
    store_threshold max_tracker_size (if 2 <=? store_threshold then Some [] else None).

(** *** The block pool *)

Definition mgr_num_free_blocks (m : cpu_manager P) : Z :=
  lenZ (mg_free_list m) + mg_num_blocks m - mg_num_allocated_blocks m.

Definition mgr_allocate_blocks (m : cpu_manager P) (keys : list okey) :
    res (cpu_manager P * list BlockStatus) :=
  let num_fresh := Z.min (lenZ keys) (mg_num_blocks m - mg_num_allocated_blocks m) in
  let num_reused := lenZ keys - num_fresh in
  passert (num_reused <=? lenZ (mg_free_list m));;
  let fresh := new_block_status <$> seqZ (mg_num_allocated_blocks m) num_fresh in
  let reused := new_block_status <$> take (Z.to_nat num_reused) (mg_free_list m) in
  Ok (m <| mg_num_allocated_blocks ::= Z.add (Z.max 0 num_fresh) |>
        <| mg_free_list ::= drop (Z.to_nat num_reused) |>,
      fresh ++ reused).

Definition mgr_free_block (m : cpu_manager P) (block : BlockStatus) : cpu_manager P :=
  m <| mg_free_list ::= cons (bs_block_id block) |>.

(** *** The [OffloadingManager] interface *)

(** Request counting: most recently counted last, the oldest dropped when full. *)
Definition count_key (max_tracker_size : Z) (key : okey) (counts : list (okey * Z)) :
    res (list (okey * Z)) :=
  if od_has key counts then Ok (od_alter Z.succ key (od_move_to_end key counts))
  else
    counts ← (if max_tracker_size <=? lenZ counts then
                match counts with [] => Err KeyError | _ :: counts => Ok counts end
              else Ok counts);
    Ok (od_set key 1 counts).

(** [Some b] is the answer [b]; [None] asks the caller to retry. *)
Definition mgr_lookup (m : cpu_manager P) (key : okey) : res (cpu_manager P * option bool) :=
  counts ← match mg_counts m with
           | Some counts => Some <$> count_key (mg_max_tracker_size m) key counts
           | None => Ok None
           end;
  let m := m <| mg_counts := counts |> in
  Ok (m, match pol_get (mg_policy m) key with
         | None => Some false
         | Some block => if negb (is_ready block) then None else Some true
         end).

Definition incr_ref (b : BlockStatus) : BlockStatus := b <| bs_ref_cnt ::= fun r => wrap32 (r + 1) |>.
Definition decr_ref (b : BlockStatus) : BlockStatus := b <| bs_ref_cnt ::= fun r => wrap32 (r - 1) |>.

Definition mgr_mutate (m : cpu_manager P) (key : okey) (f : BlockStatus → BlockStatus) :
    cpu_manager P :=
  m <| mg_policy ::= fun p => pol_mutate p key f |>.

Definition mgr_load_one (s : cpu_manager P * list Z) (key : okey) : res (cpu_manager P * list Z) :=
  let '(m, ids) := s in
  block ← or_raise AssertionError (pol_get (mg_policy m) key);
  passert (is_ready block);;
  Ok (mgr_mutate m key incr_ref, ids ++ [bs_block_id block]).

Definition mgr_prepare_load (m : cpu_manager P) (keys : list okey) : res (cpu_manager P * list Z) :=
  foldM mgr_load_one (m, []) keys.

Definition mgr_touch (m : cpu_manager P) (keys : list okey) : cpu_manager P :=
  m <| mg_policy ::= fun p => pol_touch p keys |>.

Definition mgr_retain_one (s : cpu_manager P * gset okey) (key : okey) : cpu_manager P * gset okey :=
  let '(m, retained) := s in
  match pol_get (mg_policy m) key with
  | Some block => if is_ready block then (mgr_mutate m key incr_ref, {[key]} ∪ retained) else s
  | None => s
  end.

Definition mgr_retain (m : cpu_manager P) (keys : list okey) : cpu_manager P * gset okey :=
  foldl mgr_retain_one (m, ∅) (remove_dups keys).

(** A block that [release] may decrement. *)
Definition releasable (p : P) (key : okey) : bool :=
  match pol_get p key with Some block => 0 <? bs_ref_cnt block | None => false end.

Definition mgr_release (m : cpu_manager P) (keys : list okey) : res (cpu_manager P) :=
  let keys := remove_dups keys in
  passert (forallb (releasable (mg_policy m)) keys);;
  Ok (foldl (fun m key => mgr_mutate m key decr_ref) m keys).

Definition mgr_complete_load_one (m : cpu_manager P) (key : okey) : res (cpu_manager P) :=
  block ← or_raise AssertionError (pol_get (mg_policy m) key);
  passert (0 <? bs_ref_cnt block);;
  Ok (mgr_mutate m key decr_ref).

Definition mgr_complete_load (m : cpu_manager P) (keys : list okey) : res (cpu_manager P) :=
  foldM mgr_complete_load_one m keys.

Definition mgr_emit (m : cpu_manager P) (keys : list okey) (removed : bool) : cpu_manager P :=
  match keys with
  | [] => m
  | _ => m <| mg_events ::= fmap (fun l => l ++ [mkOffloadingEvent keys cpu_medium removed]) |>
  end.

(** Keys below the store threshold are not stored. *)
Definition counted_keys (m : cpu_manager P) (keys : list okey) : list okey :=
  match mg_counts m with
  | Some counts => filter (fun k => mg_store_threshold m <= default 0 (od_get k counts)) keys
  | None => keys
  end.

(** The second half of [prepare_store]: free the evicted blocks, then allocate
    and insert the blocks to store. *)
Definition mgr_place (m : cpu_manager P) (ev : list (okey * BlockStatus)) (keys_to_store : list okey) :
    res (cpu_manager P * PrepareStoreOutput) :=
  let m := foldl mgr_free_block m ev.*2 in
  let m := mgr_emit m ev.*1 true in
  '(m, blocks) ← mgr_allocate_blocks m keys_to_store;
  passert (bool_decide (length blocks = length keys_to_store));;
  let m := m <| mg_policy ::= fun p =>
    foldl (fun p kb => pol_insert p kb.1 kb.2) p (zip keys_to_store blocks) |> in
  Ok (m, mkPrepareStoreOutput keys_to_store (bs_block_id <$> blocks) ev.*1).

Definition mgr_prepare_store (m : cpu_manager P) (keys : list okey) :
    res (cpu_manager P * option PrepareStoreOutput) :=
  let keys := counted_keys m keys in
  let keys_to_store := filter (fun k => pol_get (mg_policy m) k = None) keys in
  match keys_to_store with
  | [] => Ok (m, Some (mkPrepareStoreOutput [] [] []))
  | _ =>
      let num_blocks_to_evict := lenZ keys_to_store - mgr_num_free_blocks m in
      evicted ←
        (if 0 <? num_blocks_to_evict then
           pol_evict (mg_policy m) num_blocks_to_evict (list_to_set keys)
         else Ok (Some (mg_policy m, [])));
      match evicted with
      | None => Ok (m, None)
      | Some (p, ev) =>
          '(m, o) ← mgr_place (m <| mg_policy := p |>) ev keys_to_store;
          Ok (m, Some o)
      end
  end.

Definition mgr_store_done_one (s : cpu_manager P * list okey) (key : okey) :
    cpu_manager P * list okey :=
  let '(m, stored) := s in
  match pol_get (mg_policy m) key with
  | Some block =>
      if negb (is_ready block) then
        (mgr_mutate m key (fun b => b <| bs_ref_cnt := 0 |>), stored ++ [key])
      else s
  | None => s
  end.

Definition mgr_store_failed_one (m : cpu_manager P) (key : okey) : res (cpu_manager P) :=
  match pol_get (mg_policy m) key with
  | Some block =>
      if negb (is_ready block) then
        p ← pol_remove (mg_policy m) key;
        Ok (mgr_free_block (m <| mg_policy := p |>) block)
      else Ok m
  | None => Ok m
  end.

Definition mgr_complete_store (m : cpu_manager P) (keys : list okey) (success : bool) :
    res (cpu_manager P) :=
  if success then
    let '(m, stored) := foldl mgr_store_done_one (m, []) keys in
    Ok (mgr_emit m stored false)
  else foldM mgr_store_failed_one m keys.

Definition mgr_reset_cache (m : cpu_manager P) : cpu_manager P :=
  m <| mg_policy ::= pol_clear |> <| mg_free_list := [] |> <| mg_num_allocated_blocks := 0 |>.

Definition mgr_take_events (m : cpu_manager P) : cpu_manager P * list OffloadingEvent :=
  (m <| mg_events ::= fmap (fun _ => []) |>, default [] (mg_events m)).

End manager.

#[global] Arguments mgr_mutate : simpl never.

(** ** Slots *)

(** The CPU slots held by the blocks of a policy map. *)
Definition slot_ids (bm : gmap okey BlockStatus) : list Z := bs_block_id <$> (map_to_list bm).*2.

Lemma slot_ids_insert bm k b :
  bm !! k = None → slot_ids (<[k:=b]> bm) ≡ₚ bs_block_id b :: slot_ids bm.
Proof. intros Hk. unfold slot_ids. by rewrite map_to_list_insert. Qed.

Lemma slot_ids_delete bm k b :
  bm !! k = Some b → slot_ids bm ≡ₚ bs_block_id b :: slot_ids (delete k bm).
Proof. intros Hk. unfold slot_ids. by rewrite <- (map_to_list_delete bm k b). Qed.

Lemma slot_ids_alter bm k f :
  (∀ b, bs_block_id (f b) = bs_block_id b) → slot_ids (alter f k bm) ≡ₚ slot_ids bm.
Proof.
  intros Hf. destruct (bm !! k) as [b|] eqn:E.
  - rewrite (slot_ids_delete (alter f k bm) k (f b)) by (by rewrite lookup_alter, decide_True, E).
    rewrite (slot_ids_delete bm k b E), Hf. do 2 f_equiv.
    apply map_eq. intros k'. rewrite !lookup_delete. case_decide; [done|].
    by rewrite lookup_alter_ne.
  - replace (alter f k bm) with bm; [done|]. apply map_eq. intros k'.
    rewrite lookup_alter. case_decide; [subst; by rewrite E|done].
Qed.

Lemma slot_ids_evicted bm n prot ev bm' :
  evicted_from bm n prot ev bm' → slot_ids bm ≡ₚ (bs_block_id <$> ev.*2) ++ slot_ids bm'.
Proof.
  intros [_ Hnd Hfrom _ Hmap]. unfold slot_ids.
  assert (map_to_list bm ≡ₚ ev ++ map_to_list bm') as Hp; [|by rewrite Hp, !fmap_app].
  apply NoDup_Permutation.
  - apply NoDup_map_to_list.
  - apply NoDup_app. split_and!; [by eapply NoDup_fmap_1| |apply NoDup_map_to_list].
    intros [k b] Hin Hin'. apply elem_of_map_to_list in Hin'. rewrite Hmap in Hin'.
    rewrite decide_True in Hin'; [done|]. apply list_elem_of_fmap. by exists (k, b).
  - intros [k b]. rewrite elem_of_app, !elem_of_map_to_list, Hmap. split.
    + intros Hk. case_decide as Hd; [left|by right].
      apply list_elem_of_fmap in Hd as ([k' b'] & -> & Hin). cbn in *.
      pose proof (Hfrom _ _ Hin). by simplify_eq.
    + intros [Hin|Hk]; [by apply Hfrom|]. by case_decide.
Qed.

Lemma elem_of_slot_ids bm k b : bm !! k = Some b → bs_block_id b ∈ slot_ids bm.
Proof.
  intros Hk. unfold slot_ids. apply list_elem_of_fmap. exists b. split; [done|].
  apply list_elem_of_fmap. exists (k, b). split; [done|]. by apply elem_of_map_to_list.
Qed.

(** ** The invariant *)

Section spec.
Context {P : Type} `{CachePolicySpec P}.
Implicit Types m : cpu_manager P.

(** The blocks of a manager, by key. *)
Definition mgr_map (m : cpu_manager P) : gmap okey BlockStatus := pol_map (mg_policy m).

Definition ref_ok (b : BlockStatus) : Prop := -1 <= bs_ref_cnt b < 2 ^ 31.

Record mgr_wf (m : cpu_manager P) : Prop := {
  mwf_pol : pol_wf (mg_policy m);
  mwf_alloc : 0 <= mg_num_allocated_blocks m <= mg_num_blocks m;
  (** every allocated slot is held by exactly one block or is on the free list *)
  mwf_slots : slot_ids (mgr_map m) ++ mg_free_list m ≡ₚ seqZ 0 (mg_num_allocated_blocks m);
  mwf_refs : ∀ k b, mgr_map m !! k = Some b → ref_ok b;
}.

Definition ready_at (bm : gmap okey BlockStatus) (k : okey) : bool :=
  match bm !! k with Some b => is_ready b | None => false end.

(** [m'] is [m] with its policy replaced by one that represents [bm]. *)
Definition with_map (m m' : cpu_manager P) (bm : gmap okey BlockStatus) : Prop :=
  ∃ p, m' = m <| mg_policy := p |> ∧ pol_wf p ∧ pol_map p = bm.

Lemma with_map_refl m : pol_wf (mg_policy m) → with_map m m (mgr_map m).
Proof. intros. exists (mg_policy m). by destruct m. Qed.

Lemma with_map_trans m1 m2 m3 bm2 bm3 :
  with_map m1 m2 bm2 → with_map m2 m3 bm3 → with_map m1 m3 bm3.
Proof. intros (p & -> & ? & ?) (p' & -> & ? & ?). by exists p'. Qed.

Lemma with_map_get m m' bm k : with_map m m' bm → pol_get (mg_policy m') k = bm !! k.
Proof. intros (p & -> & Hwf & <-). cbn. by rewrite pol_get_spec. Qed.

Lemma with_map_map m m' bm : with_map m m' bm → mgr_map m' = bm.
Proof. by intros (p & -> & Hwf & <-). Qed.

Lemma with_map_pol m m' bm : with_map m m' bm → pol_wf (mg_policy m').
Proof. by intros (p & -> & Hwf & <-). Qed.

(** A change of block contents that keeps the slots and the bounds on the counts. *)
Lemma with_map_wf m m' bm :
  mgr_wf m → with_map m m' bm → slot_ids bm ≡ₚ slot_ids (mgr_map m) →
  (∀ k b, bm !! k = Some b → ref_ok b) → mgr_wf m'.
Proof.
  intros [] (p & -> & Hwf & <-) Hs Hr. split; cbn; try done.
  unfold mgr_map; cbn. by rewrite Hs.
Qed.

Lemma mgr_mutate_spec m k f :
  pol_wf (mg_policy m) → with_map m (mgr_mutate m k f) (alter f k (mgr_map m)).
Proof. intros Hwf. exists (pol_mutate (mg_policy m) k f). split; [done|]. by apply pol_mutate_spec. Qed.

(** Applying [f] to the blocks of several distinct keys. *)
Fixpoint alter_all (f : BlockStatus → BlockStatus) (ks : list okey) (bm : gmap okey BlockStatus) :
    gmap okey BlockStatus :=
  match ks with [] => bm | k :: ks => alter_all f ks (alter f k bm) end.

Lemma lookup_alter_all f ks bm k :
  NoDup ks → alter_all f ks bm !! k = if decide (k ∈ ks) then f <$> bm !! k else bm !! k.
Proof.
  revert bm; induction ks as [|k' ks IH]; intros bm Hnd; cbn.
  - by rewrite decide_False by set_solver.
  - apply NoDup_cons in Hnd as [Hn Hnd]. rewrite IH by done.
    rewrite lookup_alter. repeat case_decide; set_solver.
Qed.

Lemma slot_ids_alter_all f ks bm :
  (∀ b, bs_block_id (f b) = bs_block_id b) → slot_ids (alter_all f ks bm) ≡ₚ slot_ids bm.
Proof.
  intros Hf. revert bm; induction ks as [|k ks IH]; intros bm; cbn; [done|].
  by rewrite IH, slot_ids_alter.
Qed.

Lemma foldl_mutate_spec m f ks :
  pol_wf (mg_policy m) →
  with_map m (foldl (fun m k => mgr_mutate m k f) m ks) (alter_all f ks (mgr_map m)).
Proof.
  revert m; induction ks as [|k ks IH]; intros m Hwf; cbn; [by apply with_map_refl|].
  pose proof (mgr_mutate_spec m k f Hwf) as Hm.
  eapply with_map_trans; [exact Hm|]. rewrite <- (with_map_map _ _ _ Hm).
  apply IH. by eapply with_map_pol.
Qed.

Lemma incr_ref_id b : bs_block_id (incr_ref b) = bs_block_id b.
Proof. done. Qed.
Lemma decr_ref_id b : bs_block_id (decr_ref b) = bs_block_id b.
Proof. done. Qed.

Lemma incr_ref_cnt b : -1 <= bs_ref_cnt b < 2 ^ 31 - 1 → bs_ref_cnt (incr_ref b) = bs_ref_cnt b + 1.
Proof. intros. cbn. apply wrap32_id. lia. Qed.
Lemma decr_ref_cnt b : 0 <= bs_ref_cnt b < 2 ^ 31 → bs_ref_cnt (decr_ref b) = bs_ref_cnt b - 1.
Proof. intros. cbn. apply wrap32_id. lia. Qed.

(** *** [retain] and [release] *)

(** The keys [retain] takes: distinct keys whose block is ready. *)
Definition retained_keys (bm : gmap okey BlockStatus) (ks : list okey) : list okey :=
  filter (fun k => ready_at bm k = true) (remove_dups ks).

Lemma ready_at_alter_ne bm k k' f : k ≠ k' → ready_at (alter f k' bm) k = ready_at bm k.
Proof. intros. unfold ready_at. by rewrite lookup_alter_ne. Qed.

Lemma mgr_retain_loop m r ks :
  pol_wf (mg_policy m) → NoDup ks →
  let sel := filter (fun k => ready_at (mgr_map m) k = true) ks in
  with_map m (foldl mgr_retain_one (m, r) ks).1 (alter_all incr_ref sel (mgr_map m)) ∧
  (foldl mgr_retain_one (m, r) ks).2 = list_to_set sel ∪ r.
Proof.
  revert m r; induction ks as [|k ks IH]; intros m r Hwf Hnd; cbn.
  { split; [by apply with_map_refl|set_solver]. }
  apply NoDup_cons in Hnd as [Hn Hnd]. rewrite filter_cons, pol_get_spec by done.
  change (pol_map (mg_policy m)) with (mgr_map m).
  assert (Hskip : ready_at (mgr_map m) k = false →
    with_map m (foldl mgr_retain_one (m, r) ks).1
      (alter_all incr_ref (filter (fun k => ready_at (mgr_map m) k = true) ks) (mgr_map m)) ∧
    (foldl mgr_retain_one (m, r) ks).2 =
      list_to_set (filter (fun k => ready_at (mgr_map m) k = true) ks) ∪ r) by (intros; by apply IH).
  destruct (ready_at (mgr_map m) k) eqn:Er; unfold ready_at in Er;
    destruct (mgr_map m !! k) as [b|] eqn:Ek; try done.
  - rewrite Er, decide_True by done. cbn.
    pose proof (mgr_mutate_spec m k incr_ref Hwf) as Hm.
    destruct (IH _ ({[k]} ∪ r) (with_map_pol _ _ _ Hm) Hnd) as [H1 H2].
    rewrite (with_map_map _ _ _ Hm) in H1, H2.
    rewrite (list_filter_ext_in _ (fun k => ready_at (mgr_map m) k = true)) in H1, H2
      by (intros k' Hk'; rewrite ready_at_alter_ne; [done|set_solver]).
    split; [exact (with_map_trans _ _ _ _ _ Hm H1)|]. rewrite H2. set_solver.
  - rewrite Er, decide_False by done. by apply Hskip.
  - rewrite decide_False by done. by apply Hskip.
Qed.

Lemma mgr_retain_spec m ks :
  pol_wf (mg_policy m) →
  with_map m (mgr_retain m ks).1 (alter_all incr_ref (retained_keys (mgr_map m) ks) (mgr_map m)) ∧
  (mgr_retain m ks).2 = list_to_set (retained_keys (mgr_map m) ks).
Proof.
  intros Hwf. destruct (mgr_retain_loop m ∅ (remove_dups ks) Hwf (NoDup_remove_dups ks)) as [H1 H2].
  split; [exact H1|]. rewrite (right_id_L ∅ (∪)) in H2. exact H2.
Qed.

Lemma mgr_release_spec m ks :
  pol_wf (mg_policy m) →
  if forallb (releasable (mg_policy m)) (remove_dups ks)
  then ∃ m', mgr_release m ks = Ok m' ∧ with_map m m' (alter_all decr_ref (remove_dups ks) (mgr_map m))
  else mgr_release m ks = Err AssertionError.
Proof.
  intros Hwf. unfold mgr_release. destruct (forallb _ _); [|done].
  eexists; split; [done|]. by apply foldl_mutate_spec.
Qed.

(** *** [prepare_store] *)

Lemma foldl_free_block m bs :
  foldl mgr_free_block m bs = m <| mg_free_list := reverse (bs_block_id <$> bs) ++ mg_free_list m |>.
Proof.
  revert m; induction bs as [|b bs IH]; intros m; [by destruct m|].
  cbn [foldl]. by rewrite IH, fmap_cons, reverse_cons, <- app_assoc.
Qed.

Lemma mgr_allocate_spec m ks :
  0 <= mg_num_allocated_blocks m <= mg_num_blocks m →
  lenZ ks <= mgr_num_free_blocks m →
  ∃ ids alloc free,
    mgr_allocate_blocks m ks =
      Ok (m <| mg_num_allocated_blocks := alloc |> <| mg_free_list := free |>,
          new_block_status <$> ids) ∧
    length ids = length ks ∧ 0 <= alloc <= mg_num_blocks m ∧
    ∀ held, held ++ mg_free_list m ≡ₚ seqZ 0 (mg_num_allocated_blocks m) →
      (ids ++ held) ++ free ≡ₚ seqZ 0 alloc.
Proof.
  intros Ha Hn. unfold mgr_allocate_blocks, mgr_num_free_blocks in *.
  set (nf := Z.min (lenZ ks) (mg_num_blocks m - mg_num_allocated_blocks m)).
  set (nr := lenZ ks - nf).
  assert (0 <= nf ∧ 0 <= nr <= lenZ (mg_free_list m)) as [Hnf Hnr] by lia.
  rewrite (proj2 (Z.leb_le _ _)) by lia. cbn.
  exists (seqZ (mg_num_allocated_blocks m) nf ++ take (Z.to_nat nr) (mg_free_list m)),
         (nf + mg_num_allocated_blocks m), (drop (Z.to_nat nr) (mg_free_list m)).
  rewrite fmap_app, (Z.max_r 0 nf) by lia. split_and!.
  - done.
  - rewrite length_app, length_seqZ, length_take. lia.
  - lia.
  - lia.
  - intros held Hp. rewrite Z.add_comm, seqZ_app by lia. rewrite Z.add_0_l, <- Hp.
    rewrite <- (take_drop (Z.to_nat nr) (mg_free_list m)) at 3. solve_Permutation.
Qed.

Lemma foldl_insert_spec p ks ids :
  pol_wf p → NoDup ks → length ids = length ks → (∀ k, k ∈ ks → pol_map p !! k = None) →
  let p' := foldl (fun p kb => pol_insert p kb.1 kb.2) p (zip ks (new_block_status <$> ids)) in
  pol_wf p' ∧ slot_ids (pol_map p') ≡ₚ ids ++ slot_ids (pol_map p) ∧
  (∀ k, k ∉ ks → pol_map p' !! k = pol_map p !! k) ∧
  (∀ i k, ks !! i = Some k → ∃ id, ids !! i = Some id ∧ pol_map p' !! k = Some (new_block_status id)).
Proof.
  revert p ids; induction ks as [|k ks IH]; intros p [|id ids] Hwf Hnd Hlen Hnone; cbn in *; try done.
  apply NoDup_cons in Hnd as [Hn Hnd].
  destruct (pol_insert_spec p k (new_block_status id)) as [Hwf1 Hm1]; [done|apply Hnone; set_solver|].
  destruct (IH (pol_insert p k (new_block_status id)) ids) as (H1 & H2 & H3 & H4); try done.
  { lia. }
  { intros k' Hk'. rewrite Hm1, lookup_insert_ne by set_solver. apply Hnone. set_solver. }
  split_and!; [done| | |].
  - rewrite H2, Hm1, slot_ids_insert by (apply Hnone; set_solver). cbn. solve_Permutation.
  - intros k' Hk'. rewrite H3 by set_solver. rewrite Hm1, lookup_insert_ne by set_solver. done.
  - intros [|i] k' Hk'; cbn in *.
    + simplify_eq. exists id. split; [done|]. rewrite H3 by done. by rewrite Hm1, lookup_insert_eq.
    + apply H4, Hk'.
Qed.

(** What a successful [prepare_store] has done. *)
Record stored (m : cpu_manager P) (keys : list okey) (m' : cpu_manager P) (o : PrepareStoreOutput) :
    Prop := {
  st_keys : ps_keys_to_store o = filter (fun k => mgr_map m !! k = None) (counted_keys m keys);
  st_wf : mgr_wf m';
  (** every stored key gets a slot of its own, not yet ready *)
  st_new : ∀ i k, ps_keys_to_store o !! i = Some k →
    ∃ id, ps_store_spec o !! i = Some id ∧ mgr_map m' !! k = Some (new_block_status id);
  st_len : length (ps_store_spec o) = length (ps_keys_to_store o);
  st_fresh : NoDup (ps_store_spec o);
  (** all other keys keep their block, the evicted ones excepted *)
  st_old : ∀ k, k ∉ ps_keys_to_store o →
    mgr_map m' !! k = if decide (k ∈ ps_evicted_keys o) then None else mgr_map m !! k;
  (** evicted blocks were unpinned, ready and not among the keys *)
  st_evicted : ∀ k, k ∈ ps_evicted_keys o →
    k ∉ counted_keys m keys ∧ ∃ b, mgr_map m !! k = Some b ∧ bs_ref_cnt b = 0;
}.

Lemma NoDup_counted m keys : NoDup keys → NoDup (counted_keys m keys).
Proof. intros. unfold counted_keys. destruct (mg_counts m); [by apply NoDup_filter|done]. Qed.

Lemma mgr_wf_slots_nodup m : mgr_wf m → NoDup (slot_ids (mgr_map m) ++ mg_free_list m).
Proof. intros []. rewrite mwf_slots0. apply NoDup_seqZ. Qed.

Lemma mgr_place_spec m keys ks p ev n prot :
  mgr_wf m → NoDup keys → ks = filter (fun k => mgr_map m !! k = None) (counted_keys m keys) →
  pol_wf p → evicted_from (mgr_map m) n prot ev (pol_map p) →
  (∀ k, k ∈ ev.*1 → k ∉ counted_keys m keys) →
  lenZ ks <= mgr_num_free_blocks m + n →
  ∃ m' o, mgr_place (m <| mg_policy := p |>) ev ks = Ok (m', o) ∧ stored m keys m' o.
Proof.
  intros Hwf Hnd Hks Hp Hev Hprot Hlen. pose proof Hwf as []. unfold mgr_place.
  set (m1 := mgr_emit _ _ _).
  assert (m1 = m <| mg_policy := p |> <| mg_events := mg_events m1 |>
                 <| mg_free_list := reverse (bs_block_id <$> ev.*2) ++ mg_free_list m |>) as Hm1.
  { unfold m1. rewrite foldl_free_block. unfold mgr_emit. by destruct ev.*1. }
  set (fl := reverse _ ++ _) in Hm1.
  assert (lenZ fl = n + lenZ (mg_free_list m)) as Hfl.
  { unfold fl. rewrite length_app, length_reverse, !length_fmap. pose proof (ev_count _ _ _ _ _ Hev). lia. }
  assert (NoDup ks) as Hndk by (rewrite Hks; apply NoDup_filter; by apply NoDup_counted).
  destruct (mgr_allocate_spec m1 ks) as (ids & alloc & free & -> & Hids & Halloc & Hperm).
  { by rewrite Hm1. }
  { unfold mgr_num_free_blocks in *. rewrite Hm1. cbn. lia. }
  cbn. rewrite length_fmap, bool_decide_eq_true_2 by done. cbn. rewrite Hm1. cbn.
  assert (∀ k, k ∈ ks → pol_map p !! k = None) as Hnone.
  { intros k Hk. rewrite (ev_map _ _ _ _ _ Hev). case_decide; [done|].
    rewrite Hks in Hk. by apply list_elem_of_filter in Hk as [? _]. }
  destruct (foldl_insert_spec p ks ids Hp Hndk Hids Hnone) as (Hwf' & Hslots & Hold & Hnew).
  set (p' := foldl _ p _) in *.
  assert (slot_ids (pol_map p') ++ free ≡ₚ seqZ 0 alloc) as Hs.
  { rewrite Hslots. apply Hperm. rewrite Hm1. cbn. rewrite <- mwf_slots0.
    rewrite (slot_ids_evicted _ _ _ _ _ Hev). unfold fl. rewrite reverse_Permutation.
    solve_Permutation. }
  do 2 eexists; split; [done|]. rewrite <- list_fmap_compose.
  rewrite (list_fmap_ext (bs_block_id ∘ new_block_status) id) by done. rewrite list_fmap_id.
  split; cbn; try done.
  - split; cbn; try done.
    + rewrite Hm1 in Halloc. exact Halloc.
    + intros k b. change (pol_map p' !! k = Some b → ref_ok b). destruct (decide (k ∈ ks)) as [Hk|Hk].
      * apply list_elem_of_lookup in Hk as [i Hi]. destruct (Hnew i k Hi) as (id & _ & ->).
        intros [= <-]. unfold ref_ok. cbn. lia.
      * rewrite Hold, (ev_map _ _ _ _ _ Hev) by done. case_decide; [done|]. apply mwf_refs0.
  - pose proof (NoDup_seqZ 0 alloc) as Hn. rewrite <- Hs, Hslots, <- app_assoc in Hn.
    by apply NoDup_app in Hn as [? _].
  - intros k Hk. change (mgr_map _ !! k) with (pol_map p' !! k) at 1. rewrite Hold by done. apply (ev_map _ _ _ _ _ Hev).
  - intros k Hk. split; [by apply Hprot|].
    apply list_elem_of_fmap in Hk as ([k' b] & -> & Hin). exists b.
    split; [by apply (ev_from _ _ _ _ _ Hev)|].
    pose proof (ev_free _ _ _ _ _ Hev _ _ Hin) as He. unfold evictable in He.
    apply andb_true_iff in He as [He _]. by apply bool_decide_eq_true in He.
Qed.

Lemma evicted_unprotected bm n prot ev bm' k :
  evicted_from bm n prot ev bm' → k ∈ ev.*1 → k ∉ prot.
Proof.
  intros Hev Hk. apply list_elem_of_fmap in Hk as ([k' b] & -> & Hin).
  pose proof (ev_free _ _ _ _ _ Hev _ _ Hin) as He. unfold evictable in He.
  apply andb_true_iff in He as [_ He]. by apply bool_decide_eq_true in He.
Qed.

(** The outcomes of [prepare_store]: only the policy's [evict] can raise. *)
Lemma mgr_prepare_store_outcome m keys :
  mgr_wf m → NoDup keys →
  match mgr_prepare_store m keys with
  | Ok (m', None) => m' = m
  | Ok (m', Some o) => stored m keys m' o
  | Err e => ∃ n, 0 < n ∧ pol_evict (mg_policy m) n (list_to_set (counted_keys m keys)) = Err e
  end.
Proof.
  intros Hwf Hnd. pose proof Hwf as []. unfold mgr_prepare_store.
  rewrite (list_filter_ext_in _ (fun k => mgr_map m !! k = None))
    by (intros; by rewrite pol_get_spec).
  destruct (filter _ _) as [|k0 ks0] eqn:Eks.
  { split; cbn; try done; [constructor|]. intros k Hk. by apply elem_of_nil in Hk. }
  set (ks := k0 :: ks0) in *. destruct (0 <? lenZ ks - mgr_num_free_blocks m) eqn:En.
  - apply Z.ltb_lt in En. destruct (pol_evict _ _ _) as [[[p ev]|]|e] eqn:He; cbn; [|done|by eauto].
    apply pol_evict_spec in He as [Hp Hev]; [|done|lia].
    destruct (mgr_place_spec m keys ks p ev _ _ Hwf Hnd (eq_sym Eks) Hp Hev) as (m' & o & -> & Ho).
    { intros k Hk. pose proof (evicted_unprotected _ _ _ _ _ _ Hev Hk). set_solver. }
    { lia. }
    done.
  - apply Z.ltb_ge in En. cbn.
    destruct (mgr_place_spec m keys ks (mg_policy m) [] 0 ∅ Hwf Hnd (eq_sym Eks) mwf_pol0)
      as (m' & o & Heq & Ho).
    { split; cbn; try set_solver by constructor. }
    { set_solver. }
    { lia. }
    replace (m <| mg_policy := mg_policy m |>) with m in * by by destruct m. by rewrite Heq.
Qed.

Lemma mgr_prepare_store_spec m keys r :
  mgr_wf m → NoDup keys → mgr_prepare_store m keys = Ok r →
  match r.2 with None => r.1 = m | Some o => stored m keys r.1 o end.
Proof.
  intros Hwf Hnd Hr. pose proof (mgr_prepare_store_outcome m keys Hwf Hnd) as Ho.
  rewrite Hr in Ho. by destruct r as [? []].
Qed.

(** *** [prepare_load] and [complete_load] *)

Definition slot_of (bm : gmap okey BlockStatus) (k : okey) : Z :=
  from_option bs_block_id 0 (bm !! k).

Lemma mgr_prepare_load_loop m ids ks :
  pol_wf (mg_policy m) → NoDup ks → (∀ k, k ∈ ks → ready_at (mgr_map m) k = true) →
  ∃ m', foldM mgr_load_one (m, ids) ks = Ok (m', ids ++ (slot_of (mgr_map m) <$> ks)) ∧
    with_map m m' (alter_all incr_ref ks (mgr_map m)).
Proof.
  revert m ids; induction ks as [|k ks IH]; intros m ids Hwf Hnd Hready; cbn.
  { exists m. rewrite (right_id_L [] (++)). split; [done|by apply with_map_refl]. }
  apply NoDup_cons in Hnd as [Hn Hnd]. pose proof (Hready k ltac:(set_solver)) as Hk.
  pose proof (mgr_mutate_spec m k incr_ref Hwf) as Hm.
  rewrite pol_get_spec by done. change (pol_map (mg_policy m)) with (mgr_map m).
  unfold ready_at in Hk. unfold slot_of at 1. destruct (mgr_map m !! k) as [b|]; [|done]. cbn. rewrite Hk. cbn.
  destruct (IH (mgr_mutate m k incr_ref) (ids ++ [bs_block_id b])) as (m' & Hf & Hm').
  { by eapply with_map_pol. }
  { done. }
  { intros k' Hk'. rewrite (with_map_map _ _ _ Hm), ready_at_alter_ne by set_solver.
    apply Hready. set_solver. }
  rewrite (with_map_map _ _ _ Hm) in Hf, Hm'. exists m'. rewrite Hf, <- app_assoc. split.
  - do 3 f_equal. cbn. f_equal. apply list_fmap_ext. intros i k' Hk'. unfold slot_of.
    rewrite lookup_alter_ne; [done|]. apply list_elem_of_lookup_2 in Hk'. set_solver.
  - exact (with_map_trans _ _ _ _ _ Hm Hm').
Qed.

Lemma mgr_prepare_load_ready m ks r :
  pol_wf (mg_policy m) → NoDup ks → mgr_prepare_load m ks = Ok r →
  ∀ k, k ∈ ks → ready_at (mgr_map m) k = true.
Proof.
  unfold mgr_prepare_load. generalize (@nil Z). revert m.
  induction ks as [|k ks IH]; intros m ids Hwf Hnd Hr k' Hk'; [set_solver|].
  apply NoDup_cons in Hnd as [Hn Hnd]. cbn in Hr. inv_res.
  pose proof (mgr_mutate_spec m k incr_ref Hwf) as Hm.
  match goal with Hg : pol_get _ _ = Some _ |- _ => rewrite pol_get_spec in Hg by done; rename Hg into Hget end.
  apply elem_of_cons in Hk' as [->|Hk'].
  - unfold ready_at. change (pol_map (mg_policy m)) with (mgr_map m) in Hget. by rewrite Hget.
  - assert (k' ≠ k) by set_solver.
    rewrite <- (ready_at_alter_ne _ k' k incr_ref), <- (with_map_map _ _ _ Hm) by done.
    eapply IH; [by eapply with_map_pol|done|done|done].
Qed.

Lemma mgr_complete_load_spec m ks :
  pol_wf (mg_policy m) → NoDup ks → (∀ k, k ∈ ks → releasable (mg_policy m) k = true) →
  ∃ m', mgr_complete_load m ks = Ok m' ∧ with_map m m' (alter_all decr_ref ks (mgr_map m)).
Proof.
  unfold mgr_complete_load. revert m; induction ks as [|k ks IH]; intros m Hwf Hnd Hrel; cbn.
  { exists m. split; [done|by apply with_map_refl]. }
  apply NoDup_cons in Hnd as [Hn Hnd]. pose proof (Hrel k ltac:(set_solver)) as Hk.
  pose proof (mgr_mutate_spec m k decr_ref Hwf) as Hm. unfold mgr_complete_load_one.
  unfold releasable in Hk. destruct (pol_get (mg_policy m) k) as [b|] eqn:Eb; [|done].
  cbn. rewrite Hk. cbn. destruct (IH (mgr_mutate m k decr_ref)) as (m' & Hf & Hm').
  { by eapply with_map_pol. }
  { done. }
  { intros k' Hk'. specialize (Hrel k' ltac:(set_solver)). unfold releasable in *.
    rewrite (with_map_get _ _ _ _ Hm), lookup_alter_ne by set_solver.
    by rewrite pol_get_spec in Hrel by done. }
  rewrite (with_map_map _ _ _ Hm) in Hm'. exists m'. split; [done|].
  exact (with_map_trans _ _ _ _ _ Hm Hm').
Qed.

Lemma mgr_complete_load_releasable m ks m' :
  pol_wf (mg_policy m) → NoDup ks → mgr_complete_load m ks = Ok m' →
  ∀ k, k ∈ ks → releasable (mg_policy m) k = true.
Proof.
  unfold mgr_complete_load. revert m.
  induction ks as [|k ks IH]; intros m Hwf Hnd Hr k' Hk'; [set_solver|].
  apply NoDup_cons in Hnd as [Hn Hnd]. cbn in Hr.
  apply bind_Ok in Hr as (m1 & Hone & Hr). unfold mgr_complete_load_one in Hone. inv_res.
  pose proof (mgr_mutate_spec m k decr_ref Hwf) as Hm. unfold releasable.
  apply elem_of_cons in Hk' as [->|Hk']; [by repeat case_match; simplify_eq|].
  assert (k' ≠ k) by set_solver.
  specialize (IH _ (with_map_pol _ _ _ Hm) Hnd ltac:(eassumption) k' Hk'). unfold releasable in IH.
  rewrite (with_map_get _ _ _ _ Hm), lookup_alter_ne in IH by done.
  by rewrite pol_get_spec.
Qed.

(** *** [complete_store] *)

Definition make_ready (b : BlockStatus) : BlockStatus :=
  if is_ready b then b else b <| bs_ref_cnt := 0 |>.

Lemma make_ready_idem b : make_ready (make_ready b) = make_ready b.
Proof. unfold make_ready. destruct (is_ready b) eqn:E; cbn; by rewrite ?E. Qed.

Lemma lookup_alter_all_idem f ks bm k :
  (∀ b, f (f b) = f b) →
  alter_all f ks bm !! k = if decide (k ∈ ks) then f <$> bm !! k else bm !! k.
Proof.
  intros Hf. revert bm; induction ks as [|k' ks IH]; intros bm; cbn.
  - by rewrite decide_False by set_solver.
  - rewrite IH, lookup_alter. destruct (decide (k' = k)) as [->|Hne].
    + rewrite (decide_True (P := k ∈ k :: ks)) by constructor. case_decide; [|done].
      destruct (bm !! k); cbn; by rewrite ?Hf.
    + rewrite (decide_ext (k ∈ k' :: ks) (k ∈ ks)); [done|]. rewrite elem_of_cons. naive_solver.
Qed.

Lemma mgr_store_done_loop m acc ks :
  pol_wf (mg_policy m) →
  with_map m (foldl mgr_store_done_one (m, acc) ks).1 (alter_all make_ready ks (mgr_map m)).
Proof.
  revert m acc; induction ks as [|k ks IH]; intros m acc Hwf; cbn; [by apply with_map_refl|].
  assert (Hnop : alter make_ready k (mgr_map m) = mgr_map m →
    with_map m (foldl mgr_store_done_one (m, acc) ks).1
      (alter_all make_ready ks (alter make_ready k (mgr_map m)))) by (intros ->; by apply IH).
  rewrite pol_get_spec by done. change (pol_map (mg_policy m)) with (mgr_map m).
  destruct (mgr_map m !! k) as [b|] eqn:Ek.
  2: { apply Hnop, map_eq. intros k'. rewrite lookup_alter. case_decide; [subst; by rewrite Ek|done]. }
  destruct (is_ready b) eqn:Er; cbn.
  - apply Hnop, map_eq. intros k'. rewrite lookup_alter. case_decide; [subst|done]. rewrite Ek. cbn.
    unfold make_ready. by rewrite Er.
  - pose proof (mgr_mutate_spec m k (fun b => b <| bs_ref_cnt := 0 |>) Hwf) as Hm.
    replace (alter make_ready k (mgr_map m))
      with (alter (fun b => b <| bs_ref_cnt := 0 |>) k (mgr_map m)).
    + eapply with_map_trans; [exact Hm|]. rewrite <- (with_map_map _ _ _ Hm).
      apply IH. by eapply with_map_pol.
    + apply map_eq. intros k'. rewrite !lookup_alter. case_decide; [subst|done]. rewrite Ek. cbn.
      unfold make_ready. by rewrite Er.
Qed.

Lemma mgr_emit_wf m ks r : mgr_wf m → mgr_wf (mgr_emit m ks r).
Proof. intros []. unfold mgr_emit. destruct ks; by split. Qed.

Lemma mgr_emit_map m ks r : mgr_map (mgr_emit m ks r) = mgr_map m.
Proof. unfold mgr_emit. by destruct ks. Qed.

Lemma ref_ok_make_ready b : ref_ok b → ref_ok (make_ready b).
Proof. unfold make_ready, ref_ok. destruct (is_ready b); cbn; lia. Qed.

Lemma mgr_complete_store_done m ks :
  mgr_wf m → ∃ m', mgr_complete_store m ks true = Ok m' ∧ mgr_wf m' ∧
    ∀ k, mgr_map m' !! k = if decide (k ∈ ks) then make_ready <$> mgr_map m !! k else mgr_map m !! k.
Proof.
  intros Hwf. pose proof Hwf as []. unfold mgr_complete_store.
  pose proof (mgr_store_done_loop m [] ks mwf_pol0) as Hm.
  destruct (foldl mgr_store_done_one (m, []) ks) as [m1 stored]. cbn in Hm.
  pose proof (fun k => lookup_alter_all_idem make_ready ks (mgr_map m) k make_ready_idem) as Hl.
  eexists; split; [done|]. split.
  - apply mgr_emit_wf. eapply with_map_wf; [done|done| |].
    + apply slot_ids_alter_all. intros b. unfold make_ready. by destruct (is_ready b).
    + intros k b. rewrite Hl. case_decide; [|by apply mwf_refs0].
      intros (b' & Hb & ->)%fmap_Some. by eapply ref_ok_make_ready, mwf_refs0.
  - intros k. by rewrite mgr_emit_map, (with_map_map _ _ _ Hm), Hl.
Qed.

Lemma mgr_store_failed_step m k :
  mgr_wf m → ∃ m', mgr_store_failed_one m k = Ok m' ∧ mgr_wf m' ∧
    ∀ k', mgr_map m' !! k' =
      if decide (k' = k) then (if ready_at (mgr_map m) k then mgr_map m !! k else None)
      else mgr_map m !! k'.
Proof.
  intros Hwf. pose proof Hwf as []. unfold mgr_store_failed_one, ready_at. rewrite pol_get_spec by done.
  change (pol_map (mg_policy m)) with (mgr_map m). destruct (mgr_map m !! k) as [b|] eqn:Ek.
  2: { exists m. split_and!; [done..|]. intros k'. case_decide; [by subst|done]. }
  destruct (is_ready b) eqn:Er; cbn.
  { exists m. split_and!; [done..|]. intros k'. case_decide; [by subst|done]. }
  destruct (pol_remove_spec (mg_policy m) k) as (p & -> & Hp & Hpm); [done|by exists b|]. cbn.
  eexists; split; [done|]. split.
  - split; cbn; try done.
    + change (slot_ids (pol_map p) ++ bs_block_id b :: mg_free_list m
        ≡ₚ seqZ 0 (mg_num_allocated_blocks m)).
      rewrite Hpm. change (pol_map (mg_policy m)) with (mgr_map m). rewrite <- mwf_slots0.
      rewrite (slot_ids_delete (mgr_map m) k b Ek). solve_Permutation.
    + intros k' b'. change (pol_map p !! k' = Some b' → ref_ok b').
      rewrite Hpm, lookup_delete. case_decide; [done|]. apply mwf_refs0.
  - intros k'. change (pol_map p !! k' = if decide (k' = k) then None else mgr_map m !! k').
    rewrite Hpm, lookup_delete. repeat case_decide; by try congruence.
Qed.

Lemma mgr_complete_store_failed m ks :
  mgr_wf m → ∃ m', mgr_complete_store m ks false = Ok m' ∧ mgr_wf m' ∧
    ∀ k, mgr_map m' !! k =
      if decide (k ∈ ks) then (if ready_at (mgr_map m) k then mgr_map m !! k else None)
      else mgr_map m !! k.
Proof.
  unfold mgr_complete_store. revert m; induction ks as [|k ks IH]; intros m Hwf; cbn.
  { exists m. split_and!; [done..|]. intros k. by rewrite decide_False by set_solver. }
  destruct (mgr_store_failed_step m k Hwf) as (m1 & -> & Hwf1 & Hm1). cbn.
  destruct (IH m1 Hwf1) as (m' & -> & Hwf' & Hm'). exists m'. split_and!; [done..|]. intros k'.
  rewrite Hm', Hm1. unfold ready_at at 1. rewrite Hm1.
  destruct (decide (k' = k)) as [->|Hne].
  - rewrite (decide_True (P := k ∈ k :: ks)) by constructor. unfold ready_at.
    destruct (mgr_map m !! k) as [b|]; [|by case_decide].
    destruct (is_ready b) eqn:E; case_decide; by rewrite ?E.
  - rewrite (decide_ext (k' ∈ k :: ks) (k' ∈ ks)); [done|]. rewrite elem_of_cons. naive_solver.
Qed.

Lemma mgr_reset_cache_spec m :
  mgr_wf m → mgr_wf (mgr_reset_cache m) ∧ mgr_map (mgr_reset_cache m) = ∅ ∧
    mgr_num_free_blocks (mgr_reset_cache m) = mg_num_blocks m.
Proof.
  intros []. destruct (pol_clear_spec (mg_policy m) mwf_pol0) as [Hc Hm].
  assert (mgr_map (mgr_reset_cache m) = ∅) as Hmap by exact Hm. split_and!.
  - split; rewrite ?Hmap; cbn; try done; lia.
  - done.
  - unfold mgr_num_free_blocks. cbn. lia.
Qed.

(** *** Bounds on the reference counts *)

(** Every block still has room for one more reference. *)
Definition ref_room (bm : gmap okey BlockStatus) : Prop :=
  map_Forall (fun _ b => bs_ref_cnt b < 2 ^ 31 - 1) bm.
#[global] Instance ref_room_dec bm : Decision (ref_room bm).
Proof. unfold ref_room. apply _. Defined.

Lemma ref_room_lookup bm k b : ref_room bm → bm !! k = Some b → bs_ref_cnt b < 2 ^ 31 - 1.
Proof. intros Hr. apply (Hr k b). Qed.

Lemma alter_all_incr_ref_ok bm ks :
  NoDup ks → ref_room bm → (∀ k b, bm !! k = Some b → ref_ok b) →
  ∀ k b, alter_all incr_ref ks bm !! k = Some b → ref_ok b.
Proof.
  intros Hnd Hroom Hok k b. rewrite lookup_alter_all by done. case_decide; [|by apply Hok].
  intros (b' & Hb & ->)%fmap_Some. pose proof (ref_room_lookup _ _ _ Hroom Hb). pose proof (Hok _ _ Hb) as Hr.
  unfold ref_ok in *. rewrite incr_ref_cnt; lia.
Qed.

Lemma alter_all_decr_ref_ok bm ks :
  NoDup ks → (∀ k b, bm !! k = Some b → ref_ok b) →
  (∀ k b, k ∈ ks → bm !! k = Some b → 0 < bs_ref_cnt b) →
  ∀ k b, alter_all decr_ref ks bm !! k = Some b → ref_ok b.
Proof.
  intros Hnd Hok Hpos k b. rewrite lookup_alter_all by done. case_decide as Hk; [|by apply Hok].
  intros (b' & Hb & ->)%fmap_Some. pose proof (Hpos _ _ Hk Hb). pose proof (Hok _ _ Hb) as Hr.
  unfold ref_ok in *. rewrite decr_ref_cnt; lia.
Qed.

Lemma alter_all_decr_incr bm ks :
  NoDup ks → ref_room bm → (∀ k b, bm !! k = Some b → ref_ok b) →
  alter_all decr_ref ks (alter_all incr_ref ks bm) = bm.
Proof.
  intros Hnd Hroom Hok. apply map_eq. intros k. rewrite !lookup_alter_all by done.
  case_decide; [|done]. destruct (bm !! k) as [[r id]|] eqn:Ek; [|done]. cbn. f_equal.
  pose proof (ref_room_lookup _ _ _ Hroom Ek). pose proof (Hok _ _ Ek) as Hr. unfold ref_ok in Hr. cbn in *.
  change (mkBlockStatus (wrap32 (wrap32 (r + 1) - 1)) id = mkBlockStatus r id). f_equal.
  rewrite (wrap32_id (r + 1)), wrap32_id; lia.
Qed.

Lemma releasable_spec m k :
  pol_wf (mg_policy m) → releasable (mg_policy m) k = true ↔
    ∃ b, mgr_map m !! k = Some b ∧ 0 < bs_ref_cnt b.
Proof.
  intros Hwf. unfold releasable. rewrite pol_get_spec by done.
  change (pol_map (mg_policy m)) with (mgr_map m). destruct (mgr_map m !! k) as [b|].
  - rewrite Z.ltb_lt. naive_solver.
  - naive_solver.
Qed.

Lemma forallb_releasable m ks :
  forallb (releasable (mg_policy m)) ks = true ↔ ∀ k, k ∈ ks → releasable (mg_policy m) k = true.
Proof. rewrite forallb_forall. by setoid_rewrite list_elem_of_In. Qed.

Lemma mgr_decr_wf m m' ks :
  mgr_wf m → NoDup ks → (∀ k, k ∈ ks → releasable (mg_policy m) k = true) →
  with_map m m' (alter_all decr_ref ks (mgr_map m)) → mgr_wf m'.
Proof.
  intros Hwf Hnd Hrel Hm. pose proof Hwf as [].
  eapply with_map_wf; [done..|by apply slot_ids_alter_all|].
  apply alter_all_decr_ref_ok; [done..|]. intros k b Hk Hb.
  apply Hrel, releasable_spec in Hk as (b' & ? & ?); [|done]. by simplify_eq.
Qed.

Lemma mgr_incr_wf m m' ks :
  mgr_wf m → NoDup ks → ref_room (mgr_map m) →
  with_map m m' (alter_all incr_ref ks (mgr_map m)) → mgr_wf m'.
Proof.
  intros Hwf Hnd Hroom Hm. pose proof Hwf as [].
  eapply with_map_wf; [done..|by apply slot_ids_alter_all|].
  by apply alter_all_incr_ref_ok.
Qed.

(** Every slot is either held by a block or available. *)
Lemma mgr_wf_conservation m :
  mgr_wf m → Z.of_nat (size (mgr_map m)) + mgr_num_free_blocks m = mg_num_blocks m.
Proof.
  intros []. apply Permutation_length in mwf_slots0. unfold mgr_num_free_blocks.
  rewrite length_app, length_seqZ in mwf_slots0. unfold slot_ids in mwf_slots0.
  rewrite !length_fmap, length_map_to_list in mwf_slots0. lia.
Qed.

(** ** Operations as steps *)

Inductive mgr_op :=
  | OpLookup (key : okey)
  | OpPrepareLoad (keys : list okey)
  | OpCompleteLoad (keys : list okey)
  | OpTouch (keys : list okey)
  | OpRetain (keys : list okey)
  | OpRelease (keys : list okey)
  | OpPrepareStore (keys : list okey)
  | OpCompleteStore (keys : list okey) (success : bool)
  | OpResetCache
  | OpTakeEvents.

Definition mgr_apply (m : cpu_manager P) (op : mgr_op) : res (cpu_manager P) :=
  match op with
  | OpLookup key => fst <$> mgr_lookup m key
  | OpPrepareLoad keys => fst <$> mgr_prepare_load m keys
  | OpCompleteLoad keys => mgr_complete_load m keys
  | OpTouch keys => Ok (mgr_touch m keys)
  | OpRetain keys => Ok (mgr_retain m keys).1
  | OpRelease keys => mgr_release m keys
  | OpPrepareStore keys => fst <$> mgr_prepare_store m keys
  | OpCompleteStore keys success => mgr_complete_store m keys success
  | OpResetCache => Ok (mgr_reset_cache m)
  | OpTakeEvents => Ok (mgr_take_events m).1
  end.

(** What the callers of an operation ensure: keys are distinct, and no count is
    about to leave the 32-bit range. *)
Definition op_pre (m : cpu_manager P) (op : mgr_op) : Prop :=
  match op with
  | OpPrepareLoad keys => NoDup keys ∧ ref_room (mgr_map m)
  | OpCompleteLoad keys => NoDup keys
  | OpRetain keys => ref_room (mgr_map m)
  | OpPrepareStore keys => NoDup keys
  | _ => True
  end.

#[global] Instance op_pre_dec m op : Decision (op_pre m op).
Proof. destruct op; cbn; apply _. Defined.

(** Run operations that satisfy their preconditions. *)
Fixpoint mgr_run (m : cpu_manager P) (ops : list mgr_op) : option (cpu_manager P) :=
  match ops with
  | [] => Some m
  | op :: ops =>
      if bool_decide (op_pre m op) then
        match mgr_apply m op with Ok m => mgr_run m ops | Err _ => None end
      else None
  end.

Lemma fmap_Ok {A B} (f : A → B) (r : res A) b : f <$> r = Ok b ↔ ∃ a, r = Ok a ∧ b = f a.
Proof. destruct r; cbn; naive_solver. Qed.

Lemma mgr_lookup_wf m k r : mgr_wf m → mgr_lookup m k = Ok r → mgr_wf r.1.
Proof.
  intros [] Hr. unfold mgr_lookup in Hr. apply bind_Ok in Hr as (c & _ & Hr). injection Hr as <-.
  by split.
Qed.

Lemma mgr_touch_wf m ks : mgr_wf m → mgr_wf (mgr_touch m ks).
Proof.
  intros Hwf. destruct (pol_touch_spec (mg_policy m) ks (mwf_pol _ Hwf)) as [Hp Hm].
  apply (with_map_wf m _ (mgr_map m)); [done| |done|apply (mwf_refs _ Hwf)].
  by exists (pol_touch (mg_policy m) ks).
Qed.

(** Every operation preserves the invariant. *)
Lemma mgr_apply_wf m op m' : mgr_wf m → op_pre m op → mgr_apply m op = Ok m' → mgr_wf m'.
Proof.
  intros Hwf Hpre Hr. pose proof (mwf_pol _ Hwf) as Hp. destruct op; cbn in Hpre, Hr.
  - apply fmap_Ok in Hr as (r & Hr & ->). by eapply mgr_lookup_wf.
  - destruct Hpre as [Hnd Hroom]. apply fmap_Ok in Hr as (r & Hr & ->).
    pose proof (mgr_prepare_load_ready _ _ _ Hp Hnd Hr) as Hready.
    destruct (mgr_prepare_load_loop m [] keys Hp Hnd Hready) as (m' & Heq & Hm).
    unfold mgr_prepare_load in Hr. rewrite Heq in Hr. injection Hr as <-. by eapply mgr_incr_wf.
  - pose proof (mgr_complete_load_releasable _ _ _ Hp Hpre Hr) as Hrel.
    destruct (mgr_complete_load_spec m keys Hp Hpre Hrel) as (m1 & Heq & Hm).
    rewrite Heq in Hr. injection Hr as <-. by eapply mgr_decr_wf.
  - injection Hr as <-. by apply mgr_touch_wf.
  - injection Hr as <-. eapply mgr_incr_wf; [done| |done|apply mgr_retain_spec, Hp].
    apply NoDup_filter, NoDup_remove_dups.
  - pose proof (mgr_release_spec m keys Hp) as Hs. destruct (forallb _ _) eqn:Ef.
    + destruct Hs as (m1 & Heq & Hm). rewrite Heq in Hr. injection Hr as <-.
      eapply mgr_decr_wf; [done|apply NoDup_remove_dups| |done]. by apply forallb_releasable.
    + by rewrite Hs in Hr.
  - apply fmap_Ok in Hr as (r & Hr & ->). pose proof (mgr_prepare_store_spec _ _ _ Hwf Hpre Hr) as Hs.
    destruct r.2; [by destruct Hs|by rewrite Hs].
  - destruct success.
    + destruct (mgr_complete_store_done m keys Hwf) as (m1 & Heq & ? & _).
      rewrite Heq in Hr. by injection Hr as <-.
    + destruct (mgr_complete_store_failed m keys Hwf) as (m1 & Heq & ? & _).
      rewrite Heq in Hr. by injection Hr as <-.
  - injection Hr as <-. by apply mgr_reset_cache_spec.
  - injection Hr as <-. by destruct Hwf; split.
Qed.

(** States reached from the initial one by operations within their preconditions. *)
Inductive mgr_reachable (num_blocks : Z) : cpu_manager P → Prop :=
  | reach_init enable_events threshold max_tracker :
      mgr_reachable num_blocks (mgr_init num_blocks enable_events threshold max_tracker)
  | reach_step m op m' :
      mgr_reachable num_blocks m → op_pre m op → mgr_apply m op = Ok m' →
      mgr_reachable num_blocks m'.

Lemma mgr_init_wf n ev t mx : 0 <= n → mgr_wf (mgr_init n ev t mx).
Proof.
  intros Hn. destruct (pol_init_spec n) as [Hp Hm].
  assert (mgr_map (mgr_init n ev t mx) = ∅) as He by exact Hm.
  split; rewrite ?He; cbn; try done; lia.
Qed.

Lemma foldl_blocks {A S} (num : S → Z) (f : S → A → S) s l :
  (∀ s a, num (f s a) = num s) → num (foldl f s l) = num s.
Proof. intros Hf. revert s; induction l as [|a l IH]; intros s; cbn; [done|]. by rewrite IH, Hf. Qed.

Lemma foldM_blocks {A S} (num : S → Z) (f : S → A → res S) s l s' :
  (∀ s a s', f s a = Ok s' → num s' = num s) → foldM f s l = Ok s' → num s' = num s.
Proof.
  intros Hf. apply (foldM_invariant f (fun _ t => num t = num s)); [done|].
  intros _ a t t' <- _. apply Hf.
Qed.

Lemma mgr_emit_blocks m ks r : mg_num_blocks (mgr_emit m ks r) = mg_num_blocks m.
Proof. by destruct ks. Qed.

Lemma mgr_prepare_store_blocks m ks r :
  mgr_prepare_store m ks = Ok r → mg_num_blocks r.1 = mg_num_blocks m.
Proof.
  unfold mgr_prepare_store. destruct (filter _ _); intros Hr; [by injection Hr as <-|].
  apply bind_Ok in Hr as ([[p ev]|] & _ & Hr); [|by injection Hr as <-].
  unfold mgr_place, mgr_allocate_blocks in Hr. inv_res. cbn.
  by rewrite mgr_emit_blocks, foldl_free_block.
Qed.

Lemma mgr_complete_store_blocks m ks b m' :
  mgr_complete_store m ks b = Ok m' → mg_num_blocks m' = mg_num_blocks m.
Proof.
  destruct b; cbn.
  - pose proof (foldl_blocks (mg_num_blocks ∘ fst) (@mgr_store_done_one P _) (m, []) ks) as Hf.
    destruct (foldl _ _ _) as [m1 st]. intros [= <-]. rewrite mgr_emit_blocks. apply Hf.
    intros [m2 st2] k. cbn. by repeat case_match.
  - apply (foldM_blocks mg_num_blocks). intros m1 k m2. unfold mgr_store_failed_one.
    repeat case_match; intros; inv_res; done.
Qed.

Lemma mgr_apply_blocks m op m' : mgr_apply m op = Ok m' → mg_num_blocks m' = mg_num_blocks m.
Proof.
  intros Hr. destruct op; cbn in Hr; try (apply fmap_Ok in Hr as (r & Hr & ->)).
  - unfold mgr_lookup in Hr. by inv_res.
  - eapply (foldM_blocks (mg_num_blocks ∘ fst)) in Hr; [exact Hr|].
    intros [m1 ids] k m2 ?. unfold mgr_load_one in *. by inv_res.
  - eapply (foldM_blocks mg_num_blocks) in Hr; [exact Hr|].
    intros m1 k m2 ?. unfold mgr_complete_load_one in *. by inv_res.
  - by inv_res.
  - inv_res. unfold mgr_retain. apply (foldl_blocks (mg_num_blocks ∘ fst)).
    intros [m1 r] k. cbn. by repeat case_match.
  - unfold mgr_release in Hr. inv_res. by apply (foldl_blocks mg_num_blocks).
  - by eapply mgr_prepare_store_blocks.
  - by eapply mgr_complete_store_blocks.
  - by inv_res.
  - by inv_res.
Qed.

Lemma mgr_reachable_wf n m : 0 <= n → mgr_reachable n m → mgr_wf m ∧ mg_num_blocks m = n.
Proof.
  intros Hn Hr. induction Hr as [|m op m' _ [IH <-] Hpre Hop]; [split; [by apply mgr_init_wf|done]|].
  split; [by eapply mgr_apply_wf|]. by eapply mgr_apply_blocks.
Qed.

Lemma mgr_run_reachable n m ops m' : mgr_reachable n m → mgr_run m ops = Some m' → mgr_reachable n m'.
Proof.
  revert m; induction ops as [|op ops IH]; intros m Hr; cbn; [by intros [= ->]|].
  case_bool_decide; [|done]. destruct (mgr_apply m op) as [m1|] eqn:E; [|done].
  apply IH. by eapply reach_step.
Qed.

End spec.

(** ** Properties *)

Section properties.
Context {P : Type} `{CachePolicySpec P}.
Implicit Types m : cpu_manager P.

Lemma elem_of_seqZ_0 n id : id ∈ seqZ 0 n → 0 <= id < n.
Proof. rewrite elem_of_seqZ. lia. Qed.

(** C11. CPU slots are neither shared nor lost: in every state the offloading
    manager reaches, with any replacement policy that meets its contract, the
    slots held by blocks and those on the free list are pairwise distinct and
    within the capacity, and the number of blocks plus the number of free slots
    is the capacity. *)
Theorem mgr_slots_conserved n m :
  0 <= n → mgr_reachable n m →
  NoDup (slot_ids (mgr_map m) ++ mg_free_list m) ∧
  (∀ id, id ∈ slot_ids (mgr_map m) ++ mg_free_list m → 0 <= id < n) ∧
  Z.of_nat (size (mgr_map m)) + mgr_num_free_blocks m = n.
Proof.
  intros Hn Hr. apply mgr_reachable_wf in Hr as [Hwf <-]; [|done]. split_and!.
  - by apply mgr_wf_slots_nodup.
  - intros id. rewrite (mwf_slots _ Hwf). intros Hid%elem_of_seqZ_0.
    pose proof (mwf_alloc _ Hwf). lia.
  - by apply mgr_wf_conservation.
Qed.

(** C19. A store is prepared as documented: it is refused without any change, or
    the keys that are not yet stored get distinct slots with a block that is not
    ready, every block that is pinned, in flight or among the requested keys is
    kept as it was, and the blocks that are gone are exactly the evicted ones,
    all of them unpinned. *)
Theorem mgr_prepare_store_correct n m keys m' r :
  0 <= n → mgr_reachable n m → NoDup keys → mgr_prepare_store m keys = Ok (m', r) →
  match r with
  | None => m' = m
  | Some o =>
      ps_keys_to_store o = filter (fun k => mgr_map m !! k = None) (counted_keys m keys) ∧
      NoDup (ps_store_spec o) ∧ length (ps_store_spec o) = length (ps_keys_to_store o) ∧
      (∀ i k, ps_keys_to_store o !! i = Some k →
         ∃ id, ps_store_spec o !! i = Some id ∧ mgr_map m' !! k = Some (new_block_status id)) ∧
      (∀ k b, mgr_map m !! k = Some b → bs_ref_cnt b ≠ 0 ∨ k ∈ counted_keys m keys →
         mgr_map m' !! k = Some b) ∧
      (∀ k b, mgr_map m !! k = Some b → mgr_map m' !! k = None ↔ k ∈ ps_evicted_keys o) ∧
      (∀ k, k ∈ ps_evicted_keys o → ∃ b, mgr_map m !! k = Some b ∧ bs_ref_cnt b = 0)
  end.
Proof.
  intros Hn Hr Hnd Hs. apply mgr_reachable_wf in Hr as [Hwf _]; [|done].
  apply mgr_prepare_store_spec in Hs; [|done..]. cbn in Hs. destruct r as [o|]; [|done].
  destruct Hs. assert (∀ k b, mgr_map m !! k = Some b → k ∉ ps_keys_to_store o) as Hold.
  { intros k b Hk. rewrite st_keys0, list_elem_of_filter. naive_solver. }
  split_and!; [done..| | |].
  - intros k b Hk Hb. rewrite st_old0 by eauto. case_decide as He; [|done].
    apply st_evicted0 in He as (? & b' & ? & ?). naive_solver.
  - intros k b Hk. rewrite st_old0 by eauto. case_decide; naive_solver.
  - intros k Hk. by apply st_evicted0.
Qed.

(** Why an operation raises: the key it is given was not ready, not pinned, or
    the policy or the request counter raised. *)
Definition op_error_cause (m : cpu_manager P) (op : mgr_op) (e : pyerr) : Prop :=
  match op with
  | OpLookup _ => e = KeyError ∧ mg_max_tracker_size m <= 0
  | OpPrepareLoad keys => e = AssertionError ∧ ∃ k, k ∈ keys ∧ ready_at (mgr_map m) k = false
  | OpCompleteLoad keys | OpRelease keys =>
      e = AssertionError ∧ ∃ k, k ∈ keys ∧ releasable (mg_policy m) k = false
  | OpPrepareStore keys =>
      ∃ n, 0 < n ∧ pol_evict (mg_policy m) n (list_to_set (counted_keys m keys)) = Err e
  | _ => False
  end.

Lemma not_all_elem (f : okey → bool) (ks : list okey) :
  ¬ (∀ k, k ∈ ks → f k = true) → ∃ k, k ∈ ks ∧ f k = false.
Proof.
  intros Hn. induction ks as [|k ks IH]; [destruct Hn; set_solver|].
  destruct (f k) eqn:Ek; [|exists k; set_solver]. destruct IH as (k' & ? & ?).
  - intros Hall. apply Hn. intros k' [->|?]%elem_of_cons; [done|by apply Hall].
  - exists k'. set_solver.
Qed.

Lemma mgr_load_one_err s k e : mgr_load_one s k = Err e → e = AssertionError.
Proof. destruct s. cbn. destruct (pol_get _ _) as [b|]; cbn; [destruct (is_ready b); cbn|]; naive_solver. Qed.

Lemma foldM_err {A S} (f : S → A → res S) s l e e' :
  (∀ s a e, f s a = Err e → e = e') → foldM f s l = Err e → e = e'.
Proof.
  intros Hf. revert s; induction l as [|a l IH]; intros s; cbn; [done|].
  destruct (f s a) eqn:E; cbn; [apply IH|]. intros [= <-]. by eapply Hf.
Qed.

(** C26. No assertion of the manager fails by itself: an operation raises only if
    a load names a block that is not ready, a release names a block without a
    reference, the eviction of the replacement policy raises, or request
    counting is configured without room for a single key. *)
Theorem mgr_raises_only_for_cause n m op e :
  0 <= n → mgr_reachable n m → op_pre m op → mgr_apply m op = Err e → op_error_cause m op e.
Proof.
  intros Hn Hr Hpre He. apply mgr_reachable_wf in Hr as [Hwf _]; [|done].
  pose proof (mwf_pol _ Hwf) as Hp. destruct op; cbn in Hpre, He |- *; try done.
  - unfold mgr_lookup in He. destruct (mg_counts m) as [c|]; [|done]. unfold count_key in He.
    destruct (od_has key c); [done|]. destruct (mg_max_tracker_size m <=? lenZ c) eqn:El; [|done].
    destruct c; [|done]. cbn in *. split; [congruence|]. apply Z.leb_le in El. lia.
  - destruct Hpre as [Hnd _]. destruct (mgr_prepare_load m keys) as [r|e'] eqn:El; [done|].
    split; [injection He as <-; by eapply foldM_err in El; [|apply mgr_load_one_err]|].
    apply not_all_elem. intros Hall. destruct (mgr_prepare_load_loop m [] keys Hp Hnd Hall) as (? & Heq & _).
    unfold mgr_prepare_load in El. by rewrite Heq in El.
  - split.
    + eapply foldM_err in He; [done|]. intros m1 k e'. unfold mgr_complete_load_one.
      destruct (pol_get _ _) as [b|]; cbn; [destruct (0 <? _); cbn|]; naive_solver.
    + apply not_all_elem. intros Hall. destruct (mgr_complete_load_spec m keys Hp Hpre Hall) as (? & Heq & _).
      by rewrite Heq in He.
  - pose proof (mgr_release_spec m keys Hp) as Hs. destruct (forallb _ _) eqn:Ef.
    { destruct Hs as (? & Heq & _). by rewrite Heq in He. }
    rewrite Hs in He. split; [congruence|]. apply not_all_elem. intros Hall.
    apply not_true_iff_false in Ef. apply Ef, forallb_releasable. intros k Hk. apply Hall.
    by rewrite elem_of_remove_dups in Hk.
  - pose proof (mgr_prepare_store_outcome m keys Hwf Hpre) as Ho.
    destruct (mgr_prepare_store m keys) as [[]|]; [done|]. by injection He as <-.
  - destruct success.
    + destruct (mgr_complete_store_done m keys Hwf) as (? & Heq & _). by rewrite Heq in He.
    + destruct (mgr_complete_store_failed m keys Hwf) as (? & Heq & _). by rewrite Heq in He.
Qed.

(** Loads are balanced: if all keys are ready, [prepare_load] returns their
    slots in order and pins every block, and the [complete_load] that follows
    leaves every block as it was before. *)
Theorem mgr_load_round_trip n m keys :
  0 <= n → mgr_reachable n m → NoDup keys → ref_room (mgr_map m) →
  (∀ k, k ∈ keys → ready_at (mgr_map m) k = true) →
  ∃ m1 m2, mgr_prepare_load m keys = Ok (m1, slot_of (mgr_map m) <$> keys) ∧
    (∀ k, k ∈ keys → releasable (mg_policy m1) k = true) ∧
    mgr_complete_load m1 keys = Ok m2 ∧ mgr_map m2 = mgr_map m.
Proof.
  intros Hn Hr Hnd Hroom Hready. apply mgr_reachable_wf in Hr as [Hwf _]; [|done].
  pose proof Hwf as [Hp _ _ Hrefs].
  destruct (mgr_prepare_load_loop m [] keys Hp Hnd Hready) as (m1 & H1 & Hm1).
  assert (∀ k, k ∈ keys → releasable (mg_policy m1) k = true) as Hrel.
  { intros k Hk. apply releasable_spec; [by eapply with_map_pol|].
    rewrite (with_map_map _ _ _ Hm1), lookup_alter_all, decide_True by done.
    specialize (Hready k Hk). unfold ready_at in Hready.
    destruct (mgr_map m !! k) as [b|] eqn:Ek; [|done]. eexists; split; [done|].
    pose proof (ref_room_lookup _ _ _ Hroom Ek). apply Z.leb_le in Hready. rewrite incr_ref_cnt; lia. }
  destruct (mgr_complete_load_spec m1 keys) as (m2 & H2 & Hm2); [by eapply with_map_pol|done..|].
  exists m1, m2. split_and!; [done..|].
  rewrite (with_map_map _ _ _ Hm2), (with_map_map _ _ _ Hm1). by apply alter_all_decr_incr.
Qed.

(** Retention is balanced: [retain] pins exactly the distinct keys that are
    ready and reports them, and releasing the reported keys succeeds and leaves
    every block as it was before. *)
Theorem mgr_retain_release_round_trip n m keys m1 r :
  0 <= n → mgr_reachable n m → ref_room (mgr_map m) → mgr_retain m keys = (m1, r) →
  (∀ k, k ∈ r ↔ k ∈ keys ∧ ready_at (mgr_map m) k = true) ∧
  (∀ k b, mgr_map m !! k = Some b →
     mgr_map m1 !! k = Some (if decide (k ∈ r) then b <| bs_ref_cnt ::= Z.succ |> else b)) ∧
  ∃ m2, mgr_release m1 (elements r) = Ok m2 ∧ mgr_map m2 = mgr_map m.
Proof.
  intros Hn Hr Hroom Heq. apply mgr_reachable_wf in Hr as [Hwf _]; [|done].
  pose proof Hwf as [Hp _ _ Hrefs]. pose proof (mgr_retain_spec m keys Hp) as Hm1.
  rewrite Heq in Hm1. cbn in Hm1. destruct Hm1 as [Hm1 ->]. clear Heq. set (sel := retained_keys (mgr_map m) keys) in *.
  assert (NoDup sel) as Hnd by apply NoDup_filter, NoDup_remove_dups.
  assert (∀ k, k ∈ sel ↔ k ∈ keys ∧ ready_at (mgr_map m) k = true) as Hsel.
  { intros k. unfold sel, retained_keys. rewrite list_elem_of_filter, elem_of_remove_dups. tauto. }
  assert (∀ k b, mgr_map m !! k = Some b →
    mgr_map m1 !! k = Some (if decide (k ∈ sel) then b <| bs_ref_cnt ::= Z.succ |> else b)) as Hmap.
  { intros k b Hk. rewrite (with_map_map _ _ _ Hm1), lookup_alter_all, Hk by done.
    case_decide; [|done]. cbn. f_equal. pose proof (ref_room_lookup _ _ _ Hroom Hk). pose proof (Hrefs _ _ Hk) as Hb.
    unfold ref_ok in Hb. destruct b as [c id]. cbn in *.
    change (mkBlockStatus (wrap32 (c + 1)) id = mkBlockStatus (Z.succ c) id).
    by rewrite wrap32_id by lia. }
  split_and!.
  - intros k. by rewrite elem_of_list_to_set.
  - intros k b Hk. rewrite (Hmap k b Hk). repeat case_decide; set_solver.
  - pose proof (mgr_release_spec m1 (elements (list_to_set sel : gset okey)) (with_map_pol _ _ _ Hm1)) as Hs.
    assert (∀ k, k ∈ remove_dups (elements (list_to_set sel : gset okey)) ↔ k ∈ sel) as Hdup.
    { intros k. by rewrite elem_of_remove_dups, elem_of_elements, elem_of_list_to_set. }
    rewrite (proj2 (forallb_releasable _ _)) in Hs.
    + destruct Hs as (m2 & -> & Hm2). exists m2. split; [done|].
      rewrite (with_map_map _ _ _ Hm2), (with_map_map _ _ _ Hm1).
      rewrite <- (alter_all_decr_incr (mgr_map m) sel Hnd Hroom Hrefs) at 2.
      apply map_eq. intros k. rewrite !lookup_alter_all by (done || apply NoDup_remove_dups).
      pose proof (Hdup k). repeat case_decide; tauto.
    + intros k Hk%Hdup. apply releasable_spec; [by eapply with_map_pol|].
      pose proof (proj1 (Hsel k) Hk) as [_ Hrd]. unfold ready_at in Hrd.
      destruct (mgr_map m !! k) as [b|] eqn:Ek; [|done]. rewrite (Hmap k b Ek), decide_True by done.
      eexists; split; [done|]. apply Z.leb_le in Hrd. cbn. lia.
Qed.

(** A prepared store that completes makes exactly its blocks readable, and
    one that fails gives its slots back: after a failure the manager holds what
    it held before the store, the evicted blocks excepted. *)
Theorem mgr_store_completion n m keys m' o :
  0 <= n → mgr_reachable n m → NoDup keys → mgr_prepare_store m keys = Ok (m', Some o) →
  (∃ m2, mgr_complete_store m' (ps_keys_to_store o) true = Ok m2 ∧
     (∀ k, k ∈ ps_keys_to_store o → ready_at (mgr_map m2) k = true) ∧
     (∀ k, k ∉ ps_keys_to_store o → mgr_map m2 !! k = mgr_map m' !! k)) ∧
  (∃ m2, mgr_complete_store m' (ps_keys_to_store o) false = Ok m2 ∧
     (∀ k, mgr_map m2 !! k = if decide (k ∈ ps_evicted_keys o) then None else mgr_map m !! k)).
Proof.
  intros Hn Hr Hnd Hs. apply mgr_reachable_wf in Hr as [Hwf _]; [|done].
  apply mgr_prepare_store_spec in Hs; [|done..]. cbn in Hs. destruct Hs.
  assert (∀ k, k ∈ ps_keys_to_store o → ∃ id, mgr_map m' !! k = Some (new_block_status id)) as Hnew.
  { intros k Hk. apply list_elem_of_lookup in Hk as [i Hi].
    destruct (st_new0 i k Hi) as (id & _ & ?). eauto. }
  split.
  - destruct (mgr_complete_store_done m' (ps_keys_to_store o) st_wf0) as (m2 & -> & _ & Hm2).
    exists m2. split_and!; [done| |].
    + intros k Hk. unfold ready_at. rewrite Hm2, decide_True by done. by destruct (Hnew k Hk) as [id ->].
    + intros k Hk. by rewrite Hm2, decide_False by done.
  - destruct (mgr_complete_store_failed m' (ps_keys_to_store o) st_wf0) as (m2 & -> & _ & Hm2).
    exists m2. split; [done|]. intros k. rewrite Hm2. unfold ready_at.
    case_decide as Hk; [|by apply st_old0]. destruct (Hnew k Hk) as [id ->]. cbn.
    rewrite st_keys0 in Hk. apply list_elem_of_filter in Hk as [-> _]. by case_decide.
Qed.

End properties.

(** ** Witnesses *)

(** Two slots under LRU, both stored; ["a"] is retained. *)
Definition ex_init : cpu_manager lru := mgr_init 2 true 0 64.
Definition ex_ops : list mgr_op :=
  [OpPrepareStore ["a"; "b"]; OpCompleteStore ["a"; "b"] true; OpTouch ["b"]; OpRetain ["a"]].
Definition ex_state : cpu_manager lru := default ex_init (mgr_run ex_init ex_ops).

Lemma ex_reachable : mgr_reachable 2 ex_state.
Proof. apply (mgr_run_reachable 2 ex_init ex_ops); [constructor|]. vm_compute. reflexivity. Qed.

Lemma mgr_slots_conserved_witness :
  mgr_reachable 2 ex_state ∧ NoDup (slot_ids (mgr_map ex_state) ++ mg_free_list ex_state) ∧
  Z.of_nat (size (mgr_map ex_state)) + mgr_num_free_blocks ex_state = 2.
Proof.
  split; [exact ex_reachable|].
  destruct (mgr_slots_conserved 2 ex_state) as (H1 & _ & H3); [lia|exact ex_reachable|done].
Defined.

(** ["c"] takes the slot of ["b"]: ["a"] is older but retained. *)
Definition ex_stored : res (cpu_manager lru * option PrepareStoreOutput) :=
  mgr_prepare_store ex_state ["c"].
Definition ex_output : PrepareStoreOutput := mkPrepareStoreOutput ["c"] [1] ["b"].

Lemma mgr_prepare_store_correct_witness :
  ∃ m', ex_stored = Ok (m', Some ex_output) ∧
    mgr_map m' !! "a" = Some (mkBlockStatus 1 0) ∧ mgr_map m' !! "b" = None.
Proof.
  eexists. split; [vm_compute; reflexivity|].
  match goal with |- mgr_map ?m' !! _ = _ ∧ _ =>
    pose proof (mgr_prepare_store_correct 2 ex_state ["c"] m' (Some ex_output)) as Hc end.
  destruct Hc as (_ & _ & _ & _ & Hkeep & Hgone & _);
    [lia|exact ex_reachable|apply NoDup_singleton|vm_compute; reflexivity|]. split.
  - apply Hkeep; [vm_compute; reflexivity|left; discriminate].
  - apply (Hgone "b" (mkBlockStatus 0 1)); [vm_compute; reflexivity|]. constructor.
Defined.

Lemma mgr_raises_only_for_cause_witness :
  mgr_apply ex_state (OpRelease ["b"]) = Err AssertionError ∧
  op_error_cause ex_state (OpRelease ["b"]) AssertionError.
Proof.
  split; [vm_compute; reflexivity|].
  apply (mgr_raises_only_for_cause 2); [lia|exact ex_reachable|exact I|vm_compute; reflexivity].
Defined.

Lemma mgr_load_round_trip_witness :
  ∃ m1 m2, mgr_prepare_load ex_state ["b"; "a"] = Ok (m1, [1; 0]) ∧
    mgr_complete_load m1 ["b"; "a"] = Ok m2 ∧ mgr_map m2 = mgr_map ex_state.
Proof.
  destruct (mgr_load_round_trip 2 ex_state ["b"; "a"]) as (m1 & m2 & H1 & _ & H2 & H3).
  - lia.
  - exact ex_reachable.
  - apply (bool_decide_unpack _). vm_compute. exact I.
  - apply (bool_decide_unpack _). vm_compute. exact I.
  - intros k [->|[->|[]%elem_of_nil]%elem_of_cons]%elem_of_cons; vm_compute; reflexivity.
  - exists m1, m2. rewrite H1. done.
Defined.

Lemma mgr_retain_release_round_trip_witness :
  ∃ m2, mgr_release (mgr_retain ex_state ["a"; "z"]).1 ["a"] = Ok m2 ∧ mgr_map m2 = mgr_map ex_state.
Proof.
  destruct (mgr_retain_release_round_trip 2 ex_state ["a"; "z"]
    (mgr_retain ex_state ["a"; "z"]).1 {["a"]}) as (_ & _ & Hm).
  - lia.
  - exact ex_reachable.
  - apply (bool_decide_unpack _). vm_compute. exact I.
  - vm_compute. reflexivity.
  - exact Hm.
Defined.

Lemma mgr_store_completion_witness :
  ∃ m' m2, ex_stored = Ok (m', Some ex_output) ∧ mgr_complete_store m' ["c"] false = Ok m2 ∧
    mgr_map m2 !! "c" = None ∧ mgr_map m2 !! "a" = Some (mkBlockStatus 1 0).
Proof.
  eexists.
  match goal with |- ∃ m2, ex_stored = Ok (?m', _) ∧ _ =>
    destruct (mgr_store_completion 2 ex_state ["c"] m' ex_output) as [_ (m2 & Hm & Hmap)] end.
  - lia.
  - exact ex_reachable.
  - apply NoDup_singleton.
  - vm_compute. reflexivity.
  - exists m2. split; [vm_compute; reflexivity|]. split; [exact Hm|].
    split; rewrite Hmap; vm_compute; reflexivity.
Defined.

(** *** ARC may refuse although an entry is evictable *)

(** Two slots under ARC: ["a"] is evicted for ["c"] and then asked for twice,
    which raises the target size of T1 to 2; ["b"] moves to T2 and is retained. *)
Definition ex_arc_mgr_ops : list mgr_op :=
  [OpPrepareStore ["a"; "b"]; OpCompleteStore ["a"; "b"] true;
   OpPrepareStore ["c"]; OpCompleteStore ["c"] true;
   OpTouch ["a"]; OpTouch ["a"]; OpTouch ["b"]; OpRetain ["b"]].
Definition ex_arc_mgr : cpu_manager (arc b64) :=
  let m := mgr_init 2 true 0 64 in default m (mgr_run m ex_arc_mgr_ops).

(** C27. ARC may refuse a store although a block is evictable: in a reachable
    state T1 is smaller than its target, so only T2 is searched, and the store of
    ["d"] is refused although ["c"] is ready, unpinned and unprotected. *)
Theorem arc_refuses_evictable :
  mgr_reachable 2 ex_arc_mgr ∧
  pol_get (mg_policy ex_arc_mgr) "c" = Some (mkBlockStatus 0 0) ∧
  mgr_prepare_store ex_arc_mgr ["d"] = Ok (ex_arc_mgr, None).
Proof.
  split; [|split; vm_compute; reflexivity].
  apply (mgr_run_reachable 2 (mgr_init 2 true 0 64) ex_arc_mgr_ops); [constructor|].
  vm_compute. reflexivity.
Qed.

(** ** Offload keys *)

(** An offload key determines its block hash and its cache group: both are
    read back from the key, and the only failure is a group index that does not
    fit on four bytes. *)
Theorem offload_key_round_trip block_hash group_idx :
  match make_offload_key block_hash group_idx with
  | Ok key => get_offload_block_hash key = block_hash ∧ get_offload_group_idx key = group_idx
  | Err e => e = OverflowError ∧ ¬ (0 <= group_idx < 2 ^ 32)
  end.
Proof.
  unfold make_offload_key. destruct (0 <=? group_idx) eqn:E1; [destruct (group_idx <? 2 ^ 32) eqn:E2|].
  2-3: cbn; split; [done|lia].
  cbn [andb]. apply be32_suffix. lia.
Qed.
