(* ===== verification/Lifecycle.v ===== *)
(** * The lifecycle registry

    [vllm/tokencake/lifecycle.py]: one [Lifecycle] per generation that announced
    itself, from its association over the tool call that stalls it to its end,
    and the [LifecycleRegistry] that owns them.  An active lifecycle may retain
    CPU blocks of the offloading manager; a released or terminal one retains
    nothing.

    [Lifecycle] objects are shared: the registry's dictionary and the offloading
    code hold references to the same object.  They live in a heap, [lr_heap], and
    are referred to by [ref]; a fresh reference is drawn for each
    [Lifecycle(metadata)].

    The clock is a parameter: the value of its [n]-th reading is [clock n], and
    every call of [self.clock()] takes the next reading. *)

From S2P Require Import Prelude PyFloat Metrics Protocol CachePolicy OffloadManager.

Definition ref := nat.

(** [float("inf")] as a deadline that never comes. *)
Notation deadline F := (option F) (only parsing).

Inductive TerminalCause := CauseCompleted | CauseFinished | CauseAborted | CauseError | CauseExpired | CauseReset.
#[global] Instance TerminalCause_eq_dec : EqDecision TerminalCause.
Proof. solve_decision. Defined.

(** [GenerationCause], the part of the causes with which a generation ends. *)
Inductive GenerationCause := GenCompleted | GenAborted | GenError.
#[global] Instance GenerationCause_eq_dec : EqDecision GenerationCause.
Proof. solve_decision. Defined.

Definition generation_cause (c : GenerationCause) : TerminalCause :=
  match c with GenCompleted => CauseCompleted | GenAborted => CauseAborted | GenError => CauseError end.

Definition cause_value (c : TerminalCause) : string :=
  match c with
  | CauseCompleted => "completed" | CauseFinished => "finished" | CauseAborted => "aborted"
  | CauseError => "error" | CauseExpired => "expired" | CauseReset => "reset"
  end.

Definition disposition_value (d : Disposition) : string :=
  match d with
  | Applied => "applied" | Duplicate => "duplicate" | LateFinish => "late_finish"
  | Unknown => "unknown" | Conflict => "conflict" | Unavailable => "unavailable"
  end.

(** A cached GPU block hash with its group, [BlockHashWithGroupId]. *)
Notation bhash := string (only parsing).

Record SnapshotGroup := mkSnapshotGroup {
  sg_keys : list okey;
  sg_block_ids : list (list Z);
  sg_gpu_hashes : list (list (option bhash));
}.

Record ReqContext {F : Type} := mkReqContext {
  rc_req_id : string;
  rc_kv_transfer_params : option (list (string * json F));
}.
Arguments ReqContext F : clear implicits.

Record PrefixSnapshot {F : Type} := mkPrefixSnapshot {
  sn_groups : list SnapshotGroup;
  sn_req_context : ReqContext F;
}.
Arguments PrefixSnapshot F : clear implicits.

Record Lifecycle {F : Type} := mkLifecycle {
  lc_metadata : TokenCakeMetadata F;
  lc_completed_at : option F;
  lc_snapshot : option (PrefixSnapshot F);
  lc_start : option (LifecycleEvent F);
  lc_started_at : option F;
  lc_predicted_duration : F;
  lc_safety_deadline : deadline F;
  lc_release_deadline : deadline F;
  lc_ownership_released : bool;
  lc_retained : gset okey;
  lc_pending_retention : gset okey;
  lc_pending_evaluation : bool;
  lc_next_evaluation_step : Z;
  lc_backoff_signature : option (list Z);
  lc_last_store_step : Z;
  lc_terminal_cause : option TerminalCause;
  lc_terminal_at : option F;
  lc_finish_accepted : bool;
  lc_anonymous_sample : option F;
}.
Arguments Lifecycle F : clear implicits.

(** Key of a duration history: kind of the name, the name, kind of stall. *)
Definition history_key : Type := string * string * string.

Record LifecycleRegistry {F P : Type} := mkRegistry {
  lr_manager : option (cpu_manager P);
  lr_heap : gmap ref (Lifecycle F);
  lr_next_ref : ref;
  lr_records : list (string * ref);
  lr_generations : list (string * string);
  lr_history : list (history_key * F);
  lr_metrics : TokenCakeMetrics;
  (** readings of the clock taken so far *)
  lr_ticks : nat;
}.
Arguments LifecycleRegistry F P : clear implicits.

Section lifecycle.
Context {F P : Type} `{PyFloat F} `{CachePolicy P}.
Context (settings : OffloadConfig F) (clock : nat → F).

#[global] Instance Lifecycle_settable : Settable (Lifecycle F) :=
  { rebuild l := mkLifecycle _ (lc_metadata l) (lc_completed_at l) (lc_snapshot l) (lc_start l)
      (lc_started_at l) (lc_predicted_duration l) (lc_safety_deadline l) (lc_release_deadline l)
      (lc_ownership_released l) (lc_retained l) (lc_pending_retention l) (lc_pending_evaluation l)
      (lc_next_evaluation_step l) (lc_backoff_signature l) (lc_last_store_step l)
      (lc_terminal_cause l) (lc_terminal_at l) (lc_finish_accepted l) (lc_anonymous_sample l) }.

#[global] Instance LifecycleRegistry_settable : Settable (LifecycleRegistry F P) :=
  { rebuild r := mkRegistry _ _ (lr_manager r) (lr_heap r) (lr_next_ref r) (lr_records r)
      (lr_generations r) (lr_history r) (lr_metrics r) (lr_ticks r) }.

Definition lifecycle_init (metadata : TokenCakeMetadata F) : Lifecycle F :=
  mkLifecycle _ metadata None None None None (flt 0) None None false ∅ ∅ false 0 None (-5) None None
    false None.

Definition lc_state (l : Lifecycle F) : string :=
  match lc_terminal_cause l with
  | Some cause => cause_value cause
  | None =>
      match lc_start l with
      | Some _ => if lc_ownership_released l then "released" else "active"
      | None => match lc_completed_at l with None => "generating" | Some _ => "awaiting_start" end
      end
  end.

Definition owns_preservation (l : Lifecycle F) : bool :=
  bool_decide (is_Some (lc_start l)) && bool_decide (lc_terminal_at l = None) &&
  negb (lc_ownership_released l).

(** [now >= deadline] *)
Definition reached (now : F) (d : deadline F) : bool :=
  match d with Some d => d <=@ now | None => false end.

Definition ATTACH_SECONDS : F := flt 60.
Definition TOMBSTONE_SECONDS : F := flt 60.
Definition HISTORY_LIMIT : Z := 4096.

(** [==] on events. *)
Definition event_eqb (e1 e2 : LifecycleEvent F) : bool :=
  bool_decide (ev_event e1 = ev_event e2) &&
  bool_decide (ev_lifecycle_id e1 = ev_lifecycle_id e2) &&
  bool_decide (ev_kind e1 = ev_kind e2) &&
  match ev_estimated_duration_s e1, ev_estimated_duration_s e2 with
  | None, None => true
  | Some x, Some y => feqb x y
  | _, _ => false
  end.

Definition registry_init (manager : option (cpu_manager P)) : LifecycleRegistry F P :=
  mkRegistry _ _ manager ∅ 0%nat [] [] [] metrics_init 0%nat.

Notation reg := (st (LifecycleRegistry F P)).

(** ** State access *)

Definition read_clock : reg F :=
  fun r => Ok (r <| lr_ticks ::= S |>, clock (lr_ticks r)).

(** The object behind a reference; there are no dangling references. *)
Definition get_record (x : ref) : reg (Lifecycle F) :=
  r ← st_get; st_lift (or_raise RuntimeError (lr_heap r !! x)).
Definition set_record (x : ref) (f : Lifecycle F → Lifecycle F) : reg unit :=
  st_modify (fun r => r <| lr_heap ::= alter f x |>).

Definition count (metric : Metric) : reg unit :=
  fun r => t ← metrics_count metric 1 (lr_metrics r); Ok (r <| lr_metrics := t |>, tt).

(** A call of a manager method that returns nothing. *)
Definition with_manager {A} (f : cpu_manager P → res (cpu_manager P * A)) : reg A :=
  fun r =>
    m ← or_raise AssertionError (lr_manager r);
    '(m, a) ← f m;
    Ok (r <| lr_manager := Some m |>, a).

(** ** Release and termination *)

Definition release (x : ref) : reg unit :=
  record ← get_record x;
  let keys := lc_retained record in
  set_record x (fun l => l <| lc_retained := ∅ |> <| lc_pending_retention := ∅ |>
                           <| lc_ownership_released := true |>);;
  st_when (negb (bool_decide (keys = ∅)))
    (with_manager (fun m => m ← mgr_release m (elements keys); Ok (m, tt))).

Definition terminalize (x : ref) (cause : TerminalCause) (now : F) : reg unit :=
  record ← get_record x;
  if bool_decide (is_Some (lc_terminal_at record)) then mret tt
  else
    release x;;
    set_record x (fun l => l <| lc_snapshot := None |> <| lc_pending_evaluation := false |>
      <| lc_next_evaluation_step := 0 |> <| lc_backoff_signature := None |>
      <| lc_terminal_cause := Some cause |> <| lc_terminal_at := Some now |>);;
    metric ← st_lift (metric_of_value ("lifecycle." +:+ cause_value cause));
    count metric.

Definition expire_one (now : F) (item : string * ref) : reg unit :=
  let '(identifier, x) := item in
  record ← get_record x;
  match lc_terminal_at record with
  | Some at' =>
      st_when (at' +@ TOMBSTONE_SECONDS <=@ now)
        (st_modify (fun r => r <| lr_records ::= od_del identifier |>))
  | None =>
      match lc_started_at record with
      | Some _ =>
          if reached now (lc_safety_deadline record) then terminalize x CauseExpired now
          else st_when (reached now (lc_release_deadline record)) (release x)
      | None =>
          match lc_completed_at record with
          | Some at' => st_when (at' +@ ATTACH_SECONDS <=@ now) (terminalize x CauseExpired now)
          | None => mret tt
          end
      end
  end.

Definition expire : reg unit :=
  now ← read_clock;
  r ← st_get;
  st_iter (expire_one now) (lr_records r).

(** ** Association and end of a generation *)

(** What the call raises is part of its result, since it leaves the registry changed:
    [expire] ran and the conflict was counted. *)
Definition associate (request_id : string) (metadata : TokenCakeMetadata F) : reg (res unit) :=
  expire;;
  let identifier := md_lifecycle_id metadata in
  r ← st_get;
  if od_has identifier (lr_records r) || od_has identifier (lr_generations r) then
    count CONFLICT;; mret (Err DuplicateLifecycleError)
  else
    st_modify (fun r => r <| lr_generations ::= od_set identifier request_id |>);;
    st_modify (fun r => r <| lr_heap ::= <[lr_next_ref r := lifecycle_init metadata]> |>
                          <| lr_records ::= od_set identifier (lr_next_ref r) |>
                          <| lr_next_ref ::= S |>);;
    count ASSOCIATED;;
    mret (Ok tt).

Definition generation_finished (identifier : string) (cause : GenerationCause)
    (snapshot : option (PrefixSnapshot F)) : reg unit :=
  expire;;
  st_modify (fun r => r <| lr_generations ::= od_del identifier |>);;
  r ← st_get;
  match od_get identifier (lr_records r) with
  | None => mret tt
  | Some x =>
      record ← get_record x;
      if bool_decide (is_Some (lc_terminal_at record)) then mret tt
      else
        now ← read_clock;
        if bool_decide (cause ≠ GenCompleted) || negb (oc_enabled settings) then
          terminalize x (generation_cause cause) now
        else
          set_record x (fun l => l <| lc_completed_at := Some now |> <| lc_snapshot := snapshot |>
            <| lc_pending_evaluation := bool_decide (is_Some (lc_start l)) |>);;
          count COMPLETED
  end.

(** ** Stall durations *)

Definition history_key_of (record : Lifecycle F) (kind : string) : option history_key :=
  let metadata := lc_metadata record in
  if negb (bool_decide (md_agent_type metadata = EmptyString)) then Some ("type", md_agent_type metadata, kind)
  else if negb (bool_decide (md_agent_name metadata = EmptyString)) then Some ("name", md_agent_name metadata, kind)
  else None.

Definition predict (record : Lifecycle F) (event : LifecycleEvent F) : reg F :=
  r ← st_get;
  let key := history_key_of record (ev_kind event) in
  let history := key ≫= (fun k => od_get k (lr_history r)) in
  match key, history with
  | Some k, Some _ => st_modify (fun r => r <| lr_history ::= od_move_to_end k |>)
  | _, _ => mret tt
  end;;
  mret match ev_estimated_duration_s event with
       | None => match history with None => oc_default_stall_s settings | Some h => h end
       | Some estimate =>
           match history with None => estimate | Some h => lit 1 2 *@ (estimate +@ h) end
       end.

Definition learn (x : ref) (now : F) : reg unit :=
  record ← get_record x;
  start ← st_lift (or_raise AssertionError (lc_start record));
  started_at ← st_lift (or_raise AssertionError (lc_started_at record));
  let sample := pymax (flt 0) (now -@ started_at) in
  match history_key_of record (ev_kind start) with
  | None => set_record x (fun l => l <| lc_anonymous_sample := Some sample |>)
  | Some key =>
      r ← st_get;
      let previous := od_get key (lr_history r) in
      st_modify (fun r => r <| lr_history ::= od_del key |>);;
      match previous with
      | Some previous =>
          let alpha := oc_ewma_alpha settings in
          let sample := alpha *@ sample +@ (flt 1 -@ alpha) *@ previous in
          st_modify (fun r => r <| lr_history ::= od_set key sample |>)
      | None =>
          st_modify (fun r => r <| lr_history ::= fun h =>
            od_set key sample (if HISTORY_LIMIT <=? lenZ h then tail h else h) |>)
      end
  end.

Definition set_h2d_estimate (x : ref) (seconds : F) : reg unit :=
  record ← get_record x;
  started_at ← st_lift (or_raise AssertionError (lc_started_at record));
  let d := (started_at +@ lc_predicted_duration record) -@
           pymax (oc_release_lead_s settings) (lit 125 100 *@ seconds) in
  set_record x (fun l => l <| lc_release_deadline := Some d |>);;
  now ← read_clock;
  st_when (d <=@ now) (release x).

(** ** Events *)

(** The [stall_started] branch that is applied. *)
Definition start_stall (x : ref) (event : LifecycleEvent F) (now : F) : reg unit :=
  set_record x (fun l => l <| lc_start := Some event |> <| lc_started_at := Some now |>);;
  record ← get_record x;
  predicted ← predict record event;
  set_record x (fun l => l <| lc_predicted_duration := predicted |>
    <| lc_safety_deadline := Some (now +@ pymin (flt 3600) (pymax (flt 60) (flt 4 *@ predicted))) |>);;
  set_h2d_estimate x (flt 0);;
  set_record x (fun l => l <| lc_pending_evaluation := bool_decide (is_Some (lc_completed_at l)) |>);;
  count STARTED.

(** The reaction to an event for the record it names. *)
Definition apply_to (x : ref) (event : LifecycleEvent F) (now : F) : reg (Disposition * Z) :=
  record ← get_record x;
  match ev_event event with
  | StallStartedEvent =>
      if match lc_start record with Some e => event_eqb e event | None => false end
      then mret (Duplicate, 200)
      else if bool_decide (is_Some (lc_start record)) || bool_decide (is_Some (lc_terminal_at record))
      then mret (Conflict, 409)
      else start_stall x event now;; mret (Applied, 200)
  | StallFinishedEvent =>
      if bool_decide (is_Some (lc_terminal_at record)) then
        mret (if lc_finish_accepted record then Duplicate else LateFinish, 200)
      else if bool_decide (lc_start record = None) then mret (Conflict, 409)
      else
        learn x now;;
        set_record x (fun l => l <| lc_finish_accepted := true |>);;
        terminalize x CauseFinished now;;
        mret (Applied, 200)
  end.

(** Counting of what was not applied, and the answer. *)
Definition apply_result (x : ref) (event : LifecycleEvent F) (disposition : Disposition) (status : Z) :
    reg LifecycleEventResult :=
  st_when (negb (bool_decide (disposition = Applied)))
    (metric ← st_lift (metric_of_value ("lifecycle." +:+ disposition_value disposition));
     count metric);;
  record ← get_record x;
  mret (mkLifecycleEventResult (ev_lifecycle_id event) (ev_event event) (lc_state record)
          disposition status).

Definition apply_event (event : LifecycleEvent F) : reg LifecycleEventResult :=
  expire;;
  r ← st_get;
  match od_get (ev_lifecycle_id event) (lr_records r) with
  | None =>
      count UNKNOWN;;
      mret (mkLifecycleEventResult (ev_lifecycle_id event) (ev_event event) "unknown" Unknown 404)
  | Some x =>
      now ← read_clock;
      '(disposition, status) ← apply_to x event now;
      apply_result x event disposition status
  end.

(** ** Retention *)

Definition retain_ready (x : ref) (keys : gset okey) : reg (gset okey) :=
  expire;;
  record ← get_record x;
  if negb (owns_preservation record) then mret ∅
  else
    retained ← with_manager (fun m => Ok (mgr_retain m (elements (keys ∖ lc_retained record))));
    set_record x (fun l => l <| lc_retained ::= union retained |>);;
    mret retained.

Definition invalidate_snapshots : reg unit :=
  r ← st_get;
  st_iter (fun item => set_record item.2 (fun l => l <| lc_snapshot := None |>
                                                     <| lc_pending_evaluation := false |>))
    (lr_records r).

Definition external_reset_succeeded : reg unit :=
  now ← read_clock;
  r ← st_get;
  st_iter (fun item => set_record item.2 (fun l => l <| lc_retained := ∅ |>);;
                       terminalize item.2 CauseReset now)
    (lr_records r).

Definition has_pending_evaluation (r : LifecycleRegistry F P) : bool :=
  existsb (fun item => from_option lc_pending_evaluation false (lr_heap r !! item.2)) (lr_records r).

Definition registry_stats (r : LifecycleRegistry F P) : list (string * Z) :=
  metrics_snapshot
    (lenZ (filter (fun item => (lr_heap r !! item.2) ≫= lc_terminal_at = None) (lr_records r)))
    (lr_metrics r).

End lifecycle.

(** ** Pins

    How often a block is pinned: once per lifecycle that retains it, plus the
    loads in progress, [ext]. *)

Section pins.
Context {F P : Type} `{PyFloat F} `{CachePolicySpec P}.
Implicit Types (h : gmap ref (Lifecycle F)) (l : Lifecycle F) (ext : okey → Z).

Definition retains (k : okey) (l : Lifecycle F) : Z := if decide (k ∈ lc_retained l) then 1 else 0.

(** The number of lifecycles that retain [k]. *)
Definition owners h (k : okey) : Z := sum_map (retains k) h.

Lemma owners_insert_new h x l k : h !! x = None → owners (<[x:=l]> h) k = retains k l + owners h k.
Proof. apply sum_map_insert_new. Qed.

Lemma owners_insert h x l l' k :
  h !! x = Some l → owners (<[x:=l']> h) k = owners h k - retains k l + retains k l'.
Proof. apply sum_map_insert. Qed.

Lemma retains_bound k l : 0 <= retains k l <= 1.
Proof. unfold retains. case_decide; lia. Qed.

Lemma owners_nonneg h k : 0 <= owners h k.
Proof. apply sum_map_nonneg. intros. apply retains_bound. Qed.

Lemma owners_ge h x l k : h !! x = Some l → retains k l <= owners h k.
Proof. apply sum_map_ge. intros. apply retains_bound. Qed.

(** The reference counts of the manager are the pins. *)
Record pins_ok ext h (m : cpu_manager P) : Prop := {
  po_wf : mgr_wf m;
  po_ready : ∀ k b, mgr_map m !! k = Some b → is_ready b = true → bs_ref_cnt b = ext k + owners h k;
  po_other : ∀ k, ready_at (mgr_map m) k = false → ext k + owners h k = 0;
}.

Definition pins_inv ext h (om : option (cpu_manager P)) : Prop :=
  (∀ k, 0 <= ext k) ∧
  match om with
  | Some m => pins_ok ext h m
  | None => ∀ x l, h !! x = Some l → lc_retained l = ∅
  end.

(** Changing a record without touching what it retains. *)
Lemma pins_inv_insert_same ext h om x l l' :
  h !! x = Some l → lc_retained l' = lc_retained l → pins_inv ext h om → pins_inv ext (<[x:=l']> h) om.
Proof.
  intros Hx Hr [He Hp]. split; [done|].
  assert (∀ k, owners (<[x:=l']> h) k = owners h k) as Ho.
  { intros k. rewrite (owners_insert h x l l' k Hx). unfold retains. rewrite Hr. lia. }
  destruct om as [m|].
  - destruct Hp. split; [done|..]; intros; rewrite Ho; auto.
  - intros y ly. rewrite lookup_insert. case_decide; [|by apply Hp]. intros [= <-]. rewrite Hr. eauto.
Qed.

Lemma pins_inv_insert_new ext h om x l :
  h !! x = None → lc_retained l = ∅ → pins_inv ext h om → pins_inv ext (<[x:=l]> h) om.
Proof.
  intros Hx Hr [He Hp]. split; [done|].
  assert (∀ k, owners (<[x:=l]> h) k = owners h k) as Ho.
  { intros k. rewrite owners_insert_new by done. unfold retains. rewrite Hr. case_decide; set_solver. }
  destruct om as [m|].
  - destruct Hp. split; [done|..]; intros; rewrite Ho; auto.
  - intros y ly. rewrite lookup_insert. case_decide; [|by apply Hp]. by intros [= <-].
Qed.

Lemma pins_ok_pinned ext h m x l k :
  (∀ k, 0 <= ext k) → pins_ok ext h m → h !! x = Some l → k ∈ lc_retained l →
  ∃ b, mgr_map m !! k = Some b ∧ 0 < bs_ref_cnt b.
Proof.
  intros He [_ Hready Hother] Hx Hk. pose proof (owners_ge h x l k Hx) as Ho.
  unfold retains in Ho. rewrite decide_True in Ho by done. specialize (He k).
  specialize (Hready k). specialize (Hother k). unfold ready_at in Hother.
  destruct (mgr_map m !! k) as [b|]; [|lia]. exists b. split; [done|].
  destruct (is_ready b) eqn:E; [|lia]. rewrite (Hready b eq_refl E). lia.
Qed.

(** Releasing what a record retains. *)
Lemma pins_release ext h m x l l' :
  (∀ k, 0 <= ext k) → pins_ok ext h m → h !! x = Some l → lc_retained l' = ∅ →
  ∃ m', mgr_release m (elements (lc_retained l)) = Ok m' ∧ pins_ok ext (<[x:=l']> h) m'.
Proof.
  intros He Hp Hx Hl'. pose proof Hp as [Hwf Hready Hother]. pose proof (mwf_pol _ Hwf) as Hpol.
  set (ks := remove_dups (elements (lc_retained l))).
  assert (∀ k, k ∈ ks ↔ k ∈ lc_retained l) as Hks.
  { intros k. unfold ks. by rewrite elem_of_remove_dups, elem_of_elements. }
  assert (∀ k, k ∈ ks → releasable (mg_policy m) k = true) as Hrel.
  { intros k Hk%Hks. apply releasable_spec; [done|]. by eapply pins_ok_pinned. }
  pose proof (mgr_release_spec m (elements (lc_retained l)) Hpol) as Hs.
  fold ks in Hs. rewrite (proj2 (forallb_releasable m ks)) in Hs by done. destruct Hs as (m' & Heq & Hm').
  exists m'. split; [done|]. assert (NoDup ks) as Hnd by apply NoDup_remove_dups.
  assert (∀ k, owners (<[x:=l']> h) k = owners h k - if decide (k ∈ ks) then 1 else 0) as Ho.
  { intros k. rewrite (owners_insert h x l l' k Hx). unfold retains. rewrite Hl'.
    rewrite (decide_ext (k ∈ ks) (k ∈ lc_retained l)) by apply Hks. repeat case_decide; set_solver by lia. }
  assert (∀ k b, k ∈ ks → mgr_map m !! k = Some b → 0 < bs_ref_cnt b ∧ is_ready b = true) as Hpos.
  { intros k b Hk%Hks Hb. destruct (pins_ok_pinned ext h m x l k He Hp Hx Hk) as (b' & Hb' & Hc).
    simplify_eq. split; [done|]. apply Z.leb_le. lia. }
  split.
  - by eapply mgr_decr_wf.
  - intros k b. rewrite (with_map_map _ _ _ Hm'), lookup_alter_all, Ho by done. case_decide as Hk.
    + intros (b' & Hb' & ->)%fmap_Some _. destruct (Hpos k b' Hk Hb') as [Hc Hrd].
      pose proof (mwf_refs _ Hwf _ _ Hb') as Href. unfold ref_ok in Href.
      rewrite decr_ref_cnt by lia. rewrite (Hready k b' Hb' Hrd). lia.
    + intros Hb Hrd. rewrite (Hready k b Hb Hrd). lia.
  - intros k. unfold ready_at. rewrite (with_map_map _ _ _ Hm'), lookup_alter_all, Ho by done.
    case_decide as Hk.
    + specialize (Hrel k Hk). apply releasable_spec in Hrel as (b & Hb & Hc); [|done]. rewrite Hb. cbn.
      unfold is_ready. pose proof (mwf_refs _ Hwf _ _ Hb) as Href. unfold ref_ok in Href.
      rewrite decr_ref_cnt by lia. rewrite Z.leb_gt. lia.
    + intros Hr. rewrite Z.sub_0_r. by apply Hother.
Qed.

(** Retaining keys for a record. *)
Lemma pins_retain ext h m x l keys m' ret l' :
  pins_ok ext h m → ref_room (mgr_map m) → h !! x = Some l → mgr_retain m keys = (m', ret) →
  (∀ k, k ∈ keys → k ∉ lc_retained l) → lc_retained l' = ret ∪ lc_retained l →
  pins_ok ext (<[x:=l']> h) m'.
Proof.
  intros Hp Hroom Hx Heq Hnew Hl'. pose proof Hp as [Hwf Hready Hother]. pose proof (mwf_pol _ Hwf) as Hpol.
  pose proof (mgr_retain_spec m keys Hpol) as Hs. rewrite Heq in Hs. cbn in Hs. destruct Hs as [Hm' Hret].
  set (ks := retained_keys (mgr_map m) keys) in *.
  assert (NoDup ks) as Hnd by apply NoDup_filter, NoDup_remove_dups.
  assert (∀ k, k ∈ ks ↔ k ∈ keys ∧ ready_at (mgr_map m) k = true) as Hks.
  { intros k. unfold ks, retained_keys. rewrite list_elem_of_filter, elem_of_remove_dups. tauto. }
  assert (∀ k, owners (<[x:=l']> h) k = owners h k + if decide (k ∈ ks) then 1 else 0) as Ho.
  { intros k. rewrite (owners_insert h x l l' k Hx). unfold retains. rewrite Hl', Hret.
    destruct (decide (k ∈ ks)) as [Hk|Hk].
    - pose proof (Hnew k (proj1 (proj1 (Hks k) Hk))). rewrite decide_False by done.
      rewrite decide_True by set_solver. lia.
    - rewrite (decide_ext (k ∈ _ ∪ _) (k ∈ lc_retained l)) by set_solver. lia. }
  split.
  - by eapply mgr_incr_wf.
  - intros k b. rewrite (with_map_map _ _ _ Hm'), lookup_alter_all, Ho by done. case_decide as Hk.
    + intros (b' & Hb' & ->)%fmap_Some _. pose proof (mwf_refs _ Hwf _ _ Hb') as Href. unfold ref_ok in Href.
      pose proof (ref_room_lookup _ _ _ Hroom Hb'). rewrite incr_ref_cnt by lia.
      apply Hks in Hk as [_ Hk]. unfold ready_at in Hk. rewrite Hb' in Hk. rewrite (Hready k b' Hb' Hk). lia.
    + intros Hb Hrd. rewrite (Hready k b Hb Hrd). lia.
  - intros k. unfold ready_at. rewrite (with_map_map _ _ _ Hm'), lookup_alter_all, Ho by done.
    case_decide as Hk.
    + apply Hks in Hk as [_ Hk]. unfold ready_at in Hk. destruct (mgr_map m !! k) as [b|] eqn:Hb; [|done].
      cbn. unfold is_ready in *. apply Z.leb_le in Hk. pose proof (ref_room_lookup _ _ _ Hroom Hb).
      rewrite incr_ref_cnt by lia. rewrite Z.leb_gt. lia.
    + intros Hr. rewrite Z.add_0_r. by apply Hother.
Qed.

End pins.

(** ** The invariant of the registry *)

Section invariant.
Context {F P : Type} `{PyFloat F} `{CachePolicySpec P}.
Context (settings : OffloadConfig F) (clock : nat → F).
Notation registry := (LifecycleRegistry F P).
Implicit Types (r : registry) (l : Lifecycle F) (x : ref) (ext : okey → Z).

Record lc_inv l : Prop := {
  li_start : is_Some (lc_start l) ↔ is_Some (lc_started_at l);
  li_deadlines : ∀ s, lc_started_at l = Some s →
    is_Some (lc_release_deadline l) ∧
    lc_safety_deadline l =
      Some (s +@ pymin (flt 3600) (pymax (flt 60) (flt 4 *@ lc_predicted_duration l)));
  li_terminal : is_Some (lc_terminal_cause l) ↔ is_Some (lc_terminal_at l);
  (** only an active lifecycle retains blocks *)
  li_owner : lc_retained l ≠ ∅ → owns_preservation l = true;
  li_released : lc_ownership_released l = true → lc_pending_retention l = ∅;
  (** a terminal lifecycle is released and detached from its prefix *)
  li_dead : is_Some (lc_terminal_at l) →
    lc_ownership_released l = true ∧ lc_snapshot l = None ∧ lc_pending_evaluation l = false;
  li_finish : lc_finish_accepted l = true ↔ lc_terminal_cause l = Some CauseFinished;
}.

Definition history_ok (d : list (history_key * F)) : Prop := od_wf d ∧ lenZ d <= HISTORY_LIMIT.

Record reg_inv ext r : Prop := {
  ri_keys : od_wf (lr_records r);
  ri_refs : NoDup (lr_records r).*2;
  ri_live : ∀ id x, (id, x) ∈ lr_records r →
    ∃ l, lr_heap r !! x = Some l ∧ md_lifecycle_id (lc_metadata l) = id;
  ri_detached : ∀ x l, lr_heap r !! x = Some l → x ∉ (lr_records r).*2 → is_Some (lc_terminal_at l);
  ri_fresh : ∀ x, (lr_next_ref r ≤ x)%nat → lr_heap r !! x = None;
  ri_lc : ∀ x l, lr_heap r !! x = Some l → lc_inv l;
  ri_pins : pins_inv ext (lr_heap r) (lr_manager r);
  ri_metrics : metrics_wf (lr_metrics r);
  ri_history : history_ok (lr_history r);
}.

Lemma owns_preservation_spec l :
  owns_preservation l = true ↔
  is_Some (lc_start l) ∧ lc_terminal_at l = None ∧ lc_ownership_released l = false.
Proof.
  unfold owns_preservation. rewrite !andb_true_iff, !bool_decide_eq_true, negb_true_iff. tauto.
Qed.

Lemma lc_inv_released_empty l : lc_inv l → lc_ownership_released l = true → lc_retained l = ∅.
Proof.
  intros [] Hr. destruct (decide (lc_retained l = ∅)) as [|Hn]; [done|].
  apply li_owner0, owns_preservation_spec in Hn as (_ & _ & ?). congruence.
Qed.

(** *** Records after a release, a termination, an expiry *)

Definition released l : Lifecycle F :=
  l <| lc_retained := ∅ |> <| lc_pending_retention := ∅ |> <| lc_ownership_released := true |>.

Definition terminated l (cause : TerminalCause) (now : F) : Lifecycle F :=
  released l <| lc_snapshot := None |> <| lc_pending_evaluation := false |>
    <| lc_next_evaluation_step := 0 |> <| lc_backoff_signature := None |>
    <| lc_terminal_cause := Some cause |> <| lc_terminal_at := Some now |>.

(** What [expire] makes of a record at time [now]. *)
Definition expire_record (now : F) l : Lifecycle F :=
  match lc_terminal_at l, lc_started_at l, lc_completed_at l with
  | Some _, _, _ => l
  | None, Some _, _ =>
      if reached now (lc_safety_deadline l) then terminated l CauseExpired now
      else if reached now (lc_release_deadline l) then released l else l
  | None, None, Some at' => if at' +@ ATTACH_SECONDS <=@ now then terminated l CauseExpired now else l
  | None, None, None => l
  end.

(** Whether [expire] forgets a record. *)
Definition tombstone_over (now : F) l : bool :=
  match lc_terminal_at l with Some at' => at' +@ TOMBSTONE_SECONDS <=@ now | None => false end.

Lemma expire_record_alive now l :
  lc_terminal_at (expire_record now l) = None →
  match lc_started_at (expire_record now l), lc_completed_at (expire_record now l) with
  | Some _, _ => reached now (lc_safety_deadline (expire_record now l)) = false ∧
      (reached now (lc_release_deadline (expire_record now l)) = true →
       lc_retained (expire_record now l) = ∅ ∧ lc_ownership_released (expire_record now l) = true)
  | None, Some at' => (at' +@ ATTACH_SECONDS <=@ now) = false
  | None, None => True
  end.
Proof.
  unfold expire_record. destruct (lc_terminal_at l) eqn:?, (lc_started_at l) eqn:Hs, (lc_completed_at l) eqn:Hc;
    repeat (case_match; cbn); cbn in *; rewrite ?Hs, ?Hc; intros; simplify_eq; try done; split; congruence.
Qed.

Lemma lc_inv_released l : lc_inv l → lc_inv (released l).
Proof.
  intros []. split; cbn; try done. intros Ht. by destruct (li_dead0 Ht) as (_ & ? & ?).
Qed.

Lemma lc_inv_terminated l cause now :
  lc_inv l → cause ≠ CauseFinished → lc_terminal_at l = None → lc_inv (terminated l cause now).
Proof.
  intros [] Hc Ht. split; cbn; try done.
  assert (lc_terminal_cause l = None) as Hn.
  { destruct (lc_terminal_cause l) eqn:E; [|done].
    destruct (proj1 li_terminal0 (mk_is_Some _ _ eq_refl)). congruence. }
  rewrite li_finish0, Hn. split; congruence.
Qed.

Lemma lc_inv_expire now l : lc_inv l → lc_inv (expire_record now l).
Proof.
  intros Hl. unfold expire_record. repeat case_match; auto using lc_inv_released;
    by apply lc_inv_terminated.
Qed.

Lemma metric_of_cause cause : ∃ m, metric_of_value ("lifecycle." +:+ cause_value cause) = Ok m.
Proof. destruct cause; eexists; vm_compute; reflexivity. Qed.

(** *** Steps of the state *)

Lemma get_record_eq x r l : lr_heap r !! x = Some l → get_record x r = Ok (r, l).
Proof. intros Hx. unfold get_record, st_get, mbind, st_bind, st_lift. by rewrite Hx. Qed.

Lemma set_record_eq x f r l :
  lr_heap r !! x = Some l →
  set_record x f r = Ok (r <| lr_heap := <[x := f l]> (lr_heap r) |>, tt).
Proof.
  intros Hx. unfold set_record, st_modify. do 2 f_equal. unfold update_field. cbn. f_equal.
  apply map_eq. intros y. rewrite lookup_insert, lookup_alter. case_decide; [subst|done]. by rewrite Hx.
Qed.

Lemma count_eq m r :
  metrics_wf (lr_metrics r) → ∃ t, count m r = Ok (r <| lr_metrics := t |>, tt) ∧ metrics_wf t.
Proof.
  intros Hm. destruct (metrics_count_spec m 1 _ Hm) as (t & Ht & Hwf & _); [lia|].
  exists t. split; [|done]. unfold count. by rewrite Ht.
Qed.

Lemma release_eq ext x r l :
  pins_inv ext (lr_heap r) (lr_manager r) → lr_heap r !! x = Some l →
  ∃ om, release x r = Ok (r <| lr_heap := <[x := released l]> (lr_heap r) |> <| lr_manager := om |>, tt) ∧
    pins_inv ext (<[x := released l]> (lr_heap r)) om ∧ (is_Some om ↔ is_Some (lr_manager r)).
Proof.
  intros [He Hp] Hx. unfold release. rewrite (st_bind_eq _ _ _ _ _ (get_record_eq x r l Hx)).
  rewrite (st_bind_eq _ _ _ _ _ (set_record_eq x _ r l Hx)).
  case_bool_decide as Hk; cbn [negb st_when].
  - exists (lr_manager r). split; [by destruct r|].
    split; [|done]. eapply pins_inv_insert_same; [done|by cbn; rewrite Hk|by split].
  - unfold with_manager. cbn. destruct (lr_manager r) as [m|] eqn:Em; [|by destruct Hk; eapply Hp].
    destruct (pins_release ext (lr_heap r) m x l (released l)) as (m' & Hm & Hp'); [done..|].
    exists (Some m'). cbn. rewrite Hm. cbn. done.
Qed.

Lemma terminalize_eq ext x cause now r l :
  pins_inv ext (lr_heap r) (lr_manager r) → metrics_wf (lr_metrics r) →
  lr_heap r !! x = Some l → lc_terminal_at l = None →
  ∃ om t, terminalize x cause now r =
      Ok (r <| lr_heap := <[x := terminated l cause now]> (lr_heap r) |> <| lr_manager := om |>
            <| lr_metrics := t |>, tt) ∧
    pins_inv ext (<[x := terminated l cause now]> (lr_heap r)) om ∧
    (is_Some om ↔ is_Some (lr_manager r)) ∧ metrics_wf t.
Proof.
  intros Hp Hm Hx Ht. unfold terminalize. rewrite (st_bind_eq _ _ _ _ _ (get_record_eq x r l Hx)).
  rewrite Ht, bool_decide_eq_false_2 by (by intros []).
  destruct (release_eq ext x r l Hp Hx) as (om & Hr & Hp' & Hom).
  rewrite (st_bind_eq _ _ _ _ _ Hr). erewrite st_bind_eq by (eapply set_record_eq, lookup_insert_eq).
  destruct (metric_of_cause cause) as [mt Hmt]. rewrite Hmt.
  rewrite (st_bind_eq _ (st_lift (Ok mt)) _ _ mt eq_refl).
  match goal with |- context [count mt ?s] => destruct (count_eq mt s) as (t & Hc & Hwf) end; [done|].
  exists om, t. rewrite Hc. cbn. rewrite insert_insert_eq. split_and!; try done.
  eapply (pins_inv_insert_same _ _ _ x (released l)) in Hp'; [|apply lookup_insert_eq|].
  - by rewrite insert_insert_eq in Hp'.
  - done.
Qed.

(** Replacing one record. *)
Lemma reg_inv_update ext r r' x l l' :
  reg_inv ext r → lr_heap r !! x = Some l →
  lr_records r' = lr_records r → lr_next_ref r' = lr_next_ref r → lr_heap r' = <[x := l']> (lr_heap r) →
  lc_metadata l' = lc_metadata l → (is_Some (lc_terminal_at l) → is_Some (lc_terminal_at l')) → lc_inv l' →
  pins_inv ext (lr_heap r') (lr_manager r') → metrics_wf (lr_metrics r') → history_ok (lr_history r') →
  reg_inv ext r'.
Proof.
  intros [] Hx Hrec Hnext Hheap Hmd Hterm Hl' Hp Hm Hh. split; rewrite ?Hrec, ?Hnext; try done.
  - intros id y Hy. rewrite Hheap, lookup_insert. destruct (ri_live0 id y Hy) as (ly & Hly & Hid).
    case_decide; [subst|by exists ly]. simplify_eq. exists l'. by rewrite Hmd.
  - intros y ly. rewrite Hheap, lookup_insert. case_decide; [subst|by apply ri_detached0].
    intros [= <-] Hn. by eapply Hterm, ri_detached0.
  - intros y Hy. rewrite Hheap, lookup_insert. case_decide; [subst|by apply ri_fresh0].
    rewrite ri_fresh0 in Hx by done. done.
  - intros y ly. rewrite Hheap, lookup_insert. case_decide; [by intros [= <-]|by apply ri_lc0].
Qed.

(** Everything but the records, the heap, the manager and the counters. *)
Definition same_rest r r' : Prop :=
  lr_next_ref r' = lr_next_ref r ∧ lr_generations r' = lr_generations r ∧
  lr_history r' = lr_history r ∧ lr_ticks r' = lr_ticks r ∧
  (is_Some (lr_manager r') ↔ is_Some (lr_manager r)).

#[global] Instance same_rest_preorder : PreOrder same_rest.
Proof.
  split.
  - done.
  - intros r1 r2 r3 (? & ? & ? & ? & Hm) (? & ? & ? & ? & Hm'). rewrite Hm in Hm'.
    split_and!; congruence || done.
Qed.

Lemma expire_one_eq ext now id x l r :
  reg_inv ext r → (id, x) ∈ lr_records r → lr_heap r !! x = Some l →
  ∃ r', expire_one now (id, x) r = Ok (r', tt) ∧ reg_inv ext r' ∧ same_rest r r' ∧
    lr_heap r' = <[x := expire_record now l]> (lr_heap r) ∧
    lr_records r' = if tombstone_over now l then od_del id (lr_records r) else lr_records r.
Proof.
  intros Hinv Hin Hx. pose proof Hinv as []. unfold expire_one.
  rewrite (st_bind_eq _ _ _ _ _ (get_record_eq x r l Hx)).
  assert (Hnop : expire_record now l = l → tombstone_over now l = false →
    ∃ r', Ok (r, tt) = Ok (r', tt) ∧ reg_inv ext r' ∧ same_rest r r' ∧
      lr_heap r' = <[x := expire_record now l]> (lr_heap r) ∧
      lr_records r' = if tombstone_over now l then od_del id (lr_records r) else lr_records r).
  { intros -> ->. exists r. split_and!; try done. by rewrite insert_id. }
  assert (Hterm : lc_terminal_at l = None → expire_record now l = terminated l CauseExpired now →
    ∃ r', terminalize x CauseExpired now r = Ok (r', tt) ∧ reg_inv ext r' ∧ same_rest r r' ∧
      lr_heap r' = <[x := expire_record now l]> (lr_heap r) ∧
      lr_records r' = if tombstone_over now l then od_del id (lr_records r) else lr_records r).
  { intros Ht ->. destruct (terminalize_eq ext x CauseExpired now r l) as (om & t & Heq & Hp & Hom & Hm); [done..|].
    eexists; split; [exact Heq|]. unfold tombstone_over. rewrite Ht. split_and!; try done.
    eapply reg_inv_update; try done.
    apply lc_inv_terminated; [by eapply ri_lc0|done|done]. }
  unfold expire_record, tombstone_over in *. destruct (lc_terminal_at l) as [at'|] eqn:Ht.
  { destruct (at' +@ TOMBSTONE_SECONDS <=@ now) eqn:Hover; [|by apply Hnop]. clear Hnop Hterm. cbn.
    eexists; split; [done|]. cbn. rewrite insert_id by done. split_and!; try done.
    split; cbn; try done.
    - by apply od_wf_del.
    - eapply sublist_NoDup; [exact ri_refs0|]. apply fmap_sublist, od_del_sublist.
    - intros id' y Hy. apply ri_live0. eapply elem_of_sublist; [exact Hy|apply od_del_sublist].
    - intros y ly Hy Hn. destruct (decide (y = x)) as [->|Hne]; [by simplify_eq|].
      apply (ri_detached0 y ly Hy). intros Hyr. apply Hn.
      apply list_elem_of_fmap in Hyr as ([id' y'] & -> & Hyr). cbn in *.
      apply list_elem_of_fmap. exists (id', y'). split; [done|]. apply od_get_In.
      rewrite od_get_del by done. case_decide; [|by apply od_In_get]. subst.
      apply (od_In_get _ _ _ ri_keys0) in Hyr, Hin. congruence. }
  destruct (lc_started_at l).
  - destruct (reached now (lc_safety_deadline l)); [by apply Hterm|].
    destruct (reached now (lc_release_deadline l)); [|by apply Hnop].
    destruct (release_eq ext x r l) as (om & Heq & Hp & Hom); [done..|].
    eexists; split; [exact Heq|]. split_and!; try done.
    eapply reg_inv_update; try done. by eapply lc_inv_released, ri_lc0.
  - destruct (lc_completed_at l) as [at'|]; [|by apply Hnop].
    destruct (at' +@ ATTACH_SECONDS <=@ now); [by apply Hterm|by apply Hnop].
Qed.

(** Whether [expire] forgets an entry of the registry. *)
Definition forgotten (now : F) r (item : string * ref) : bool :=
  from_option (tombstone_over now) false (lr_heap r !! item.2).

Lemma expire_loop ext now items r :
  reg_inv ext r → NoDup items → (∀ it, it ∈ items → it ∈ lr_records r) →
  ∃ r', st_iter (expire_one now) items r = Ok (r', tt) ∧ reg_inv ext r' ∧ same_rest r r' ∧
    (∀ x, lr_heap r' !! x =
       if decide (x ∈ items.*2) then expire_record now <$> lr_heap r !! x else lr_heap r !! x) ∧
    lr_records r' = filter (fun it => ¬ (it ∈ items ∧ forgotten now r it = true)) (lr_records r).
Proof.
  revert r; induction items as [|[id x] items IH]; intros r Hinv Hnd Hin.
  { exists r. split_and!; try done. symmetry. apply list_filter_all. set_solver. }
  apply NoDup_cons in Hnd as [Hn Hnd]. pose proof (Hin (id, x) ltac:(left)) as Hx.
  destruct (ri_live _ _ Hinv _ _ Hx) as (l & Hl & _).
  destruct (expire_one_eq ext now id x l r Hinv Hx Hl) as (r1 & Heq1 & Hinv1 & Hs1 & Hh1 & Hr1).
  assert (∀ it, it ∈ items → it ∈ lr_records r ∧ it ≠ (id, x) ∧ it.2 ≠ x) as Hit.
  { intros it Hi. assert (it ∈ lr_records r) by (apply Hin; by right). assert (it ≠ (id, x)) by set_solver.
    split_and!; [done..|]. intros Heq. destruct it as [id' y]. cbn in Heq. subst.
    by apply (NoDup_fmap_elem snd (lr_records r) (id', x) (id, x)) in Hx; [| apply Hinv|..]. }
  assert (lr_records r1 = filter (fun it => ¬ (it = (id, x) ∧ tombstone_over now l = true)) (lr_records r)) as Hr1'.
  { rewrite Hr1. destruct (tombstone_over now l).
    - rewrite (od_del_filter id x) by (done || apply Hinv). apply list_filter_ext_in. intros. tauto.
    - symmetry. apply list_filter_all. intros it _ [_ ?]. done. }
  destruct (IH r1 Hinv1 Hnd) as (r' & H' & Hinv' & Hs' & Hh' & Hr').
  { intros it Hi. rewrite Hr1'. apply list_elem_of_filter. destruct (Hit it Hi) as (? & ? & ?). naive_solver. }
  exists r'. split_and!; [|done|by etrans| |].
  - cbn. by rewrite (st_bind_eq _ _ _ _ _ Heq1).
  - intros y. rewrite Hh', Hh1, lookup_insert. csimpl. destruct (decide (x = y)) as [->|Hne].
    + rewrite (decide_True (P := y ∈ y :: _)) by left. rewrite decide_False, Hl; [done|].
      intros (it & -> & Hi)%list_elem_of_fmap. by destruct (Hit it Hi) as (_ & _ & ?).
    + rewrite (decide_ext (y ∈ x :: items.*2) (y ∈ items.*2)); [done|]. rewrite elem_of_cons. naive_solver.
  - rewrite Hr', Hr1', list_filter_filter. apply list_filter_ext_in. intros it Hi.
    assert (it ∈ items → forgotten now r1 it = forgotten now r it) as Hf.
    { intros (_ & _ & Hne)%Hit. unfold forgotten. by rewrite Hh1, lookup_insert_ne by done. }
    assert (it = (id, x) → forgotten now r it = tombstone_over now l) as Hf'.
    { intros ->. unfold forgotten. cbn. by rewrite Hl. }
    rewrite elem_of_cons. split.
    + intros [Ha Hb] [[Heq|Hi'] Hfo]; [apply Hb; rewrite <- Hf' by done; done|].
      apply Ha. by rewrite Hf.
    + intros Ha. split; [intros [Hi' Hfo]; apply Ha; rewrite <- Hf by done; tauto|].
      intros [Heq Hfo]. apply Ha. rewrite Hf' by done. tauto.
Qed.

(** The state after [expire] read the time [now]. *)
Record expired (now : F) r r' : Prop := {
  ex_records : lr_records r' = filter (fun it => forgotten now r it = false) (lr_records r);
  ex_heap : ∀ x, lr_heap r' !! x =
    if decide (x ∈ (lr_records r).*2) then expire_record now <$> lr_heap r !! x else lr_heap r !! x;
  ex_next : lr_next_ref r' = lr_next_ref r;
  ex_generations : lr_generations r' = lr_generations r;
  ex_history : lr_history r' = lr_history r;
  ex_ticks : lr_ticks r' = S (lr_ticks r);
  ex_manager : is_Some (lr_manager r') ↔ is_Some (lr_manager r);
}.

Lemma reg_inv_tick ext r n : reg_inv ext r → reg_inv ext (r <| lr_ticks := n |>).
Proof. by intros []; split. Qed.

Lemma expire_eq ext r :
  reg_inv ext r → ∃ r', expire clock r = Ok (r', tt) ∧ reg_inv ext r' ∧ expired (clock (lr_ticks r)) r r'.
Proof.
  intros Hinv. set (r1 := r <| lr_ticks ::= S |>).
  destruct (expire_loop ext (clock (lr_ticks r)) (lr_records r) r1) as (r' & H' & Hinv' & Hs & Hh & Hr).
  - by apply (reg_inv_tick ext r (S (lr_ticks r))).
  - eapply NoDup_fmap_1, (ri_keys _ _ Hinv).
  - done.
  - exists r'. split; [exact H'|]. split; [done|]. destruct Hs as (? & ? & ? & ? & ?).
    split; try done. rewrite Hr. apply list_filter_ext_in. intros it Hi.
    change (forgotten (clock (lr_ticks r)) r1 it) with (forgotten (clock (lr_ticks r)) r it).
    destruct (forgotten _ r it); naive_solver.
Qed.

Lemma st_bind_clock {A} (f : F → st registry A) r :
  (read_clock clock ≫= f) r = f (clock (lr_ticks r)) (r <| lr_ticks ::= S |>).
Proof. done. Qed.

Lemma st_bind_lift_val {A B} (f : A → st registry B) a r : (st_lift (Ok a) ≫= f) r = f a r.
Proof. done. Qed.

Lemma st_bind_set_record {A} x f (g : unit → st registry A) r l :
  lr_heap r !! x = Some l →
  (set_record x f ≫= g) r = g tt (r <| lr_heap := <[x := f l]> (lr_heap r) |>).
Proof. intros Hx. by rewrite (st_bind_eq _ _ _ _ _ (set_record_eq x f r l Hx)). Qed.

Lemma st_bind_get_record {A} x (g : Lifecycle F → st registry A) r l :
  lr_heap r !! x = Some l → (get_record x ≫= g) r = g l r.
Proof. intros Hx. by rewrite (st_bind_eq _ _ _ _ _ (get_record_eq x r l Hx)). Qed.

Lemma reg_inv_metrics ext r t : reg_inv ext r → metrics_wf t → reg_inv ext (r <| lr_metrics := t |>).
Proof. by intros [] ?; split. Qed.

Lemma reg_inv_generations ext r g : reg_inv ext r → reg_inv ext (r <| lr_generations := g |>).
Proof. by intros []; split. Qed.

Lemma count_inv ext m r :
  reg_inv ext r → ∃ t, count m r = Ok (r <| lr_metrics := t |>, tt) ∧ reg_inv ext (r <| lr_metrics := t |>).
Proof.
  intros Hinv. destruct (count_eq m r (ri_metrics _ _ Hinv)) as (t & Ht & Hwf).
  exists t. split; [done|]. by apply reg_inv_metrics.
Qed.

(** *** [associate] *)

Lemma lc_inv_init md : lc_inv (lifecycle_init md).
Proof. split; cbn; try done; by split; intros []. Qed.

Lemma reg_inv_add ext r md :
  reg_inv ext r → od_has (md_lifecycle_id md) (lr_records r) = false →
  reg_inv ext (r <| lr_heap ::= <[lr_next_ref r := lifecycle_init md]> |>
                 <| lr_records ::= od_set (md_lifecycle_id md) (lr_next_ref r) |>
                 <| lr_next_ref ::= S |>).
Proof.
  intros [] Hid. apply not_true_iff_false in Hid. rewrite od_has_true in Hid.
  assert (lr_heap r !! lr_next_ref r = None) as Hn by (by apply ri_fresh0).
  assert (lr_next_ref r ∉ (lr_records r).*2) as Hnr.
  { intros ([id x] & Heq & Hx)%list_elem_of_fmap. cbn in Heq. subst.
    apply ri_live0 in Hx as (l & Hl & _). congruence. }
  split; cbn; rewrite ?od_keys_set_new by done.
  - rewrite <- od_keys_set_new by done. by apply od_wf_set.
  - rewrite fmap_app. cbn. apply NoDup_app. split_and!; [done| |apply NoDup_singleton].
    intros x Hx ->%list_elem_of_singleton. done.
  - intros id x [Hx|Hx]%elem_of_app.
    + destruct (ri_live0 id x Hx) as (l & Hl & ?). exists l. split; [|done].
      rewrite lookup_insert_ne; [done|]. congruence.
    + apply list_elem_of_singleton in Hx. simplify_eq. eexists. by rewrite lookup_insert_eq.
  - intros x l. rewrite lookup_insert, fmap_app. case_decide; [subst|].
    + intros _ Hnot. destruct Hnot. apply elem_of_app. right. left.
    + intros Hl Hnot. apply (ri_detached0 x l Hl). intros Hx. apply Hnot. apply elem_of_app. by left.
  - intros x Hx. rewrite lookup_insert_ne by lia. apply ri_fresh0. lia.
  - intros x l. rewrite lookup_insert. case_decide; [intros [= <-]; apply lc_inv_init|by apply ri_lc0].
  - by apply pins_inv_insert_new.
  - done.
  - done.
Qed.

(** [associate] succeeds if and only if the identifier is neither recorded nor in
    use by a live generation; it keeps the invariant and does not raise otherwise. *)
Lemma associate_eq ext r request_id md :
  reg_inv ext r → ∃ r1 r' a, associate clock request_id md r = Ok (r', a) ∧ reg_inv ext r' ∧
    expired (clock (lr_ticks r)) r r1 ∧
    (if od_has (md_lifecycle_id md) (lr_records r1) || od_has (md_lifecycle_id md) (lr_generations r1)
     then a = Err DuplicateLifecycleError ∧ lr_records r' = lr_records r1 ∧ lr_heap r' = lr_heap r1
     else a = Ok tt ∧ od_get (md_lifecycle_id md) (lr_records r') = Some (lr_next_ref r1) ∧
       lr_heap r' = <[lr_next_ref r1 := lifecycle_init md]> (lr_heap r1) ∧
       od_get (md_lifecycle_id md) (lr_generations r') = Some request_id) ∧ expire clock r = Ok (r1, tt).
Proof.
  intros Hinv. destruct (expire_eq ext r Hinv) as (r1 & He & Hinv1 & Hex).
  exists r1. unfold associate. st_step He. rewrite st_bind_get.
  destruct (od_has _ (lr_records r1) || _) eqn:Ehas.
  - destruct (count_inv ext CONFLICT r1 Hinv1) as (t & Hc & Hinv2). st_step Hc.
    eexists _, _. split; [done|]. by split_and!.
  - apply orb_false_iff in Ehas as [Hrec Hgen]. rewrite !st_bind_modify.
    set (r2 := r1 <| lr_generations ::= od_set (md_lifecycle_id md) request_id |>).
    pose proof (reg_inv_add ext r2 md (reg_inv_generations _ _ _ Hinv1) Hrec) as Hinv2.
    destruct (count_inv ext ASSOCIATED _ Hinv2) as (t & Hc & Hinv3). st_step Hc.
    eexists _, _. split; [done|]. split_and!; try done; cbn; by rewrite od_get_set, decide_True.
Qed.

(** *** [generation_finished] *)

(** The record of a generation that ended. *)
Definition generation_record l (cause : GenerationCause) (snap : option (PrefixSnapshot F)) (now : F) : Lifecycle F :=
  match lc_terminal_at l with
  | Some _ => l
  | None =>
      if bool_decide (cause ≠ GenCompleted) || negb (oc_enabled settings)
      then terminated l (generation_cause cause) now
      else l <| lc_completed_at := Some now |> <| lc_snapshot := snap |>
             <| lc_pending_evaluation := bool_decide (is_Some (lc_start l)) |>
  end.

Lemma lc_inv_generation l cause snap now : lc_inv l → lc_inv (generation_record l cause snap now).
Proof.
  intros Hl. unfold generation_record. destruct (lc_terminal_at l) eqn:Ht; [done|].
  destruct (_ || _); [apply lc_inv_terminated; [done|by destruct cause|done]|].
  destruct Hl. split; cbn; try done. rewrite Ht. by intros [].
Qed.

Lemma generation_finished_eq ext r id cause snap :
  reg_inv ext r → ∃ r1 r' now, generation_finished settings clock id cause snap r = Ok (r', tt) ∧
    reg_inv ext r' ∧ expired (clock (lr_ticks r)) r r1 ∧ lr_records r' = lr_records r1 ∧
    lr_generations r' = od_del id (lr_generations r) ∧
    match od_get id (lr_records r1) with
    | None => lr_heap r' = lr_heap r1
    | Some x => ∃ l, lr_heap r1 !! x = Some l ∧
        lr_heap r' = <[x := generation_record l cause snap now]> (lr_heap r1)
    end.
Proof.
  intros Hinv. destruct (expire_eq ext r Hinv) as (r1 & He & Hinv1 & Hex). exists r1.
  unfold generation_finished. st_step He. rewrite st_bind_modify, st_bind_get. cbn [lr_records].
  set (r2 := r1 <| lr_generations ::= od_del id |>).
  assert (reg_inv ext r2) as Hinv2 by by apply reg_inv_generations.
  assert (lr_generations r2 = od_del id (lr_generations r)) as Hg by (cbn; by rewrite (ex_generations _ _ _ Hex)).
  change (lr_records r2) with (lr_records r1).
  destruct (od_get id (lr_records r1)) as [x|] eqn:Ex; [|by exists r2, (flt 0)].
  destruct (ri_live _ _ Hinv1 id x (od_get_In _ _ _ Ex)) as (l & Hl & _).
  rewrite (st_bind_get_record x _ r2 l Hl). pose proof (ri_lc _ _ Hinv1 x l Hl) as Hli.
  pose proof (lc_inv_generation l cause snap (clock (lr_ticks r2)) Hli) as Hgr. unfold generation_record in *.
  destruct (lc_terminal_at l) as [at'|] eqn:Ht.
  { rewrite bool_decide_eq_true_2 by by eexists. exists r2, (flt 0). split_and!; try done.
    exists l. by rewrite Ht, insert_id. }
  rewrite bool_decide_eq_false_2 by by intros [].
  rewrite st_bind_clock. set (r3 := r2 <| lr_ticks ::= S |>).
  assert (reg_inv ext r3) as Hinv3 by by apply (reg_inv_tick ext r2).
  destruct (_ || _) eqn:Eb.
  - destruct (terminalize_eq ext x (generation_cause cause) (clock (lr_ticks r2)) r3 l)
      as (om & t & Heq & Hp & _ & Hm); [apply Hinv3..|done|done|].
    eexists _, _. split; [exact Heq|]. split_and!; try done; [|exists l; by rewrite Ht].
    eapply reg_inv_update; try done. apply Hinv3.
  - rewrite (st_bind_set_record x _ _ r3 l Hl).
    match goal with |- context [count COMPLETED ?s] =>
      assert (reg_inv ext s) as Hinv4; [|destruct (count_inv ext COMPLETED s Hinv4) as (t & Hc & ?)] end.
    + eapply (reg_inv_update ext r3 _ x l); try done.
      * eapply pins_inv_insert_same; [done|done|apply Hinv3].
      * apply (ri_metrics _ _ Hinv3).
      * apply (ri_history _ _ Hinv3).
    + eexists _, _. split; [exact Hc|]. split_and!; try done. exists l. by rewrite Ht.
Qed.

(** *** Durations *)

Definition predicted (d : list (history_key * F)) l (event : LifecycleEvent F) : F :=
  let history := history_key_of l (ev_kind event) ≫= (fun k => od_get k d) in
  match ev_estimated_duration_s event with
  | None => default (oc_default_stall_s settings) history
  | Some estimate => from_option (fun h => lit 1 2 *@ (estimate +@ h)) estimate history
  end.

Lemma predict_eq l event r :
  history_ok (lr_history r) →
  ∃ d, predict settings l event r = Ok (r <| lr_history := d |>, predicted (lr_history r) l event) ∧
    history_ok d ∧ d ≡ₚ lr_history r.
Proof.
  intros [Hwf Hlen]. unfold predict, predicted. rewrite st_bind_get.
  destruct (history_key_of l (ev_kind event)) as [k|]; cbn;
    [destruct (od_get k (lr_history r)) as [h|] eqn:Ek; cbn|].
  - exists (od_move_to_end k (lr_history r)). split_and!; [by destruct (ev_estimated_duration_s event)| |].
    + split; [by apply od_wf_move|]. by rewrite od_move_to_end_perm.
    + by apply od_move_to_end_perm.
  - exists (lr_history r). split_and!; [destruct r; by destruct (ev_estimated_duration_s event)|done|done].
  - exists (lr_history r). split_and!; [destruct r; by destruct (ev_estimated_duration_s event)|done|done].
Qed.

(** The new history after a stall that lasted until [now]. *)
Definition learned (d : list (history_key * F)) l (now : F) : list (history_key * F) :=
  match lc_start l, lc_started_at l with
  | Some start, Some started_at =>
      let sample := pymax (flt 0) (now -@ started_at) in
      match history_key_of l (ev_kind start) with
      | None => d
      | Some key =>
          match od_get key d with
          | Some previous =>
              od_set key (oc_ewma_alpha settings *@ sample +@
                          (flt 1 -@ oc_ewma_alpha settings) *@ previous) (od_del key d)
          | None => od_set key sample (if HISTORY_LIMIT <=? lenZ d then tail d else d)
          end
      end
  | _, _ => d
  end.

Lemma od_del_absent {V} (k : history_key) (d : list (history_key * V)) : od_get k d = None → od_del k d = d.
Proof.
  induction d as [|[k' v] d IH]; csimpl; [done|]. case_decide; [done|]. intros Hd. by rewrite IH.
Qed.

Lemma history_ok_learned d l now : history_ok d → history_ok (learned d l now).
Proof.
  intros [Hwf Hlen]. unfold learned. destruct (lc_start l), (lc_started_at l); try done.
  destruct (history_key_of l _) as [k|]; [|done]. destruct (od_get k d) as [h|] eqn:Ek; split.
  - eauto with od.
  - pose proof (od_length_del k d) as Hd. rewrite od_length_set.
    assert (od_has k d = true) as Hk by (unfold od_has; by rewrite Ek). rewrite Hk in Hd.
    assert (0 < length d)%nat by (destruct d; [done|cbn; lia]).
    destruct (od_has k (od_del k d)); lia.
  - case_match; eauto using od_wf_set, od_wf_tail.
  - rewrite od_length_set. unfold HISTORY_LIMIT in *. destruct (4096 <=? lenZ d) eqn:El.
    + destruct d as [|e d]; [done|]. cbn [tail]. cbn [length] in *. destruct (od_has k d); lia.
    + apply Z.leb_gt in El. destruct (od_has k d); lia.
Qed.

Lemma learn_eq x now r l :
  lr_heap r !! x = Some l → is_Some (lc_start l) → is_Some (lc_started_at l) →
  ∃ l', learn settings x now r = Ok (r <| lr_heap := <[x := l']> (lr_heap r) |>
                                       <| lr_history := learned (lr_history r) l now |>, tt) ∧
    (l' = l ∨ ∃ s, l' = l <| lc_anonymous_sample := Some s |>).
Proof.
  intros Hx [start Hs] [st Hst]. unfold learn, learned. rewrite (st_bind_get_record x _ r l Hx), Hs, Hst.
  cbn [or_raise]. rewrite !st_bind_lift_val. destruct (history_key_of l (ev_kind start)) as [k|].
  - exists l. split; [|by left]. rewrite st_bind_get, st_bind_modify.
    destruct (od_get k (lr_history r)) as [h|] eqn:Ek; unfold st_modify.
    + do 2 f_equal. destruct r. unfold update_field. cbn in *. f_equal. by rewrite insert_id.
    + do 2 f_equal. destruct r. unfold update_field. cbn in *. rewrite od_del_absent by done. f_equal.
      by rewrite insert_id.
  - eexists. split; [|right; by eexists]. rewrite (set_record_eq x _ r l Hx). by destruct r.
Qed.

(** *** [set_h2d_estimate] *)

Definition h2d_deadline l (started_at seconds : F) : F :=
  (started_at +@ lc_predicted_duration l) -@ pymax (oc_release_lead_s settings) (lit 125 100 *@ seconds).

Definition h2d_record l (started_at seconds now : F) : Lifecycle F :=
  let d := h2d_deadline l started_at seconds in
  let l := l <| lc_release_deadline := Some d |> in
  if d <=@ now then released l else l.

Lemma set_h2d_eq ext x seconds r l started_at :
  pins_inv ext (lr_heap r) (lr_manager r) → lr_heap r !! x = Some l → lc_started_at l = Some started_at →
  let l' := h2d_record l started_at seconds (clock (lr_ticks r)) in
  ∃ om, set_h2d_estimate settings clock x seconds r =
      Ok (r <| lr_heap := <[x := l']> (lr_heap r) |> <| lr_manager := om |> <| lr_ticks ::= S |>, tt) ∧
    pins_inv ext (<[x := l']> (lr_heap r)) om ∧ (is_Some om ↔ is_Some (lr_manager r)).
Proof.
  intros Hp Hx Hst l'. unfold set_h2d_estimate. rewrite (st_bind_get_record x _ r l Hx), Hst.
  cbn [or_raise]. rewrite st_bind_lift_val, (st_bind_set_record x _ _ r l Hx), st_bind_clock. cbn [lr_ticks].
  unfold l', h2d_record, h2d_deadline. set (d := _ -@ _).
  set (l1 := l <| lc_release_deadline := Some d |>).
  assert (pins_inv ext (<[x:=l1]> (lr_heap r)) (lr_manager r)) as Hp1 by (by eapply pins_inv_insert_same).
  change (clock (lr_ticks (r <| lr_heap := <[x:=l1]> (lr_heap r) |>))) with (clock (lr_ticks r)).
  destruct (d <=@ clock (lr_ticks r)); cbn [st_when].
  - match goal with |- context [release x ?s] =>
      destruct (release_eq ext x s l1) as (om & Hr & Hp' & Hom); [done|apply lookup_insert_eq|] end.
    exists om. rewrite Hr. cbn in *. rewrite insert_insert_eq in *. by destruct r.
  - exists (lr_manager r). by destruct r.
Qed.

(** *** [apply] *)

(** The record after an applied [stall_started] at [now], the release check being
    made at [later]. *)
Definition stalled (d : list (history_key * F)) l (event : LifecycleEvent F) (now later : F) : Lifecycle F :=
  let p := predicted d (l <| lc_start := Some event |> <| lc_started_at := Some now |>) event in
  let l := l <| lc_start := Some event |> <| lc_started_at := Some now |>
             <| lc_predicted_duration := p |>
             <| lc_safety_deadline := Some (now +@ pymin (flt 3600) (pymax (flt 60) (flt 4 *@ p))) |> in
  let l := h2d_record l now (flt 0) later in
  l <| lc_pending_evaluation := bool_decide (is_Some (lc_completed_at l)) |>.

Lemma lc_inv_not_started l : lc_inv l → lc_start l = None → lc_retained l = ∅.
Proof.
  intros [] Hs. destruct (decide (lc_retained l = ∅)) as [|Hn]; [done|].
  apply li_owner0, owns_preservation_spec in Hn as ([? Hs'] & _). congruence.
Qed.

Lemma lc_inv_stalled d l event now later :
  lc_inv l → lc_start l = None → lc_terminal_at l = None → lc_inv (stalled d l event now later).
Proof.
  intros Hl Hs Ht. pose proof (lc_inv_not_started l Hl Hs) as Hr. destruct Hl.
  unfold stalled, h2d_record. destruct (_ <=@ later).
  - split; cbn; try done; rewrite ?Ht; try (by intros []); try (by split; eauto). by intros s [= <-].
  - split; cbn; try done; rewrite ?Ht, ?Hr; try (by intros []); try (by split; eauto). by intros s [= <-].
Qed.

Lemma start_stall_eq ext x event now r l :
  reg_inv ext r → lr_heap r !! x = Some l → lc_start l = None → lc_terminal_at l = None →
  ∃ r', start_stall settings clock x event now r = Ok (r', tt) ∧ reg_inv ext r' ∧
    lr_heap r' = <[x := stalled (lr_history r) l event now (clock (lr_ticks r))]> (lr_heap r) ∧
    lr_history r' ≡ₚ lr_history r ∧ lr_records r' = lr_records r ∧
    lr_generations r' = lr_generations r.
Proof.
  intros Hinv Hx Hs Ht. unfold start_stall. rewrite (st_bind_set_record x _ _ r l Hx).
  rewrite (st_bind_get_record _ _ _ _ (lookup_insert_eq _ _ _)).
  match goal with |- context [(predict settings ?l0 event ≫= ?g) ?s] =>
    set (l1 := l0); set (r1 := s); destruct (predict_eq l1 event r1) as (d & Hd & Hok & Hperm) end.
  { apply (ri_history _ _ Hinv). }
  st_step Hd. change (lr_history r1) with (lr_history r). set (p := predicted (lr_history r) l1 event).
  rewrite (st_bind_set_record x _ _ _ l1 (lookup_insert_eq _ _ _)).
  match goal with |- context [<[x := ?l0]> (lr_heap (r1 <| lr_history := d |>))] => set (l2 := l0) end.
  match goal with |- context [(set_h2d_estimate settings clock x (flt 0) ≫= ?g) ?s] =>
    set (r2 := s); destruct (set_h2d_eq ext x (flt 0) r2 l2 now) as (om & Hh & Hp & Hom) end.
  { cbn. rewrite insert_insert_eq. eapply pins_inv_insert_same; [exact Hx|done|apply Hinv]. }
  { apply lookup_insert_eq. }
  { done. }
  st_step Hh. change (clock (lr_ticks r2)) with (clock (lr_ticks r)) in *.
  set (l3 := h2d_record l2 now (flt 0) (clock (lr_ticks r))) in *.
  rewrite (st_bind_set_record x _ _ _ l3 (lookup_insert_eq _ _ _)).
  match goal with |- context [count STARTED ?s] => set (r3 := s) end.
  assert (lr_heap r3 = <[x := stalled (lr_history r) l event now (clock (lr_ticks r))]> (lr_heap r)) as Hheap.
  { cbn. by rewrite !insert_insert_eq. }
  assert (reg_inv ext r3) as Hinv3.
  { eapply (reg_inv_update ext r r3 x l); try done; try apply (ri_metrics _ _ Hinv).
    - unfold stalled, h2d_record. by destruct (_ <=@ _).
    - rewrite Ht. by intros [].
    - apply lc_inv_stalled; [by eapply (ri_lc _ _ Hinv)|done|done].
    - rewrite Hheap. cbn in Hp. rewrite !insert_insert_eq in Hp.
      eapply (pins_inv_insert_same _ _ _ x l3) in Hp; [|apply lookup_insert_eq|].
      + rewrite insert_insert_eq in Hp. exact Hp.
      + done. }
  destruct (count_inv ext STARTED r3 Hinv3) as (t & Hc & Hinv4).
  eexists; split; [exact Hc|]. by split_and!.
Qed.

(** The documented reaction to an event, from the record it meets. *)
Definition event_outcome l (event : LifecycleEvent F) : Disposition * Z :=
  match ev_event event with
  | StallStartedEvent =>
      if match lc_start l with Some e => event_eqb e event | None => false end then (Duplicate, 200)
      else if bool_decide (is_Some (lc_start l)) || bool_decide (is_Some (lc_terminal_at l))
      then (Conflict, 409) else (Applied, 200)
  | StallFinishedEvent =>
      if bool_decide (is_Some (lc_terminal_at l))
      then (if lc_finish_accepted l then Duplicate else LateFinish, 200)
      else if bool_decide (lc_start l = None) then (Conflict, 409) else (Applied, 200)
  end.

Lemma metric_of_disposition d :
  d ≠ Unavailable → d ≠ Applied → ∃ m, metric_of_value ("lifecycle." +:+ disposition_value d) = Ok m.
Proof. destruct d; try done; intros; eexists; vm_compute; reflexivity. Qed.

Lemma apply_result_eq ext x l event disp (status : Z) r :
  reg_inv ext r → lr_heap r !! x = Some l → disp ≠ Unavailable →
  ∃ t, apply_result x event disp status r =
      Ok (r <| lr_metrics := t |>,
          mkLifecycleEventResult (ev_lifecycle_id event) (ev_event event) (lc_state l) disp status) ∧
    reg_inv ext (r <| lr_metrics := t |>).
Proof.
  intros Hinv Hx Hu. unfold apply_result. case_bool_decide as Ha; cbn [negb st_when].
  - exists (lr_metrics r). rewrite (st_bind_eq _ _ _ r tt) by done.
    rewrite (st_bind_get_record x _ r l Hx). split; [by destruct r|].
    apply reg_inv_metrics; [done|apply (ri_metrics _ _ Hinv)].
  - destruct (metric_of_disposition disp Hu Ha) as [m Hm]. rewrite Hm.
    destruct (count_inv ext m r Hinv) as (t & Hc & Hinv'). exists t. split; [|done].
    assert ((metric ← st_lift (Ok m); count metric) r = Ok (r <| lr_metrics := t |>, tt)) as Hc' by exact Hc.
    st_step Hc'.
    set (r1 := r <| lr_metrics := t |>). by rewrite (st_bind_get_record x _ r1 l Hx).
Qed.

(** What an event does to the state [r1] reached after expiry. *)
Definition event_effect (event : LifecycleEvent F) r1 r' (res : LifecycleEventResult) : Prop :=
  er_lifecycle_id res = ev_lifecycle_id event ∧ er_event res = ev_event event ∧
  lr_records r' = lr_records r1 ∧ lr_generations r' = lr_generations r1 ∧
  match od_get (ev_lifecycle_id event) (lr_records r1) with
  | None => er_state res = "unknown" ∧ er_disposition res = Unknown ∧ er_status_code res = 404 ∧
      lr_heap r' = lr_heap r1 ∧ lr_history r' = lr_history r1
  | Some x => ∃ l l' now later,
      lr_heap r1 !! x = Some l ∧ lr_heap r' = <[x := l']> (lr_heap r1) ∧
      er_state res = lc_state l' ∧ (er_disposition res, er_status_code res) = event_outcome l event ∧
      match er_disposition res, ev_event event with
      | Applied, StallStartedEvent =>
          l' = stalled (lr_history r1) l event now later ∧ lr_history r' ≡ₚ lr_history r1
      | Applied, StallFinishedEvent =>
          lr_history r' = learned (lr_history r1) l now ∧
          lc_terminal_cause l' = Some CauseFinished ∧ lc_terminal_at l' = Some now ∧
          lc_retained l' = ∅ ∧ lc_finish_accepted l' = true ∧ lc_metadata l' = lc_metadata l
      | _, _ => l' = l ∧ lr_history r' = lr_history r1
      end
  end.

Lemma reg_inv_learned ext r x l now l' :
  reg_inv ext r → lr_heap r !! x = Some l → is_Some (lc_start l) → lc_terminal_at l = None →
  (l' = l ∨ ∃ s, l' = l <| lc_anonymous_sample := Some s |>) →
  reg_inv ext (r <| lr_heap := <[x := l']> (lr_heap r) |>
                 <| lr_history := learned (lr_history r) l now |>).
Proof.
  intros Hinv Hx Hs Ht Hl'. pose proof (ri_lc _ _ Hinv x l Hx) as [].
  eapply (reg_inv_update ext r _ x l); try done.
  - by destruct Hl' as [->|[? ->]].
  - by destruct Hl' as [->|[? ->]].
  - destruct Hl' as [->|[? ->]]; by split.
  - eapply pins_inv_insert_same; [exact Hx|by destruct Hl' as [->|[? ->]]|apply Hinv].
  - apply (ri_metrics _ _ Hinv).
  - apply history_ok_learned, (ri_history _ _ Hinv).
Qed.

(** The applied [stall_finished] branch. *)
Lemma finish_stall_eq ext x now r l :
  reg_inv ext r → lr_heap r !! x = Some l → is_Some (lc_start l) → lc_terminal_at l = None →
  ∃ r' l', (learn settings x now;; set_record x (fun l => l <| lc_finish_accepted := true |>);;
            terminalize x CauseFinished now;; mret (Applied, 200)) r = Ok (r', (Applied, 200)) ∧
    reg_inv ext r' ∧ lr_heap r' = <[x := l']> (lr_heap r) ∧
    lr_history r' = learned (lr_history r) l now ∧ lr_records r' = lr_records r ∧
    lr_generations r' = lr_generations r ∧
    lc_terminal_cause l' = Some CauseFinished ∧ lc_terminal_at l' = Some now ∧
    lc_retained l' = ∅ ∧ lc_finish_accepted l' = true ∧ lc_metadata l' = lc_metadata l.
Proof.
  intros Hinv Hx Hs Ht. pose proof (ri_lc _ _ Hinv x l Hx) as Hl.
  destruct (learn_eq x now r l Hx Hs (proj1 (li_start _ Hl) Hs)) as (l1 & Hle & Hl1). st_step Hle.
  pose proof (reg_inv_learned ext r x l now l1 Hinv Hx Hs Ht Hl1) as Hinv1.
  rewrite (st_bind_set_record x _ _ _ l1 (lookup_insert_eq _ _ _)).
  set (l2 := l1 <| lc_finish_accepted := true |>).
  match goal with |- context [(terminalize x CauseFinished now ≫= ?g) ?s] => set (r2 := s) end.
  assert (lc_terminal_at l2 = None ∧ lc_metadata l2 = lc_metadata l) as [Ht2 Hm2] by (by destruct Hl1 as [->|[? ->]]).
  destruct (terminalize_eq ext x CauseFinished now r2 l2) as (om & t & Heq & Hp & _ & Hm).
  - cbn. eapply pins_inv_insert_same; [apply lookup_insert_eq|done|apply (ri_pins _ _ Hinv1)].
  - apply (ri_metrics _ _ Hinv1).
  - apply lookup_insert_eq.
  - done.
  - st_step Heq. eexists _, _. split; [done|]. cbn in Hp |- *. rewrite !insert_insert_eq in *.
    split_and!; try done. eapply (reg_inv_update ext r _ x l); try done.
    + assert (lc_inv l1) as [] by (by eapply (ri_lc _ _ Hinv1), lookup_insert_eq). by split.
    + apply (ri_history _ _ Hinv1).
Qed.

(** [apply_to] either refuses and changes nothing, or applies the event. *)
Lemma apply_to_eq ext x event now r l :
  reg_inv ext r → lr_heap r !! x = Some l →
  ∃ r' l', apply_to settings clock x event now r = Ok (r', event_outcome l event) ∧ reg_inv ext r' ∧
    lr_heap r' = <[x := l']> (lr_heap r) ∧ lr_records r' = lr_records r ∧
    lr_generations r' = lr_generations r ∧
    match (event_outcome l event).1, ev_event event with
    | Applied, StallStartedEvent =>
        l' = stalled (lr_history r) l event now (clock (lr_ticks r)) ∧ lr_history r' ≡ₚ lr_history r
    | Applied, StallFinishedEvent =>
        lr_history r' = learned (lr_history r) l now ∧
        lc_terminal_cause l' = Some CauseFinished ∧ lc_terminal_at l' = Some now ∧
        lc_retained l' = ∅ ∧ lc_finish_accepted l' = true ∧ lc_metadata l' = lc_metadata l
    | _, _ => l' = l ∧ lr_history r' = lr_history r
    end.
Proof.
  intros Hinv Hx. unfold apply_to, event_outcome. rewrite (st_bind_get_record x _ r l Hx).
  pose proof (insert_id (lr_heap r) x l Hx) as Hid.
  destruct (ev_event event).
  - destruct (match lc_start l with Some e => event_eqb e event | None => false end).
    { exists r, l. by rewrite Hid. }
    destruct (bool_decide (is_Some (lc_start l))) eqn:Es; [exists r, l; by rewrite Hid|].
    destruct (bool_decide (is_Some (lc_terminal_at l))) eqn:Et; [exists r, l; by rewrite Hid|].
    apply bool_decide_eq_false in Es, Et.
    assert (lc_start l = None) as Hs by (destruct (lc_start l); [destruct Es; by eexists|done]).
    assert (lc_terminal_at l = None) as Ht by (destruct (lc_terminal_at l); [destruct Et; by eexists|done]).
    destruct (start_stall_eq ext x event now r l Hinv Hx Hs Ht) as (r' & Heq & ? & ? & ? & ? & ?).
    cbn [orb]. st_step Heq. eexists _, _. by split_and!.
  - destruct (bool_decide (is_Some (lc_terminal_at l))) eqn:Et.
    { exists r, l. rewrite Hid. by destruct (lc_finish_accepted l). }
    destruct (bool_decide (lc_start l = None)) eqn:Es; [exists r, l; by rewrite Hid|].
    apply bool_decide_eq_false in Es, Et.
    assert (is_Some (lc_start l)) as Hs by (by destruct (lc_start l)).
    assert (lc_terminal_at l = None) as Ht by (destruct (lc_terminal_at l); [destruct Et; by eexists|done]).
    destruct (finish_stall_eq ext x now r l Hinv Hx Hs Ht) as (r' & l' & Heq & ?).
    exists r', l'. split; [exact Heq|]. naive_solver.
Qed.

Lemma event_outcome_available l event : (event_outcome l event).1 ≠ Unavailable.
Proof. unfold event_outcome. by repeat case_match. Qed.

Lemma apply_event_eq ext r event :
  reg_inv ext r → ∃ r1 r' res, apply_event settings clock event r = Ok (r', res) ∧ reg_inv ext r' ∧
    expire clock r = Ok (r1, tt) ∧ expired (clock (lr_ticks r)) r r1 ∧ event_effect event r1 r' res.
Proof.
  intros Hinv. destruct (expire_eq ext r Hinv) as (r1 & He & Hinv1 & Hex). exists r1.
  unfold apply_event. st_step He. rewrite st_bind_get. unfold event_effect.
  destruct (od_get (ev_lifecycle_id event) (lr_records r1)) as [x|] eqn:Ex.
  2: { destruct (count_inv ext UNKNOWN r1 Hinv1) as (t & Hc & Hinv2). st_step Hc.
       eexists _, _. split; [done|]. by split_and!. }
  destruct (ri_live _ _ Hinv1 _ x (od_get_In _ _ _ Ex)) as (l & Hl & _). rewrite st_bind_clock.
  set (now := clock (lr_ticks r1)). set (r2 := r1 <| lr_ticks ::= S |>).
  assert (reg_inv ext r2) as Hinv2 by by apply (reg_inv_tick ext r1).
  destruct (apply_to_eq ext x event now r2 l Hinv2 Hl) as (r3 & l' & Ha & Hinv3 & Hh & Hr & Hg & Hm).
  st_step Ha. pose proof (event_outcome_available l event) as Hav.
  destruct (event_outcome l event) as [disp status] eqn:Eo. cbn [fst] in *.
  destruct (apply_result_eq ext x l' event disp status r3 Hinv3) as (t & Hres & Hinv4); [|done|].
  { rewrite Hh. apply lookup_insert_eq. }
  rewrite Hres. eexists _, _. split; [done|]. split_and!; try done.
  exists l, l', now, (clock (lr_ticks r2)). cbn [er_disposition er_status_code er_state].
  rewrite Eo. by split_and!.
Qed.

(** *** Retention *)

Lemma owners_le_size (h : gmap ref (Lifecycle F)) k : owners h k <= Z.of_nat (size h).
Proof.
  unfold owners, sum_map. rewrite <- length_map_to_list, <- (length_fmap snd).
  generalize ((map_to_list h).*2). intros ls. induction ls as [|l ls IH]; [done|]. csimpl.
  pose proof (retains_bound k l). lia.
Qed.

(** No reference count can leave the 32-bit range: there are fewer pins than that. *)
Definition pin_room ext (h : gmap ref (Lifecycle F)) : Prop :=
  ∀ k, ext k + Z.of_nat (size h) < 2 ^ 31 - 1.

Lemma pin_room_ref_room ext h (m : cpu_manager P) : pin_room ext h → pins_ok ext h m → ref_room (mgr_map m).
Proof.
  intros Hr [Hwf Hready Hother] k b Hb. pose proof (owners_le_size h k). specialize (Hr k).
  destruct (is_ready b) eqn:E; [rewrite (Hready k b Hb E); lia|].
  unfold is_ready in E. apply Z.leb_gt in E. lia.
Qed.

Lemma expired_size now r r' : expired now r r' → size (lr_heap r') = size (lr_heap r).
Proof.
  intros [_ Hh _ _ _ _ _]. rewrite <- !size_dom. f_equal. apply set_eq. intros x.
  rewrite !elem_of_dom, Hh. case_decide; [|done]. by rewrite fmap_is_Some.
Qed.

(** What [retain_ready] pins: nothing unless the record owns its preservation,
    otherwise every key it does not retain yet that is ready. *)
Lemma retain_ready_eq ext r x l keys :
  reg_inv ext r → lr_heap r !! x = Some l → pin_room ext (lr_heap r) → is_Some (lr_manager r) →
  ∃ r1 r' l1 ret, retain_ready clock x keys r = Ok (r', ret) ∧ reg_inv ext r' ∧
    expired (clock (lr_ticks r)) r r1 ∧ lr_heap r1 !! x = Some l1 ∧
    lr_heap r' = <[x := l1 <| lc_retained ::= union ret |>]> (lr_heap r1) ∧
    (ret ≠ ∅ → owns_preservation l1 = true) ∧ ret ⊆ keys ∖ lc_retained l1.
Proof.
  intros Hinv Hx Hroom Hmgr. destruct (expire_eq ext r Hinv) as (r1 & He & Hinv1 & Hex).
  assert (is_Some (lr_heap r1 !! x)) as [l1 Hl1].
  { rewrite (ex_heap _ _ _ Hex), Hx. by case_decide. }
  exists r1. unfold retain_ready. st_step He. rewrite (st_bind_get_record x _ r1 l1 Hl1).
  destruct (owns_preservation l1) eqn:Ho; cbn [negb].
  2: { exists r1, l1, ∅. split_and!; try done.
       rewrite insert_id; [done|]. rewrite Hl1. f_equal. destruct l1. unfold update_field. cbn.
       f_equal. set_solver. }
  destruct (proj2 (ex_manager _ _ _ Hex) Hmgr) as [m Hm].
  destruct (mgr_retain m (elements (keys ∖ lc_retained l1))) as [m' ret] eqn:Hret.
  assert (with_manager (fun m => Ok (mgr_retain m (elements (keys ∖ lc_retained l1)))) r1 =
    Ok (r1 <| lr_manager := Some m' |>, ret)) as Hw by (unfold with_manager; rewrite Hm; cbn; by rewrite Hret).
  st_step Hw.
  set (r2 := r1 <| lr_manager := Some m' |>). rewrite (st_bind_set_record x _ _ r2 l1 Hl1).
  pose proof (ri_pins _ _ Hinv1) as [Hext Hp]. rewrite Hm in Hp.
  assert (ret ⊆ keys ∖ lc_retained l1) as Hsub.
  { pose proof (mgr_retain_spec m (elements (keys ∖ lc_retained l1)) (mwf_pol _ (po_wf _ _ _ Hp))) as [_ Hs].
    rewrite Hret in Hs. cbn in Hs. rewrite Hs. intros k Hk. apply elem_of_list_to_set in Hk.
    unfold retained_keys in Hk. rewrite list_elem_of_filter, elem_of_remove_dups, elem_of_elements in Hk.
    tauto. }
  eexists _, l1, ret. split; [done|]. split_and!; try done.
  pose proof (ri_lc _ _ Hinv1 x l1 Hl1) as []. pose proof Ho as (Hs & Ht & Hrel)%owns_preservation_spec.
  eapply (reg_inv_update ext r1 _ x l1); try done.
  - split; [done|]. eapply (pins_retain ext (lr_heap r1) m x l1); try done.
    + eapply pin_room_ref_room; [|exact Hp]. intros k. rewrite (expired_size _ _ _ Hex). apply Hroom.
    + intros k Hk. apply elem_of_elements in Hk. set_solver.
  - apply (ri_metrics _ _ Hinv1).
  - apply (ri_history _ _ Hinv1).
Qed.

(** *** Invalidation *)

Lemma invalidate_snapshots_eq ext r :
  reg_inv ext r → ∃ r', invalidate_snapshots r = Ok (r', tt) ∧ reg_inv ext r' ∧
    has_pending_evaluation r' = false ∧
    ∀ x, lr_heap r' !! x =
      if decide (x ∈ (lr_records r).*2)
      then (fun l => l <| lc_snapshot := None |> <| lc_pending_evaluation := false |>) <$> lr_heap r !! x
      else lr_heap r !! x.
Proof.
  intros Hinv. unfold invalidate_snapshots. rewrite st_bind_get.
  set (f := fun l : Lifecycle F => l <| lc_snapshot := None |> <| lc_pending_evaluation := false |>).
  assert (∀ items r1, reg_inv ext r1 → (∀ it, it ∈ items → is_Some (lr_heap r1 !! it.2)) →
    ∃ r', st_iter (fun item : string * ref => set_record item.2 f) items r1 = Ok (r', tt) ∧ reg_inv ext r' ∧
      lr_records r' = lr_records r1 ∧
      ∀ x, lr_heap r' !! x = if decide (x ∈ items.*2) then f <$> lr_heap r1 !! x else lr_heap r1 !! x) as Hloop.
  { induction items as [|[id x] items IH]; intros r1 Hinv1 Hin; [by exists r1|].
    destruct (Hin (id, x)) as [l Hl]; [left|]. cbn [st_iter snd] in *.
    rewrite (st_bind_set_record x _ _ r1 l Hl).
    match goal with |- context [st_iter _ items ?s] => destruct (IH s) as (r' & Heq & Hinv' & Hrec & Hh) end.
    - pose proof (ri_lc _ _ Hinv1 x l Hl) as []. eapply (reg_inv_update ext r1 _ x l); try done.
      + split; cbn; try done. intros Ht. by destruct (li_dead0 Ht).
      + eapply pins_inv_insert_same; [done|done|apply (ri_pins _ _ Hinv1)].
      + apply (ri_metrics _ _ Hinv1).
      + apply (ri_history _ _ Hinv1).
    - intros it Hi. cbn. rewrite lookup_insert. case_decide; [by eexists|]. apply Hin. by right.
    - exists r'. split_and!; try done. intros y. rewrite Hh. cbn. rewrite lookup_insert.
      destruct (decide (x = y)) as [->|Hne].
      + rewrite Hl, (decide_True (P := y ∈ y :: _)) by left. by case_decide.
      + rewrite (decide_ext (y ∈ x :: items.*2) (y ∈ items.*2)); [done|]. rewrite elem_of_cons. naive_solver. }
  destruct (Hloop (lr_records r) r Hinv) as (r' & Heq & Hinv' & Hrec & Hh).
  { intros [id x] Hi. destruct (ri_live _ _ Hinv id x Hi) as (l & Hl & _). by exists l. }
  exists r'. split_and!; [done..| |done]. unfold has_pending_evaluation. rewrite Hrec.
  apply not_true_iff_false. rewrite existsb_exists. intros (it & Hi%list_elem_of_In & Ht).
  rewrite Hh, decide_True in Ht by (by apply list_elem_of_fmap_2). by destruct (lr_heap r !! it.2).
Qed.

(** *** Reset *)

(** What [external_reset_succeeded] makes of a record. *)
Definition reset_record (now : F) l : Lifecycle F :=
  let l := l <| lc_retained := ∅ |> in
  match lc_terminal_at l with Some _ => l | None => terminated l CauseReset now end.

Lemma release_empty_eq x r l :
  lr_heap r !! x = Some l → lc_retained l = ∅ →
  release x r = Ok (r <| lr_heap := <[x := released l]> (lr_heap r) |>, tt).
Proof.
  intros Hx Hr. unfold release. rewrite (st_bind_get_record x _ r l Hx), (st_bind_set_record x _ _ r l Hx).
  by rewrite Hr, bool_decide_eq_true_2.
Qed.

Lemma reset_one_eq now x r l :
  lr_heap r !! x = Some l → metrics_wf (lr_metrics r) →
  ∃ t, (set_record x (fun l => l <| lc_retained := ∅ |>);; terminalize x CauseReset now) r =
      Ok (r <| lr_heap := <[x := reset_record now l]> (lr_heap r) |> <| lr_metrics := t |>, tt) ∧
    metrics_wf t.
Proof.
  intros Hx Hm. rewrite (st_bind_set_record x _ _ r l Hx). set (l1 := l <| lc_retained := ∅ |>).
  set (r1 := r <| lr_heap := <[x := l1]> (lr_heap r) |>).
  assert (lr_heap r1 !! x = Some l1) as Hl1 by apply lookup_insert_eq.
  unfold terminalize, reset_record. rewrite (st_bind_get_record x _ r1 l1 Hl1). fold l1.
  destruct (lc_terminal_at l1) as [at'|] eqn:Ht.
  { exists (lr_metrics r). rewrite bool_decide_eq_true_2 by by eexists. split; [by destruct r|done]. }
  rewrite bool_decide_eq_false_2 by by intros []. st_step (release_empty_eq x r1 l1 Hl1 eq_refl).
  set (r2 := r1 <| lr_heap := <[x := released l1]> (lr_heap r1) |>).
  assert (lr_heap r2 !! x = Some (released l1)) as Hl2 by apply lookup_insert_eq.
  rewrite (st_bind_set_record x _ _ r2 _ Hl2). destruct (metric_of_cause CauseReset) as [mt Hmt]. rewrite Hmt.
  rewrite (st_bind_eq _ (st_lift (Ok mt)) _ _ mt eq_refl).
  match goal with |- context [count mt ?s] => destruct (count_eq mt s) as (t & Hc & Hwf) end; [done|].
  exists t. rewrite Hc. split; [|done]. unfold r2, r1. cbn. by rewrite !insert_insert_eq.
Qed.

Lemma reset_loop now (items : list (string * ref)) r :
  metrics_wf (lr_metrics r) → NoDup items.*2 → (∀ it, it ∈ items → is_Some (lr_heap r !! it.2)) →
  ∃ r', st_iter (fun item => set_record item.2 (fun l => l <| lc_retained := ∅ |>);;
                             terminalize item.2 CauseReset now) items r = Ok (r', tt) ∧
    metrics_wf (lr_metrics r') ∧ lr_records r' = lr_records r ∧ lr_manager r' = lr_manager r ∧
    lr_history r' = lr_history r ∧ lr_next_ref r' = lr_next_ref r ∧
    ∀ x, lr_heap r' !! x = if decide (x ∈ items.*2) then reset_record now <$> lr_heap r !! x else lr_heap r !! x.
Proof.
  revert r; induction items as [|[id x] items IH]; intros r Hm Hnd Hin; [by exists r|].
  destruct (Hin (id, x)) as [l Hl]; [left|]. cbn [snd] in Hl. csimpl in Hnd. apply NoDup_cons in Hnd as [Hn Hnd].
  destruct (reset_one_eq now x r l Hl Hm) as (t & Heq & Ht). cbn [st_iter snd]. st_step Heq.
  match goal with |- context [st_iter _ items ?s] =>
    destruct (IH s) as (r' & Hr' & Hm' & Hrec & Hmgr & Hhist & Hnext & Hh) end; [done|done| |].
  { intros it Hi. cbn. rewrite lookup_insert. case_decide; [by eexists|]. apply Hin. by right. }
  exists r'. split_and!; try done. intros y. rewrite Hh. cbn. rewrite lookup_insert.
  destruct (decide (x = y)) as [->|Hne].
  - rewrite Hl, (decide_True (P := y ∈ y :: _)) by left. by rewrite decide_False.
  - rewrite (decide_ext (y ∈ x :: items.*2) (y ∈ items.*2)); [done|]. rewrite elem_of_cons. naive_solver.
Qed.

Lemma lc_inv_reset now l : lc_inv l → lc_inv (reset_record now l) ∧ lc_retained (reset_record now l) = ∅ ∧
  is_Some (lc_terminal_at (reset_record now l)).
Proof.
  intros Hl. unfold reset_record. cbn. destruct (lc_terminal_at l) eqn:Ht.
  - assert (lc_retained l = ∅) as Hr.
    { apply lc_inv_released_empty; [done|]. apply (li_dead _ Hl). by eexists. }
    split_and!; [|done|by eexists]. destruct Hl; by split.
  - split_and!; [|done|done]. apply lc_inv_terminated; [|done|done]. destruct Hl; by split.
Qed.

Lemma owners_zero (h : gmap ref (Lifecycle F)) k :
  (∀ x l, h !! x = Some l → lc_retained l = ∅) → owners h k = 0.
Proof. intros Hh. apply sum_map_zero. intros x l Hl. unfold retains. by rewrite (Hh x l Hl). Qed.

(** Resetting the CPU cache and telling the registry. *)
Definition reset_all : st registry unit :=
  with_manager (fun m => Ok (mgr_reset_cache m, tt));; external_reset_succeeded clock.

Lemma reset_all_eq ext r m :
  reg_inv ext r → lr_manager r = Some m →
  ∃ r', reset_all r = Ok (r', tt) ∧ reg_inv (fun _ => 0) r' ∧
    lr_manager r' = Some (mgr_reset_cache m) ∧ lr_records r' = lr_records r ∧
    (∀ x l, lr_heap r' !! x = Some l → is_Some (lc_terminal_at l)) ∧
    ∀ x, lr_heap r' !! x =
      if decide (x ∈ (lr_records r).*2)
      then reset_record (clock (lr_ticks r)) <$> lr_heap r !! x else lr_heap r !! x.
Proof.
  intros Hinv Hmgr. unfold reset_all. pose proof Hinv as [].
  assert (with_manager (fun m => Ok (mgr_reset_cache m, tt)) r =
    Ok (r <| lr_manager := Some (mgr_reset_cache m) |>, tt)) as Hw by (unfold with_manager; by rewrite Hmgr).
  st_step Hw. unfold external_reset_succeeded. rewrite st_bind_clock, st_bind_get. cbn [lr_records lr_ticks].
  match goal with |- context [st_iter _ (lr_records ?s) ?s] => set (r1 := s) end.
  change (lr_records r1) with (lr_records r).
  match goal with |- context [terminalize _ CauseReset ?n] => set (now := n) end.
  destruct (reset_loop now (lr_records r) r1) as (r' & Hr' & Hm' & Hrec & Hmg & Hhist & Hnext & Hh); [done|done| |].
  { intros [id x] Hi. destruct (ri_live0 id x Hi) as (l & Hl & _). by exists l. }
  assert (∀ x l', lr_heap r' !! x = Some l' →
    ∃ l, lr_heap r !! x = Some l ∧ lc_metadata l' = lc_metadata l ∧ lc_inv l' ∧ lc_retained l' = ∅ ∧
      is_Some (lc_terminal_at l')) as Hall.
  { intros x l'. rewrite Hh. change (lr_heap r1) with (lr_heap r). case_decide as Hx.
    - intros (l & Hl & ->)%fmap_Some. exists l. destruct (lc_inv_reset now l (ri_lc0 x l Hl)) as (? & ? & ?).
      split_and!; try done. unfold reset_record. cbn. by destruct (lc_terminal_at l).
    - intros Hl. pose proof (ri_detached0 x l' Hl Hx) as Ht. exists l'. split_and!; try done; [by eapply ri_lc0|].
      apply lc_inv_released_empty; [by eapply ri_lc0|]. by apply (li_dead _ (ri_lc0 x l' Hl)). }
  exists r'. split; [exact Hr'|]. split_and!; [|by rewrite Hmg|done|by intros x l (? & _ & _ & _ & _ & ?)%Hall|done].
  split; rewrite ?Hrec, ?Hnext, ?Hhist, ?Hmg; try done.
  - intros id x Hi. destruct (ri_live0 id x Hi) as (l & Hl & Hid).
    assert (is_Some (lr_heap r' !! x)) as [l' Hl'].
    { rewrite Hh. change (lr_heap r1) with (lr_heap r). rewrite Hl. by case_decide. }
    exists l'. split; [done|]. destruct (Hall x l' Hl') as (l0 & Hl0 & -> & _). simplify_eq. done.
  - intros x l Hl _. by destruct (Hall x l Hl) as (_ & _ & _ & _ & _ & ?).
  - intros x Hx. rewrite Hh. change (lr_heap r1) with (lr_heap r). rewrite ri_fresh0 by done. by case_decide.
  - intros x l Hl. by destruct (Hall x l Hl) as (_ & _ & _ & ? & _).
  - destruct ri_pins0 as [_ Hp]. rewrite Hmgr in Hp.
    destruct (mgr_reset_cache_spec m (po_wf _ _ _ Hp)) as (Hwf & Hempty & _). split; [done|]. cbn.
    split; [done| |]; intros k; rewrite ?Hempty; [by intros b; rewrite lookup_empty|].
    intros _. apply owners_zero. intros x l Hl. by destruct (Hall x l Hl) as (_ & _ & _ & _ & ? & _).
Qed.

End invariant.

(** ** The manager between registry operations

    The offloading connector loads and stores blocks while lifecycles retain
    others; the loads it has in progress are the [ext] pins. *)

Section interference.
Context {F P : Type} `{PyFloat F} `{CachePolicySpec P}.
Implicit Types (h : gmap ref (Lifecycle F)) (m : cpu_manager P) (ext : okey → Z).

(** Operations the connector performs, with their preconditions. *)
Definition connector_pre ext h m (op : mgr_op) : Prop :=
  match op with
  | OpPrepareLoad keys => NoDup keys ∧ pin_room ext h
  | OpCompleteLoad keys => NoDup keys ∧ ∀ k, k ∈ keys → 0 < ext k
  | OpPrepareStore keys => NoDup keys
  | OpRetain _ | OpRelease _ | OpResetCache => False
  | _ => True
  end.

Definition ext_after ext (op : mgr_op) (k : okey) : Z :=
  match op with
  | OpPrepareLoad keys => if decide (k ∈ keys) then ext k + 1 else ext k
  | OpCompleteLoad keys => if decide (k ∈ keys) then ext k - 1 else ext k
  | _ => ext k
  end.

Lemma pins_ok_map ext h m m' :
  mgr_wf m' → (∀ k, mgr_map m' !! k = mgr_map m !! k) → pins_ok ext h m → pins_ok ext h m'.
Proof.
  intros Hwf Hm [_ Hr Ho]. split; [done| |].
  - intros k b. rewrite Hm. apply Hr.
  - intros k. unfold ready_at. rewrite Hm. apply Ho.
Qed.

(** Blocks that are not ready are not pinned. *)
Lemma pins_ok_unpinned ext h m k b :
  pins_ok ext h m → mgr_map m !! k = Some b → bs_ref_cnt b <= 0 → ext k + owners h k = 0 ∨ is_ready b = true ∧ ext k + owners h k = bs_ref_cnt b.
Proof.
  intros [_ Hr Ho] Hb Hc. destruct (is_ready b) eqn:E.
  - right. split; [done|]. by rewrite (Hr k b Hb E).
  - left. apply Ho. unfold ready_at. by rewrite Hb.
Qed.

Lemma pins_ok_store ext h m keys m' o :
  pins_ok ext h m → stored m keys m' o → pins_ok ext h m'.
Proof.
  intros Hp Hs. pose proof Hp as [Hwf Hr Ho]. destruct Hs as [Hkeys Hwf' Hnew _ _ Hold Hev]. split; [done| |].
  - intros k b Hb Hrd. destruct (decide (k ∈ ps_keys_to_store o)) as [Hk|Hk].
    + apply list_elem_of_lookup in Hk as [i Hi]. destruct (Hnew i k Hi) as (id & _ & Hn).
      rewrite Hn in Hb. by injection Hb as <-.
    + rewrite Hold in Hb by done. case_decide; [done|]. by apply Hr.
  - intros k Hk'. destruct (decide (k ∈ ps_keys_to_store o)) as [Hk|Hk].
    + rewrite Hkeys in Hk. apply list_elem_of_filter in Hk as [Hn _]. apply Ho. unfold ready_at. by rewrite Hn.
    + unfold ready_at in Hk'. rewrite Hold in Hk' by done. case_decide as He; [|by apply Ho].
      apply Hev in He as (_ & b & Hb & Hz).
      destruct (pins_ok_unpinned ext h m k b Hp Hb) as [?|[_ ?]]; lia.
Qed.

Lemma pins_ok_complete_store ext h m keys success m' :
  pins_ok ext h m → mgr_complete_store m keys success = Ok m' → pins_ok ext h m'.
Proof.
  intros Hp Hc. pose proof Hp as [Hwf Hr Ho]. destruct success.
  - destruct (mgr_complete_store_done m keys Hwf) as (m1 & Heq & Hwf' & Hm). simplify_eq.
    rewrite Heq in Hc. injection Hc as <-. split; [done| |].
    + intros k b. rewrite Hm. case_decide; [|by apply Hr]. intros (b' & Hb' & ->)%fmap_Some Hrd.
      unfold make_ready. destruct (is_ready b') eqn:E; [by apply Hr|]. cbn. symmetry. apply Ho.
      unfold ready_at. by rewrite Hb'.
    + intros k. unfold ready_at. rewrite Hm. case_decide; [|by apply Ho].
      destruct (mgr_map m !! k) as [b|] eqn:Eb; cbn; [|intros _; apply Ho; unfold ready_at; by rewrite Eb].
      unfold make_ready. destruct (is_ready b) eqn:E; [congruence|done].
  - destruct (mgr_complete_store_failed m keys Hwf) as (m1 & Heq & Hwf' & Hm).
    rewrite Heq in Hc. injection Hc as <-. split; [done| |].
    + intros k b. rewrite Hm. case_decide; [|by apply Hr]. destruct (ready_at (mgr_map m) k); [by apply Hr|done].
    + intros k. unfold ready_at at 1. rewrite Hm. case_decide; [|by apply Ho].
      destruct (ready_at (mgr_map m) k) eqn:E; [|intros _; by apply Ho].
      unfold ready_at in E. rewrite E. done.
Qed.

Lemma connector_pins ext h m op m' :
  (∀ k, 0 <= ext k) → pins_ok ext h m → connector_pre ext h m op → mgr_apply m op = Ok m' →
  (∀ k, 0 <= ext_after ext op k) ∧ pins_ok (ext_after ext op) h m'.
Proof.
  intros He Hp Hpre Hop. pose proof Hp as [Hwf Hr Ho]. pose proof (mwf_pol _ Hwf) as Hpol.
  destruct op; cbn in Hpre; try done.
  - split; [done|]. apply (pins_ok_map _ _ m); [by refine (mgr_apply_wf m _ m' Hwf _ Hop)| |done]. intros k.
    cbn in Hop. apply fmap_Ok in Hop as (r & Hl & ->). unfold mgr_lookup in Hl. by inv_res.
  - destruct Hpre as [Hnd Hroom]. pose proof (pin_room_ref_room ext h m Hroom Hp) as Hrr.
    assert (mgr_wf m') as Hwf' by (by refine (mgr_apply_wf m _ m' Hwf _ Hop)).
    cbn in Hop. apply fmap_Ok in Hop as (r & Hl & ->).
    pose proof (mgr_prepare_load_ready m keys r Hpol Hnd Hl) as Hready.
    destruct (mgr_prepare_load_loop m [] keys Hpol Hnd Hready) as (m1 & Heq & Hm1).
    unfold mgr_prepare_load in Hl. rewrite Heq in Hl. injection Hl as <-. cbn [fst] in *.
    split; [intros k; cbn; specialize (He k); case_decide; lia|]. split; [done| |].
    + intros k b. rewrite (with_map_map _ _ _ Hm1), lookup_alter_all by done. cbn. case_decide as Hk; [|by apply Hr].
      intros (b' & Hb' & ->)%fmap_Some _. pose proof (ref_room_lookup _ _ _ Hrr Hb').
      pose proof (mwf_refs _ Hwf _ _ Hb') as Href. unfold ref_ok in Href. rewrite incr_ref_cnt by lia.
      specialize (Hready k Hk). unfold ready_at in Hready. rewrite Hb' in Hready. rewrite (Hr k b' Hb' Hready). lia.
    + intros k. unfold ready_at. rewrite (with_map_map _ _ _ Hm1), lookup_alter_all by done. cbn.
      case_decide as Hk; [|apply Ho]. specialize (Hready k Hk). unfold ready_at in Hready.
      destruct (mgr_map m !! k) as [b|] eqn:Hb; [|done]. cbn. unfold is_ready in *. apply Z.leb_le in Hready.
      pose proof (ref_room_lookup _ _ _ Hrr Hb). rewrite incr_ref_cnt by lia. rewrite Z.leb_gt. lia.
  - destruct Hpre as [Hnd Hpos]. assert (mgr_wf m') as Hwf' by (by refine (mgr_apply_wf m _ m' Hwf _ Hop)).
    cbn in Hop. pose proof (mgr_complete_load_releasable m keys m' Hpol Hnd Hop) as Hrel.
    destruct (mgr_complete_load_spec m keys Hpol Hnd Hrel) as (m1 & Heq & Hm1).
    rewrite Heq in Hop. injection Hop as <-.
    split; [intros k; cbn; specialize (He k); case_decide as Hk; [specialize (Hpos k Hk)|]; lia|]. split; [done| |].
    + intros k b. rewrite (with_map_map _ _ _ Hm1), lookup_alter_all by done. cbn. case_decide as Hk; [|by apply Hr].
      intros (b' & Hb' & ->)%fmap_Some _. apply Hrel, releasable_spec in Hk as (b2 & Hb2 & Hc); [|done].
      assert (b2 = b') as -> by congruence. pose proof (mwf_refs _ Hwf _ _ Hb') as Href. unfold ref_ok in Href.
      rewrite decr_ref_cnt by lia. rewrite (Hr k b' Hb'); [lia|]. apply Z.leb_le. lia.
    + intros k. unfold ready_at. rewrite (with_map_map _ _ _ Hm1), lookup_alter_all by done. cbn.
      case_decide as Hk; [|apply Ho]. apply Hrel, releasable_spec in Hk as (b & Hb & Hc); [|done]. rewrite Hb. cbn.
      pose proof (mwf_refs _ Hwf _ _ Hb) as Href. unfold ref_ok in Href. unfold is_ready.
      rewrite decr_ref_cnt by lia. rewrite Z.leb_gt. lia.
  - split; [done|]. apply (pins_ok_map _ _ m); [by refine (mgr_apply_wf m _ m' Hwf _ Hop)| |done]. intros k.
    cbn in Hop. injection Hop as <-. destruct (pol_touch_spec (mg_policy m) keys Hpol) as [_ Hm].
    unfold mgr_map. cbn. by rewrite Hm.
  - split; [done|]. cbn in Hop. apply fmap_Ok in Hop as (r & Hl & ->).
    pose proof (mgr_prepare_store_spec m keys r Hwf Hpre Hl) as Hs.
    destruct r.2; [by eapply pins_ok_store|by rewrite Hs].
  - split; [done|]. by eapply pins_ok_complete_store.
  - split; [done|]. apply (pins_ok_map _ _ m); [by refine (mgr_apply_wf m _ m' Hwf _ Hop)| |done]. cbn in Hop. by injection Hop as <-.
Qed.

End interference.
