(* ===== verification/LifecycleThms.v ===== *)
(** * Theorems on the lifecycle registry

    The registry and the CPU offloading manager as one system: the operations of
    the registry, interleaved in any order with the loads and stores of the
    offloading connector on the same manager.  Every statement is about the
    states reachable that way, for any clock, any settings and any replacement
    policy that meets its contract. *)

From Stdlib Require Import QArith Lqa.
From S2P Require Import Prelude PyFloat Metrics Protocol CachePolicy OffloadManager Lifecycle.

Inductive life_op {F : Type} :=
  | LAssociate (request_id : string) (metadata : TokenCakeMetadata F)
  | LGenerationFinished (identifier : string) (cause : GenerationCause) (snapshot : option (PrefixSnapshot F))
  | LApply (event : LifecycleEvent F)
  | LExpire
  | LSetH2d (x : ref) (seconds : F)
  | LRetain (x : ref) (keys : gset okey)
  | LInvalidate
  | LReset
  | LConnector (op : mgr_op).
Arguments life_op F : clear implicits.

Section system.
Context {F P : Type} `{PyFloat F} `{CachePolicySpec P}.
Context (settings : OffloadConfig F) (clock : nat → F).
Notation registry := (LifecycleRegistry F P).
Implicit Types (r : registry) (l : Lifecycle F) (x : ref) (ext : okey → Z).

Definition life_apply (op : life_op F) r : res registry :=
  match op with
  | LAssociate rid md => fst <$> associate clock rid md r
  | LGenerationFinished id cause snap => fst <$> generation_finished settings clock id cause snap r
  | LApply event => fst <$> apply_event settings clock event r
  | LExpire => fst <$> expire clock r
  | LSetH2d x seconds => fst <$> set_h2d_estimate settings clock x seconds r
  | LRetain x keys => fst <$> retain_ready clock x keys r
  | LInvalidate => fst <$> invalidate_snapshots r
  | LReset => fst <$> reset_all clock r
  | LConnector op => fst <$> with_manager (fun m => m ← mgr_apply m op; Ok (m, tt)) r
  end.

(** What the callers ensure. *)
Definition life_pre ext r (op : life_op F) : Prop :=
  match op with
  | LSetH2d x _ => ∃ l, lr_heap r !! x = Some l ∧ is_Some (lc_started_at l)
  | LRetain x _ => is_Some (lr_heap r !! x) ∧ pin_room ext (lr_heap r) ∧ is_Some (lr_manager r)
  | LReset => is_Some (lr_manager r)
  | LConnector op => ∃ m, lr_manager r = Some m ∧ connector_pre ext (lr_heap r) m op
  | _ => True
  end.

(** The loads in progress after an operation. *)
Definition life_ext ext (op : life_op F) : okey → Z :=
  match op with
  | LReset => fun _ => 0
  | LConnector op => ext_after ext op
  | _ => ext
  end.

Inductive life_reachable : (okey → Z) → registry → Prop :=
  | life_init om :
      match om with Some m => ∃ n ev t mx, 0 <= n ∧ m = mgr_init n ev t mx | None => True end →
      life_reachable (fun _ => 0) (registry_init om)
  | life_step ext r op r' :
      life_reachable ext r → life_pre ext r op → life_apply op r = Ok r' →
      life_reachable (life_ext ext op) r'.

Lemma registry_init_inv om :
  match om with Some m => ∃ n ev t mx, 0 <= n ∧ m = mgr_init n ev t mx | None => True end →
  reg_inv (fun _ => 0) (registry_init om : registry).
Proof.
  intros Hm. split; cbn; try done.
  - apply od_wf_nil.
  - constructor.
  - set_solver.
  - split; [done|]. destruct om as [m|]; [|by intros x l; rewrite lookup_empty].
    destruct Hm as (n & ev & t & mx & Hn & ->). pose proof (mgr_init_wf n ev t mx Hn) as Hwf.
    destruct (pol_init_spec n) as [_ He].
    assert (mgr_map (mgr_init n ev t mx) = ∅) as Hmap by exact He.
    split; [done| |]; intros k; rewrite ?Hmap; [by intros b; rewrite lookup_empty|].
    intros _. apply owners_zero. by intros x l; rewrite lookup_empty.
  - apply metrics_init_wf.
  - split; [apply od_wf_nil|done].
Qed.

(** Every operation of the registry succeeds and keeps the invariant. *)
Lemma life_apply_inv ext r op :
  reg_inv ext r → life_pre ext r op →
  (∃ r', life_apply op r = Ok r' ∧ reg_inv (life_ext ext op) r') ∨
  (∃ mop e m, op = LConnector mop ∧ lr_manager r = Some m ∧ mgr_apply m mop = Err e).
Proof.
  intros Hinv Hpre. destruct op; cbn in Hpre |- *.
  - left. destruct (associate_eq clock ext r request_id metadata Hinv) as (r1 & r' & a & -> & ? & _). by exists r'.
  - left. destruct (generation_finished_eq settings clock ext r identifier cause snapshot Hinv)
      as (r1 & r' & now & -> & ? & _). by exists r'.
  - left. destruct (apply_event_eq settings clock ext r event Hinv) as (r1 & r' & res & -> & ? & _). by exists r'.
  - left. destruct (expire_eq clock ext r Hinv) as (r' & -> & ? & _). by exists r'.
  - left. destruct Hpre as (l & Hl & [s Hs]).
    destruct (set_h2d_eq settings clock ext x seconds r l s (ri_pins _ _ Hinv) Hl Hs) as (om & Heq & Hp & _).
    rewrite Heq. eexists; split; [done|]. pose proof (ri_lc _ _ Hinv x l Hl) as Hli.
    eapply (reg_inv_update ext r _ x l); try done; cbn.
    + unfold h2d_record. by destruct (_ <=@ _).
    + unfold h2d_record. by destruct (_ <=@ _).
    + assert (lc_inv (l <| lc_release_deadline := Some (h2d_deadline settings l s seconds) |>)) as Hli'.
      { destruct Hli. split; try done. cbn. intros s' Hst. split; [by eexists|by apply li_deadlines]. }
      unfold h2d_record. destruct (_ <=@ _); [by apply lc_inv_released|done].
    + apply (ri_metrics _ _ Hinv).
    + apply (ri_history _ _ Hinv).
  - left. destruct Hpre as ([l Hl] & Hroom & Hm).
    destruct (retain_ready_eq clock ext r x l keys Hinv Hl Hroom Hm) as (r1 & r' & l1 & ret & -> & ? & _).
    by exists r'.
  - left. destruct (invalidate_snapshots_eq clock ext r Hinv) as (r' & -> & ? & _). by exists r'.
  - left. destruct Hpre as [m Hm]. destruct (reset_all_eq clock ext r m Hinv Hm) as (r' & -> & ? & _). by exists r'.
  - destruct Hpre as (m & Hm & Hpre). unfold with_manager. rewrite Hm. cbn.
    destruct (mgr_apply m op) as [m'|e] eqn:Hop; [left|right; by exists op, e, m]. cbn.
    eexists; split; [done|]. pose proof Hinv as []. destruct ri_pins as [He Hp]. rewrite Hm in Hp.
    destruct (connector_pins ext (lr_heap r) m op m' He Hp Hpre Hop) as [He' Hp']. by split.
Qed.

Lemma life_reachable_inv ext r : life_reachable ext r → reg_inv ext r.
Proof.
  induction 1 as [om Hm|ext r op r' _ IH Hpre Hop]; [by apply registry_init_inv|].
  destruct (life_apply_inv ext r op IH Hpre) as [(r1 & Heq & ?)|(mop & e & m & -> & Hm & He)].
  - rewrite Heq in Hop. by injection Hop as <-.
  - cbn in Hop. unfold with_manager in Hop. rewrite Hm in Hop. cbn in Hop. by rewrite He in Hop.
Qed.

(** What a call raises, and the registry it leaves: [associate] changes it also when it
    raises. *)
Definition life_call (op : life_op F) r : res (registry * res unit) :=
  match op with
  | LAssociate rid md => associate clock rid md r
  | _ => r' ← life_apply op r; Ok (r', Ok tt)
  end.

(** C14. The only exception of the lifecycle registry is the one it documents: whatever
    lifecycles were associated, started, finished, retained, released or expired
    before, in any interleaving with the connector's loads and stores, the next
    operation returns normally, unless it is [associate] for an identifier that, after
    the expired records are gone, belongs to a record or to a live generation; then,
    and only then, it raises [DuplicateLifecycleError].  In particular the assertion in
    the manager's [release], that every released block is present and pinned, never
    fails. *)
Theorem registry_raises_only_duplicates ext r op :
  life_reachable ext r → life_pre ext r op → (∀ mop, op ≠ LConnector mop) →
  ∃ r' out, life_call op r = Ok (r', out) ∧ life_reachable (life_ext ext op) r' ∧
    (∀ e, out = Err e → e = DuplicateLifecycleError ∧ ∃ rid md, op = LAssociate rid md) ∧
    (∀ rid md, op = LAssociate rid md → ∃ r1, expire clock r = Ok (r1, tt) ∧
       (out = Err DuplicateLifecycleError ↔ md_lifecycle_id md ∈ (lr_records r1).*1 ∨ md_lifecycle_id md ∈ (lr_generations r1).*1)).
Proof.
  intros Hr Hpre Hop. pose proof (life_reachable_inv ext r Hr) as Hinv.
  destruct (life_apply_inv ext r op Hinv Hpre) as [(r' & Heq & _)|(mop & e & m & -> & _)]; [|by destruct (Hop mop)].
  assert (life_reachable (life_ext ext op) r') as Hr' by by eapply life_step.
  destruct op as [rid md| | | | | | | |]; try (exists r', (Ok tt); unfold life_call; rewrite Heq; by split_and!).
  cbn [life_call life_apply] in *. destruct (associate_eq clock ext r rid md Hinv) as (r1 & r2 & a & Ha & _ & _ & Hcase & He).
  rewrite Ha in Heq. injection Heq as <-. exists r2, a. split; [done|]. split; [done|]. split.
  - intros e ->. destruct (_ || _); [destruct Hcase as [[= ->] _]|by destruct Hcase]. split; [done|by exists rid, md].
  - intros rid' md' [= <- <-]. exists r1. split; [done|]. rewrite <- !od_has_true, <- orb_true_iff. destruct (_ || _); [by destruct Hcase as [-> _]|by destruct Hcase as [-> _]].
Qed.

(** C9. The pins of the CPU cache are accounted for: in every reachable state the
    reference count of a readable block is the number of lifecycles that retain
    it plus the number of loads in progress, so nothing is pinned forever and
    nothing is unpinned early; only active lifecycles retain blocks; and a
    retained block is in the cache, keeps its slot and its contents over any
    store, whatever the store has to evict. *)
Theorem retained_blocks_safe ext r m :
  life_reachable ext r → lr_manager r = Some m →
  (∀ k b, mgr_map m !! k = Some b → is_ready b = true → bs_ref_cnt b = ext k + owners (lr_heap r) k) ∧
  (∀ x l k, lr_heap r !! x = Some l → k ∈ lc_retained l →
     owns_preservation l = true ∧ ∃ b, mgr_map m !! k = Some b ∧ 0 < bs_ref_cnt b ∧
       ∀ keys m' o, NoDup keys → mgr_prepare_store m keys = Ok (m', o) → mgr_map m' !! k = Some b).
Proof.
  intros Hr Hm. pose proof (life_reachable_inv ext r Hr) as []. destruct ri_pins as [He Hp]. rewrite Hm in Hp.
  split; [by apply Hp|]. intros x l k Hl Hk. split.
  { apply (li_owner _ (ri_lc x l Hl)). set_solver. }
  destruct (pins_ok_pinned ext (lr_heap r) m x l k He Hp Hl Hk) as (b & Hb & Hc).
  exists b. split_and!; [done..|]. intros keys m' o Hnd Hs.
  pose proof (mgr_prepare_store_spec m keys (m', o) (po_wf _ _ _ Hp) Hnd Hs) as Ho. cbn in Ho.
  destruct o as [o|]; [|by subst]. destruct Ho as [Hkeys _ _ _ _ Hold Hev]. rewrite Hold.
  - case_decide as He'; [|done]. apply Hev in He' as (_ & b' & Hb' & Hz). simplify_eq. lia.
  - rewrite Hkeys. intros [Hn _]%list_elem_of_filter. congruence.
Qed.

(** Same end of life, and nothing retained. *)
Definition still_dead l l' : Prop :=
  lc_terminal_cause l' = lc_terminal_cause l ∧ lc_terminal_at l' = lc_terminal_at l ∧
  lc_retained l' = ∅ ∧ lc_finish_accepted l' = lc_finish_accepted l.

Lemma still_dead_refl l : lc_inv l → is_Some (lc_terminal_at l) → still_dead l l.
Proof.
  intros Hl Ht. split_and!; try done. apply lc_inv_released_empty; [done|]. by apply (li_dead _ Hl).
Qed.

Lemma expired_dead ext r r' now x l :
  reg_inv ext r → expired now r r' → lr_heap r !! x = Some l → is_Some (lc_terminal_at l) →
  lr_heap r' !! x = Some l.
Proof.
  intros Hinv Hex Hl [t Ht]. rewrite (ex_heap _ _ _ Hex), Hl. case_decide; [|done]. cbn.
  unfold expire_record. by rewrite Ht.
Qed.

Lemma event_effect_dead event r1 r' res x l :
  event_effect settings event r1 r' res → lr_heap r1 !! x = Some l → lc_inv l → is_Some (lc_terminal_at l) →
  lr_heap r' !! x = Some l.
Proof.
  intros (_ & _ & _ & _ & Hm) Hl Hli [t Ht].
  destruct (od_get _ (lr_records r1)) as [y|]; [|by destruct Hm as (_ & _ & _ & -> & _)].
  destruct Hm as (ly & l' & now & later & Hly & -> & _ & Ho & Hm).
  destruct (decide (y = x)) as [->|Hne]; [|by rewrite lookup_insert_ne].
  rewrite lookup_insert_eq. simplify_eq. unfold event_outcome in Ho.
  rewrite Ht in Ho. cbn in Ho. rewrite orb_true_r in Ho.
  destruct (er_disposition res), (ev_event event); try (destruct Hm as [-> _]; done);
    exfalso; revert Ho; repeat case_match; congruence.
Qed.

Lemma life_apply_dead ext r op r' x l :
  reg_inv ext r → life_pre ext r op → life_apply op r = Ok r' →
  lr_heap r !! x = Some l → is_Some (lc_terminal_at l) →
  ∃ l', lr_heap r' !! x = Some l' ∧ still_dead l l'.
Proof.
  intros Hinv Hpre Hop Hl Ht. pose proof (ri_lc _ _ Hinv x l Hl) as Hli.
  pose proof (still_dead_refl l Hli Ht) as Hrefl. destruct op; cbn in Hpre, Hop.
  - destruct (associate_eq clock ext r request_id metadata Hinv) as (r1 & r2 & a & Heq & _ & Hex & Hm & _).
    rewrite Heq in Hop. injection Hop as <-. pose proof (expired_dead _ _ _ _ _ _ Hinv Hex Hl Ht) as Hl1.
    exists l. split; [|done]. destruct (_ || _); [by destruct Hm as (_ & _ & ->)|].
    destruct Hm as (_ & _ & -> & _). rewrite (ex_next _ _ _ Hex). rewrite lookup_insert_ne; [done|].
    intros <-. by rewrite (ri_fresh _ _ Hinv) in Hl.
  - destruct (generation_finished_eq settings clock ext r identifier cause snapshot Hinv)
      as (r1 & r2 & now & Heq & _ & Hex & _ & _ & Hm). rewrite Heq in Hop. injection Hop as <-.
    pose proof (expired_dead _ _ _ _ _ _ Hinv Hex Hl Ht) as Hl1. exists l. split; [|done].
    destruct (od_get _ _) as [y|]; [|by rewrite Hm]. destruct Hm as (ly & Hly & ->). rewrite lookup_insert.
    case_decide; [subst|done]. simplify_eq. unfold generation_record. by destruct Ht as [? ->].
  - destruct (apply_event_eq settings clock ext r event Hinv) as (r1 & r2 & res & Heq & _ & _ & Hex & Hm).
    rewrite Heq in Hop. injection Hop as <-. pose proof (expired_dead _ _ _ _ _ _ Hinv Hex Hl Ht) as Hl1.
    exists l. split; [|done]. by eapply event_effect_dead.
  - destruct (expire_eq clock ext r Hinv) as (r2 & Heq & _ & Hex). rewrite Heq in Hop. injection Hop as <-.
    exists l. split; [|done]. by eapply expired_dead.
  - destruct Hpre as (ly & Hly & [s Hs]).
    destruct (set_h2d_eq settings clock ext x0 seconds r ly s (ri_pins _ _ Hinv) Hly Hs) as (om & Heq & _).
    rewrite Heq in Hop. injection Hop as <-. cbn. rewrite lookup_insert. case_decide; [subst|by exists l].
    simplify_eq. eexists; split; [done|]. unfold h2d_record. by destruct (_ <=@ _).
  - destruct Hpre as ([ly Hly] & Hroom & Hm).
    destruct (retain_ready_eq clock ext r x0 ly keys Hinv Hly Hroom Hm)
      as (r1 & r2 & l1 & ret & Heq & _ & Hex & Hl1 & Hh & Hown & _).
    rewrite Heq in Hop. injection Hop as <-. cbn. rewrite Hh, lookup_insert.
    pose proof (expired_dead _ _ _ _ _ _ Hinv Hex Hl Ht) as Hl1'. case_decide; [subst|by exists l].
    simplify_eq. eexists; split; [done|]. assert (ret = ∅) as ->.
    { destruct (decide (ret = ∅)) as [|Hn]; [done|]. apply Hown, owns_preservation_spec in Hn as (_ & Hn & _).
      rewrite Hn in Ht. by destruct Ht. }
    unfold still_dead in *. cbn. destruct Hrefl as (_ & _ & -> & _). by split_and!.
  - destruct (invalidate_snapshots_eq clock ext r Hinv) as (r2 & Heq & _ & _ & Hh).
    rewrite Heq in Hop. injection Hop as <-. cbn. rewrite Hh, Hl. case_decide; eexists; split; try done.
  - destruct Hpre as [m Hm]. destruct (reset_all_eq clock ext r m Hinv Hm) as (r2 & Heq & _ & _ & _ & _ & Hh).
    rewrite Heq in Hop. injection Hop as <-. cbn. rewrite Hh, Hl. case_decide; [|by exists l].
    eexists; split; [done|]. unfold reset_record. cbn. by destruct Ht as [? ->].
  - destruct Hpre as (m & Hm & _). unfold with_manager in Hop. rewrite Hm in Hop. cbn in Hop.
    destruct (mgr_apply m op); [|done]. injection Hop as <-. by exists l.
Qed.

(** C28. The end of a lifecycle is final: once a lifecycle is terminal, no
    operation changes its cause or its time of death, and it never retains a
    block again, for as long as anything refers to it. *)
Theorem terminal_is_final ext r op r' x l :
  life_reachable ext r → life_pre ext r op → life_apply op r = Ok r' →
  lr_heap r !! x = Some l → is_Some (lc_terminal_at l) →
  ∃ l', lr_heap r' !! x = Some l' ∧ lc_terminal_cause l' = lc_terminal_cause l ∧
    lc_terminal_at l' = lc_terminal_at l ∧ lc_retained l' = ∅ ∧ lc_state l' = lc_state l.
Proof.
  intros Hr Hpre Hop Hl Ht. pose proof (life_reachable_inv ext r Hr) as Hinv.
  destruct (life_apply_dead ext r op r' x l Hinv Hpre Hop Hl Ht) as (l' & Hl' & (Hc & Ha & Hret & _)).
  exists l'. split_and!; try done. unfold lc_state. rewrite Hc.
  destruct (proj2 (li_terminal _ (ri_lc _ _ Hinv x l Hl)) Ht) as [c ->]. done.
Qed.

(** *** Repeated events *)

Lemma expired_get ext r r1 now id x :
  reg_inv ext r → expired now r r1 → od_get id (lr_records r1) = Some x →
  od_get id (lr_records r) = Some x ∧
  ∃ l, lr_heap r !! x = Some l ∧ lr_heap r1 !! x = Some (expire_record now l).
Proof.
  intros Hinv Hex Hx. apply od_get_In in Hx. rewrite (ex_records _ _ _ Hex) in Hx.
  apply list_elem_of_filter in Hx as [_ Hx]. split; [by apply od_In_get; [apply Hinv|]|].
  destruct (ri_live _ _ Hinv id x Hx) as (l & Hl & _). exists l. split; [done|].
  rewrite (ex_heap _ _ _ Hex), decide_True, Hl; [done|]. apply list_elem_of_fmap. by exists (id, x).
Qed.

(** The lifecycle [l] has taken the event into account. *)
Definition accepted (event : LifecycleEvent F) l : Prop :=
  match ev_event event with
  | StallStartedEvent => ∃ e, lc_start l = Some e ∧ event_eqb e event = true
  | StallFinishedEvent => lc_finish_accepted l = true
  end.

Lemma accepted_expire_record event now l : accepted event l → accepted event (expire_record now l).
Proof. unfold accepted, expire_record. intros Ha. by repeat case_match. Qed.

Lemma accepted_duplicate event l : lc_inv l → accepted event l → event_outcome l event = (Duplicate, 200).
Proof.
  unfold accepted, event_outcome. intros Hl Ha. destruct (ev_event event).
  - by destruct Ha as (e & -> & ->).
  - rewrite Ha, bool_decide_eq_true_2; [done|]. apply (li_terminal _ Hl).
    apply (li_finish _ Hl) in Ha. by rewrite Ha.
Qed.

Lemma event_effect_accepted event r1 r' res :
  event_eqb event event = true → event_effect settings event r1 r' res →
  er_disposition res = Applied ∨ er_disposition res = Duplicate →
  ∃ x l, od_get (ev_lifecycle_id event) (lr_records r') = Some x ∧ lr_heap r' !! x = Some l ∧ accepted event l.
Proof.
  intros Hev (_ & _ & Hrec & _ & Hm) Hd. rewrite Hrec.
  destruct (od_get _ (lr_records r1)) as [x|]; [|destruct Hm as (_ & Hu & _); destruct Hd; congruence].
  destruct Hm as (l & l' & now & later & _ & Hh & _ & Ho & Hm).
  exists x, l'. split_and!; [done|by rewrite Hh, lookup_insert_eq|]. unfold accepted, event_outcome in *.
  destruct Hd as [Hd|Hd]; rewrite Hd in *; destruct (ev_event event).
  - destruct Hm as [-> _]. exists event. split; [|done]. unfold stalled, h2d_record. by destruct (_ <=@ _).
  - by destruct Hm as (_ & _ & _ & _ & ? & _).
  - destruct Hm as [-> _]. destruct (lc_start l) as [e|]; [|by destruct (_ || _)].
    exists e. split; [done|]. by destruct (event_eqb e event).
  - destruct Hm as [-> _]. revert Ho. by repeat case_match.
Qed.

(** Events may be delivered more than once: when an event was accepted, the
    same event delivered again is answered with [duplicate] and status 200, or
    with [unknown] and 404 once the lifecycle has been forgotten.  The repeated
    delivery does not start or finish anything: it leaves every lifecycle as the
    expiry that precedes it left it, and no duration is learned twice. *)
Theorem event_idempotent ext r event r' res r'' res' :
  life_reachable ext r → event_eqb event event = true →
  apply_event settings clock event r = Ok (r', res) →
  er_disposition res = Applied ∨ er_disposition res = Duplicate →
  apply_event settings clock event r' = Ok (r'', res') →
  (er_disposition res' = Duplicate ∧ er_status_code res' = 200 ∨
   er_disposition res' = Unknown ∧ er_status_code res' = 404) ∧
  lr_history r'' = lr_history r' ∧
  ∃ r1, expire clock r' = Ok (r1, tt) ∧ lr_heap r'' = lr_heap r1 ∧ lr_records r'' = lr_records r1.
Proof.
  intros Hr Hev Ha Hd Hb. pose proof (life_reachable_inv ext r Hr) as Hinv.
  destruct (apply_event_eq settings clock ext r event Hinv) as (r0 & ? & ? & Heq & Hinv' & _ & _ & Heff).
  rewrite Heq in Ha. simplify_eq. destruct (event_effect_accepted _ _ _ _ Hev Heff Hd) as (x & l & Hx & Hl & Hacc).
  destruct (apply_event_eq settings clock ext r' event Hinv') as (r1 & ? & ? & Heq' & Hinv2 & He & Hex & Heff').
  rewrite Heq' in Hb. simplify_eq. destruct (expire_eq clock ext r' Hinv') as (? & He' & Hinv1 & _).
  rewrite He in He'. injection He' as <-. destruct Heff' as (_ & _ & Hrec & _ & Hm). rewrite <- (ex_history _ _ _ Hex).
  destruct (od_get _ (lr_records r1)) as [y|] eqn:Hy; [|destruct Hm as (_ & ? & ? & ? & ?); eauto 10].
  destruct (expired_get _ _ _ _ _ _ Hinv' Hex Hy) as (Hx' & l1 & Hl1 & Hl1'). simplify_eq.
  destruct Hm as (l2 & l' & now & later & Hl2 & Hh & _ & Ho & Hm). simplify_eq.
  rewrite accepted_duplicate in Ho; [|by eapply ri_lc|by apply accepted_expire_record]. injection Ho as Hd' Hs.
  rewrite Hd' in Hm. destruct Hm as [-> Hh']. rewrite insert_id in Hh by done. split_and!; eauto 10.
Qed.

(** *** Expiry *)

(** [expire] leaves nothing overdue: afterwards every lifecycle that is still
    alive is before its safety deadline, or before the end of the time to attach
    a stall to a finished generation, and retains blocks only before its release
    deadline; every lifecycle that ended a minute ago or more is forgotten, and
    nothing else is. *)
Theorem expire_complete ext r :
  life_reachable ext r → let now := clock (lr_ticks r) in
  ∃ r', expire clock r = Ok (r', tt) ∧
  (∀ x l, lr_heap r' !! x = Some l → lc_terminal_at l = None →
     match lc_started_at l, lc_completed_at l with
     | Some _, _ => reached now (lc_safety_deadline l) = false ∧
         (reached now (lc_release_deadline l) = true → lc_retained l = ∅ ∧ lc_ownership_released l = true)
     | None, Some at' => (at' +@ ATTACH_SECONDS <=@ now) = false
     | None, None => True
     end) ∧
  (∀ id x l, od_get id (lr_records r) = Some x → lr_heap r !! x = Some l →
     od_get id (lr_records r') = if tombstone_over now l then None else Some x).
Proof.
  intros Hr now. pose proof (life_reachable_inv ext r Hr) as Hinv.
  destruct (expire_eq clock ext r Hinv) as (r' & He & Hinv' & Hex). exists r'. split_and!; [done| |].
  - intros x l Hl Ht. rewrite (ex_heap _ _ _ Hex) in Hl. case_decide as Hx.
    + destruct (lr_heap r !! x) as [l0|] eqn:Hl0; [|done]. injection Hl as <-. by apply expire_record_alive.
    + destruct (ri_detached _ _ Hinv x l Hl Hx). congruence.
  - intros id x l Hx Hl. rewrite (ex_records _ _ _ Hex). fold now.
    pose proof (od_get_filter (fun it => forgotten now r it = false) id (lr_records r) (ri_keys _ _ Hinv)) as ->.
    rewrite Hx. unfold forgotten. cbn. rewrite Hl. cbn. by destruct (tombstone_over now l).
Qed.

End system.

(** ** Time bounds *)

Section time_bounds.
Context {P : Type} `{CachePolicySpec P}.
Context (rnd : Q → Q) `{!MonoRound rnd}.
#[local] Hint Extern 0 (PyFloat Q) => exact (F_rounded rnd) : typeclass_instances.
Context (settings : OffloadConfig Q) (clock : nat → Q).
Implicit Types (r : LifecycleRegistry Q P) (l : Lifecycle Q).

Lemma safety_bounds l s d :
  lc_inv l → lc_started_at l = Some s → lc_safety_deadline l = Some d →
  (rnd (s + 60) <= d <= rnd (s + 3600))%Q.
Proof.
  intros Hl Hs Hd. destruct (li_deadlines _ Hl s Hs) as [_ Hd']. rewrite Hd in Hd'. apply (inj Some) in Hd' as ->.
  set (p := flt 4 *@ lc_predicted_duration l). assert (flt 60 == 60)%Q as H60 by (by apply (rlit_int rnd)).
  assert (flt 3600 == 3600)%Q as H3600 by (by apply (rlit_int rnd)).
  set (m := pymin _ _). assert (60 <= m <= 3600)%Q as [Hlo Hhi]; [unfold m|].
  { destruct (pymax_cases rnd (flt 60) p) as [[? ->]|[? ->]],
      (pymin_cases rnd (flt 3600) p) as [[? E]|[? E]],
      (pymin_cases rnd (flt 3600) (flt 60)) as [[? E']|[? E']]; rewrite ?E, ?E'; lra. }
  change (s +@ m) with (rnd (s + m)). split; apply rnd_mono; lra.
Qed.

(** How long a stall can hold on: after any call of [expire] at time [now], a
    lifecycle that still retains blocks started its stall less than an hour ago,
    and [expire] never ends a stall that started less than a minute ago.  Both
    hold whatever duration was estimated, learned or predicted. *)
Theorem stall_time_bounds ext r r' x l l' s :
  life_reachable settings clock ext r → expire clock r = Ok (r', tt) →
  lr_heap r !! x = Some l → lr_heap r' !! x = Some l' →
  lc_terminal_at l = None → lc_started_at l = Some s →
  (lc_retained l' ≠ ∅ → (clock (lr_ticks r) < rnd (s + 3600))%Q) ∧
  (is_Some (lc_terminal_at l') → (rnd (s + 60) <= clock (lr_ticks r))%Q).
Proof.
  intros Hr He Hl Hl' Ht Hs. set (now := clock (lr_ticks r)).
  pose proof (life_reachable_inv settings clock ext r Hr) as Hinv.
  destruct (expire_eq clock ext r Hinv) as (? & He' & _ & Hex). rewrite He in He'. simplify_eq.
  rewrite (ex_heap _ _ _ Hex) in Hl'. pose proof (ri_lc _ _ Hinv x l Hl) as Hli.
  case_decide as Hx; [|destruct (ri_detached _ _ Hinv x l Hl Hx); congruence].
  rewrite Hl in Hl'. injection Hl' as <-. destruct (li_deadlines _ Hli s Hs) as [_ Hsome].
  destruct (lc_safety_deadline l) as [d|] eqn:Hd; [clear Hsome|done].
  pose proof (safety_bounds l s d Hli Hs Hd) as Hb. fold now. unfold expire_record. rewrite Ht, Hs, Hd. cbn.
  destruct (Qle_bool d now) eqn:E.
  - split; [by intros []|]. intros _. apply Qle_bool_iff in E. lra.
  - assert (now < d)%Q. { apply Qnot_le_lt. rewrite <- Qle_bool_iff. congruence. }
    split; [lra|]. destruct (reached _ _); cbn; rewrite ?Ht; by intros [].
Qed.

End time_bounds.

(** ** Runs without loads in progress *)

Section runs.
Context {F P : Type} `{PyFloat F} `{CachePolicySpec P}.
Context (settings : OffloadConfig F) (clock : nat → F).
Implicit Types (r : LifecycleRegistry F P).

(** [life_pre] for an operation that neither starts nor ends a load. *)
Definition quiet_pre r (op : life_op F) : bool :=
  match op with
  | LSetH2d x _ => from_option (fun l => bool_decide (is_Some (lc_started_at l))) false (lr_heap r !! x)
  | LRetain x _ => bool_decide (is_Some (lr_heap r !! x)) && bool_decide (is_Some (lr_manager r)) &&
      (Z.of_nat (size (lr_heap r)) <? 2 ^ 31 - 1)
  | LReset => bool_decide (is_Some (lr_manager r))
  | LConnector (OpPrepareStore keys) => bool_decide (is_Some (lr_manager r)) && bool_decide (NoDup keys)
  | LConnector (OpCompleteStore _ _) => bool_decide (is_Some (lr_manager r))
  | LConnector _ => false
  | _ => true
  end.

Fixpoint life_run (ops : list (life_op F)) r : option (LifecycleRegistry F P) :=
  match ops with
  | [] => Some r
  | op :: ops =>
      if quiet_pre r op
      then match life_apply settings clock op r with Ok r' => life_run ops r' | Err _ => None end
      else None
  end.

Lemma quiet_pre_ok r op :
  quiet_pre r op = true → life_pre (fun _ => 0) r op ∧ life_ext (fun _ => 0) op = fun _ => 0.
Proof.
  destruct op as [| | | |x s|x ks| | |op]; cbn; try done.
  - destruct (lr_heap r !! x) as [l|]; [|done]. cbn. intros Hb%bool_decide_eq_true. eauto.
  - rewrite !andb_true_iff, !bool_decide_eq_true, Z.ltb_lt. intros [[? ?] ?].
    split; [|done]. split_and!; try done. intros k. by rewrite Z.add_0_l.
  - by intros ?%bool_decide_eq_true.
  - destruct op; try done; rewrite ?andb_true_iff, !bool_decide_eq_true.
    + intros [[m ?] ?]. split; [by exists m|done].
    + intros [m ?]. split; [by exists m|done].
Qed.

Lemma life_run_reachable ops r r' :
  life_reachable settings clock (fun _ => 0) r → life_run ops r = Some r' →
  life_reachable settings clock (fun _ => 0) r'.
Proof.
  revert r; induction ops as [|op ops IH]; cbn; intros r Hr Hrun; [by simplify_eq|].
  destruct (quiet_pre r op) eqn:Hq; [|done]. apply quiet_pre_ok in Hq as [Hpre Hext].
  destruct (life_apply settings clock op r) as [r1|] eqn:Hop; [|done].
  apply (IH r1); [|done]. rewrite <- Hext. by eapply life_step.
Qed.

End runs.

(** ** Witnesses: a clock that advances by a second at each reading *)

#[local] Hint Extern 0 (PyFloat Q) => exact (F_rounded (fun x => x)) : typeclass_instances.

Definition ex_clock (n : nat) : Q := inject_Z (Z.of_nat n).
Definition ex_settings : OffloadConfig Q :=
  mkOffloadConfig true (60 # 100) (85 # 100) (flt 1) 8 128 0 (flt 1) (1 # 10) (1 # 2)
    (mkTransferConfig (flt 12) (flt 12) (flt 0) (flt 0) (flt 0)).
Definition ex_metadata : TokenCakeMetadata Q :=
  mkMetadata Q "L1" "agent" "writer" (flt 1) 0 0 0 (flt 0) (flt 0) (flt 0) (flt 0) 0 0 false false
    EmptyString 0 0 (flt 1) true true ∅ [].
Definition ex_start : LifecycleEvent Q := mkLifecycleEvent StallStartedEvent "L1" "tool" (Some 30%Q).
Definition ex_finish : LifecycleEvent Q := mkLifecycleEvent StallFinishedEvent "L1" EmptyString None.

Definition ex_life_init : LifecycleRegistry Q lru := registry_init (Some ex_init).
Definition ex_life_ops : list (life_op Q) :=
  [LAssociate "req-1" ex_metadata; LConnector (OpPrepareStore ["a"; "b"]);
   LConnector (OpCompleteStore ["a"; "b"] true); LGenerationFinished "L1" GenCompleted None;
   LApply ex_start; LRetain 0%nat {["a"]}].
Definition ex_run (ops : list (life_op Q)) : LifecycleRegistry Q lru :=
  default ex_life_init (life_run ex_settings ex_clock ops ex_life_init).
Definition ex_life : LifecycleRegistry Q lru := ex_run ex_life_ops.
Definition ex_life_finished : LifecycleRegistry Q lru := ex_run (ex_life_ops ++ [LApply ex_finish]).

Lemma ex_run_reachable ops :
  life_reachable ex_settings ex_clock (fun _ => 0) (ex_run ops).
Proof.
  assert (life_reachable ex_settings ex_clock (fun _ => 0) ex_life_init) as Hinit.
  { apply life_init. exists 2, true, 0, 64. split; [lia|done]. }
  unfold ex_run. destruct (life_run _ _ _ _) eqn:E; [|done]. by eapply life_run_reachable.
Qed.

(** A second generation for the active lifecycle. *)
Lemma registry_raises_only_duplicates_witness :
  ∃ r', life_call ex_settings ex_clock (LAssociate "req-2" ex_metadata) ex_life = Ok (r', Err DuplicateLifecycleError) ∧
    life_reachable ex_settings ex_clock (fun _ => 0) r'.
Proof.
  destruct (registry_raises_only_duplicates ex_settings ex_clock (fun _ => 0) ex_life (LAssociate "req-2" ex_metadata)) as (r' & out & Heq & Hr & _ & Hdup).
  - exact (ex_run_reachable ex_life_ops).
  - exact I.
  - discriminate.
  - exists r'. destruct (Hdup "req-2" ex_metadata eq_refl) as (r1 & He & Hiff). rewrite Heq. split; [|exact Hr].
    assert (out = Err DuplicateLifecycleError) as ->; [|reflexivity]. apply Hiff. left. apply od_has_true.
    assert (fst <$> expire ex_clock ex_life = Ok r1) as H1 by (rewrite He; reflexivity).
    assert ((od_has "L1" ∘ lr_records) <$> (fst <$> expire ex_clock ex_life) = Ok true) as H2 by (vm_compute; reflexivity).
    rewrite H1 in H2. injection H2 as H2. exact H2.
Defined.

Definition ex_manager : cpu_manager lru := default ex_init (lr_manager ex_life).

(** Storing ["c"] evicts ["b"], not the retained ["a"]. *)
Lemma retained_blocks_safe_witness :
  ∃ b m' o, mgr_map ex_manager !! "a" = Some b ∧ 0 < bs_ref_cnt b ∧
    mgr_prepare_store ex_manager ["c"] = Ok (m', o) ∧ mgr_map m' !! "a" = Some b.
Proof.
  destruct (retained_blocks_safe ex_settings ex_clock (fun _ => 0) ex_life ex_manager) as [_ Hret];
    [exact (ex_run_reachable ex_life_ops)|vm_compute; reflexivity|].
  destruct (some_such (fun l => bool_decide ("a" ∈ lc_retained l)) (lr_heap ex_life !! 0%nat))
    as (l & Hl & Hk%bool_decide_eq_true); [vm_compute; reflexivity|].
  destruct (Hret 0%nat l "a" Hl Hk) as (_ & b & Hb & Hc & Hs).
  destruct (ok_such (fun _ => true) (mgr_prepare_store ex_manager ["c"])) as ([m' o] & Hp & _);
    [vm_compute; reflexivity|].
  exists b, m', o. exact (conj Hb (conj Hc (conj Hp (Hs ["c"] m' o (NoDup_singleton _) Hp)))).
Defined.

(** A finished lifecycle retains nothing when asked to. *)
Lemma terminal_is_final_witness :
  ∃ l r' l', lr_heap ex_life_finished !! 0%nat = Some l ∧ is_Some (lc_terminal_at l) ∧
    life_apply ex_settings ex_clock (LRetain 0%nat {["b"]}) ex_life_finished = Ok r' ∧
    lr_heap r' !! 0%nat = Some l' ∧ lc_retained l' = ∅ ∧ lc_state l' = lc_state l.
Proof.
  destruct (some_such (fun l => bool_decide (is_Some (lc_terminal_at l))) (lr_heap ex_life_finished !! 0%nat))
    as (l & Hl & Ht%bool_decide_eq_true); [vm_compute; reflexivity|].
  assert (life_pre (fun _ => 0) ex_life_finished (LRetain 0%nat {["b"]})) as Hpre.
  { apply quiet_pre_ok. vm_compute. reflexivity. }
  destruct (ok_such (fun _ => true) (life_apply ex_settings ex_clock (LRetain 0%nat {["b"]}) ex_life_finished))
    as (r' & Hop & _); [vm_compute; reflexivity|].
  destruct (terminal_is_final ex_settings ex_clock (fun _ => 0) ex_life_finished (LRetain 0%nat {["b"]}) r' 0%nat l
    (ex_run_reachable _) Hpre Hop Hl Ht) as (l' & Hl' & _ & _ & Hr & Hs').
  exists l, r', l'. exact (conj Hl (conj Ht (conj Hop (conj Hl' (conj Hr Hs'))))).
Defined.

Lemma event_idempotent_witness :
  ∃ r' res r'' res', apply_event ex_settings ex_clock ex_finish ex_life = Ok (r', res) ∧
    er_disposition res = Applied ∧
    apply_event ex_settings ex_clock ex_finish r' = Ok (r'', res') ∧ lr_history r'' = lr_history r'.
Proof.
  destruct (ok_such (fun '(r', res) => bool_decide (er_disposition res = Applied) &&
                       is_ok (apply_event ex_settings ex_clock ex_finish r'))
              (apply_event ex_settings ex_clock ex_finish ex_life)) as ([r' res] & Ha & Hm);
    [vm_compute; reflexivity|].
  apply andb_true_iff in Hm as [Hd%bool_decide_eq_true Hok].
  destruct (ok_such (fun _ => true) (apply_event ex_settings ex_clock ex_finish r')) as ([r'' res'] & Hb & _);
    [exact Hok|].
  destruct (event_idempotent ex_settings ex_clock (fun _ => 0) ex_life ex_finish r' res r'' res'
    (ex_run_reachable ex_life_ops) eq_refl Ha (or_introl Hd) Hb) as (_ & Hh & _).
  exists r', res, r'', res'. exact (conj Ha (conj Hd (conj Hb Hh))).
Defined.

Lemma expire_complete_witness :
  ∃ r', expire ex_clock ex_life = Ok (r', tt) ∧ od_get "L1" (lr_records r') = Some 0%nat.
Proof.
  destruct (expire_complete ex_settings ex_clock (fun _ => 0) ex_life (ex_run_reachable ex_life_ops))
    as (r' & He & _ & Hrec).
  destruct (some_such (fun l => negb (tombstone_over (ex_clock (lr_ticks ex_life)) l)) (lr_heap ex_life !! 0%nat))
    as (l & Hl & Ht%negb_true_iff); [vm_compute; reflexivity|].
  assert (od_get "L1" (lr_records ex_life) = Some 0%nat) as Hx by (vm_compute; reflexivity).
  pose proof (Hrec "L1" 0%nat l Hx Hl) as Hg. rewrite Ht in Hg. exists r'. exact (conj He Hg).
Defined.

Lemma stall_time_bounds_witness :
  ∃ l s, lr_heap ex_life !! 0%nat = Some l ∧ lc_started_at l = Some s ∧
    (ex_clock (lr_ticks ex_life) < s + 3600)%Q.
Proof.
  destruct (some_such (fun l => bool_decide (lc_terminal_at l = None) && bool_decide (is_Some (lc_started_at l)))
              (lr_heap ex_life !! 0%nat)) as (l & Hl & Hm); [vm_compute; reflexivity|].
  apply andb_true_iff in Hm as [Ht%bool_decide_eq_true [s Hs]%bool_decide_eq_true].
  destruct (ok_such (fun '(r', _) => from_option (fun l' => bool_decide ("a" ∈ lc_retained l')) false
                                       (lr_heap r' !! 0%nat)) (expire ex_clock ex_life))
    as ([r' []] & He & Hm); [vm_compute; reflexivity|].
  destruct (some_such _ _ Hm) as (l' & Hl' & Hr%bool_decide_eq_true).
  destruct (stall_time_bounds (fun x => x) ex_settings ex_clock (fun _ => 0) ex_life r' 0%nat l l' s
    (ex_run_reachable ex_life_ops) He Hl Hl' Ht Hs) as [Hb _].
  exists l, s. refine (conj Hl (conj Hs (Hb _))). intros Hem. rewrite Hem in Hr. exact (not_elem_of_empty _ Hr).
Defined.
