(* ===== verification/FreeQueue.v ===== *)
(** * The queue of free KV-cache blocks

    [KVCacheBlock] and [FreeKVCacheBlockQueue] of [v1/core/kv_cache_utils.py]: a
    doubly linked list threaded through the blocks themselves.  The blocks live
    in a heap, and the list operations read and write their link fields.  The
    operations are shown to implement those of a plain list of block ids, and
    the batch operations to be the iterated single ones. *)

From S2P Require Import Prelude.

(** A block object is referred to by its [block_id], its index in the pool; the
    fake head and tail, which both carry the id [-1] and are told apart by object
    identity, are referred to by [-1] and [-2]. *)
Record KVCacheBlock := mkKVCacheBlock {
  kb_ref_cnt : Z;
  kb_block_hash : option string;
  kb_prev_free_block : option Z;
  kb_next_free_block : option Z;
  kb_is_null : bool;
}.
#[global] Instance KVCacheBlock_settable : Settable KVCacheBlock := mk_settable _
  (fun b => mkKVCacheBlock (kb_ref_cnt b) (kb_block_hash b) (kb_prev_free_block b) (kb_next_free_block b)
              (kb_is_null b)).

Definition new_block : KVCacheBlock := mkKVCacheBlock 0 None None None false.

Definition HEAD : Z := -1.
Definition TAIL : Z := -2.

Record FreeKVCacheBlockQueue := mkFreeQueue {
  fq_blocks : gmap Z KVCacheBlock;
  fq_num_free_blocks : Z;
}.
#[global] Instance FreeQueue_settable : Settable FreeKVCacheBlockQueue := mk_settable _
  (fun q => mkFreeQueue (fq_blocks q) (fq_num_free_blocks q)).

Notation queue := (st FreeKVCacheBlockQueue).

(** Reading and writing a block; [None] has no attributes. *)
Definition blk_get (b : Z) : queue KVCacheBlock :=
  q ← st_get; st_lift (or_raise AttributeError (fq_blocks q !! b)).
Definition blk_set (b : Z) (f : KVCacheBlock → KVCacheBlock) : queue unit :=
  blk_get b;; st_modify (fun q => q <| fq_blocks ::= alter f b |>).

Definition set_next (o : option Z) (b : KVCacheBlock) : KVCacheBlock := b <| kb_next_free_block := o |>.
Definition set_prev (o : option Z) (b : KVCacheBlock) : KVCacheBlock := b <| kb_prev_free_block := o |>.
Definition unlinked (b : KVCacheBlock) : KVCacheBlock :=
  b <| kb_prev_free_block := None |> <| kb_next_free_block := None |>.

(** [__init__] for the blocks [blocks] of the heap [h]. *)
Definition link_one (blocks : list Z) (h : gmap Z KVCacheBlock) (i : nat) : gmap Z KVCacheBlock :=
  match blocks !! i with
  | None => h
  | Some b =>
      let h := match i with O => h | S j => alter (set_prev (blocks !! j)) b h end in
      if bool_decide (S i < length blocks)%nat then alter (set_next (blocks !! S i)) b h else h
  end.

Definition queue_init (h : gmap Z KVCacheBlock) (blocks : list Z) : FreeKVCacheBlockQueue :=
  let h := foldl (link_one blocks) h (seq 0 (length blocks)) in
  let h := <[TAIL := new_block]> (<[HEAD := new_block]> h) in
  mkFreeQueue
    match blocks, last blocks with
    | first :: _, Some lst =>
        let h := alter (set_next (Some first)) HEAD h in
        let h := alter (set_prev (Some HEAD)) first h in
        let h := alter (set_prev (Some lst)) TAIL h in
        alter (set_next (Some TAIL)) lst h
    | _, _ => alter (set_prev (Some HEAD)) TAIL (alter (set_next (Some TAIL)) HEAD h)
    end (lenZ blocks).

Definition popleft : queue Z :=
  head ← blk_get HEAD;
  match kb_next_free_block head with
  | None => q ← st_get; st_assert (fq_num_free_blocks q =? 0);; st_raise ValueError
  | Some first_block =>
      if decide (first_block = TAIL)
      then q ← st_get; st_assert (fq_num_free_blocks q =? 0);; st_raise ValueError
      else
        blk ← blk_get first_block;
        match kb_next_free_block blk with
        | None => st_raise RuntimeError
        | Some next =>
            blk_set HEAD (set_next (Some next));;
            blk_set next (set_prev (Some HEAD));;
            blk_set first_block unlinked;;
            st_modify (fun q => q <| fq_num_free_blocks ::= Z.pred |>);;
            mret first_block
        end
  end.

(** The [for] loop of [popleft_n]: the popped blocks and the next current block. *)
Fixpoint popleft_loop (n : nat) (curr_block : option Z) : queue (list Z * option Z) :=
  match n with
  | O => mret ([], curr_block)
  | S n =>
      match curr_block with
      | None => st_raise AssertionError
      | Some b =>
          blk ← blk_get b;
          blk_set b unlinked;;
          r ← popleft_loop n (kb_next_free_block blk);
          mret (b :: r.1, r.2)
      end
  end.

Definition popleft_n (n : Z) : queue (list Z) :=
  if n =? 0 then mret []
  else
    q ← st_get;
    st_assert (n <=? fq_num_free_blocks q);;
    st_modify (fun q => q <| fq_num_free_blocks ::= fun k => k - n |>);;
    head ← blk_get HEAD;
    r ← popleft_loop (Z.to_nat n) (kb_next_free_block head);
    match r.2 with
    | None => mret r.1
    | Some curr =>
        blk_set HEAD (set_next (Some curr));;
        blk_set curr (set_prev (Some HEAD));;
        mret r.1
    end.

Definition queue_remove (b : Z) : queue unit :=
  blk ← blk_get b;
  match kb_prev_free_block blk, kb_next_free_block blk with
  | Some prev, Some next =>
      blk_set prev (set_next (Some next));;
      blk_set next (set_prev (Some prev));;
      blk_set b unlinked;;
      st_modify (fun q => q <| fq_num_free_blocks ::= Z.pred |>)
  | _, _ => st_raise RuntimeError
  end.

Definition queue_append (b : Z) : queue unit :=
  tail ← blk_get TAIL;
  match kb_prev_free_block tail with
  | None => st_raise RuntimeError
  | Some last_block =>
      blk_set last_block (set_next (Some b));;
      blk_set b (set_prev (Some last_block));;
      blk_set b (set_next (Some TAIL));;
      blk_set TAIL (set_prev (Some b));;
      st_modify (fun q => q <| fq_num_free_blocks ::= Z.succ |>)
  end.

(** The [for] loop of [append_n], with the last block it linked. *)
Fixpoint append_loop (last_block : Z) (blocks : list Z) : queue Z :=
  match blocks with
  | [] => mret last_block
  | b :: blocks =>
      blk_set b (set_prev (Some last_block));;
      blk_set last_block (set_next (Some b));;
      append_loop b blocks
  end.

Definition append_n (blocks : list Z) : queue unit :=
  match blocks with
  | [] => mret tt
  | _ =>
      tail ← blk_get TAIL;
      match kb_prev_free_block tail with
      | None => st_raise AssertionError
      | Some last_block =>
          last_block ← append_loop last_block blocks;
          blk_set last_block (set_next (Some TAIL));;
          blk_set TAIL (set_prev (Some last_block));;
          st_modify (fun q => q <| fq_num_free_blocks ::= Z.add (lenZ blocks) |>)
      end
  end.

(** The [while] loop of [get_all_free_blocks]; [None] when it ran out of fuel. *)
Fixpoint collect_loop (fuel : nat) (curr_block : Z) : queue (option (list Z)) :=
  match fuel with
  | O => mret None
  | S fuel =>
      blk ← blk_get curr_block;
      match kb_next_free_block blk with
      | None => mret (Some [])
      | Some next => r ← collect_loop fuel next; mret (cons curr_block <$> r)
      end
  end.

Definition get_all_free_blocks (fuel : nat) : queue (option (list Z)) :=
  head ← blk_get HEAD;
  match kb_next_free_block head with
  | None => st_raise RuntimeError
  | Some first => collect_loop fuel first
  end.

(** ** Successors on a path *)

Section paths.
Implicit Types (p l : list Z) (k a b : Z).

(** The element after the first occurrence of [k]. *)
Fixpoint succ_in (p : list Z) (k : Z) : option Z :=
  match p with
  | a :: (b :: _) as p' => if decide (a = k) then Some b else succ_in p' k
  | _ => None
  end.

Lemma succ_in_notin p k : k ∉ p → succ_in p k = None.
Proof.
  induction p as [|a [|b p] IH]; [done..|]. intros [Ha Hp]%not_elem_of_cons. cbn -[succ_in].
  change (succ_in (a :: b :: p) k) with (if decide (a = k) then Some b else succ_in (b :: p) k).
  rewrite decide_False by congruence. auto.
Qed.

Lemma succ_in_cons a b p k : succ_in (a :: b :: p) k = if decide (a = k) then Some b else succ_in (b :: p) k.
Proof. done. Qed.

(** A prefix without [k] does not matter. *)
Lemma succ_in_app p p' k : k ∉ p → succ_in (p ++ p') k = succ_in p' k.
Proof.
  induction p as [|a p IH]; [done|]. intros [Ha Hp]%not_elem_of_cons. cbn [app].
  destruct (p ++ p') as [|b q] eqn:E.
  - apply app_eq_nil in E as [-> ->]. done.
  - rewrite succ_in_cons, decide_False by congruence. auto.
Qed.

(** Nor does what follows the successor. *)
Lemma succ_in_prefix p a p1 p2 k : k ∈ p → succ_in (p ++ a :: p1) k = succ_in (p ++ a :: p2) k.
Proof.
  induction p as [|b p IH]; [by intros ?%elem_of_nil|]. intros Hk. cbn [app].
  destruct (p ++ a :: p1) as [|c q] eqn:E1; [by destruct p|].
  destruct (p ++ a :: p2) as [|d q'] eqn:E2; [by destruct p|].
  rewrite !succ_in_cons. assert (c = d) as -> by (destruct p; cbn in *; congruence).
  case_decide; [done|]. apply IH. apply elem_of_cons in Hk as [?|?]; [congruence|done].
Qed.

Lemma succ_in_last p k : k ∉ p → succ_in (p ++ [k]) k = None.
Proof. intros. by rewrite succ_in_app. Qed.

Lemma succ_in_mid p a b p' : a ∉ p → succ_in (p ++ a :: b :: p') a = Some b.
Proof. intros. rewrite succ_in_app, succ_in_cons by done. by rewrite decide_True. Qed.

(** Cutting the segment [l] out between [a] and [b]. *)
Lemma succ_in_cut p a l b p' k :
  NoDup (p ++ a :: l ++ b :: p') →
  succ_in (p ++ a :: b :: p') k =
    if decide (k = a) then Some b else if decide (k ∈ l) then None else succ_in (p ++ a :: l ++ b :: p') k.
Proof.
  intros (Hp & Hdisj & (Ha & (Hl & Hd' & Hb)%NoDup_app)%NoDup_cons)%NoDup_app.
  destruct (decide (k ∈ p)) as [Hk|Hk].
  - pose proof (Hdisj k Hk) as Hn. rewrite decide_False by (intros ->; apply Hn; left).
    rewrite decide_False by (intros Hin; apply Hn; right; apply elem_of_app; by left).
    by apply succ_in_prefix.
  - rewrite !succ_in_app by done. destruct (decide (k = a)) as [->|Hne]; [by rewrite succ_in_cons, decide_True|].
    rewrite succ_in_cons, decide_False by congruence. case_decide as Hkl.
    + apply succ_in_notin. by apply Hd'.
    + change (a :: l ++ b :: p') with ((a :: l) ++ b :: p'). symmetry. apply succ_in_app.
      by rewrite not_elem_of_cons.
Qed.

(** The successor in the reversed path. *)
Definition pred_in p k : option Z := succ_in (reverse p) k.

Lemma pred_in_cut p a l b p' k :
  NoDup (p ++ a :: l ++ b :: p') →
  pred_in (p ++ a :: b :: p') k =
    if decide (k = b) then Some a else if decide (k ∈ l) then None else pred_in (p ++ a :: l ++ b :: p') k.
Proof.
  intros Hnd. unfold pred_in.
  assert (∀ l, reverse (p ++ a :: l ++ b :: p') = reverse p' ++ b :: reverse l ++ a :: reverse p) as Hrev.
  { intros l'. by rewrite reverse_app, reverse_cons, reverse_app, reverse_cons, <- !app_assoc. }
  pose proof (Hrev []) as Hrev0. cbn [app reverse rev_append] in Hrev0. rewrite Hrev0.
  pose proof Hnd as Hnd'. rewrite <- NoDup_rev, Hrev in Hnd'.
  rewrite (succ_in_cut _ b (reverse l) a) by done. rewrite Hrev.
  case_decide; [done|]. by rewrite (decide_ext (k ∈ reverse l) (k ∈ l)) by apply elem_of_reverse.
Qed.

Lemma succ_in_lookup p i k : NoDup p → p !! i = Some k → succ_in p k = p !! S i.
Proof.
  intros Hnd Hi. pose proof (list_elem_of_split_length p i k Hi) as (p1 & p2 & -> & ->).
  apply NoDup_app in Hnd as (_ & Hd & _). assert (k ∉ p1) by (intros Hk; apply (Hd k Hk); left).
  rewrite (lookup_app_r p1) by lia. replace (S (length p1) - length p1)%nat with 1%nat by lia.
  destruct p2 as [|b p2]; [by apply succ_in_last|by rewrite succ_in_mid].
Qed.

Lemma pred_in_lookup p i k : NoDup p → p !! S i = Some k → pred_in p k = p !! i.
Proof.
  intros Hnd Hi. pose proof (lookup_lt_Some _ _ _ Hi) as Hlt. unfold pred_in.
  assert (reverse p !! (length p - S (S i))%nat = Some k) as Hr.
  { rewrite reverse_lookup by lia. rewrite <- Hi. f_equal. lia. }
  rewrite (succ_in_lookup _ _ _ (proj2 (NoDup_rev _) Hnd) Hr), reverse_lookup by lia. f_equal. lia.
Qed.

Lemma pred_in_first p k : NoDup (k :: p) → pred_in (k :: p) k = None.
Proof.
  intros [Hk _]%NoDup_cons. unfold pred_in. rewrite reverse_cons. apply succ_in_last. by rewrite elem_of_reverse.
Qed.

End paths.
#[global] Arguments succ_in : simpl never.

(** ** The list a queue represents *)

Definition path (l : list Z) : list Z := HEAD :: l ++ [TAIL].

(** The link fields of every block of the heap are those of the path. *)
Record heap_rep (h : gmap Z KVCacheBlock) (l : list Z) : Prop := {
  hr_nodup : NoDup (path l);
  hr_dom : ∀ b, b ∈ path l → is_Some (h !! b);
  hr_next : ∀ b blk, h !! b = Some blk → kb_next_free_block blk = succ_in (path l) b;
  hr_prev : ∀ b blk, h !! b = Some blk → kb_prev_free_block blk = pred_in (path l) b;
}.

Definition queue_rep (q : FreeKVCacheBlockQueue) (l : list Z) : Prop :=
  heap_rep (fq_blocks q) l ∧ fq_num_free_blocks q = lenZ l.

(** The fields the queue does not touch. *)
Definition kb_data (b : KVCacheBlock) : Z * option string * bool := (kb_ref_cnt b, kb_block_hash b, kb_is_null b).
Definition same_data (h h' : gmap Z KVCacheBlock) : Prop := kb_data <$> h' = kb_data <$> h.

#[global] Instance same_data_refl : Reflexive same_data.
Proof. by intros h. Qed.
#[global] Instance same_data_trans : Transitive same_data.
Proof. unfold same_data. intros h1 h2 h3. congruence. Qed.

Lemma same_data_lookup h h' b : same_data h h' → kb_data <$> h' !! b = kb_data <$> h !! b.
Proof. unfold same_data. intros Hs. by rewrite <- !lookup_fmap, Hs. Qed.

Lemma same_data_is_Some h h' b : same_data h h' → is_Some (h' !! b) ↔ is_Some (h !! b).
Proof. intros Hs. by rewrite <- !(fmap_is_Some kb_data), (same_data_lookup h h'). Qed.

Lemma same_data_alter f b h : (∀ blk, kb_data (f blk) = kb_data blk) → same_data h (alter f b h).
Proof.
  intros Hf. apply map_eq. intros k. rewrite !lookup_fmap, lookup_alter. case_decide; [subst|done].
  destruct (h !! k); csimpl; by rewrite ?Hf.
Qed.

Lemma same_data_alter_trans f b h h' :
  (∀ blk, kb_data (f blk) = kb_data blk) → same_data h h' → same_data h (alter f b h').
Proof. intros Hf Hs. etrans; [exact Hs|by apply same_data_alter]. Qed.

Lemma st_bind_blk_get {A} b (f : KVCacheBlock → queue A) h n blk :
  h !! b = Some blk → (blk_get b ≫= f) (mkFreeQueue h n) = f blk (mkFreeQueue h n).
Proof. intros Hb. apply st_bind_eq. unfold blk_get, st_get, mbind, st_bind. cbn. by rewrite Hb. Qed.

Lemma st_bind_blk_set {A} b g (f : unit → queue A) h n :
  is_Some (h !! b) → (blk_set b g ≫= f) (mkFreeQueue h n) = f tt (mkFreeQueue (alter g b h) n).
Proof.
  intros [blk Hb]. apply st_bind_eq. unfold blk_set. by rewrite (st_bind_blk_get b _ _ _ blk).
Qed.

(** Cutting a segment out of the list. *)
Lemma heap_rep_cut h h' l1 seg l2 p a b p' :
  heap_rep h (l1 ++ seg ++ l2) → HEAD :: l1 = p ++ [a] → l2 ++ [TAIL] = b :: p' → same_data h h' →
  (∀ k blk blk', h !! k = Some blk → h' !! k = Some blk' →
    kb_next_free_block blk' =
      (if decide (k = a) then Some b else if decide (k ∈ seg) then None else kb_next_free_block blk) ∧
    kb_prev_free_block blk' =
      (if decide (k = b) then Some a else if decide (k ∈ seg) then None else kb_prev_free_block blk)) →
  heap_rep h' (l1 ++ l2).
Proof.
  intros [Hnd Hdom Hn Hp] Ha Hb Hs Hlinks.
  assert (path (l1 ++ seg ++ l2) = p ++ a :: seg ++ b :: p') as E.
  { unfold path. rewrite <- !app_assoc, Hb, (app_comm_cons l1), Ha. by rewrite <- app_assoc. }
  assert (path (l1 ++ l2) = p ++ a :: b :: p') as E'.
  { unfold path. rewrite <- !app_assoc, Hb, (app_comm_cons l1), Ha. by rewrite <- app_assoc. }
  rewrite E in *. split; rewrite E'.
  - rewrite (app_assoc p [a] (seg ++ _) : p ++ a :: _ = _) in Hnd.
    rewrite (app_assoc p [a] (b :: p') : p ++ a :: _ = _).
    apply NoDup_app in Hnd as (? & Hd & (? & _ & ?)%NoDup_app). apply NoDup_app. split_and!; [done| |done].
    intros x Hx Hin. apply (Hd x Hx), elem_of_app. by right.
  - intros k Hk. apply (same_data_is_Some h h' k Hs), Hdom. set_solver.
  - intros k blk' Hk. destruct (proj1 (same_data_is_Some h h' k Hs)) as [blk Hblk]; [by eexists|].
    rewrite (proj1 (Hlinks k blk blk' Hblk Hk)), (succ_in_cut p a seg b p') by done. by rewrite (Hn k blk).
  - intros k blk' Hk. destruct (proj1 (same_data_is_Some h h' k Hs)) as [blk Hblk]; [by eexists|].
    rewrite (proj2 (Hlinks k blk blk' Hblk Hk)), (pred_in_cut p a seg b p') by done. by rewrite (Hp k blk).
Qed.

Lemma head_split l : ∃ b p', l ++ [TAIL] = b :: p'.
Proof. destruct l as [|b l]; [by exists TAIL, []|by exists b, (l ++ [TAIL])]. Qed.

Lemma last_split l : ∃ p a, HEAD :: l = p ++ [a].
Proof. destruct l as [|b l _] using rev_ind; [by exists [], HEAD|by exists (HEAD :: l), b]. Qed.

(** Compare the link fields of a heap before and after a few assignments. *)
Ltac solve_links :=
  let k := fresh "k" in let blk := fresh "blk" in let Hk := fresh "Hk" in
  intros k blk ? Hk; rewrite ?lookup_alter;
  repeat (case_decide;
    repeat match goal with
    | H : _ ∈ [_] |- _ => apply list_elem_of_singleton in H
    | H : _ ∉ [_] |- _ => rewrite list_elem_of_singleton in H
    end; subst; try contradiction; try congruence);
  rewrite ?Hk; csimpl; intros [= <-]; done.

#[export] Hint Resolve same_data_alter_trans same_data_refl : freeq.
#[export] Hint Extern 1 (kb_data _ = kb_data _) => reflexivity : freeq.

Section operations.
Implicit Types (q : FreeKVCacheBlockQueue) (l : list Z) (h : gmap Z KVCacheBlock) (b : Z).

Lemma heap_rep_head h l b p' :
  heap_rep h l → l ++ [TAIL] = b :: p' → ∃ blk, h !! HEAD = Some blk ∧ kb_next_free_block blk = Some b.
Proof.
  intros [_ Hd Hn _] E. destruct (Hd HEAD) as [blk Hb]; [left|]. exists blk. split; [done|].
  rewrite (Hn HEAD blk Hb). unfold path. by rewrite E, succ_in_cons, decide_True.
Qed.

Lemma heap_rep_mid h l1 b l2 p a c p' :
  heap_rep h (l1 ++ b :: l2) → HEAD :: l1 = p ++ [a] → l2 ++ [TAIL] = c :: p' →
  ∃ blk, h !! b = Some blk ∧ kb_prev_free_block blk = Some a ∧ kb_next_free_block blk = Some c.
Proof.
  intros [Hnd Hd Hn Hp] Ha Hc.
  assert (path (l1 ++ b :: l2) = p ++ a :: b :: c :: p') as E.
  { unfold path. rewrite <- app_assoc. cbn. rewrite Hc, (app_comm_cons l1), Ha. by rewrite <- app_assoc. }
  rewrite E in *. destruct (Hd b) as [blk Hb]; [set_solver|]. exists blk. split; [done|].
  rewrite (Hp b blk Hb), (Hn b blk Hb). split.
  - rewrite (pred_in_lookup _ (length p)); [by rewrite list_lookup_middle|done|].
    rewrite lookup_app_r by lia. by replace (S (length p) - length p)%nat with 1%nat by lia.
  - rewrite (app_assoc p [a] (b :: c :: p') : p ++ a :: _ = _) in Hnd |- *. apply succ_in_mid.
    apply NoDup_app in Hnd as (_ & Hdj & _). intros Hin. apply (Hdj b Hin). left.
Qed.

Lemma popleft_spec q b l :
  queue_rep q (b :: l) → ∃ q', popleft q = Ok (q', b) ∧ queue_rep q' l ∧ same_data (fq_blocks q) (fq_blocks q').
Proof.
  destruct q as [h n]. intros [Hr Hn]. cbn in Hr, Hn. unfold popleft.
  destruct (heap_rep_head h (b :: l) b (l ++ [TAIL]) Hr eq_refl) as (hd & Hhd & Hnext).
  rewrite (st_bind_blk_get HEAD _ _ _ hd Hhd), Hnext. destruct (head_split l) as (c & p' & Hc).
  destruct (heap_rep_mid h [] b l [] HEAD c p' Hr eq_refl Hc) as (blk & Hb & Hprev & Hnb).
  pose proof (hr_nodup _ _ Hr) as Hnd. unfold path in Hnd. cbn in Hnd.
  assert (is_Some (h !! c)). { apply (hr_dom _ _ Hr). unfold path. cbn. rewrite Hc. set_solver. }
  assert (b ≠ TAIL ∧ b ≠ HEAD ∧ b ≠ c ∧ HEAD ≠ c) as (HbT & HbH & Hbc & HHc).
  { rewrite !NoDup_cons in Hnd. split_and!; [set_solver..| |]; rewrite Hc in Hnd; set_solver. }
  rewrite decide_False by done.
  rewrite (st_bind_blk_get b _ _ _ blk Hb), Hnb.
  rewrite !st_bind_blk_set by (rewrite ?lookup_alter_is_Some; by rewrite ?Hhd, ?Hb).
  eexists. split; [done|]. cbn. assert (same_data h (alter unlinked b (alter (set_prev (Some HEAD)) c
    (alter (set_next (Some c)) HEAD h)))) by auto with freeq.
  split; [split; [|cbn in *; lia]|done]. cbn.
  apply (heap_rep_cut h _ [] [b] l [] HEAD c p'); [done..|]. solve_links.
Qed.

Lemma popleft_empty q : queue_rep q [] → popleft q = Err ValueError.
Proof.
  destruct q as [h n]. intros [Hr Hn]. cbn in Hr, Hn.
  destruct (heap_rep_head h [] TAIL [] Hr eq_refl) as (hd & Hhd & Hnext).
  unfold popleft. rewrite (st_bind_blk_get HEAD _ _ _ hd Hhd), Hnext, decide_True by done. cbn. by rewrite Hn.
Qed.

(** The loop of [popleft_n] unlinks the first [n] blocks. *)
Definition unlink_all (seg : list Z) (h : gmap Z KVCacheBlock) : gmap Z KVCacheBlock :=
  foldl (fun h b => alter unlinked b h) h seg.

Lemma unlink_all_lookup seg h k :
  unlink_all seg h !! k = if decide (k ∈ seg) then unlinked <$> h !! k else h !! k.
Proof.
  unfold unlink_all. revert h; induction seg as [|b seg IH]; intros h; cbn [foldl].
  - by rewrite decide_False by apply not_elem_of_nil.
  - rewrite IH, lookup_alter. rewrite (decide_ext (k ∈ b :: seg) (k = b ∨ k ∈ seg)) by apply elem_of_cons.
    destruct (decide (k ∈ seg)), (decide (b = k)); subst;
      rewrite ?(decide_True (P := _ ∨ _)) by tauto; rewrite ?(decide_False (P := _ ∨ _)) by naive_solver; try done.
    by destruct (h !! k).
Qed.

Lemma unlink_all_same seg h : same_data h (unlink_all seg h).
Proof.
  unfold unlink_all. revert h; induction seg as [|b seg IH]; intros h; cbn [foldl]; [done|].
  etrans; [|apply IH]. auto with freeq.
Qed.

Lemma popleft_loop_spec seg b p' h n :
  NoDup seg → (∀ k, k ∈ seg → is_Some (h !! k)) →
  (∀ k blk, k ∈ seg → h !! k = Some blk → kb_next_free_block blk = succ_in (seg ++ b :: p') k) →
  popleft_loop (length seg) (head (seg ++ b :: p')) (mkFreeQueue h n) =
    Ok (mkFreeQueue (unlink_all seg h) n, (seg, Some b)).
Proof.
  revert h; induction seg as [|a seg IH]; intros h Hnd Hd Hn; [done|]. cbn [length popleft_loop app head].
  apply NoDup_cons in Hnd as [Ha Hnd]. destruct (Hd a) as [blk Hblk]; [left|].
  rewrite (st_bind_blk_get a _ _ _ blk Hblk), st_bind_blk_set by by rewrite Hblk.
  rewrite (Hn a blk) by (done || left). cbn [app].
  assert (succ_in (a :: seg ++ b :: p') a = head (seg ++ b :: p')) as ->.
  { destruct seg; cbn; by rewrite succ_in_cons, decide_True. }
  rewrite (st_bind_eq _ _ _ (mkFreeQueue (unlink_all seg (alter unlinked a h)) n) (seg, Some b)); [done|].
  apply IH; [done| |].
  - intros k Hk. rewrite lookup_alter_is_Some. apply Hd. by right.
  - intros k blk' Hk. rewrite lookup_alter_ne by (intros ->; done). intros Hk'.
    rewrite (Hn k blk') by (done || by right). cbn [app]. destruct seg as [|c seg]; [by apply elem_of_nil in Hk|].
    cbn [app]. rewrite (succ_in_cons a), decide_False by (intros ->; done). done.
Qed.

Lemma popleft_n_spec q l1 l2 :
  queue_rep q (l1 ++ l2) → ∃ q', popleft_n (lenZ l1) q = Ok (q', l1) ∧ queue_rep q' l2 ∧
    same_data (fq_blocks q) (fq_blocks q').
Proof.
  destruct q as [h n]. intros [Hr Hn]. cbn in Hr, Hn. unfold popleft_n.
  destruct l1 as [|a l1]; [by eexists|]. set (l := a :: l1) in *.
  destruct (Z.eqb_spec (lenZ l) 0) as [|_]; [done|]. rewrite length_app in Hn.
  rewrite st_bind_get, st_bind_assert, st_bind_modify by (apply Z.leb_le; cbn -[l]; lia).
  change ((mkFreeQueue h n) <| fq_num_free_blocks ::= fun k => k - lenZ l |>) with (mkFreeQueue h (n - lenZ l)).
  rewrite Nat2Z.id.
  destruct (head_split l2) as (b & p' & Hb). pose proof (hr_nodup _ _ Hr) as Hnd.
  assert (path (l ++ l2) = HEAD :: l ++ b :: p') as E by (unfold path; by rewrite <- app_assoc, Hb).
  assert (is_Some (h !! HEAD)) as HH by (apply (hr_dom _ _ Hr); left).
  assert (is_Some (h !! b)) as HB by (apply (hr_dom _ _ Hr); rewrite E; set_solver).
  destruct (heap_rep_head h (l ++ l2) a (l1 ++ b :: p') Hr) as (hd & Hhd & Hnext).
  { by rewrite <- app_assoc, Hb. }
  rewrite E in Hnd. pose proof Hnd as (HH' & (Hl & Hlb & _)%NoDup_app)%NoDup_cons.
  rewrite (st_bind_blk_get HEAD _ _ _ hd Hhd), Hnext. rewrite (st_bind_eq _ _ _ (mkFreeQueue (unlink_all l h) (n - lenZ l)) (l, Some b)).
  2: { apply (popleft_loop_spec l b p' h); [done| |].
       - intros k Hk. apply (hr_dom _ _ Hr). rewrite E. set_solver.
       - intros k blk Hk Hk'. rewrite (hr_next _ _ Hr k blk Hk'), E. unfold l. cbn [app].
         rewrite succ_in_cons, decide_False; [done|]. intros <-. apply HH', elem_of_app. by left. }
  cbn [fst snd]. rewrite !st_bind_blk_set.
  2, 3: rewrite ?lookup_alter_is_Some; apply (same_data_is_Some h); [apply unlink_all_same|done].
  eexists. split; [done|]. assert (same_data h (alter (set_prev (Some HEAD)) b
    (alter (set_next (Some b)) HEAD (unlink_all l h)))) by auto using unlink_all_same with freeq.
  split; [split; cbn [fq_blocks fq_num_free_blocks]; [|lia]|done].
  apply (heap_rep_cut h _ [] l l2 [] HEAD b p'); [done..|].
  assert (HEAD ∉ l) by (intros ?; apply HH', elem_of_app; by left).
  assert (b ∉ l) by (intros Hin; apply (Hlb b Hin); left).
  assert (HEAD ≠ b) by (intros <-; apply HH', elem_of_app; right; left).
  intros k blk blk' Hk. rewrite !lookup_alter, !unlink_all_lookup.
  repeat (case_decide; subst; try contradiction; try congruence); rewrite ?Hk; csimpl; intros [= <-]; done.
Qed.

Lemma popleft_n_short q l n : queue_rep q l → lenZ l < n → popleft_n n q = Err AssertionError.
Proof.
  destruct q as [h k]. intros [_ Hn] Hlt. cbn in Hn. unfold popleft_n.
  destruct (Z.eqb_spec n 0); [lia|]. rewrite st_bind_get. apply st_bind_assert_false, Z.leb_gt. cbn. lia.
Qed.

Lemma queue_remove_spec q l1 b l2 :
  queue_rep q (l1 ++ b :: l2) → ∃ q', queue_remove b q = Ok (q', tt) ∧ queue_rep q' (l1 ++ l2) ∧
    same_data (fq_blocks q) (fq_blocks q').
Proof.
  destruct q as [h n]. intros [Hr Hn]. cbn in Hr, Hn. unfold queue_remove.
  destruct (head_split l2) as (c & p' & Hc), (last_split l1) as (p & a & Ha).
  destruct (heap_rep_mid h l1 b l2 p a c p' Hr Ha Hc) as (blk & Hb & Hprev & Hnext).
  rewrite (st_bind_blk_get b _ _ _ blk Hb), Hprev, Hnext.
  pose proof (hr_nodup _ _ Hr) as Hnd.
  assert (path (l1 ++ b :: l2) = p ++ a :: b :: c :: p') as E.
  { unfold path. rewrite <- app_assoc. cbn. rewrite Hc, (app_comm_cons l1), Ha. by rewrite <- app_assoc. }
  assert (is_Some (h !! a) ∧ is_Some (h !! c)) as [HA HC].
  { split; apply (hr_dom _ _ Hr); rewrite E; set_solver. }
  rewrite !st_bind_blk_set by (rewrite ?lookup_alter_is_Some; by rewrite ?Hb).
  eexists. split; [done|]. cbn. assert (same_data h (alter unlinked b (alter (set_prev (Some a)) c
    (alter (set_next (Some c)) a h)))) by auto with freeq.
  split; [split; [|cbn; rewrite length_app in *; cbn in Hn; lia]|done]. cbn.
  apply (heap_rep_cut h _ l1 [b] l2 p a c p'); [done..|].
  assert (a ≠ b ∧ b ≠ c ∧ a ≠ c) as (? & ? & ?).
  { rewrite E, NoDup_app, !NoDup_cons in Hnd. set_solver. }
  solve_links.
Qed.

(** A block that is not in the queue cannot be removed from it. *)
Lemma queue_remove_absent q l b :
  queue_rep q l → b ∉ path l → is_Some (fq_blocks q !! b) → queue_remove b q = Err RuntimeError.
Proof.
  destruct q as [h n]. intros [Hr _] Hb [blk Hblk]. cbn in Hr, Hblk. unfold queue_remove.
  rewrite (st_bind_blk_get b _ _ _ blk Hblk), (hr_prev _ _ Hr b blk Hblk). unfold pred_in.
  rewrite succ_in_notin; [done|]. by rewrite elem_of_reverse.
Qed.

(** During [append_n]: the links of the path [p ++ [a]], whose last block [a] is not
    yet linked forward; the tail's own links are those of [tl]. *)
Record chain h p a (tl : KVCacheBlock) : Prop := {
  ch_nodup : NoDup (p ++ [a]);
  ch_tail : TAIL ∉ p ++ [a];
  ch_tail_blk : h !! TAIL = Some tl;
  ch_last : is_Some (h !! a);
  ch_next : ∀ k blk, h !! k = Some blk → k ≠ TAIL → k ≠ a → kb_next_free_block blk = succ_in (p ++ [a]) k;
  ch_prev : ∀ k blk, h !! k = Some blk → k ≠ TAIL → kb_prev_free_block blk = pred_in (p ++ [a]) k;
}.

Lemma chain_step h p a tl b :
  chain h p a tl → is_Some (h !! b) → b ∉ p ++ [a] → b ≠ TAIL →
  chain (alter (set_next (Some b)) a (alter (set_prev (Some a)) b h)) (p ++ [a]) b tl.
Proof.
  intros [Hnd Ht Htb [ba Ha] Hn Hp] [bb Hb] Hnb HbT.
  assert (a ≠ b) as Hab by (intros ->; apply Hnb, elem_of_app; right; left).
  assert (a ≠ TAIL) as HaT by (intros ->; apply Ht, elem_of_app; right; left).
  split.
  - apply NoDup_app. split_and!; [done| |apply NoDup_singleton]. intros x Hx ->%list_elem_of_singleton. done.
  - rewrite elem_of_app, list_elem_of_singleton. naive_solver.
  - by rewrite !lookup_alter_ne.
  - rewrite !lookup_alter_is_Some. by rewrite Hb.
  - intros k blk Hk HkT Hkb. rewrite !lookup_alter in Hk. rewrite <- app_assoc. cbn [app].
    destruct (decide (a = k)) as [<-|Hak].
    + rewrite succ_in_mid by (apply NoDup_app in Hnd as (_ & Hd & _); intros Hin; apply (Hd a Hin); left).
      rewrite decide_False, Ha in Hk by done. by simplify_eq/=.
    + rewrite decide_False in Hk by done. rewrite (Hn k blk) by done. destruct (decide (k ∈ p)) as [Hkp|Hkp].
      * by apply succ_in_prefix.
      * rewrite !succ_in_app by done. by rewrite succ_in_cons, decide_False.
  - intros k blk Hk HkT. rewrite !lookup_alter in Hk. unfold pred_in.
    rewrite reverse_snoc, reverse_snoc. rewrite succ_in_cons. unfold pred_in in Hp.
    rewrite reverse_snoc in Hp. destruct (decide (b = k)) as [<-|Hbk].
    + rewrite (decide_False (P := a = b)), Hb in Hk by done. by simplify_eq/=.
    + destruct (decide (a = k)) as [<-|Hak]; [|by apply Hp].
      rewrite decide_False, Ha in Hk by done. simplify_eq/=. by apply Hp.
Qed.

Lemma append_loop_spec bs h n p a tl :
  chain h p a tl → NoDup bs → (∀ b, b ∈ bs → is_Some (h !! b) ∧ b ∉ p ++ [a] ∧ b ≠ TAIL) →
  ∃ h' p' a', append_loop a bs (mkFreeQueue h n) = Ok (mkFreeQueue h' n, a') ∧
    (p ++ [a]) ++ bs = p' ++ [a'] ∧ chain h' p' a' tl ∧ same_data h h'.
Proof.
  revert h p a; induction bs as [|b bs IH]; intros h p a Hc Hnd Hbs.
  { exists h, p, a. by rewrite app_nil_r. }
  apply NoDup_cons in Hnd as [Hb Hnd]. destruct (Hbs b) as (Hs & Hnb & HbT); [left|].
  cbn [append_loop]. rewrite st_bind_blk_set by done. rewrite st_bind_blk_set
    by (rewrite lookup_alter_is_Some; apply (ch_last _ _ _ _ Hc)).
  pose proof (chain_step h p a tl b Hc Hs Hnb HbT) as Hc'.
  destruct (IH _ (p ++ [a]) b Hc' Hnd) as (h' & p' & a' & Heq & Hp & Hch & Hsame).
  { intros c Hin. rewrite !lookup_alter_is_Some. destruct (Hbs c) as (? & ? & ?); [by right|]. split_and!; [done| |done].
    rewrite elem_of_app, list_elem_of_singleton. naive_solver. }
  exists h', p', a'. rewrite <- Hp, <- (app_assoc (p ++ [a]) [b] bs). split_and!; [done..|].
  etrans; [|exact Hsame]. auto with freeq.
Qed.

(** A queue whose tail is cut off, and the tail put back. *)
Lemma heap_rep_chain h l p a :
  heap_rep h l → HEAD :: l = p ++ [a] →
  ∃ tl, h !! TAIL = Some tl ∧ kb_prev_free_block tl = Some a ∧ chain h p a tl.
Proof.
  intros [Hnd Hd Hn Hp] E. assert (path l = (p ++ [a]) ++ [TAIL]) as E' by (unfold path; by rewrite <- E).
  rewrite E' in *. destruct (Hd TAIL) as [tl Ht]; [set_solver|]. exists tl.
  pose proof Hnd as (Hnd' & Hdj & _)%NoDup_app.
  assert (TAIL ∉ p ++ [a]) as HT by (intros Hin; apply (Hdj TAIL Hin); left).
  assert (∀ k, pred_in ((p ++ [a]) ++ [TAIL]) k = if decide (k = TAIL) then Some a else pred_in (p ++ [a]) k) as Hpr.
  { intros k. unfold pred_in. rewrite reverse_snoc, reverse_snoc, succ_in_cons. by repeat case_decide. }
  split_and!; [done| |].
  { rewrite (Hp TAIL tl Ht), Hpr. by rewrite decide_True. }
  split; try done.
  - apply Hd. set_solver.
  - intros k blk Hk HkT Hka. rewrite (Hn k blk Hk). destruct (decide (k ∈ p)) as [Hkp|Hkp].
    + rewrite <- app_assoc. by apply succ_in_prefix.
    + rewrite !succ_in_notin; [done|set_solver..].
  - intros k blk Hk HkT. rewrite (Hp k blk Hk), Hpr. by rewrite decide_False.
Qed.

Lemma chain_close h l p a tl :
  chain h p a tl → HEAD :: l = p ++ [a] → kb_next_free_block tl = None → (∀ b, b ∈ l → is_Some (h !! b)) →
  is_Some (h !! HEAD) → heap_rep (alter (set_prev (Some a)) TAIL (alter (set_next (Some TAIL)) a h)) l.
Proof.
  intros [Hnd HT Htl [ba Ha] Hn Hp] E Htn Hd HH.
  assert (path l = (p ++ [a]) ++ [TAIL]) as E' by (unfold path; by rewrite <- E).
  assert (a ≠ TAIL) as HaT by (intros ->; apply HT, elem_of_app; right; left).
  split; rewrite ?E'.
  - apply NoDup_app. split_and!; [done| |apply NoDup_singleton]. intros x Hx ->%list_elem_of_singleton. done.
  - rewrite <- E. intros b [Hb|Hb]%elem_of_app; rewrite !lookup_alter_is_Some.
    + apply elem_of_cons in Hb as [->|Hb]; auto.
    + apply list_elem_of_singleton in Hb as ->. by rewrite Htl.
  - intros k blk Hk. rewrite !lookup_alter in Hk. destruct (decide (TAIL = k)) as [<-|HkT].
    + rewrite decide_False, Htl in Hk by done. simplify_eq/=. rewrite Htn. by rewrite succ_in_last.
    + rewrite <- app_assoc. cbn [app]. destruct (decide (a = k)) as [<-|Hak].
      * rewrite Ha in Hk. simplify_eq/=. rewrite succ_in_mid; [done|].
        apply NoDup_app in Hnd as (_ & Hdj & _). intros Hin. apply (Hdj a Hin). left.
      * rewrite (Hn k blk) by done. destruct (decide (k ∈ p)) as [Hkp|Hkp]; [by apply succ_in_prefix|].
        rewrite !succ_in_notin; [done|set_solver..].
  - intros k blk Hk. rewrite !lookup_alter in Hk. unfold pred_in.
    rewrite reverse_snoc, reverse_snoc, succ_in_cons. unfold pred_in in Hp. rewrite reverse_snoc in Hp.
    destruct (decide (TAIL = k)) as [<-|HkT].
    + rewrite decide_False, Htl in Hk by done. by simplify_eq/=.
    + destruct (decide (a = k)) as [<-|Hak]; [|by apply Hp].
      rewrite Ha in Hk. simplify_eq/=. by apply Hp.
Qed.

Lemma append_n_spec q l bs :
  queue_rep q l → NoDup bs → (∀ b, b ∈ bs → is_Some (fq_blocks q !! b) ∧ b ∉ path l) →
  ∃ q', append_n bs q = Ok (q', tt) ∧ queue_rep q' (l ++ bs) ∧ same_data (fq_blocks q) (fq_blocks q').
Proof.
  destruct q as [h n]. intros [Hr Hn] Hnd Hbs. cbn in Hr, Hn, Hbs. unfold append_n.
  destruct bs as [|b0 bs0]; [exists (mkFreeQueue h n); by rewrite app_nil_r|]. set (bs := b0 :: bs0) in *.
  destruct (last_split l) as (p & a & Ha). destruct (heap_rep_chain h l p a Hr Ha) as (tl & Htl & Hprev & Hc).
  rewrite (st_bind_blk_get TAIL _ _ _ tl Htl), Hprev.
  destruct (append_loop_spec bs h n p a tl Hc Hnd) as (h' & p' & a' & Heq & Hp' & Hc' & Hs).
  { intros b Hb. destruct (Hbs b Hb) as [? Hnb]. rewrite <- Ha. unfold path in Hnb. set_solver. }
  st_step Heq. rewrite !st_bind_blk_set.
  2: rewrite lookup_alter_is_Some; by rewrite (ch_tail_blk _ _ _ _ Hc').
  2: apply (ch_last _ _ _ _ Hc').
  eexists. split; [done|]. split; [split|]; cbn [fq_blocks fq_num_free_blocks].
  - apply (chain_close h' (l ++ bs) p' a' tl); [done|by rewrite <- Hp', <- Ha| | |].
    + rewrite (hr_next _ _ Hr TAIL tl Htl). unfold path. rewrite app_comm_cons. apply succ_in_last.
      rewrite Ha. apply (ch_tail _ _ _ _ Hc).
    + intros b Hb. apply (same_data_is_Some h h' b Hs). apply elem_of_app in Hb as [Hb|Hb]; [|by apply Hbs].
      apply (hr_dom _ _ Hr). unfold path. set_solver.
    + apply (same_data_is_Some h h' HEAD Hs), (hr_dom _ _ Hr). left.
  - rewrite length_app. cbn -[bs]. lia.
  - cbn. auto with freeq.
Qed.

Lemma queue_append_n q l b :
  queue_rep q l → is_Some (fq_blocks q !! b) → b ∉ path l → queue_append b q = append_n [b] q.
Proof.
  destruct q as [h n]. intros [Hr Hn] Hb Hnb. cbn in Hr, Hb. unfold queue_append, append_n.
  destruct (last_split l) as (p & a & Ha). destruct (heap_rep_chain h l p a Hr Ha) as (tl & Htl & Hprev & Hc).
  rewrite !(st_bind_blk_get TAIL _ _ _ tl Htl), Hprev. cbn [append_loop].
  assert (a ≠ b). { intros ->. apply Hnb. unfold path. rewrite app_comm_cons, Ha. set_solver. }
  pose proof (ch_last _ _ _ _ Hc).
  unfold mbind at 5, st_bind at 5. rewrite !st_bind_blk_set
    by (rewrite ?lookup_alter_is_Some; try done; by rewrite Htl).
  cbn. rewrite !st_bind_blk_set by (rewrite ?lookup_alter_is_Some; try done; by rewrite Htl).
  rewrite (alter_alter_ne (set_prev (Some a)) (set_next (Some b)) h b a) by done.
  unfold st_modify. do 2 f_equal. unfold update_field. f_equal. cbn [fq_num_free_blocks]. lia.
Qed.

(** Enough fuel for [get_all_free_blocks]: one more than the blocks in the queue. *)
Lemma collect_loop_spec fuel l1 l2 h n :
  heap_rep h (l1 ++ l2) → (length l2 < fuel)%nat →
  ∃ b p', l2 ++ [TAIL] = b :: p' ∧ collect_loop fuel b (mkFreeQueue h n) = Ok (mkFreeQueue h n, Some l2).
Proof.
  revert l1 l2; induction fuel as [|fuel IH]; intros l1 l2 Hr Hf; [lia|].
  destruct l2 as [|b l2].
  - exists TAIL, []. split; [done|]. destruct (hr_dom _ _ Hr TAIL) as [tl Htl]; [unfold path; set_solver|].
    cbn [collect_loop]. rewrite (st_bind_blk_get TAIL _ _ _ tl Htl), (hr_next _ _ Hr TAIL tl Htl).
    unfold path. rewrite app_comm_cons, succ_in_last; [done|].
    pose proof (hr_nodup _ _ Hr) as Hnd. unfold path in Hnd. rewrite app_comm_cons in Hnd.
    apply NoDup_app in Hnd as (_ & Hd & _). intros Hin. apply (Hd TAIL Hin). left.
  - exists b, (l2 ++ [TAIL]). split; [done|]. rewrite (app_assoc l1 [b] l2 : l1 ++ b :: l2 = _) in Hr.
    destruct (IH (l1 ++ [b]) l2 Hr) as (c & p' & Hc & Heq); [cbn in Hf; lia|].
    destruct (last_split l1) as (p & a & Ha). rewrite <- app_assoc in Hr.
    destruct (heap_rep_mid h l1 b l2 p a c p' Hr Ha Hc) as (blk & Hb & _ & Hnext).
    cbn [collect_loop]. rewrite (st_bind_blk_get b _ _ _ blk Hb), Hnext. by st_step Heq.
Qed.

Lemma get_all_free_blocks_spec q l fuel :
  queue_rep q l → (length l < fuel)%nat → get_all_free_blocks fuel q = Ok (q, Some l).
Proof.
  destruct q as [h n]. intros [Hr _] Hf. cbn in Hr. unfold get_all_free_blocks.
  destruct (collect_loop_spec fuel [] l h n Hr Hf) as (b & p' & E & Heq).
  destruct (heap_rep_head h l b p' Hr E) as (hd & Hhd & Hnext).
  by rewrite (st_bind_blk_get HEAD _ _ _ hd Hhd), Hnext.
Qed.

End operations.

(** ** Construction *)

Section init.
Implicit Types (h : gmap Z KVCacheBlock) (bs : list Z).

(** What the loop of [__init__] does to the block at index [i]. *)
Definition link_fn bs (i : nat) (blk : KVCacheBlock) : KVCacheBlock :=
  let blk := match i with O => blk | S j => set_prev (bs !! j) blk end in
  if bool_decide (S i < length bs)%nat then set_next (bs !! S i) blk else blk.

Lemma link_one_alter bs h i b : bs !! i = Some b → link_one bs h i = alter (link_fn bs i) b h.
Proof.
  intros Hi. unfold link_one, link_fn. rewrite Hi. apply map_eq. intros k. rewrite lookup_alter.
  destruct i as [|j]; case_bool_decide; rewrite ?lookup_alter; case_decide; subst; try done;
    rewrite ?decide_True by done; by destruct (h !! k).
Qed.

Lemma list_find_eq_lookup bs i k : NoDup bs → bs !! i = Some k → list_find (eq k) bs = Some (i, k).
Proof.
  intros Hnd Hi. apply list_find_Some. split_and!; [done..|]. intros j y Hj Hlt <-.
  pose proof (NoDup_lookup bs i j k Hnd Hi Hj). lia.
Qed.

Lemma link_loop_lookup bs h j k :
  NoDup bs → (j ≤ length bs)%nat →
  foldl (link_one bs) h (seq 0 j) !! k =
    match list_find (eq k) bs with
    | Some (i, _) => if decide (i < j)%nat then link_fn bs i <$> h !! k else h !! k
    | None => h !! k
    end.
Proof.
  intros Hnd. induction j as [|j IH]; intros Hj.
  { cbn. destruct (list_find (eq k) bs) as [[i ?]|]; [|done]. by rewrite decide_False by lia. }
  rewrite seq_S, foldl_app. cbn [foldl Nat.add]. destruct (lookup_lt_is_Some_2 bs j) as [b Hb]; [lia|].
  rewrite (link_one_alter _ _ _ b Hb), lookup_alter.
  destruct (decide (b = k)) as [->|Hne]; rewrite IH by lia.
  - rewrite (list_find_eq_lookup bs j k Hnd Hb). rewrite (decide_False (P := (j < j)%nat)) by lia. by rewrite decide_True by lia.
  - destruct (list_find (eq k) bs) as [[i y]|] eqn:E; [|done].
    apply list_find_Some in E as (Hi & -> & _). assert (i ≠ j) by congruence.
    by rewrite (decide_ext (i < S j)%nat (i < j)%nat) by lia.
Qed.

(** The neighbours of the block at index [i] of [bs] in the finished queue. *)
Lemma queue_init_block h bs i b blk :
  NoDup bs → HEAD ∉ bs → TAIL ∉ bs → bs !! i = Some b → h !! b = Some blk →
  kb_prev_free_block blk = None → kb_next_free_block blk = None →
  ∃ blk', fq_blocks (queue_init h bs) !! b = Some blk' ∧ kb_data blk' = kb_data blk ∧
    kb_next_free_block blk' = (bs ++ [TAIL]) !! S i ∧ kb_prev_free_block blk' = (HEAD :: bs) !! i.
Proof.
  intros Hnd HH HT Hi Hb Hp Hn. assert (b ∈ bs) as Hin by by eapply list_elem_of_lookup_2.
  pose proof (lookup_lt_Some _ _ _ Hi) as Hlt.
  unfold queue_init. cbn [fq_blocks]. destruct bs as [|first rest]; [done|]. set (bs := first :: rest) in *.
  destruct (last bs) as [lst|] eqn:El; [|by apply last_None in El].
  pose proof (link_loop_lookup bs h (length bs) b Hnd ltac:(lia)) as Hloop.
  rewrite (list_find_eq_lookup bs i b Hnd Hi), Hb, decide_True in Hloop by done.
  assert (HEAD ≠ b) by congruence. assert (TAIL ≠ b) by congruence.
  assert (first = b ↔ i = O) as Hf.
  { split; [intros ->|intros ->; by injection Hi]. by eapply (NoDup_lookup bs i 0%nat b Hnd). }
  assert (lst = b ↔ S i = length bs) as Hl.
  { rewrite last_lookup in El. split; [intros ->; pose proof (NoDup_lookup bs i _ b Hnd Hi El); lia|].
    intros E. rewrite <- E in El. cbn in El. congruence. }
  exists ((if decide (lst = b) then set_next (Some TAIL) else id)
            ((if decide (first = b) then set_prev (Some HEAD) else id) (link_fn bs i blk))). split.
  { rewrite lookup_alter. destruct (decide (lst = b)) as [->|]; rewrite lookup_alter_ne by done;
      rewrite lookup_alter; (destruct (decide (first = b)) as [->|]; [|]);
      rewrite lookup_alter_ne by done; rewrite !lookup_insert_ne by done; by rewrite Hloop. }
  rewrite lookup_app. unfold link_fn.
  destruct (decide (lst = b)) as [El'|El'], (decide (first = b)) as [Ef'|Ef'], i as [|j];
    try (exfalso; tauto); case_bool_decide; try (exfalso; tauto || lia); cbn -[bs]; rewrite ?Hp, ?Hn;
    (split; [done|]); (split; [|done]).
  1, 2: apply proj1 in Hl; specialize (Hl El'); rewrite lookup_ge_None_2 by lia; by rewrite <- Hl, Nat.sub_diag.
  all: by match goal with |- ?x = _ => destruct x eqn:E; [|apply lookup_ge_None_1 in E; lia] end.
Qed.

Lemma queue_init_ends h bs :
  HEAD ∉ bs → TAIL ∉ bs → ∃ hd tl,
    fq_blocks (queue_init h bs) !! HEAD = Some hd ∧ fq_blocks (queue_init h bs) !! TAIL = Some tl ∧
    kb_data hd = kb_data new_block ∧ kb_data tl = kb_data new_block ∧
    kb_prev_free_block hd = None ∧ kb_next_free_block hd = head (bs ++ [TAIL]) ∧
    kb_next_free_block tl = None ∧ kb_prev_free_block tl = last (HEAD :: bs).
Proof.
  intros HH HT. unfold queue_init. cbn [fq_blocks]. set (h' := foldl _ _ _).
  destruct bs as [|first rest].
  - exists (set_next (Some TAIL) new_block), (set_prev (Some HEAD) new_block).
    rewrite !lookup_alter, !lookup_insert. done.
  - set (bs := first :: rest) in *. rewrite (last_cons_cons HEAD first rest : last (HEAD :: bs) = last bs).
    destruct (last bs) as [lst|] eqn:El; [|by apply last_None in El].
    assert (lst ∈ bs) by (rewrite last_lookup in El; by eapply list_elem_of_lookup_2).
    assert (first ∈ bs) by left.
    assert (first ≠ HEAD ∧ first ≠ TAIL ∧ lst ≠ HEAD ∧ lst ≠ TAIL) as (? & ? & ? & ?) by naive_solver.
    exists (set_next (Some first) new_block), (set_prev (Some lst) new_block).
    rewrite !lookup_alter. rewrite !(decide_False (P := lst = _)), !(decide_False (P := first = _)) by done.
    rewrite !lookup_insert. done.
Qed.

Lemma queue_init_other h bs k :
  NoDup bs → k ∉ bs → k ≠ HEAD → k ≠ TAIL → fq_blocks (queue_init h bs) !! k = h !! k.
Proof.
  intros Hnd Hk HH HT. unfold queue_init. cbn [fq_blocks].
  pose proof (link_loop_lookup bs h (length bs) k Hnd ltac:(lia)) as Hloop.
  destruct (list_find (eq k) bs) as [[i y]|] eqn:E.
  { apply list_find_Some in E as (Hi & -> & _). by apply list_elem_of_lookup_2 in Hi. }
  set (h' := foldl _ _ _) in *. destruct bs as [|first rest].
  - rewrite !lookup_alter_ne, !lookup_insert_ne by done. done.
  - set (bs := first :: rest) in *.
    destruct (last bs) as [lst|] eqn:El; [|by apply last_None in El].
    assert (lst ∈ bs) by (rewrite last_lookup in El; by eapply list_elem_of_lookup_2).
    assert (first ∈ bs) by left.
    assert (first ≠ k ∧ lst ≠ k) as (? & ?) by naive_solver.
    rewrite !lookup_alter_ne, !lookup_insert_ne by done. done.
Qed.

Lemma path_nodup bs : NoDup bs → HEAD ∉ bs → TAIL ∉ bs → NoDup (path bs).
Proof.
  intros Hnd HH HT. unfold path. apply NoDup_cons. split; [set_solver|].
  apply NoDup_app. split_and!; [done| |apply NoDup_singleton]. by intros x Hx ->%list_elem_of_singleton.
Qed.

Definition fresh_links h : Prop :=
  ∀ b blk, h !! b = Some blk → kb_prev_free_block blk = None ∧ kb_next_free_block blk = None.

Lemma queue_init_member h bs b :
  NoDup bs → HEAD ∉ bs → TAIL ∉ bs → fresh_links h → b ∈ bs → is_Some (h !! b) → ∃ blk blk',
    h !! b = Some blk ∧ fq_blocks (queue_init h bs) !! b = Some blk' ∧ kb_data blk' = kb_data blk ∧
    kb_next_free_block blk' = succ_in (path bs) b ∧ kb_prev_free_block blk' = pred_in (path bs) b.
Proof.
  intros Hnd HH HT Hfresh Hb [blk Hh]. pose proof Hb as [i Hi]%list_elem_of_lookup.
  pose proof (path_nodup bs Hnd HH HT) as Hpath. destruct (Hfresh b blk Hh) as [Hp Hn].
  destruct (queue_init_block h bs i b blk Hnd HH HT Hi Hh Hp Hn) as (blk' & Hb' & Hdata & Hn' & Hp').
  pose proof (lookup_lt_Some _ _ _ Hi) as Hlt.
  assert (path bs !! S i = Some b) as Hpi.
  { change ((bs ++ [TAIL]) !! i = Some b). by rewrite lookup_app_l. }
  exists blk, blk'. rewrite (succ_in_lookup _ _ _ Hpath Hpi), (pred_in_lookup _ _ _ Hpath Hpi).
  split_and!; try done. rewrite Hp'. unfold path. rewrite app_comm_cons, lookup_app_l; [done|]. cbn. lia.
Qed.

Lemma queue_init_links h bs k blk :
  NoDup bs → HEAD ∉ bs → TAIL ∉ bs → fresh_links h → (∀ b, b ∈ bs → is_Some (h !! b)) →
  fq_blocks (queue_init h bs) !! k = Some blk →
  kb_next_free_block blk = succ_in (path bs) k ∧ kb_prev_free_block blk = pred_in (path bs) k.
Proof.
  intros Hnd HH HT Hfresh Hd Hk. destruct (decide (k ∈ bs)) as [Hin|Hin].
  { destruct (queue_init_member h bs k Hnd HH HT Hfresh Hin (Hd k Hin)) as (? & ? & _ & Hb & _ & ? & ?).
    by simplify_eq. }
  destruct (queue_init_ends h bs HH HT) as (hd & tl & Hhd & Htl & _ & _ & Hh1 & Hh2 & Ht1 & Ht2).
  destruct (decide (k = HEAD)) as [->|HkH]; [|destruct (decide (k = TAIL)) as [->|HkT]].
  - simplify_eq. rewrite Hh1, Hh2. split; [|symmetry; by apply pred_in_first, path_nodup].
    unfold path. destruct (head_split bs) as (b & p' & ->). by rewrite succ_in_cons, decide_True.
  - simplify_eq. rewrite Ht1, Ht2. unfold path, pred_in. destruct (last_split bs) as (p & a & E).
    rewrite app_comm_cons, E. rewrite succ_in_last by (rewrite <- E; set_solver).
    rewrite last_snoc, reverse_snoc, reverse_snoc, succ_in_cons, decide_True by done. done.
  - rewrite queue_init_other in Hk by done. destruct (Hfresh k blk Hk) as [-> ->]. unfold pred_in.
    rewrite !succ_in_notin; [done| |]; rewrite ?elem_of_reverse; unfold path; set_solver.
Qed.

Lemma queue_init_spec h bs :
  NoDup bs → HEAD ∉ bs → TAIL ∉ bs → fresh_links h → (∀ b, b ∈ bs → is_Some (h !! b)) →
  queue_rep (queue_init h bs) bs ∧
  same_data (<[TAIL := new_block]> (<[HEAD := new_block]> h)) (fq_blocks (queue_init h bs)).
Proof.
  intros Hnd HH HT Hfresh Hd.
  destruct (queue_init_ends h bs HH HT) as (hd & tl & Hhd & Htl & Dh & Dt & _).
  split; [split; [split|done]|].
  - by apply path_nodup.
  - intros b Hb. unfold path in Hb. apply elem_of_cons in Hb as [->|[Hb| ->%list_elem_of_singleton]%elem_of_app];
      [by rewrite Hhd| |by rewrite Htl].
    by destruct (queue_init_member h bs b Hnd HH HT Hfresh Hb (Hd b Hb)) as (_ & ? & _ & -> & _).
  - intros b blk Hb. by apply (queue_init_links h bs b blk).
  - intros b blk Hb. by apply (queue_init_links h bs b blk).
  - apply map_eq. intros k. rewrite !lookup_fmap, !lookup_insert.
    destruct (decide (TAIL = k)) as [<-|]; [rewrite Htl; cbn; by rewrite Dt|].
    destruct (decide (HEAD = k)) as [<-|]; [rewrite Hhd; cbn; by rewrite Dh|].
    destruct (decide (k ∈ bs)) as [Hin|Hin]; [|by rewrite queue_init_other].
    destruct (queue_init_member h bs k Hnd HH HT Hfresh Hin (Hd k Hin)) as (blk & blk' & -> & -> & Hdt & _).
    cbn. by rewrite Hdt.
Qed.

End init.




(** The blocks of a new pool of [n] blocks, and its queue. *)
Definition fresh_blocks (n : Z) : gmap Z KVCacheBlock := gset_to_gmap new_block (list_to_set (seqZ 0 n)).

Lemma fresh_blocks_lookup n b : fresh_blocks n !! b = if decide (0 <= b < n) then Some new_block else None.
Proof.
  unfold fresh_blocks. case_decide as Hb.
  - apply lookup_gset_to_gmap_Some. rewrite elem_of_list_to_set, elem_of_seqZ. split; [lia|done].
  - apply lookup_gset_to_gmap_None. rewrite elem_of_list_to_set, elem_of_seqZ. lia.
Qed.

Lemma fresh_queue_rep n :
  queue_rep (queue_init (fresh_blocks n) (seqZ 0 n)) (seqZ 0 n) ∧
  same_data (<[TAIL := new_block]> (<[HEAD := new_block]> (fresh_blocks n)))
    (fq_blocks (queue_init (fresh_blocks n) (seqZ 0 n))).
Proof.
  apply queue_init_spec.
  - apply NoDup_seqZ.
  - rewrite elem_of_seqZ. unfold HEAD. lia.
  - rewrite elem_of_seqZ. unfold TAIL. lia.
  - intros b blk. rewrite fresh_blocks_lookup. case_decide; [|done]. by intros [= <-].
  - intros b Hb. rewrite fresh_blocks_lookup, decide_True; [done|]. apply elem_of_seqZ in Hb. lia.
Qed.

(** ** Refinement of a list *)

Section refinement.
Implicit Types (q : FreeKVCacheBlockQueue) (l : list Z) (h : gmap Z KVCacheBlock) (b : Z).

Lemma heap_rep_unique h h' l : heap_rep h l → heap_rep h' l → same_data h h' → h = h'.
Proof.
  intros Hr Hr' Hs. apply map_eq. intros k. pose proof (same_data_lookup h h' k Hs) as Hd.
  destruct (h !! k) as [blk|] eqn:Hk, (h' !! k) as [blk'|] eqn:Hk'; try done. injection Hd as Hd1 Hd2 Hd3.
  pose proof (hr_next _ _ Hr k blk Hk). pose proof (hr_next _ _ Hr' k blk' Hk').
  pose proof (hr_prev _ _ Hr k blk Hk). pose proof (hr_prev _ _ Hr' k blk' Hk').
  destruct blk, blk'; cbn in *. congruence.
Qed.

Lemma queue_rep_unique q q' l :
  queue_rep q l → queue_rep q' l → same_data (fq_blocks q) (fq_blocks q') → q = q'.
Proof.
  intros [Hr Hn] [Hr' Hn'] Hs. destruct q, q'; cbn in *. f_equal; [by eapply heap_rep_unique|congruence].
Qed.

Inductive queue_op :=
  | QPopleft | QPopleftN (n : Z) | QRemove (b : Z) | QAppend (b : Z) | QAppendN (bs : list Z).

Definition queue_apply (op : queue_op) : queue (list Z) :=
  match op with
  | QPopleft => b ← popleft; mret [b]
  | QPopleftN n => popleft_n n
  | QRemove b => queue_remove b;; mret []
  | QAppend b => queue_append b;; mret []
  | QAppendN bs => append_n bs;; mret []
  end.

(** The same operations on a list of block ids. *)
Definition list_apply (op : queue_op) l : res (list Z * list Z) :=
  match op with
  | QPopleft => match l with [] => Err ValueError | b :: l => Ok (l, [b]) end
  | QPopleftN n => if lenZ l <? n then Err AssertionError else Ok (drop (Z.to_nat n) l, take (Z.to_nat n) l)
  | QRemove b => if decide (b ∈ l) then Ok (filter (fun c => c ≠ b) l, []) else Err RuntimeError
  | QAppend b => Ok (l ++ [b], [])
  | QAppendN bs => Ok (l ++ bs, [])
  end.

(** The operands are blocks of the heap, appended blocks are not queued already. *)
Definition operand q l (b : Z) : Prop := is_Some (fq_blocks q !! b) ∧ b ∉ path l.
Definition queue_pre q l (op : queue_op) : Prop :=
  match op with
  | QPopleft => True
  | QPopleftN n => 0 <= n
  | QRemove b => is_Some (fq_blocks q !! b) ∧ b ≠ HEAD ∧ b ≠ TAIL
  | QAppend b => operand q l b
  | QAppendN bs => NoDup bs ∧ ∀ b, b ∈ bs → operand q l b
  end.

Lemma queue_remove_refines q l b :
  queue_rep q l → b ∈ l → ∃ q', queue_remove b q = Ok (q', tt) ∧ queue_rep q' (filter (fun c => c ≠ b) l) ∧
    same_data (fq_blocks q) (fq_blocks q').
Proof.
  intros Hr (l1 & l2 & ->)%list_elem_of_split. destruct (queue_remove_spec q l1 b l2 Hr) as (q' & Heq & Hr' & Hs).
  exists q'. split_and!; [done| |done]. pose proof (hr_nodup _ _ (proj1 Hr)) as Hnd.
  assert (b ∉ l1 ∧ b ∉ l2) as [H1 H2].
  { unfold path in Hnd. rewrite <- app_assoc, NoDup_cons, NoDup_app, <- app_comm_cons, NoDup_cons in Hnd. set_solver. }
  rewrite filter_app, filter_cons, decide_False by tauto.
  rewrite !list_filter_all; [done|intros x Hx ->; contradiction..].
Qed.

(** C12. The doubly linked list implements a list.  When the links of the blocks
    represent the list [l], every operation of the free queue behaves as the
    operation on [l]: it raises the same exception or returns the same blocks, in
    the same order, and its links then represent the resulting list; the other
    fields of the blocks are untouched.  In particular a block can be removed
    from the middle of the queue, and removing a block that is not queued is
    detected. *)
Theorem free_queue_refines_list q l op :
  queue_rep q l → queue_pre q l op →
  match list_apply op l with
  | Err e => queue_apply op q = Err e
  | Ok (l', blocks) => ∃ q', queue_apply op q = Ok (q', blocks) ∧ queue_rep q' l' ∧
      same_data (fq_blocks q) (fq_blocks q')
  end.
Proof.
  intros Hr Hpre. destruct op as [|n|b|b|bs]; cbn in Hpre |- *.
  - destruct l as [|b l]; [unfold mbind, st_bind; by rewrite popleft_empty|].
    destruct (popleft_spec q b l Hr) as (q' & Heq & ? & ?). exists q'. by st_step Heq.
  - destruct (Z.ltb_spec (lenZ l) n); [by eapply popleft_n_short|].
    rewrite <- (take_drop (Z.to_nat n) l) in Hr at 1. apply popleft_n_spec in Hr.
    by rewrite length_take, Nat.min_l, Z2Nat.id in Hr by lia.
  - destruct Hpre as (Hb & HH & HT). case_decide as Hin.
    + destruct (queue_remove_refines q l b Hr Hin) as (q' & Heq & ? & ?). exists q'. by st_step Heq.
    + unfold mbind, st_bind. rewrite (queue_remove_absent q l b Hr); [done| |done].
      unfold path. rewrite elem_of_cons, elem_of_app, list_elem_of_singleton. naive_solver.
  - destruct Hpre as [Hb Hn].
    destruct (append_n_spec q l [b] Hr) as (q' & Heq & ? & ?); [apply NoDup_singleton| |].
    { by intros c ->%list_elem_of_singleton. }
    exists q'. rewrite <- (queue_append_n q l b) in Heq by done. by st_step Heq.
  - destruct Hpre as [Hnd Hbs]. destruct (append_n_spec q l bs Hr Hnd Hbs) as (q' & Heq & ? & ?).
    exists q'. by st_step Heq.
Qed.

(** [n] times [popleft]. *)
Fixpoint popleft_times (n : nat) : queue (list Z) :=
  match n with O => mret [] | S n => b ← popleft; bs ← popleft_times n; mret (b :: bs) end.

Lemma popleft_times_spec l1 l2 q :
  queue_rep q (l1 ++ l2) → ∃ q', popleft_times (length l1) q = Ok (q', l1) ∧ queue_rep q' l2 ∧
    same_data (fq_blocks q) (fq_blocks q').
Proof.
  revert q; induction l1 as [|b l1 IH]; intros q Hr; [by exists q|].
  destruct (popleft_spec q b (l1 ++ l2) Hr) as (q1 & Heq1 & Hr1 & Hs1).
  destruct (IH q1 Hr1) as (q2 & Heq2 & Hr2 & Hs2). exists q2. split_and!; [|done|by etrans].
  cbn [length popleft_times]. st_step Heq1. by st_step Heq2.
Qed.

Lemma append_iter_spec bs q l :
  queue_rep q l → NoDup bs → (∀ b, b ∈ bs → operand q l b) →
  ∃ q', st_iter queue_append bs q = Ok (q', tt) ∧ queue_rep q' (l ++ bs) ∧ same_data (fq_blocks q) (fq_blocks q').
Proof.
  revert q l; induction bs as [|b bs IH]; intros q l Hr Hnd Hbs; [exists q; by rewrite app_nil_r|].
  apply NoDup_cons in Hnd as [Hb Hnd]. destruct (Hbs b) as [Hs Hp]; [left|].
  destruct (append_n_spec q l [b] Hr) as (q1 & Heq1 & Hr1 & Hs1); [apply NoDup_singleton| |].
  { by intros c ->%list_elem_of_singleton. }
  rewrite <- (queue_append_n q l b) in Heq1 by done.
  destruct (IH q1 (l ++ [b]) Hr1 Hnd) as (q2 & Heq2 & Hr2 & Hs2).
  { intros c Hc. destruct (Hbs c) as [Hsc Hpc]; [by right|]. split.
    - by apply (same_data_is_Some _ _ c Hs1).
    - unfold path in *. assert (c ≠ b) by (intros ->; done). set_solver. }
  exists q2. rewrite <- app_assoc in Hr2. split_and!; [|done|by etrans]. cbn [st_iter]. by st_step Heq1.
Qed.

(** The batch operations are the iterated single ones: [popleft_n n], which
    walks the list once and relinks the head at the end, leaves exactly the state
    of [n] calls of [popleft] and returns the same blocks; [append_n] leaves
    exactly the state of appending the blocks one by one. *)
Theorem batch_ops_equal_iterated q l n bs :
  queue_rep q l → (n ≤ length l)%nat → NoDup bs → (∀ b, b ∈ bs → operand q l b) →
  popleft_n (Z.of_nat n) q = popleft_times n q ∧ append_n bs q = st_iter queue_append bs q.
Proof.
  intros Hr Hn Hnd Hbs. split.
  - rewrite <- (take_drop n l) in Hr. destruct (popleft_n_spec q _ _ Hr) as (q1 & Heq1 & Hr1 & Hs1).
    destruct (popleft_times_spec _ _ q Hr) as (q2 & Heq2 & Hr2 & Hs2).
    rewrite length_take, Nat.min_l in Heq1, Heq2 by done. rewrite Heq1, Heq2. do 2 f_equal.
    eapply queue_rep_unique; [done..|]. unfold same_data in *. congruence.
  - destruct (append_n_spec q l bs Hr Hnd Hbs) as (q1 & Heq1 & Hr1 & Hs1).
    destruct (append_iter_spec bs q l Hr Hnd Hbs) as (q2 & Heq2 & Hr2 & Hs2). rewrite Heq1, Heq2. do 2 f_equal.
    eapply queue_rep_unique; [done..|]. unfold same_data in *. congruence.
Qed.

End refinement.

(** ** Witnesses: a queue of four blocks *)

Definition ex_queue : FreeKVCacheBlockQueue := queue_init (fresh_blocks 4) (seqZ 0 4).

(** Block 2 is taken out of the middle. *)
Lemma free_queue_refines_list_witness :
  ∃ q', queue_apply (QRemove 2) ex_queue = Ok (q', []) ∧ queue_rep q' [0; 1; 3].
Proof.
  pose proof (free_queue_refines_list ex_queue [0; 1; 2; 3] (QRemove 2) (proj1 (fresh_queue_rep 4))) as Hw.
  destruct Hw as (q' & Heq & Hr & _); [|by exists q'].
  split_and!; [vm_compute; by eexists|done|done].
Defined.

Definition ex_queue' : FreeKVCacheBlockQueue := default_ok ex_queue (fst <$> popleft_n 2 ex_queue).

Lemma batch_ops_equal_iterated_witness :
  popleft_n 2 ex_queue' = popleft_times 2 ex_queue' ∧ append_n [1; 0] ex_queue' = st_iter queue_append [1; 0] ex_queue'.
Proof.
  assert (queue_rep ex_queue' [2; 3]) as Hr.
  { destruct (popleft_n_spec ex_queue [0; 1] [2; 3] (proj1 (fresh_queue_rep 4))) as (q' & Heq & Hr & _).
    unfold ex_queue'. change 2 with (lenZ [0; 1]). by rewrite Heq. }
  apply (batch_ops_equal_iterated ex_queue' [2; 3] 2 [1; 0] Hr); [done|apply (bool_decide_unpack _); by vm_compute|].
  intros b Hb. split; [|apply (bool_decide_unpack _)];
    apply elem_of_cons in Hb as [->| ->%list_elem_of_singleton]; vm_compute; by try eexists.
Defined.
