(* ===== verification/Request.v ===== *)
(** * Requests

    [v1/request.py]: the request object the scheduler works on, its status, its
    order under priority scheduling; and [v1/core/sched/utils.py]: when a
    generation stops.  Attributes that nothing in the development reads are left
    out: events, trace headers, the count of NaNs and the state of the reasoning
    parser. *)

From S2P Require Import Prelude PyFloat Protocol.

(** [RequestStatus], an [IntEnum] whose values count from 1. *)
Inductive RequestStatus :=
  | WAITING | WAITING_FOR_STRUCTURED_OUTPUT_GRAMMAR | WAITING_FOR_REMOTE_KVS
  | WAITING_FOR_STREAMING_REQ | RUNNING | PREEMPTED
  | FINISHED_STOPPED | FINISHED_LENGTH_CAPPED | FINISHED_ABORTED | FINISHED_IGNORED
  | FINISHED_ERROR | FINISHED_REPETITION.
#[global] Instance RequestStatus_eq_dec : EqDecision RequestStatus.
Proof. solve_decision. Defined.

Definition status_value (s : RequestStatus) : Z :=
  match s with
  | WAITING => 1 | WAITING_FOR_STRUCTURED_OUTPUT_GRAMMAR => 2 | WAITING_FOR_REMOTE_KVS => 3
  | WAITING_FOR_STREAMING_REQ => 4 | RUNNING => 5 | PREEMPTED => 6
  | FINISHED_STOPPED => 7 | FINISHED_LENGTH_CAPPED => 8 | FINISHED_ABORTED => 9 | FINISHED_IGNORED => 10
  | FINISHED_ERROR => 11 | FINISHED_REPETITION => 12
  end.

Definition status_is_finished (s : RequestStatus) : bool := status_value PREEMPTED <? status_value s.

Inductive FinishReason := STOP | LENGTH | ABORT | ERROR | REPETITION.

(** [_FINISHED_REASON_MAP.get] *)
Definition get_finished_reason (s : RequestStatus) : option FinishReason :=
  match s with
  | FINISHED_STOPPED => Some STOP
  | FINISHED_LENGTH_CAPPED => Some LENGTH
  | FINISHED_ABORTED => Some ABORT
  | FINISHED_IGNORED => Some LENGTH
  | FINISHED_ERROR => Some ERROR
  | WAITING_FOR_STREAMING_REQ => Some STOP
  | FINISHED_REPETITION => Some REPETITION
  | _ => None
  end.

Record RepetitionDetectionParams := mkRepetitionParams {
  rd_max_pattern_size : Z;
  rd_min_pattern_size : Z;
  rd_min_count : Z;
}.

(** The sampling parameters the engine core reads.  [sp_structured_outputs] says
    of a given [StructuredOutputsParams] whether it constrains anything. *)
Record SamplingParams {F : Type} := mkSamplingParams {
  sp_max_tokens : option Z;
  sp_min_tokens : Z;
  sp_eos_token_id : option Z;
  sp_stop_token_ids : list Z;
  sp_repetition_detection : option RepetitionDetectionParams;
  sp_structured_outputs : option bool;
  sp_skip_reading_prefix_cache : option bool;
  sp_extra_args : option (jdict F);
}.
Arguments SamplingParams F : clear implicits.

Record PoolingParams := mkPoolingParams { pp_skip_reading_prefix_cache : option bool }.

(** [PlaceholderRange], with the boolean mask [is_embed] as a list. *)
Record PlaceholderRange := mkPlaceholder {
  pl_offset : Z;
  pl_length : Z;
  pl_is_embed : option (list bool);
}.

Fixpoint cumsum_from (acc : Z) (mask : list bool) : list Z :=
  match mask with
  | [] => []
  | b :: mask => let acc := acc + Z.b2z b in acc :: cumsum_from acc mask
  end.

Definition embeds_cumsum (p : PlaceholderRange) : option (list Z) := cumsum_from 0 <$> pl_is_embed p.

Definition get_num_embeds (p : PlaceholderRange) : Z :=
  match embeds_cumsum p with
  | None => pl_length p
  | Some c => default 0 (last c)
  end.

Definition get_embeds_indices_in_range (p : PlaceholderRange) (start_idx end_idx : Z) : res (Z * Z) :=
  match embeds_cumsum p with
  | None => Ok (start_idx, end_idx)
  | Some c =>
      s ← (if 0 <? start_idx then py_index c (start_idx - 1) else Ok 0);
      e ← (if 0 <? end_idx then py_index c (end_idx - 1) else Ok 0);
      Ok (s, e)
  end.

Record MultiModalFeatureSpec := mkFeature {
  mm_identifier : string;
  mm_position : PlaceholderRange;
}.

Record LoRARequest := mkLoRA { lora_name : string; lora_int_id : Z }.

(** [StreamingUpdate]: the next input of a session. *)
Record StreamingUpdate {F : Type} := mkUpdate {
  su_mm_features : list MultiModalFeatureSpec;
  su_prompt_token_ids : option (list Z);
  su_max_tokens : Z;
  su_arrival_time : F;
  su_sampling_params : option (SamplingParams F);
}.
Arguments StreamingUpdate F : clear implicits.

(** [PrefillStats] *)
Record PrefillStats := mkPrefillStats {
  pf_num_prompt_tokens : Z;
  pf_num_computed_tokens : Z;
  pf_num_cached_tokens : Z;
  pf_num_local_cached_tokens : Z;
  pf_num_external_cached_tokens : Z;
}.
Definition new_prefill_stats : PrefillStats := mkPrefillStats 0 0 0 0 0.
Definition prefill_stats_set (num_prompt_tokens num_local_cached_tokens num_external_cached_tokens : Z) : res PrefillStats :=
  let num_cached_tokens := num_local_cached_tokens + num_external_cached_tokens in
  passert (num_cached_tokens <=? num_prompt_tokens);;
  Ok (mkPrefillStats num_prompt_tokens (num_prompt_tokens - num_cached_tokens) num_cached_tokens num_local_cached_tokens
        num_external_cached_tokens).

(** A request.  [rq_grammar] says whether its [structured_output_request] has a
    compiled grammar.  [rq_oid] is [id(request)], the identity of the object; [E] is the
    type of prompt embeddings, a tensor. *)
Record Request {F E : Type} := mkRequest {
  rq_oid : Z;
  rq_request_id : string;
  rq_client_index : Z;
  rq_priority : Z;
  rq_sampling_params : option (SamplingParams F);
  rq_pooling_params : option PoolingParams;
  rq_lora_request : option LoRARequest;
  rq_use_structured_output : bool;
  rq_grammar : bool;
  rq_arrival_time : F;
  rq_status : RequestStatus;
  rq_stop_reason : option (Z + string);
  rq_kv_transfer_params : option (json F);
  rq_max_tokens : Z;
  rq_prompt_token_ids : option (list Z);
  rq_prompt_embeds : option E;
  rq_embeds_hashes : gmap (Z * Z) string;
  rq_num_prompt_tokens : Z;
  rq_output_token_ids : list Z;
  rq_all_token_ids : list Z;
  rq_num_output_placeholders : Z;
  rq_async_tokens_to_discard : Z;
  rq_spec_token_ids : list Z;
  rq_num_computed_tokens : Z;
  rq_cache_salt : option string;
  rq_mm_features : list MultiModalFeatureSpec;
  rq_is_prefill_chunk : bool;
  rq_num_preemptions : Z;
  rq_prefill_stats : option PrefillStats;
  rq_block_hashes : list string;
  rq_skip_reading_prefix_cache : bool;
  rq_resumable : bool;
  rq_streaming_queue : option (list (option (StreamingUpdate F)));
  rq_abort_immediately : bool;
}.
Arguments Request F E : clear implicits.
#[global] Instance Request_settable F E : Settable (Request F E) := mk_settable _
  (fun r => mkRequest F E (rq_oid r) (rq_request_id r) (rq_client_index r) (rq_priority r) (rq_sampling_params r)
     (rq_pooling_params r) (rq_lora_request r) (rq_use_structured_output r) (rq_grammar r) (rq_arrival_time r) (rq_status r)
     (rq_stop_reason r) (rq_kv_transfer_params r) (rq_max_tokens r) (rq_prompt_token_ids r) (rq_prompt_embeds r) (rq_embeds_hashes r)
     (rq_num_prompt_tokens r) (rq_output_token_ids r) (rq_all_token_ids r) (rq_num_output_placeholders r) (rq_async_tokens_to_discard r)
     (rq_spec_token_ids r) (rq_num_computed_tokens r) (rq_cache_salt r) (rq_mm_features r)
     (rq_is_prefill_chunk r) (rq_num_preemptions r) (rq_prefill_stats r) (rq_block_hashes r) (rq_skip_reading_prefix_cache r)
     (rq_resumable r) (rq_streaming_queue r) (rq_abort_immediately r)).

Section request.
Context {F E : Type} `{PyFloat F}.
(** [len(prompt_embeds)] *)
Context (embeds_len : E → Z).
(** the block hasher, which may fill the request's cache of embedding hashes *)
Context (block_hasher : option (Request F E → res (Request F E * list string))).
Notation req := (Request F E).

(** [StructuredOutputRequest.from_sampling_params(p) is not None] *)
Definition has_structured_output (p : option (SamplingParams F)) : bool :=
  match p ≫= sp_structured_outputs with Some constrains => constrains | None => false end.

Definition length_from_prompt_token_ids_or_embeds (tokens : option (list Z)) (embeds : option E) : res Z :=
  match tokens, embeds with
  | None, None => Err ValueError
  | None, Some e => Ok (embeds_len e)
  | Some t, None => Ok (lenZ t)
  | Some t, Some e => if embeds_len e =? lenZ t then Ok (lenZ t) else Err ValueError
  end.

Definition get_skip_reading_prefix_cache (sp : option (SamplingParams F)) (pp : option PoolingParams) : bool :=
  match sp ≫= sp_skip_reading_prefix_cache with
  | Some b => b
  | None => default false (pp ≫= pp_skip_reading_prefix_cache)
  end.

Definition update_block_hashes (r : req) : res req :=
  match block_hasher with
  | None => Ok r
  | Some hasher => '(r, hashes) ← hasher r; Ok (r <| rq_block_hashes ::= fun l => l ++ hashes |>)
  end.

(** [Request.__init__]; the object at [oid] with the given arrival time. *)
Definition request_init (oid : Z) (request_id : string) (client_index priority : Z)
    (sp : option (SamplingParams F)) (pp : option PoolingParams) (arrival_time : F)
    (prompt_token_ids : option (list Z)) (prompt_embeds : option E)
    (mm_features : option (list MultiModalFeatureSpec)) (lora : option LoRARequest) (cache_salt : option string)
    (resumable abort_immediately : bool) : res req :=
  '(max_tokens, status, kv) ←
    match pp, sp with
    | Some _, _ => Ok (1, WAITING, None)
    | None, Some p =>
        max_tokens ← or_raise AssertionError (sp_max_tokens p);
        Ok (max_tokens, (if has_structured_output sp then WAITING_FOR_STRUCTURED_OUTPUT_GRAMMAR else WAITING),
            sp_extra_args p ≫= od_get "kv_transfer_params")
    | None, None => Err ValueError
    end;
  num_prompt_tokens ← length_from_prompt_token_ids_or_embeds prompt_token_ids prompt_embeds;
  let all := match prompt_token_ids with
             | Some t => t
             | None => replicate (Z.to_nat num_prompt_tokens) 0
             end in
  let r := mkRequest F E oid request_id client_index priority sp pp lora (has_structured_output sp) false arrival_time
             status None kv max_tokens prompt_token_ids prompt_embeds ∅ num_prompt_tokens [] all 0 0 [] 0 cache_salt
             (default [] mm_features) false 0 (Some new_prefill_stats) [] false resumable None abort_immediately in
  r ← update_block_hashes r;
  Ok (r <| rq_skip_reading_prefix_cache := get_skip_reading_prefix_cache sp pp |>).

(** [StreamingUpdate.from_request] *)
Definition update_from_request (r : req) : option (StreamingUpdate F) :=
  if rq_resumable r
  then Some (mkUpdate F (rq_mm_features r) (rq_prompt_token_ids r) (rq_max_tokens r) (rq_arrival_time r) (rq_sampling_params r))
  else None.

Definition append_output_token_ids (token_ids : list Z) (r : req) : res req :=
  update_block_hashes
    (r <| rq_output_token_ids ::= fun l => l ++ token_ids |> <| rq_all_token_ids ::= fun l => l ++ token_ids |>).

Definition num_tokens (r : req) : Z := lenZ (rq_all_token_ids r).
Definition num_tokens_with_spec (r : req) : Z := lenZ (rq_all_token_ids r) + lenZ (rq_spec_token_ids r).
Definition num_output_tokens (r : req) : Z := lenZ (rq_output_token_ids r).
Definition num_encoder_inputs (r : req) : Z := lenZ (rq_mm_features r).
Definition has_encoder_inputs (r : req) : bool := 0 <? num_encoder_inputs r.
Definition is_finished (r : req) : bool := status_is_finished (rq_status r).

Definition get_num_encoder_embeds (r : req) (input_id : Z) : res Z :=
  passert (input_id <? lenZ (rq_mm_features r));;
  feature ← py_index (rq_mm_features r) input_id;
  Ok (get_num_embeds (mm_position feature)).

(** [Request.__lt__] *)
Definition rq_ltb (a b : req) : bool :=
  if negb (rq_priority a =? rq_priority b) then rq_priority a <? rq_priority b
  else if negb (feqb (rq_arrival_time a) (rq_arrival_time b)) then rq_arrival_time a <@ rq_arrival_time b
  else if bool_decide (rq_request_id a = rq_request_id b) then rq_oid a <? rq_oid b
  else String.ltb (rq_request_id a) (rq_request_id b).

(** ** [sched/utils.py] *)

(** [token_ids[-n] == token_ids[-(pattern_len * m + n)]] for every [m] from 1. *)
Definition column_repeats (token_ids : list Z) (pattern_len repetition_min_count n : Z) : res bool :=
  target ← py_index token_ids (- n);
  foldM (fun (ok : bool) m =>
           if ok then t ← py_index token_ids (- (pattern_len * m + n)); Ok (t =? target) else Ok false)
    true (seqZ 1 (repetition_min_count - 1)).

Definition has_repeating_pattern (token_ids : list Z) (pattern_len repetition_min_count : Z) : res bool :=
  foldM (fun (ok : bool) n => if ok then column_repeats token_ids pattern_len repetition_min_count n else Ok false)
    true (seqZ 1 pattern_len).

(** The loop over the pattern lengths. *)
Fixpoint repetition_loop (token_ids : list Z) (min_count : Z) (lens : list Z) : res bool :=
  match lens with
  | [] => Ok false
  | pattern_len :: lens =>
      if lenZ token_ids <? pattern_len * min_count then Ok false
      else
        found ← has_repeating_pattern token_ids pattern_len min_count;
        if found : bool then Ok true else repetition_loop token_ids min_count lens
  end.

Definition check_sequence_repetition (token_ids : list Z) (params : RepetitionDetectionParams) : res bool :=
  let max_pattern_size := rd_max_pattern_size params in
  let min_count := rd_min_count params in
  let min_pattern_size := if rd_min_pattern_size params <=? 0 then 1 else rd_min_pattern_size params in
  if (max_pattern_size <=? 0) || (min_count <? 2) || (max_pattern_size <? min_pattern_size) then Ok false
  else repetition_loop token_ids min_count (seqZ min_pattern_size (max_pattern_size + 1 - min_pattern_size)).

(** [list.remove]: the first occurrence, or nothing where [ValueError] is suppressed. *)
Fixpoint remove_first {A} `{EqDecision A} (x : A) (l : list A) : list A :=
  match l with [] => [] | y :: l => if decide (y = x) then l else y :: remove_first x l end.

Definition remove_all {A} `{Countable A} (lst : list A) (items_to_remove : gset A) : list A :=
  match elements items_to_remove with
  | [] => lst
  | [item] => remove_first item lst
  | _ => filter (fun item => item ∉ items_to_remove) lst
  end.

Definition check_stop (r : req) (max_model_len : Z) : res (req * bool) :=
  passert (bool_decide (rq_pooling_params r = None));;
  sp ← or_raise AssertionError (rq_sampling_params r);
  if num_output_tokens r <? sp_min_tokens sp then Ok (r, false)
  else
    last_token_id ← py_index (rq_output_token_ids r) (-1);
    if bool_decide (sp_eos_token_id sp = Some last_token_id)
    then Ok (r <| rq_status := FINISHED_STOPPED |>, true)
    else if bool_decide (last_token_id ∈ sp_stop_token_ids sp)
    then Ok (r <| rq_status := FINISHED_STOPPED |> <| rq_stop_reason := Some (inl last_token_id) |>, true)
    else if (max_model_len <=? num_tokens r) || (rq_max_tokens r <=? num_output_tokens r)
    then Ok (r <| rq_status := FINISHED_LENGTH_CAPPED |>, true)
    else
      repeated ← match sp_repetition_detection sp with
                 | Some params => check_sequence_repetition (rq_output_token_ids r) params
                 | None => Ok false
                 end;
      if repeated : bool
      then Ok (r <| rq_status := FINISHED_REPETITION |>
                 <| rq_stop_reason := Some (inr "repetition_detected"%string) |>, true)
      else Ok (r, false).

End request.

(** ** Properties *)

Lemma foldM_forallb {A} (f : A → res bool) (g : A → bool) l :
  (∀ a, a ∈ l → f a = Ok (g a)) →
  foldM (fun (ok : bool) a => if ok then f a else Ok false) true l = Ok (forallb g l).
Proof.
  assert (∀ l, foldM (fun (ok : bool) a => if ok then f a else Ok false) false l = Ok false) as Hf.
  { clear. induction l as [|a l IH]; [done|]. cbn. apply IH. }
  induction l as [|a l IH]; intros Hl; [done|]. cbn. rewrite Hl by left. cbn.
  destruct (g a); [|apply Hf]. apply IH. intros b Hb. apply Hl. by right.
Qed.

Section repetition.
Implicit Types (l pat : list Z).

(** The tail of [l] is [pat], [c] times. *)
Definition ends_with_repeats l pat (c : nat) : Prop := ∃ pre, l = pre ++ mjoin (replicate c pat).

Lemma lookup_repeats pat c j :
  pat ≠ [] → (j < length pat * c)%nat → mjoin (replicate c pat) !! j = pat !! (j mod length pat)%nat.
Proof.
  intros Hp. assert (0 < length pat)%nat by (destruct pat; cbn; [done|lia]).
  revert j; induction c as [|c IH]; intros j Hj; [lia|].
  change (mjoin (replicate (S c) pat)) with (pat ++ mjoin (replicate c pat)).
  destruct (decide (j < length pat)%nat) as [Hlt|Hge].
  - rewrite lookup_app_l by done. by rewrite Nat.mod_small.
  - rewrite lookup_app_r, IH by lia. f_equal.
    replace j with (j - length pat + 1 * length pat)%nat at 2 by lia. by rewrite Nat.Div0.mod_add.
Qed.

Lemma length_repeats pat c : length (mjoin (replicate c pat)) = (length pat * c)%nat.
Proof.
  induction c as [|c IH]; [cbn; lia|].
  change (mjoin (replicate (S c) pat)) with (pat ++ mjoin (replicate c pat)). rewrite length_app, IH. lia.
Qed.

(** [l] read from its end: column [n] of repetition [m]. *)
Definition from_end l (i : nat) : option Z := l !! (length l - i)%nat.

Lemma repeats_columns l p c :
  (0 < p)%nat → (0 < c)%nat → (p * c ≤ length l)%nat →
  (∃ pat, length pat = p ∧ ends_with_repeats l pat c) ↔
  (∀ n m, (1 ≤ n ≤ p)%nat → (1 ≤ m < c)%nat → from_end l (p * m + n) = from_end l n).
Proof.
  intros Hp Hc Hl. unfold from_end. split.
  - intros (pat & Hlen & pre & ->) n m Hn Hm. assert (pat ≠ []) by (destruct pat; cbn in *; [lia|done]).
    rewrite length_app, length_repeats, Hlen in *.
    rewrite !lookup_app_r by nia. rewrite !lookup_repeats, Hlen by (done || nia). f_equal.
    replace (length pre + p * c - (p * m + n) - length pre)%nat with ((p - n) + (c - m - 1) * p)%nat by nia.
    replace (length pre + p * c - n - length pre)%nat with ((p - n) + (c - 1) * p)%nat by nia.
    by rewrite !Nat.Div0.mod_add.
  - intros Hcol. exists (drop (length l - p) l). split; [rewrite length_drop; nia|].
    exists (take (length l - p * c) l). rewrite <- (take_drop (length l - p * c) l) at 1. f_equal.
    set (pat := drop (length l - p) l). assert (length pat = p) as Hlen by (unfold pat; rewrite length_drop; nia).
    assert (pat ≠ []) by (destruct pat; cbn in *; [lia|done]).
    apply list_eq_same_length with (n := (p * c)%nat); [by rewrite length_repeats, Hlen|rewrite length_drop; lia|].
    intros j x y Hj Hx Hy. rewrite lookup_repeats, Hlen in Hy by (done || lia).
    rewrite lookup_drop in Hx. unfold pat in Hy. rewrite lookup_drop in Hy.
    pose proof (Nat.div_mod j p ltac:(lia)) as Hjm. pose proof (Nat.mod_upper_bound j p ltac:(lia)) as Hub.
    set (q := (j / p)%nat) in *. set (r := (j mod p)%nat) in *.
    assert (q < c)%nat by nia. destruct (decide (q = c - 1)%nat) as [->|Hq].
    + replace (length l - p * c + j)%nat with (length l - p + r)%nat in Hx by nia. congruence.
    + pose proof (Hcol (p - r)%nat (c - 1 - q)%nat ltac:(lia) ltac:(lia)) as Hcr.
      replace (length l - (p * (c - 1 - q) + (p - r)))%nat with (length l - p * c + j)%nat in Hcr by nia.
      replace (length l - (p - r))%nat with (length l - p + r)%nat in Hcr by nia. congruence.
Qed.

Lemma from_end_Some l i : (1 ≤ i ≤ length l)%nat → ∃ x, from_end l i = Some x ∧ py_index l (- Z.of_nat i) = Ok x.
Proof.
  intros Hi. unfold from_end. destruct (lookup_lt_is_Some_2 l (length l - i)%nat) as [x Hx]; [lia|].
  exists x. split; [done|]. by rewrite py_index_neg, Hx.
Qed.

Lemma has_repeating_pattern_spec l p c :
  (0 < p)%nat → (0 < c)%nat → (p * c ≤ length l)%nat →
  ∃ b, has_repeating_pattern l (Z.of_nat p) (Z.of_nat c) = Ok b ∧
    (b = true ↔ ∃ pat, length pat = p ∧ ends_with_repeats l pat c).
Proof.
  intros Hp Hc Hl.
  set (same := fun n m : Z => bool_decide (from_end l (Z.to_nat (Z.of_nat p * m + n)) = from_end l (Z.to_nat n))).
  assert (∀ n, n ∈ seqZ 1 (Z.of_nat p) →
    column_repeats l (Z.of_nat p) (Z.of_nat c) n = Ok (forallb (same n) (seqZ 1 (Z.of_nat c - 1)))) as Hcol.
  { intros n Hn%elem_of_seqZ. unfold column_repeats.
    destruct (from_end_Some l (Z.to_nat n)) as (x & Hx & Hi); [nia|]. rewrite Z2Nat.id in Hi by lia. rewrite Hi. cbn.
    apply foldM_forallb. intros m Hm%elem_of_seqZ. unfold same.
    destruct (from_end_Some l (Z.to_nat (Z.of_nat p * m + n))) as (y & Hy & Hj); [nia|].
    rewrite Z2Nat.id in Hj by nia. rewrite Hj, Hx, Hy. cbn. f_equal. symmetry.
    destruct (Z.eqb_spec y x); [by apply bool_decide_eq_true_2; congruence|by apply bool_decide_eq_false_2; congruence]. }
  eexists. split; [exact (foldM_forallb _ _ _ Hcol)|]. rewrite repeats_columns, forallb_forall by done. split.
  - intros Hall n m Hn Hm. specialize (Hall (Z.of_nat n)). rewrite forallb_forall in Hall.
    specialize (Hall ltac:(apply list_elem_of_In, elem_of_seqZ; lia) (Z.of_nat m)
      ltac:(apply list_elem_of_In, elem_of_seqZ; lia)).
    unfold same in Hall. apply bool_decide_eq_true in Hall. rewrite Nat2Z.id in Hall. rewrite <- Hall. f_equal. lia.
  - intros Hall n Hn%list_elem_of_In%elem_of_seqZ. apply forallb_forall. intros m Hm%list_elem_of_In%elem_of_seqZ.
    apply bool_decide_eq_true. rewrite <- (Hall (Z.to_nat n) (Z.to_nat m)) by lia. f_equal. nia.
Qed.

Lemma repetition_loop_spec l c lo n :
  (0 < c)%nat → 0 < lo →
  ∃ b, repetition_loop l (Z.of_nat c) (seqZ lo (Z.of_nat n)) = Ok b ∧
    (b = true ↔ ∃ pat, lo <= lenZ pat < lo + Z.of_nat n ∧ ends_with_repeats l pat c).
Proof.
  intros Hc. revert lo; induction n as [|n IH]; intros lo Hlo.
  { exists false. split; [done|]. split; [done|]. intros (pat & ? & _). lia. }
  rewrite seqZ_cons by lia. cbn [repetition_loop].
  replace (Z.pred (Z.of_nat (S n))) with (Z.of_nat n) by lia. rewrite <- (Z2Nat.id lo) by lia.
  set (p := Z.to_nat lo). assert (0 < p)%nat by lia. destruct (Z.ltb_spec (lenZ l) (Z.of_nat p * Z.of_nat c)).
  - exists false. split; [done|]. split; [done|]. intros (pat & Hb & pre & ->).
    rewrite length_app, length_repeats in *. nia.
  - destruct (has_repeating_pattern_spec l p c) as (b & -> & Hb); [done..|nia|]. cbn. destruct b.
    + exists true. split; [done|]. split; [intros _|done]. destruct (proj1 Hb eq_refl) as (pat & Hl & He).
      exists pat. split; [lia|done].
    + destruct (IH (Z.succ (Z.of_nat p))) as (b & -> & Hb'); [lia|]. exists b. split; [done|]. rewrite Hb'.
      split; intros (pat & Hl & He); exists pat; (split; [|done]); [lia|].
      assert (length pat ≠ p); [|lia]. intros E. enough (false = true) by done. apply Hb. by exists pat.
Qed.

Lemma check_repetition_spec l params :
  ∃ b, check_sequence_repetition l params = Ok b ∧
    (b = true ↔ 2 <= rd_min_count params ∧ ∃ pat,
       Z.max 1 (rd_min_pattern_size params) <= lenZ pat <= rd_max_pattern_size params ∧
       ends_with_repeats l pat (Z.to_nat (rd_min_count params))).
Proof.
  unfold check_sequence_repetition. destruct params as [hi lo c]. cbn.
  set (lo' := if lo <=? 0 then 1 else lo).
  assert (lo' = Z.max 1 lo) as <- by (unfold lo'; destruct (Z.leb_spec lo 0); lia).
  assert (0 < lo') by (unfold lo'; destruct (Z.leb_spec lo 0); lia).
  destruct (Z.leb_spec hi 0); cbn.
  { exists false. split; [done|]. split; [done|]. intros (_ & pat & ? & _). lia. }
  destruct (Z.ltb_spec c 2); cbn.
  { exists false. split; [done|]. split; [done|]. intros (? & _). lia. }
  destruct (Z.ltb_spec hi lo'); cbn.
  { exists false. split; [done|]. split; [done|]. intros (_ & pat & ? & _). lia. }
  destruct (repetition_loop_spec l (Z.to_nat c) lo' (Z.to_nat (hi + 1 - lo'))) as (b & Heq & Hb); [lia..|].
  rewrite !Z2Nat.id in Heq by lia. exists b. split; [done|]. rewrite Hb.
  split; [intros (pat & ? & ?); split; [lia|]; exists pat; (split; [lia|done])|].
  intros (_ & pat & ? & ?). exists pat. split; [lia|done].
Qed.

(** C32. Repetition detection is exact: it never fails, and it reports a repetition
    when, and only when, the output ends in at least [min_count >= 2] consecutive
    copies of a pattern whose length lies within the configured bounds, a lower
    bound of zero or less counting as one. *)
Theorem repetition_detected_iff l params :
  ∃ b, check_sequence_repetition l params = Ok b ∧
    (b = true ↔ 2 <= rd_min_count params ∧ ∃ pat,
       Z.max 1 (rd_min_pattern_size params) <= lenZ pat <= rd_max_pattern_size params ∧
       ends_with_repeats l pat (Z.to_nat (rd_min_count params))).
Proof. apply check_repetition_spec. Qed.

End repetition.
