(* ===== verification/BlockHash.v ===== *)
(** * Block hashes

    The hashing side of [v1/core/kv_cache_utils.py]: the keys of the prefix cache
    (a block hash followed by the cache group), the extra keys that multi-modal
    inputs, LoRA adapters, cache salts and prompt embeddings add to a block, the
    chained hash of the blocks of a request, and the conversion of hashes to
    larger block sizes.  The hash function and the digest of embeddings are
    parameters. *)

From stdpp Require Import pretty.
From S2P Require Import Prelude PyFloat Protocol Request.

(** ** Keys of the prefix cache *)

(** [group_id.to_bytes(4, "big", signed=False)] raises outside of 32 bits. *)
Definition make_block_hash_with_group_id (block_hash : string) (group_id : Z) : res string :=
  if (0 <=? group_id) && (group_id <? 2 ^ 32) then Ok (block_hash +:+ be32 group_id) else Err OverflowError.

Lemma make_key_ok h gid : 0 <= gid < 2 ^ 32 → make_block_hash_with_group_id h gid = Ok (h +:+ be32 gid).
Proof.
  intros. unfold make_block_hash_with_group_id. destruct (Z.leb_spec 0 gid); [|lia].
  by destruct (Z.ltb_spec gid (2 ^ 32)); [|lia].
Qed.

Definition get_block_hash (key : string) : string := String.substring 0 (String.length key - 4) key.
Definition get_group_id (key : string) : Z := be_value (String.substring (String.length key - 4) 4 key).

(** [ExternalBlockHash]: bytes, or an integer when the environment asks for it. *)
Definition maybe_convert_block_hash (use_int_hashes : bool) (hash_bytes : string) : string + Z :=
  if use_int_hashes then inr (Z.land (be_value hash_bytes) (2 ^ 64 - 1)) else inl hash_bytes.

(** ** Extra keys

    The elements of the extra-key tuple: a [str], a [bytes], or the pair of a
    multi-modal identifier and its offset in the block. *)
Inductive extra_key :=
  | KStr (s : string)
  | KBytes (s : string)
  | KMM (identifier : string) (offset : Z).
#[global] Instance extra_key_eq_dec : EqDecision extra_key.
Proof. solve_decision. Defined.
#[global] Instance extra_key_countable : Countable extra_key.
Proof.
  refine (inj_countable' (fun k => match k with KStr s => inl s | KBytes s => inr (inl s)
                                              | KMM i o => inr (inr (i, o)) end)
    (fun x => match x with inl s => KStr s | inr (inl s) => KBytes s | inr (inr (i, o)) => KMM i o end) _).
  by intros [].
Defined.

(** The [while] loop of [_gen_mm_extra_hash_keys] over the remaining features. *)
Fixpoint mm_loop (start_token_idx end_token_idx : Z) (features : list MultiModalFeatureSpec) (curr_mm_idx : Z) :
    list extra_key * Z :=
  match features with
  | [] => ([], curr_mm_idx)
  | f :: features =>
      let offset := pl_offset (mm_position f) in
      let length := pl_length (mm_position f) in
      if offset <? end_token_idx then
        if offset + length <=? start_token_idx
        then mm_loop start_token_idx end_token_idx features (curr_mm_idx + 1)
        else
          let key := KMM (mm_identifier f) (offset - start_token_idx) in
          if offset + length <=? end_token_idx
          then let '(keys, i) := mm_loop start_token_idx end_token_idx features (curr_mm_idx + 1) in (key :: keys, i)
          else ([key], curr_mm_idx)
      else ([], curr_mm_idx)
  end.

Definition gen_mm_extra_hash_keys (mm_features : list MultiModalFeatureSpec)
    (start_token_idx end_token_idx start_mm_idx : Z) : res (list extra_key * Z) :=
  match last mm_features with
  | None => Ok ([], start_mm_idx)
  | Some f =>
      if pl_offset (mm_position f) + pl_length (mm_position f) <=? start_token_idx then Ok ([], start_mm_idx)
      else
        curr ← (if start_mm_idx <? 0
                then passert (- start_mm_idx <=? lenZ mm_features);; Ok (lenZ mm_features + start_mm_idx)
                else Ok start_mm_idx);
        Ok (mm_loop start_token_idx end_token_idx (drop (Z.to_nat curr) mm_features) curr)
  end.

Section hashing.
Context {F E : Type} `{PyFloat F}.
(** the digest of rows [start, end) of the prompt embeddings *)
Context (embeds_digest : E → Z → Z → string).
(** the hash of a parent hash, the tokens of a block and its extra keys *)
Context (hash_function : string * list Z * option (list extra_key) → string).
Context (NONE_HASH : string).
Notation req := (Request F E).

Definition need_extra_keys (r : req) : bool :=
  bool_decide (rq_mm_features r ≠ []) || bool_decide (is_Some (rq_lora_request r)) ||
  bool_decide (is_Some (rq_cache_salt r)).

Definition gen_lora_extra_hash_keys (r : req) : list extra_key :=
  match rq_lora_request r with None => [] | Some l => [KStr (lora_name l)] end.

(** The digest of a block is computed once and cached on the request. *)
Definition gen_prompt_embeds_extra_hash_keys (start_token_idx end_token_idx : Z) (r : req) : req * list extra_key :=
  match rq_prompt_embeds r with
  | None => (r, [])
  | Some e =>
      match rq_embeds_hashes r !! (start_token_idx, end_token_idx) with
      | Some h => (r, [KBytes h])
      | None =>
          let h := embeds_digest e start_token_idx end_token_idx in
          (r <| rq_embeds_hashes ::= <[(start_token_idx, end_token_idx) := h]> |>, [KBytes h])
      end
  end.

Definition generate_block_hash_extra_keys (start_token_idx end_token_idx start_mm_idx : Z) (r : req) :
    res (req * option (list extra_key) * Z) :=
  '(mm_keys, new_start_mm_idx) ← gen_mm_extra_hash_keys (rq_mm_features r) start_token_idx end_token_idx start_mm_idx;
  let lora_keys := gen_lora_extra_hash_keys r in
  let salt_keys := match rq_cache_salt r with
                   | Some s => if (start_token_idx =? 0) && bool_decide (s ≠ EmptyString) then [KStr s] else []
                   | None => []
                   end in
  let '(r, embeds_keys) := gen_prompt_embeds_extra_hash_keys start_token_idx end_token_idx r in
  match lora_keys ++ mm_keys ++ salt_keys ++ embeds_keys with
  | [] => Ok (r, None, new_start_mm_idx)
  | keys => Ok (r, Some keys, new_start_mm_idx)
  end.

(** ** Chained hashes *)

(** [None] and the empty hash stand for the root of every chain. *)
Definition parent_hash (parent : option string) : string :=
  match parent with
  | Some p => if bool_decide (p = EmptyString) then NONE_HASH else p
  | None => NONE_HASH
  end.

Definition hash_block_tokens (parent : option string) (tokens : list Z) (keys : option (list extra_key)) : string :=
  hash_function (parent_hash parent, tokens, keys).

(** The [while True] loop of the hasher; [None] when it ran out of fuel. *)
Fixpoint hash_loop (fuel : nat) (block_size start_token_idx curr_mm_idx : Z) (prev : option string) (r : req) :
    res (option (req * list string)) :=
  match fuel with
  | O => Ok None
  | S fuel =>
      let end_token_idx := start_token_idx + block_size in
      if num_tokens r <? end_token_idx then Ok (Some (r, []))
      else
        '(r, keys, curr_mm_idx) ← generate_block_hash_extra_keys start_token_idx end_token_idx curr_mm_idx r;
        let tokens := py_slice (rq_all_token_ids r) start_token_idx end_token_idx in
        let h := hash_block_tokens prev tokens keys in
        rest ← hash_loop fuel block_size end_token_idx curr_mm_idx (Some h) r;
        Ok match rest with Some (r, hashes) => Some (r, h :: hashes) | None => None end
  end.

(** [get_request_block_hasher(block_size, hash_fn)].  The fuel is one more than the
    number of tokens; it cannot run out for a positive block size. *)
Definition request_block_hasher (block_size : Z) (r : req) : res (req * list string) :=
  let start_token_idx := lenZ (rq_block_hashes r) * block_size in
  if num_tokens r <? start_token_idx + block_size then Ok (r, [])
  else
    let curr_mm_idx := if 0 <? start_token_idx then -1 else 0 in
    o ← hash_loop (S (length (rq_all_token_ids r))) block_size start_token_idx curr_mm_idx
          (last (rq_block_hashes r)) r;
    or_raise RuntimeError o.

End hashing.

(** ** Larger block sizes: [BlockHashListWithBlockSize] *)

Record BlockHashList := mkBlockHashList { bhl_hashes : list string; bhl_scale : Z }.

(** [BlockHashListWithBlockSize(hashes, hash_block_size, target_block_size)] *)
Definition bhl_init (hashes : list string) (hash_block_size target_block_size : Z) : res BlockHashList :=
  if hash_block_size =? 0 then Err ZeroDivisionError
  else passert (target_block_size mod hash_block_size =? 0);;
       Ok (mkBlockHashList hashes (target_block_size / hash_block_size)).

Definition bhl_len (b : BlockHashList) : Z := lenZ (bhl_hashes b) / bhl_scale b.

Definition bhl_get (b : BlockHashList) (idx : Z) : string :=
  let base := idx * bhl_scale b in
  foldr (fun s acc => s +:+ acc) EmptyString (py_slice (bhl_hashes b) base (base + bhl_scale b)).

(** [b[start:]] *)
Definition bhl_from (b : BlockHashList) (start : Z) : list string :=
  let n := bhl_len b in
  let start := py_bound n start in
  bhl_get b <$> seqZ start (n - start).

(** ** The hashes of a request *)

(** What prefix caching relies on: no collisions, and digests are never empty nor
    equal to the seed of the chains. *)
Class CollisionFree (hash_function : string * list Z * option (list extra_key) → string) (NONE_HASH : string) := {
  hash_inj : ∀ x y, hash_function x = hash_function y → x = y;
  hash_not_none : ∀ x, hash_function x ≠ NONE_HASH;
  hash_not_empty : ∀ x, hash_function x ≠ EmptyString;
}.

Lemma mm_loop_index s e fs i : i <= (mm_loop s e fs i).2.
Proof.
  revert i; induction fs as [|f fs IH]; intros i; cbn; [lia|]. specialize (IH (i + 1)).
  repeat case_match; simplify_eq/=; lia.
Qed.

Lemma gen_mm_total fs s e i : -1 <= i → ∃ keys i', gen_mm_extra_hash_keys fs s e i = Ok (keys, i') ∧ -1 <= i'.
Proof.
  intros Hi. unfold gen_mm_extra_hash_keys. destruct (last fs) as [f|] eqn:El; [|by exists [], i].
  destruct (_ <=? s); [by exists [], i|].
  assert (0 < lenZ fs) by (destruct fs; [done|cbn; lia]).
  set (curr := if i <? 0 then lenZ fs + i else i).
  assert ((if i <? 0 then passert (- i <=? lenZ fs);; Ok (lenZ fs + i) else Ok i) = Ok curr) as ->.
  { unfold curr. destruct (Z.ltb_spec i 0); [|done]. by destruct (Z.leb_spec (- i) (lenZ fs)); [|lia]. }
  cbn. pose proof (mm_loop_index s e (drop (Z.to_nat curr) fs) curr).
  destruct (mm_loop _ _ _ _) as [keys i']. exists keys, i'. split; [done|]. cbn in *.
  unfold curr in *. destruct (Z.ltb_spec i 0); lia.
Qed.

Section chains.
Context {F E : Type} `{PyFloat F}.
Context (embeds_digest : E → Z → Z → string) (embeds_len : E → Z).
Context (hash_function : string * list Z * option (list extra_key) → string) (NONE_HASH : string).
Context (block_size : Z) (Hbs : 0 < block_size).
Notation req := (Request F E).
Notation chained_hash := (hash_block_tokens hash_function NONE_HASH).
Notation hasher := (request_block_hasher (F := F) embeds_digest hash_function NONE_HASH block_size).
Implicit Types (r : req) (tokens : list Z) (hs : list string).

Definition same_hash_inputs r r' : Prop :=
  rq_all_token_ids r' = rq_all_token_ids r ∧ rq_block_hashes r' = rq_block_hashes r.

Lemma generate_total s e i r :
  -1 <= i → ∃ r' keys i', generate_block_hash_extra_keys embeds_digest s e i r = Ok (r', keys, i') ∧
    -1 <= i' ∧ same_hash_inputs r r'.
Proof.
  intros Hi. unfold generate_block_hash_extra_keys.
  destruct (gen_mm_total (rq_mm_features r) s e i Hi) as (keys & i' & -> & Hi'). cbn [mbind res_bind].
  assert (same_hash_inputs r (gen_prompt_embeds_extra_hash_keys embeds_digest s e r).1) as Hs.
  { unfold gen_prompt_embeds_extra_hash_keys. by repeat case_match. }
  destruct (gen_prompt_embeds_extra_hash_keys embeds_digest s e r) as [r' ek]. cbn in Hs.
  destruct (_ ++ _); by eexists _, _, _.
Qed.

(** [hs] are the chained hashes of the blocks of [tokens] from [start]. *)
Fixpoint chain_from tokens (start : Z) (prev : option string) hs : Prop :=
  match hs with
  | [] => True
  | h :: hs =>
      (∃ keys, h = chained_hash prev (py_slice tokens start (start + block_size)) keys) ∧
      chain_from tokens (start + block_size) (Some h) hs
  end.

Lemma chain_from_app tokens start prev hs1 hs2 :
  chain_from tokens start prev (hs1 ++ hs2) ↔
  chain_from tokens start prev hs1 ∧
  chain_from tokens (start + lenZ hs1 * block_size) (match last hs1 with Some h => Some h | None => prev end) hs2.
Proof.
  revert start prev; induction hs1 as [|h hs1 IH]; intros start prev.
  { cbn. rewrite Z.mul_0_l, Z.add_0_r. tauto. }
  cbn [app chain_from]. rewrite IH. rewrite last_cons.
  replace (start + lenZ (h :: hs1) * block_size) with (start + block_size + lenZ hs1 * block_size) by (cbn; lia).
  destruct (last hs1); tauto.
Qed.

Lemma chain_from_tokens tokens more start prev hs :
  0 <= start → start + lenZ hs * block_size <= lenZ tokens →
  chain_from tokens start prev hs → chain_from (tokens ++ more) start prev hs.
Proof.
  revert start prev; induction hs as [|h hs IH]; intros start prev Hs Hl; [done|]. cbn [chain_from length] in *.
  intros [Hk Hc]. split; [|apply IH; [lia|lia|done]].
  rewrite py_slice_nonneg in * by lia. rewrite drop_app_le by lia. rewrite take_app_le; [done|].
  rewrite length_drop. lia.
Qed.

Lemma hash_loop_spec fuel start i prev r :
  0 <= start <= num_tokens r → -1 <= i → num_tokens r - start < Z.of_nat fuel →
  ∃ r' hs, hash_loop embeds_digest hash_function NONE_HASH fuel block_size start i prev r = Ok (Some (r', hs)) ∧
    same_hash_inputs r r' ∧ chain_from (rq_all_token_ids r) start prev hs ∧
    lenZ hs = (num_tokens r - start) / block_size.
Proof.
  revert start i prev r; induction fuel as [|fuel IH]; intros start i prev r Hs Hi Hf; [lia|].
  cbn [hash_loop]. destruct (Z.ltb_spec (num_tokens r) (start + block_size)) as [Hlt|Hge].
  - exists r, []. split_and!; try done. cbn. rewrite Z.div_small; lia.
  - destruct (generate_total start (start + block_size) i r Hi) as (r1 & keys & i1 & -> & Hi1 & Hs1 & Hh1).
    cbn [mbind res_bind].
    assert (num_tokens r1 = num_tokens r) as Hn by (unfold num_tokens; by rewrite Hs1).
    set (h := chained_hash prev _ keys).
    destruct (IH (start + block_size) i1 (Some h) r1) as (r2 & hs & Heq & [Hs2 Hh2] & Hc & Hl); [lia..|].
    rewrite Heq. cbn. exists r2, (h :: hs). split; [done|]. split; [split; congruence|]. rewrite Hs1 in *. split.
    + split; [exists keys; unfold h; by rewrite Hs1|done].
    + cbn. replace (num_tokens r - start) with (num_tokens r1 - (start + block_size) + 1 * block_size) by lia.
      rewrite Z.div_add by lia. lia.
Qed.

(** The hashes of [r] are a chain over its tokens. *)
Definition chained r : Prop :=
  chain_from (rq_all_token_ids r) 0 None (rq_block_hashes r) ∧ lenZ (rq_block_hashes r) * block_size <= num_tokens r.

(** ... and every full block is hashed. *)
Definition hashed r : Prop :=
  chain_from (rq_all_token_ids r) 0 None (rq_block_hashes r) ∧ lenZ (rq_block_hashes r) = num_tokens r / block_size.

Lemma hashed_chained r : hashed r → chained r.
Proof. intros [Hc Hl]. split; [done|]. rewrite Hl, Z.mul_comm. by apply Z.mul_div_le. Qed.

Lemma update_block_hashes_spec r :
  chained r → ∃ r', update_block_hashes (Some hasher) r = Ok r' ∧ hashed r' ∧
    rq_all_token_ids r' = rq_all_token_ids r.
Proof.
  intros [Hc Hl]. unfold update_block_hashes, request_block_hasher.
  set (start := lenZ (rq_block_hashes r) * block_size) in *.
  destruct (Z.ltb_spec (num_tokens r) (start + block_size)) as [Hlt|Hge].
  - eexists. split; [done|]. split; [|done]. split; cbn; rewrite app_nil_r; [done|].
    apply Z.div_unique with (r := num_tokens r - start); unfold start, num_tokens in *; cbn; lia.
  - destruct (hash_loop_spec (S (length (rq_all_token_ids r))) start (if 0 <? start then -1 else 0)
      (last (rq_block_hashes r)) r) as (r' & hs & Heq & [Hs Hh] & Hch & Hlen); [unfold start; lia|by destruct (_ <? _)| |].
    { unfold num_tokens, start. lia. }
    rewrite Heq. cbn. eexists. split; [done|]. split; [|done]. split; cbn; rewrite Hh; rewrite ?Hs.
    + apply chain_from_app. split; [done|]. by destruct (last (rq_block_hashes r)).
    + unfold num_tokens in *. cbn. rewrite Hs, length_app, Nat2Z.inj_add, Hlen.
      replace (lenZ (rq_all_token_ids r)) with (lenZ (rq_all_token_ids r) - start + lenZ (rq_block_hashes r) * block_size)
        at 2 by (unfold start; lia). rewrite Z.div_add by lia. lia.
Qed.

(** Requests that are created by [Request], extended by generated tokens, and changed
    otherwise in what does not concern hashing.  The next input of a streaming session
    ([_update_request_as_session]), which also discards tokens, is not among the
    steps: it leaves hashes behind that do not belong to the tokens
    ([session_stale_hash]). *)
Inductive built : req → Prop :=
  | built_init oid id ci prio sp pp at' toks emb mm lora salt res' ab r :
      request_init embeds_len (Some hasher) oid id ci prio sp pp at' toks emb mm lora salt res' ab = Ok r → built r
  | built_append r toks r' : built r → append_output_token_ids (Some hasher) toks r = Ok r' → built r'
  | built_other r r' : built r → same_hash_inputs r r' → built r'.

Lemma built_hashed r : built r → hashed r.
Proof.
  induction 1 as [oid id ci prio sp pp at' toks emb mm lora salt res' ab r Heq|r toks r' _ IH Heq|r r' _ IH [Hs Hh]].
  - unfold request_init in Heq. apply bind_Ok in Heq as ([[mx stt] kv] & _ & Heq).
    apply bind_Ok in Heq as (n & _ & Heq). apply bind_Ok in Heq as (r1 & Heq & Heq1). injection Heq1 as <-.
    match type of Heq with update_block_hashes _ ?r0 = _ =>
      destruct (update_block_hashes_spec r0) as (r2 & Heq2 & Hok & _) end.
    { split; cbn; [done|]. unfold num_tokens. cbn. lia. }
    rewrite Heq in Heq2. injection Heq2 as <-. exact Hok.
  - unfold append_output_token_ids in Heq. apply hashed_chained in IH as [Hc Hl].
    match type of Heq with update_block_hashes _ ?r0 = _ =>
      destruct (update_block_hashes_spec r0) as (r2 & Heq2 & Hok & _) end.
    { split; cbn; [by apply chain_from_tokens|]. unfold num_tokens in *. cbn. rewrite length_app. lia. }
    rewrite Heq in Heq2. injection Heq2 as <-. exact Hok.
  - unfold hashed, num_tokens in *. by rewrite Hs, Hh.
Qed.

(** The hash at index [i]. *)
Lemma chain_lookup tokens hs i h :
  chain_from tokens 0 None hs → hs !! i = Some h → ∃ keys,
    h = chained_hash (match i with O => None | S j => hs !! j end)
          (py_slice tokens (Z.of_nat i * block_size) (Z.of_nat i * block_size + block_size)) keys.
Proof.
  intros Hc Hi. destruct (list_elem_of_split_length hs i h Hi) as (hs1 & hs2 & -> & ->).
  apply chain_from_app in Hc as [_ Hc]. cbn in Hc. destruct Hc as [(keys & Hk) _]. exists keys. rewrite Hk at 1.
  f_equal. destruct hs1 as [|x hs1 _] using rev_ind; [done|].
  rewrite last_snoc, length_app, Nat.add_comm. cbn. by rewrite lookup_app_l, lookup_app_r, Nat.sub_diag by (rewrite ?length_app; cbn; lia).
Qed.

Context `{!CollisionFree hash_function NONE_HASH}.

Lemma parent_hash_Some_hash x : parent_hash NONE_HASH (Some (hash_function x)) = hash_function x.
Proof. unfold parent_hash. rewrite bool_decide_eq_false_2; [done|]. apply (hash_not_empty (NONE_HASH := NONE_HASH)). Qed.

Lemma take_block tokens i :
  take (Z.to_nat (Z.of_nat (S i) * block_size)) tokens =
  take (Z.to_nat (Z.of_nat i * block_size)) tokens ++
  py_slice tokens (Z.of_nat i * block_size) (Z.of_nat i * block_size + block_size).
Proof.
  rewrite py_slice_nonneg by nia. rewrite take_take_drop. f_equal. nia.
Qed.

Lemma chain_injective tokens1 tokens2 hs1 hs2 i j h :
  chain_from tokens1 0 None hs1 → chain_from tokens2 0 None hs2 →
  hs1 !! i = Some h → hs2 !! j = Some h →
  i = j ∧ take (Z.to_nat (Z.of_nat (S i) * block_size)) tokens1 = take (Z.to_nat (Z.of_nat (S i) * block_size)) tokens2.
Proof.
  intros Hc1 Hc2. revert j h; induction i as [|i IH]; intros j h Hi Hj;
    destruct (chain_lookup tokens1 hs1 _ h Hc1 Hi) as (k1 & Hk1), (chain_lookup tokens2 hs2 _ h Hc2 Hj) as (k2 & Hk2);
    rewrite Hk1 in Hk2; unfold hash_block_tokens in Hk2;
    apply (hash_inj (NONE_HASH := NONE_HASH)) in Hk2; injection Hk2 as Hpar Hsl _.
  - destruct j as [|j]; [split; [done|]; rewrite !take_block, Hsl; by rewrite !Z.mul_0_l|]. exfalso.
    destruct (lookup_lt_is_Some_2 hs2 j) as [h' Hj']; [apply lookup_lt_Some in Hj; lia|]. rewrite Hj' in Hpar.
    destruct (chain_lookup tokens2 hs2 j h' Hc2 Hj') as (k' & ->). unfold hash_block_tokens in Hpar.
    rewrite parent_hash_Some_hash in Hpar. exact (hash_not_none _ (eq_sym Hpar)).
  - destruct (lookup_lt_is_Some_2 hs1 i) as [h1 Hi']; [apply lookup_lt_Some in Hi; lia|]. rewrite Hi' in Hpar.
    destruct (chain_lookup tokens1 hs1 i h1 Hc1 Hi') as (k' & Eh1). unfold hash_block_tokens in Eh1.
    destruct j as [|j].
    { exfalso. rewrite Eh1, parent_hash_Some_hash in Hpar.
      exact (hash_not_none _ Hpar). }
    destruct (lookup_lt_is_Some_2 hs2 j) as [h2 Hj']; [apply lookup_lt_Some in Hj; lia|]. rewrite Hj' in Hpar.
    destruct (chain_lookup tokens2 hs2 j h2 Hc2 Hj') as (k'' & Eh2). unfold hash_block_tokens in Eh2.
    rewrite Eh1, Eh2, !parent_hash_Some_hash in Hpar. rewrite <- Eh1, <- Eh2 in Hpar. subst h2.
    destruct (IH j h1 Hi' Hj') as [-> Htake]. split; [done|]. rewrite take_block, (take_block tokens2), Htake. congruence.
Qed.

(** C20. Prefix caching does not confuse the prefixes of requests that were created by
    [Request] and extended by [append_output_token_ids], in any order and by any
    number of tokens: with a collision-free hash function, when block [i] of one and
    block [j] of another have the same hash, then [i = j] and the two requests agree
    on all tokens up to the end of that block, so the cached keys and values are
    those of the same tokens at the same positions.  Every full block of such a
    request has its hash, and no partial block has one.  A request that took the next
    input of a streaming session is not covered. *)
Theorem equal_hash_equal_prefix r1 r2 i j h :
  built r1 → built r2 → rq_block_hashes r1 !! i = Some h → rq_block_hashes r2 !! j = Some h →
  i = j ∧
  take (Z.to_nat (Z.of_nat (S i) * block_size)) (rq_all_token_ids r1) =
    take (Z.to_nat (Z.of_nat (S i) * block_size)) (rq_all_token_ids r2) ∧
  lenZ (rq_block_hashes r1) = num_tokens r1 / block_size.
Proof.
  intros [Hc1 Hl1]%built_hashed [Hc2 _]%built_hashed Hi Hj.
  destruct (chain_injective _ _ _ _ i j h Hc1 Hc2 Hi Hj). done.
Qed.

End chains.

(** ** What the extra keys do not distinguish *)

Section confusions.
Context {F E : Type} `{PyFloat F}.
Context (embeds_digest : E → Z → Z → string) (embeds_len : E → Z).
Context (hash_function : string * list Z * option (list extra_key) → string) (NONE_HASH : string).
Context (sp : SamplingParams F) (now : F).
Notation hasher := (request_block_hasher (F := F) embeds_digest hash_function NONE_HASH 4).

Definition ex_params_ok : Prop := sp_max_tokens sp = Some 16.

(** A request with prompt [toks]. *)
Definition ex_request (toks : list Z) (mm : list MultiModalFeatureSpec) (lora : option LoRARequest)
    (salt : option string) : res (Request F E) :=
  request_init embeds_len (Some hasher) 1 "req" 0 0 (Some sp) None now (Some toks) None (Some mm) lora salt false false.

(** Seven prompt tokens: four of text, a placeholder for each of two inputs, and
    one of text; block 1 is completed by the first generated token. *)
Definition ex_features (first : string) : list MultiModalFeatureSpec :=
  [mkFeature first (mkPlaceholder 4 1 None); mkFeature "second" (mkPlaceholder 5 1 None)].
Definition ex_mm_hashes (first : string) : res (list string) :=
  r ← ex_request [10; 11; 12; 13; 0; 0; 14] (ex_features first) None None;
  r ← append_output_token_ids (Some hasher) [15] r;
  Ok (rq_block_hashes r).

(** C30. A block completed during generation can be hashed with its last multi-modal
    input only: for a prompt of seven tokens with two inputs in its second block,
    requests whose first inputs differ get the same hash for that block, whatever the
    hash function, so the cached block of one input can be served for the other.  When the same
    tokens are in the prompt from the start, the keys of the block name both
    inputs. *)
Theorem mm_identity_lost :
  ex_params_ok →
  (∀ first, is_ok (ex_mm_hashes first) = true ∧ lenZ (default_ok [] (ex_mm_hashes first)) = 2) ∧
  (∀ first first', ex_mm_hashes first = ex_mm_hashes first') ∧
  (∀ first, gen_mm_extra_hash_keys (ex_features first) 4 8 0 = Ok ([KMM first 0; KMM "second" 1], 2)).
Proof.
  intros Hok. assert (∀ first, ex_mm_hashes first = Ok
    (let h0 := hash_function (NONE_HASH, [10; 11; 12; 13], None) in
     [h0; hash_block_tokens hash_function NONE_HASH (Some h0) [0; 0; 14; 15] (Some [KMM "second" 1])])) as Hall.
  { intros first. unfold ex_mm_hashes, ex_request, request_init. cbn [mbind res_bind]. rewrite Hok. reflexivity. }
  split_and!.
  - intros first. by rewrite Hall.
  - intros first first'. by rewrite !Hall.
  - done.
Qed.

Definition ex_lora_hashes (lora : option LoRARequest) (salt : option string) : res (list string) :=
  r ← ex_request [10; 11; 12; 13] [] lora salt; Ok (rq_block_hashes r).

(** C31. A cache salt and the name of a LoRA adapter are the same kind of extra key:
    the first block of a request to the base model salted with [name] has the
    hash of the first block of an unsalted request, with the same tokens, to the
    adapter [name], whose keys and values differ.  Shown for a block of four tokens,
    with any name, identifier and hash function. *)
Theorem lora_salt_confused name id :
  ex_params_ok → name ≠ EmptyString →
  ex_lora_hashes (Some (mkLoRA name id)) None = ex_lora_hashes None (Some name) ∧
  is_ok (ex_lora_hashes None (Some name)) = true.
Proof.
  intros Hok Hn. destruct name as [|c name]; [done|].
  unfold ex_lora_hashes, ex_request, request_init. cbn [mbind res_bind]. rewrite Hok. done.
Qed.

End confusions.

(** ** Witnesses: an injective hash function *)

Definition ex_hash (x : string * list Z * option (list extra_key)) : string :=
  "h" +:+ pretty (N.pos (encode x)).

#[global] Instance ex_hash_collision_free : CollisionFree ex_hash "none".
Proof.
  split.
  - intros x y [= Heq]. apply (pretty_N_inj _ _) in Heq. injection Heq as Heq. by apply encode_inj.
  - done.
  - done.
Qed.

Definition ex_sampling : SamplingParams b64 := mkSamplingParams b64 (Some 16) 0 None [] None None None None.
Definition no_digest (e : unit) (a b : Z) : string := EmptyString.
Definition no_len (e : unit) : Z := 0.
Definition ex_built (toks : list Z) : res (Request b64 unit) :=
  ex_request no_digest no_len ex_hash "none" ex_sampling (flt 0) toks [] None None.

Lemma ex_built_built toks r : ex_built toks = Ok r → built no_digest no_len ex_hash "none" 4 r.
Proof. unfold ex_built, ex_request. apply built_init. Qed.

(** Two prompts that share their first block. *)
Lemma equal_hash_equal_prefix_witness :
  ∃ r1 r2 h, ex_built [10; 11; 12; 13; 1] = Ok r1 ∧ ex_built [10; 11; 12; 13; 2] = Ok r2 ∧
    rq_block_hashes r1 !! 0%nat = Some h ∧ rq_block_hashes r2 !! 0%nat = Some h ∧
    take 4 (rq_all_token_ids r1) = take 4 (rq_all_token_ids r2).
Proof.
  set (h := ex_hash ("none", [10; 11; 12; 13], None)).
  destruct (ok_such (fun r => bool_decide (rq_block_hashes r !! 0%nat = Some h)) (ex_built [10; 11; 12; 13; 1]))
    as (r1 & H1 & Hh1%bool_decide_eq_true); [vm_compute; reflexivity|].
  destruct (ok_such (fun r => bool_decide (rq_block_hashes r !! 0%nat = Some h)) (ex_built [10; 11; 12; 13; 2]))
    as (r2 & H2 & Hh2%bool_decide_eq_true); [vm_compute; reflexivity|].
  exists r1, r2, h. destruct (equal_hash_equal_prefix no_digest no_len ex_hash "none" 4 eq_refl r1 r2 0 0 h)
    as (_ & Ht & _); [exact (ex_built_built _ _ H1)|exact (ex_built_built _ _ H2)|exact Hh1|exact Hh2|].
  exact (conj H1 (conj H2 (conj Hh1 (conj Hh2 Ht)))).
Defined.

Lemma mm_identity_lost_witness :
  ex_mm_hashes no_digest no_len ex_hash "none" ex_sampling (flt 0) "cat" =
  ex_mm_hashes no_digest no_len ex_hash "none" ex_sampling (flt 0) "dog".
Proof.
  destruct (mm_identity_lost no_digest no_len ex_hash "none" ex_sampling (flt 0) eq_refl) as (_ & Hm & _).
  exact (Hm "cat" "dog").
Defined.

Lemma lora_salt_confused_witness :
  ex_lora_hashes no_digest no_len ex_hash "none" ex_sampling (flt 0) (Some (mkLoRA "adapter" 1)) None =
  ex_lora_hashes no_digest no_len ex_hash "none" ex_sampling (flt 0) None (Some "adapter").
Proof.
  exact (proj1 (lora_salt_confused no_digest no_len ex_hash "none" ex_sampling (flt 0) "adapter" 1 eq_refl
    ltac:(discriminate))).
Defined.
