(* ===== verification/BlockPool.v ===== *)
(** * The block pool

    [v1/core/block_pool.py]: the index from block hashes to cached blocks
    ([BlockHashToBlockMap]) and the pool of KV-cache blocks ([BlockPool]), which
    allocates, shares, frees, caches and evicts blocks.  Free blocks keep their
    hash until they are reused, so the free queue is also the eviction order of
    the prefix cache. *)

From S2P Require Import Prelude PyFloat Protocol Request BlockHash FreeQueue.

(** ** The index of cached blocks

    A key maps to a single block, or to a [dict] of blocks in insertion order. *)

Inductive cached_blocks :=
  | One (b : Z)
  | Many (bs : list Z).

Notation hash_map := (gmap string cached_blocks).

Definition get_one_block (m : hash_map) (key : string) : res (option Z) :=
  match m !! key with
  | None => Ok None
  | Some (One b) => Ok (Some b)
  | Some (Many bs) => b ← or_raise StopIteration (head bs); Ok (Some b)
  end.

(** [d[b] = block] on a [dict] of blocks. *)
Definition dict_add (b : Z) (bs : list Z) : list Z := if decide (b ∈ bs) then bs else bs ++ [b].

Definition bhm_insert (key : string) (b : Z) (m : hash_map) : hash_map :=
  match m !! key with
  | None => <[key := One b]> m
  | Some (One c) => <[key := Many (dict_add b [c])]> m
  | Some (Many bs) => <[key := Many (dict_add b bs)]> m
  end.

Definition bhm_pop (key : string) (b : Z) (m : hash_map) : hash_map * option Z :=
  match m !! key with
  | None => (m, None)
  | Some (One c) => if decide (c = b) then (delete key m, Some c) else (<[key := One c]> (delete key m), None)
  | Some (Many bs) =>
      let bs' := filter (fun c => c ≠ b) bs in
      let block := if decide (b ∈ bs) then Some b else None in
      (match bs' with [] => delete key m | _ => <[key := Many bs']> (delete key m) end, block)
  end.

(** ** The pool *)

Inductive KVCacheEvent :=
  | BlockStored (block_hashes : list (string + Z)) (parent_block_hash : option (string + Z)) (token_ids : list Z)
      (block_size : Z) (lora_id : option Z) (lora_name : option string)
      (extra_keys : option (list (option (list extra_key)))) (group_idx : Z)
  | BlockRemoved (block_hashes : list (string + Z)) (group_idx : Z)
  | AllBlocksCleared.

(** The calls made to the optional metrics collector. *)
Inductive metrics_call := OnAllocated (b : Z) | OnAccessed (b : Z) | OnEvicted (b : Z) | OnReset.

Record BlockPool := mkBlockPool {
  bp_num_gpu_blocks : Z;
  bp_enable_caching : bool;
  bp_hash_block_size : Z;
  bp_queue : FreeKVCacheBlockQueue;
  bp_cached : hash_map;
  bp_null_block : Z;
  bp_enable_kv_cache_events : bool;
  bp_kv_event_queue : list KVCacheEvent;
  bp_metrics : option (list metrics_call);
}.
#[global] Instance BlockPool_settable : Settable BlockPool := mk_settable _
  (fun p => mkBlockPool (bp_num_gpu_blocks p) (bp_enable_caching p) (bp_hash_block_size p) (bp_queue p)
     (bp_cached p) (bp_null_block p) (bp_enable_kv_cache_events p) (bp_kv_event_queue p) (bp_metrics p)).

Notation pool := (st BlockPool).

(** An operation of the free queue, or on one block. *)
Definition on_queue {A} (m : queue A) : pool A := fun p =>
  match m (bp_queue p) with Ok (q, a) => Ok (p <| bp_queue := q |>, a) | Err e => Err e end.
Definition pool_block (b : Z) : pool KVCacheBlock := on_queue (blk_get b).
Definition set_block (b : Z) (f : KVCacheBlock → KVCacheBlock) : pool unit := on_queue (blk_set b f).

Definition collect (c : metrics_call) : pool unit :=
  st_modify (fun p => p <| bp_metrics ::= fmap (fun l => l ++ [c]) |>).
Definition emit (e : KVCacheEvent) : pool unit := st_modify (fun p => p <| bp_kv_event_queue ::= fun l => l ++ [e] |>).

(** The [block_hash] setter. *)
Definition set_block_hash (b : Z) (key : string) : pool unit :=
  blk ← pool_block b;
  st_assert (bool_decide (kb_block_hash blk = None));;
  set_block b (fun blk => blk <| kb_block_hash := Some key |>).
Definition reset_hash (blk : KVCacheBlock) : KVCacheBlock := blk <| kb_block_hash := None |>.

Definition pool_init (num_gpu_blocks : Z) (enable_caching : bool) (hash_block_size : Z)
    (enable_kv_cache_events with_metrics : bool) : res BlockPool :=
  passert (0 <? num_gpu_blocks);;
  let queue := queue_init (fresh_blocks num_gpu_blocks) (seqZ 0 num_gpu_blocks) in
  '(queue, null_block) ← popleft queue;
  '(queue, _) ← blk_set null_block (fun blk => blk <| kb_is_null := true |>) queue;
  Ok (mkBlockPool num_gpu_blocks enable_caching hash_block_size queue ∅ null_block enable_kv_cache_events []
        (if with_metrics then Some [] else None)).

Definition get_num_free_blocks (p : BlockPool) : Z := fq_num_free_blocks (bp_queue p).

(** [get_cached_block] reads only. *)
Fixpoint get_cached_block (p : BlockPool) (block_hash : string) (kv_cache_group_ids : list Z) : res (option (list Z)) :=
  match kv_cache_group_ids with
  | [] => Ok (Some [])
  | g :: gs =>
      key ← make_block_hash_with_group_id block_hash g;
      block ← get_one_block (bp_cached p) key;
      match block with
      | None => Ok None
      | Some b =>
          rest ← get_cached_block p block_hash gs;
          Ok match rest with Some bs => Some (b :: bs) | None => None end
      end
  end.

Section pool.
Context {F E : Type} `{PyFloat F}.
Context (embeds_digest : E → Z → Z → string).
(** [envs.VLLM_KV_EVENTS_USE_INT_BLOCK_HASHES] *)
Context (use_int_hashes : bool).

Definition maybe_evict_cached_block (b : Z) : pool bool :=
  collect (OnEvicted b);;
  blk ← pool_block b;
  match kb_block_hash blk with
  | None => mret false
  | Some block_hash =>
      p ← st_get;
      let '(m, popped) := bhm_pop block_hash b (bp_cached p) in
      st_modify (fun p => p <| bp_cached := m |>);;
      match popped with
      | None => mret false
      | Some _ =>
          set_block b reset_hash;;
          st_when (bp_enable_kv_cache_events p)
            (emit (BlockRemoved [maybe_convert_block_hash use_int_hashes (get_block_hash block_hash)]
                     (get_group_id block_hash)));;
          mret true
      end
  end.

(** The body of the loops of [get_new_blocks]. *)
Definition allocate_block (b : Z) : pool unit :=
  p ← st_get;
  st_when (bp_enable_caching p) (maybe_evict_cached_block b;; mret tt);;
  blk ← pool_block b;
  st_assert (kb_ref_cnt blk =? 0);;
  set_block b (fun blk => blk <| kb_ref_cnt ::= Z.succ |>);;
  collect (OnAllocated b).

Definition get_new_blocks (num_blocks : Z) : pool (list Z) :=
  p ← st_get;
  if get_num_free_blocks p <? num_blocks then st_raise ValueError
  else
    ret ← on_queue (popleft_n num_blocks);
    st_iter allocate_block ret;;
    mret ret.

Definition touch_block (b : Z) : pool unit :=
  blk ← pool_block b;
  st_when ((kb_ref_cnt blk =? 0) && negb (kb_is_null blk)) (on_queue (queue_remove b));;
  set_block b (fun blk => blk <| kb_ref_cnt ::= Z.succ |>);;
  collect (OnAccessed b).

Definition touch (blocks : list Z) : pool unit := st_iter touch_block blocks.

(** [[block for block in blocks if block.ref_cnt == 0 and not block.is_null]] *)
Fixpoint freed_blocks (blocks : list Z) : pool (list Z) :=
  match blocks with
  | [] => mret []
  | b :: blocks =>
      blk ← pool_block b;
      rest ← freed_blocks blocks;
      mret (if (kb_ref_cnt blk =? 0) && negb (kb_is_null blk) then b :: rest else rest)
  end.

Definition free_blocks (ordered_blocks : list Z) : pool unit :=
  st_iter (fun b => set_block b (fun blk => blk <| kb_ref_cnt ::= Z.pred |>)) ordered_blocks;;
  freed ← freed_blocks ordered_blocks;
  on_queue (append_n freed).

Definition evict_one (block_id : Z) : pool unit :=
  p ← st_get;
  st_assert (block_id <? bp_num_gpu_blocks p);;
  b ← st_lift (py_index (seqZ 0 (bp_num_gpu_blocks p)) block_id);
  maybe_evict_cached_block b;;
  mret tt.
Definition evict_blocks (block_ids : gset Z) : pool unit := st_iter evict_one (elements block_ids).

Definition reset_prefix_cache : pool bool :=
  p ← st_get;
  if negb (bp_num_gpu_blocks p - get_num_free_blocks p =? 1) then mret false
  else
    st_modify (fun p => p <| bp_cached := ∅ |>);;
    st_iter (fun b => set_block b reset_hash) (seqZ 0 (bp_num_gpu_blocks p));;
    collect OnReset;;
    st_when (bp_enable_kv_cache_events p) (emit AllBlocksCleared);;
    mret true.

(** The [while] loop of [peek_free_block_frontier], at most [limit] iterations. *)
Fixpoint peek_loop (limit : nat) (block : option Z) : pool (list (Z * option string)) :=
  match limit, block with
  | S limit, Some b =>
      if decide (b = TAIL) then mret []
      else
        blk ← pool_block b;
        rest ← peek_loop limit (kb_next_free_block blk);
        mret ((b, kb_block_hash blk) :: rest)
  | _, _ => mret []
  end.

Definition peek_free_block_frontier (limit : Z) : pool (list (Z * option string)) :=
  st_assert (0 <=? limit);;
  hd ← pool_block HEAD;
  peek_loop (Z.to_nat limit) (kb_next_free_block hd).

Definition get_usage (p : BlockPool) : F :=
  let total_gpu_blocks := bp_num_gpu_blocks p - 1 in
  if total_gpu_blocks =? 0 then flt 0
  else flt 1 -@ (flt (get_num_free_blocks p) /@ flt total_gpu_blocks).

Definition take_events : pool (list KVCacheEvent) :=
  p ← st_get;
  if negb (bp_enable_kv_cache_events p) then mret []
  else st_modify (fun p => p <| bp_kv_event_queue := [] |>);; mret (bp_kv_event_queue p).

(** *** [cache_full_blocks] *)

(** [request.block_hashes] at the block size of the group. *)
Inductive group_hashes := PlainHashes (l : list string) | ScaledHashes (b : BlockHashList).
Definition gh_from (g : group_hashes) (start : Z) : list string :=
  match g with PlainHashes l => py_slice l start (lenZ l) | ScaledHashes b => bhl_from b start end.
Definition gh_get (g : group_hashes) (i : Z) : res string :=
  match g with PlainHashes l => py_index l i | ScaledHashes b => Ok (bhl_get b i) end.

(** Whether block [i] of the new full blocks is skipped. *)
Definition masked_out (block_mask : option (list bool)) (i : Z) : res bool :=
  match block_mask with None => Ok false | Some m => b ← py_index m i; Ok (negb b) end.

(** The loop over the new full blocks: the external hashes of those cached. *)
Fixpoint cache_loop (new_block_hashes : list string) (gid : Z) (block_mask : option (list bool)) (i : Z)
    (blocks : list Z) : pool (list (string + Z)) :=
  match blocks with
  | [] => mret []
  | b :: blocks =>
      blk ← pool_block b;
      masked ← (if kb_is_null blk then mret true else st_lift (masked_out block_mask i));
      if masked : bool then cache_loop new_block_hashes gid block_mask (i + 1) blocks
      else
        st_assert (bool_decide (kb_block_hash blk = None));;
        block_hash ← st_lift (py_index new_block_hashes i);
        key ← st_lift (make_block_hash_with_group_id block_hash gid);
        set_block_hash b key;;
        st_modify (fun p => p <| bp_cached ::= bhm_insert key b |>);;
        rest ← cache_loop new_block_hashes gid block_mask (i + 1) blocks;
        mret (maybe_convert_block_hash use_int_hashes block_hash :: rest)
  end.

(** The extra keys of the cached blocks, for the event. *)
Fixpoint event_keys_loop (blocks : list Z) (block_mask : option (list bool)) (block_size num_cached_blocks : Z)
    (indices : list Z) (curr_mm_idx : Z) (r : Request F E) : pool (Request F E * list (option (list extra_key))) :=
  match indices with
  | [] => mret (r, [])
  | i :: indices =>
      b ← st_lift (py_index blocks i);
      blk ← pool_block b;
      masked ← (if kb_is_null blk then mret true else st_lift (masked_out block_mask (i - num_cached_blocks)));
      if masked : bool then event_keys_loop blocks block_mask block_size num_cached_blocks indices curr_mm_idx r
      else
        '(r, keys, curr_mm_idx) ←
          st_lift (generate_block_hash_extra_keys embeds_digest (i * block_size) (i * block_size + block_size)
                     curr_mm_idx r);
        '(r, rest) ← event_keys_loop blocks block_mask block_size num_cached_blocks indices curr_mm_idx r;
        mret (r, keys :: rest)
  end.

Definition cache_full_blocks (r : Request F E) (blocks : list Z) (num_cached_blocks num_full_blocks block_size : Z)
    (kv_cache_group_id : Z) (block_mask : option (list bool)) : pool (Request F E) :=
  if num_full_blocks <=? num_cached_blocks then mret r
  else
    p ← st_get;
    let new_full_blocks := py_slice blocks num_cached_blocks num_full_blocks in
    st_assert (num_full_blocks <=? lenZ (rq_block_hashes r));;
    st_assert (match block_mask with None => true | Some m => lenZ m =? lenZ new_full_blocks end);;
    block_hashes ←
      (if block_size =? bp_hash_block_size p then mret (PlainHashes (rq_block_hashes r))
       else b ← st_lift (bhl_init (rq_block_hashes r) (bp_hash_block_size p) block_size); mret (ScaledHashes b));
    new_hashes ← cache_loop (gh_from block_hashes num_cached_blocks) kv_cache_group_id block_mask 0 new_full_blocks;
    if negb (bp_enable_kv_cache_events p) then mret r
    else
      parent ← (if num_cached_blocks =? 0 then mret None
                else h ← st_lift (gh_get block_hashes (num_cached_blocks - 1));
                     mret (Some (maybe_convert_block_hash use_int_hashes h)));
      '(r, extra_keys_list) ←
        event_keys_loop blocks block_mask block_size num_cached_blocks
          (seqZ num_cached_blocks (num_full_blocks - num_cached_blocks)) 0 r;
      emit (BlockStored new_hashes parent
              (py_slice (rq_all_token_ids r) (num_cached_blocks * block_size) (num_full_blocks * block_size))
              block_size (lora_int_id <$> rq_lora_request r) (lora_name <$> rq_lora_request r)
              (match extra_keys_list with [] => None | l => Some l end) kv_cache_group_id);;
      mret r.

End pool.

(** ** The index *)

Section index.
Implicit Types (m : hash_map) (k : string) (b : Z).

(** The blocks a key maps to. *)
Definition blocks_at m k : list Z :=
  match m !! k with None => [] | Some (One b) => [b] | Some (Many bs) => bs end.

Definition lists_ok m : Prop := ∀ k bs, m !! k = Some (Many bs) → bs ≠ [] ∧ NoDup bs.

Lemma get_one_block_spec m k : lists_ok m → get_one_block m k = Ok (head (blocks_at m k)).
Proof.
  intros Hok. unfold get_one_block, blocks_at. destruct (m !! k) as [[b|bs]|] eqn:E; [done| |done].
  destruct (Hok k bs E) as [Hn _]. by destruct bs.
Qed.

Lemma blocks_at_insert_ne m k k' c : k ≠ k' → blocks_at (<[k := c]> m) k' = blocks_at m k'.
Proof. intros. unfold blocks_at. by rewrite lookup_insert_ne. Qed.

Lemma NoDup_dict_add b bs : NoDup bs → NoDup (dict_add b bs) ∧ dict_add b bs ≠ [].
Proof.
  intros Hnd. unfold dict_add. case_decide as Hb; [split; [done|by intros ->; apply elem_of_nil in Hb]|].
  split; [|by destruct bs]. apply NoDup_app. split_and!; [done| |apply NoDup_singleton].
  by intros x Hx ->%list_elem_of_singleton.
Qed.

Lemma elem_of_dict_add c b bs : c ∈ dict_add b bs ↔ c = b ∨ c ∈ bs.
Proof. unfold dict_add. case_decide; [|rewrite elem_of_app, list_elem_of_singleton]; naive_solver. Qed.

Lemma bhm_insert_spec m k b :
  lists_ok m → lists_ok (bhm_insert k b m) ∧
  ∀ k' c, c ∈ blocks_at (bhm_insert k b m) k' ↔ (c = b ∧ k' = k) ∨ c ∈ blocks_at m k'.
Proof.
  intros Hok. unfold bhm_insert.
  assert (∀ bs, NoDup bs → lists_ok (<[k := Many (dict_add b bs)]> m)) as Hmany.
  { intros bs Hbs k' bs'. rewrite lookup_insert. case_decide; [|apply Hok].
    intros [= <-]. destruct (NoDup_dict_add b bs Hbs). done. }
  split.
  - destruct (m !! k) as [[c|bs]|] eqn:Em.
    + apply Hmany, NoDup_singleton.
    + apply Hmany. by destruct (Hok k bs Em).
    + intros k' bs'. rewrite lookup_insert. by case_decide; [|apply Hok].
  - intros k' c. destruct (decide (k = k')) as [->|Hne].
    + unfold blocks_at at 2. destruct (m !! k') as [[d|bs]|] eqn:Em; unfold blocks_at;
        rewrite lookup_insert, decide_True, ?elem_of_dict_add, ?list_elem_of_singleton by done;
        rewrite ?elem_of_nil; naive_solver.
    + destruct (m !! k) as [[d|bs]|]; rewrite blocks_at_insert_ne by done; naive_solver.
Qed.

Lemma bhm_pop_spec m k b :
  lists_ok m → b ∈ blocks_at m k →
  ∃ m', bhm_pop k b m = (m', Some b) ∧ lists_ok m' ∧
    ∀ k' c, c ∈ blocks_at m' k' ↔ c ∈ blocks_at m k' ∧ ¬ (c = b ∧ k' = k).
Proof.
  intros Hok Hb. unfold bhm_pop. unfold blocks_at in Hb.
  assert (∀ k', k ≠ k' → blocks_at (delete k m) k' = blocks_at m k') as Hdel.
  { intros k' Hne. unfold blocks_at. by rewrite lookup_delete_ne. }
  assert (lists_ok (delete k m)) as Hdok.
  { intros k' bs'. rewrite lookup_delete. by case_decide; [|apply Hok]. }
  assert (blocks_at (delete k m) k = []) as Hdk by (unfold blocks_at; by rewrite lookup_delete_eq).
  destruct (m !! k) as [[d|bs]|] eqn:Em; [| |by apply elem_of_nil in Hb].
  - apply list_elem_of_singleton in Hb as <-. rewrite decide_True by done. eexists. split; [done|]. split; [done|].
    intros k' c. destruct (decide (k = k')) as [<-|Hne]; [|rewrite Hdel by done; naive_solver].
    rewrite Hdk. unfold blocks_at. rewrite Em, list_elem_of_singleton, elem_of_nil. naive_solver.
  - rewrite decide_True by done. eexists. split; [done|].
    destruct (Hok k bs Em) as [_ Hnd]. pose proof (NoDup_filter (fun c => c ≠ b) bs Hnd) as Hnd'.
    assert (∀ c, c ∈ blocks_at m k ↔ c ∈ bs) as Hat by (intros c; unfold blocks_at; by rewrite Em).
    assert (∀ c, c ∈ filter (fun c => c ≠ b) bs ↔ c ≠ b ∧ c ∈ bs) as Hfil by (intros; by rewrite list_elem_of_filter).
    destruct (filter (fun c => c ≠ b) bs) as [|x xs] eqn:Ef.
    + split; [done|]. intros k' c. destruct (decide (k = k')) as [<-|Hne]; [|rewrite Hdel by done; naive_solver].
      rewrite Hdk, Hat. specialize (Hfil c). rewrite elem_of_nil in *. naive_solver.
    + rewrite <- Ef in *. rewrite insert_delete_eq. split.
      * intros k' bs'. rewrite lookup_insert. case_decide; [|apply Hok]. intros [= <-]. split; [|done]. by rewrite Ef.
      * intros k' c. destruct (decide (k = k')) as [<-|Hne]; [|rewrite blocks_at_insert_ne by done; naive_solver].
        rewrite Hat. unfold blocks_at. rewrite lookup_insert_eq, Hfil. naive_solver.
Qed.

End index.

(** ** Well-formed pools *)

(** Reference count, hash and null mark of a block. *)
Notation bdata := (Z * option string * bool)%type.
Definition d_reset (d : bdata) : bdata := (d.1.1, None, d.2).
Definition d_ref (f : Z → Z) (d : bdata) : bdata := (f d.1.1, d.1.2, d.2).
Definition d_hash (k : string) (d : bdata) : bdata := (d.1.1, Some k, d.2).

(** [free]: the blocks in the free queue, and those an operation holds that are
    about to leave or to enter it. *)
Record data_wf (n : Z) (D : gmap Z bdata) (m : hash_map) (free : list Z) : Prop := {
  dw_pos : 0 < n;
  dw_dom : ∀ b, is_Some (D !! b) ↔ 0 <= b < n ∨ b = HEAD ∨ b = TAIL;
  dw_null : ∀ b d, D !! b = Some d → d.2 = bool_decide (b = 0);
  dw_ref : ∀ b d, 0 < b → D !! b = Some d → 0 <= d.1.1 ∧ (b ∈ free ↔ d.1.1 = 0);
  dw_free : ∀ b, b ∈ free → 0 < b < n;
  dw_hash : ∀ b d k, D !! b = Some d → d.1.2 = Some k → 0 < b;
  dw_cached : ∀ k b, b ∈ blocks_at m k ↔ ∃ d, D !! b = Some d ∧ d.1.2 = Some k;
  dw_lists : lists_ok m;
}.

Section data.
Implicit Types (D : gmap Z bdata) (m : hash_map) (l : list Z) (b : Z) (d : bdata).

Lemma data_wf_free_ext n D m l l' : (∀ b, b ∈ l ↔ b ∈ l') → data_wf n D m l → data_wf n D m l'.
Proof.
  intros Hl [? ? ? Hr Hf ? ? ?]. split; try done.
  - intros b d. rewrite <- Hl. apply Hr.
  - intros b. rewrite <- Hl. apply Hf.
Qed.

(** One block changes. *)
Lemma data_wf_alter n D m l b d f m' l' :
  data_wf n D m l → D !! b = Some d → (f d).2 = d.2 →
  (0 < b → 0 <= (f d).1.1 ∧ (b ∈ l' ↔ (f d).1.1 = 0)) → (∀ c, c ≠ b → c ∈ l' ↔ c ∈ l) → (b ∈ l' → 0 < b < n) →
  (∀ k, (f d).1.2 = Some k → 0 < b) → lists_ok m' →
  (∀ k c, c ∈ blocks_at m' k ↔ if decide (c = b) then (f d).1.2 = Some k else c ∈ blocks_at m k) →
  data_wf n (alter f b D) m' l'.
Proof.
  intros [Hpos Hdom Hnull Href Hfree Hhash Hcach Hlists] Hb Hz Hr Hl' Hbl Hh Hok Hm'. split; try done.
  - intros c. rewrite lookup_alter_is_Some. apply Hdom.
  - intros c d'. rewrite lookup_alter. case_decide; [subst|apply Hnull].
    rewrite Hb. intros [= <-]. rewrite Hz. apply (Hnull c d Hb).
  - intros c d' Hc. rewrite lookup_alter. case_decide as Hcb; [subst|].
    + rewrite Hb. intros [= <-]. by apply Hr.
    + intros Hd'. rewrite Hl' by congruence. by apply Href.
  - intros c Hc. destruct (decide (c = b)) as [->|Hne]; [by apply Hbl|]. apply Hfree, Hl'; done.
  - intros c d' k'. rewrite lookup_alter. case_decide; [subst|by apply Hhash]. rewrite Hb. intros [= <-]. apply Hh.
  - intros k' c. rewrite Hm', lookup_alter. destruct (decide (c = b)) as [->|Hne].
    + rewrite decide_True, Hb by done. cbn. naive_solver.
    + rewrite decide_False by congruence. apply Hcach.
Qed.

Lemma alter_reset_id D b d : D !! b = Some d → d.1.2 = None → alter d_reset b D = D.
Proof.
  intros Hb Hn. apply alter_id. intros x Hx. simplify_eq. destruct d as [[r h] z]. cbn in Hn. by subst.
Qed.

Lemma data_wf_evict n D m l b d k :
  data_wf n D m l → D !! b = Some d → d.1.2 = Some k →
  ∃ m', bhm_pop k b m = (m', Some b) ∧ data_wf n (alter d_reset b D) m' l.
Proof.
  intros Hwf Hb Hk.
  destruct (bhm_pop_spec m k b (dw_lists _ _ _ _ Hwf)) as (m' & Heq & Hok & Hm'); [apply (dw_cached _ _ _ _ Hwf); eauto|].
  exists m'. split; [done|]. eapply data_wf_alter; try done.
  - intros Hb0. exact (dw_ref _ _ _ _ Hwf b d Hb0 Hb).
  - apply (dw_free _ _ _ _ Hwf).
  - intros k' c. rewrite Hm'. case_decide as Hcb; [subst|naive_solver]. cbn. split; [|done].
    intros [Hin Hn]. exfalso. apply Hn. split; [done|]. apply (dw_cached _ _ _ _ Hwf) in Hin as (d' & Hd' & ?).
    simplify_eq. congruence.
Qed.

(** Changes of a reference count: [b] is free afterwards exactly when it is in [l']. *)
Lemma data_wf_ref n D m l l' b d f :
  data_wf n D m l → D !! b = Some d →
  (0 < b → 0 <= f d.1.1 ∧ (b ∈ l' ↔ f d.1.1 = 0)) → (∀ c, c ≠ b → c ∈ l' ↔ c ∈ l) → (b ∈ l' → 0 < b < n) →
  data_wf n (alter (d_ref f) b D) m l'.
Proof.
  intros Hwf Hb Hf Hl' Hbl. eapply data_wf_alter; try done.
  - intros k. by apply (dw_hash _ _ _ _ Hwf b d).
  - apply Hwf.
  - intros k c. case_decide; [subst|done]. rewrite (dw_cached _ _ _ _ Hwf). cbn. naive_solver.
Qed.

Lemma data_wf_store n D m l b d k :
  data_wf n D m l → D !! b = Some d → 0 < b → d.1.2 = None →
  data_wf n (alter (d_hash k) b D) (bhm_insert k b m) l.
Proof.
  intros Hwf Hb Hb0 Hd. destruct (bhm_insert_spec m k b (dw_lists _ _ _ _ Hwf)) as [Hok Hm'].
  eapply data_wf_alter; try done.
  - intros _. exact (dw_ref _ _ _ _ Hwf b d Hb0 Hb).
  - apply (dw_free _ _ _ _ Hwf).
  - intros k' c. rewrite Hm'. case_decide as Hcb; [subst|naive_solver]. cbn. split; [|naive_solver].
    intros [[_ ->]|Hin]; [done|]. apply (dw_cached _ _ _ _ Hwf) in Hin as (d' & Hd' & ?). by simplify_eq.
Qed.

Lemma data_wf_clear n D m l : data_wf n D m l → data_wf n (d_reset <$> D) ∅ l.
Proof.
  intros [Hpos Hdom Hnull Href Hfree Hhash Hcach Hlists]. split; try done.
  - intros c. rewrite lookup_fmap, fmap_is_Some. apply Hdom.
  - intros c d'. rewrite lookup_fmap. intros (d & Hd & ->)%fmap_Some. apply (Hnull c d Hd).
  - intros c d' Hc. rewrite lookup_fmap. intros (d & Hd & ->)%fmap_Some. by apply (Href c d).
  - intros c d' k. rewrite lookup_fmap. intros (d & Hd & ->)%fmap_Some. done.
  - intros k c. unfold blocks_at. rewrite lookup_empty, elem_of_nil, lookup_fmap. split; [done|].
    intros (d' & (d & Hd & ->)%fmap_Some & ?). done.
Qed.

End data.

(** ** The operations *)

Section operations.
Context {F E : Type} `{PyFloat F}.
Context (embeds_digest : E → Z → Z → string) (use_int_hashes : bool).
Implicit Types (p : BlockPool) (l : list Z) (b : Z).
Notation maybe_evict := (maybe_evict_cached_block use_int_hashes).

Definition pool_data p : gmap Z bdata := kb_data <$> fq_blocks (bp_queue p).

(** [l] is the free queue, [held] the blocks an operation holds. *)
Definition pool_state p l (held : list Z) : Prop :=
  queue_rep (bp_queue p) l ∧ data_wf (bp_num_gpu_blocks p) (pool_data p) (bp_cached p) (held ++ l).
Definition pool_wf p l : Prop := pool_state p l [].

(** What no operation changes. *)
Definition same_config p p' : Prop :=
  bp_num_gpu_blocks p' = bp_num_gpu_blocks p ∧ bp_enable_caching p' = bp_enable_caching p ∧
  bp_hash_block_size p' = bp_hash_block_size p ∧ bp_null_block p' = bp_null_block p ∧
  bp_enable_kv_cache_events p' = bp_enable_kv_cache_events p.
#[global] Instance same_config_refl : Reflexive same_config.
Proof. by intros p. Qed.
#[global] Instance same_config_trans : Transitive same_config.
Proof. unfold same_config. intros p1 p2 p3. intuition congruence. Qed.

(** A block with new data. *)
Definition upd b (f : KVCacheBlock → KVCacheBlock) p : BlockPool :=
  p <| bp_queue ::= fun q => q <| fq_blocks ::= alter f b |> |>.

Lemma pool_data_block p b d :
  pool_data p !! b = Some d → ∃ blk, fq_blocks (bp_queue p) !! b = Some blk ∧ d = kb_data blk.
Proof. unfold pool_data. rewrite lookup_fmap. intros (blk & -> & ?)%fmap_Some. eauto. Qed.

Lemma st_bind_pool_block {A} b (f : KVCacheBlock → pool A) p blk :
  fq_blocks (bp_queue p) !! b = Some blk → (pool_block b ≫= f) p = f blk p.
Proof.
  intros Hb. apply st_bind_eq. unfold pool_block, on_queue, blk_get, mbind, st_bind, st_get. rewrite Hb. cbn. by destruct p.
Qed.

Lemma set_block_eq b g p : is_Some (fq_blocks (bp_queue p) !! b) → set_block b g p = Ok (upd b g p, tt).
Proof.
  intros [blk Hb]. unfold set_block, on_queue, blk_set, blk_get, mbind, st_bind, st_get. rewrite Hb. done.
Qed.

Lemma st_bind_set_block {A} b g (f : unit → pool A) p :
  is_Some (fq_blocks (bp_queue p) !! b) → (set_block b g ≫= f) p = f tt (upd b g p).
Proof. intros Hb. apply st_bind_eq. by apply set_block_eq. Qed.

Lemma pool_data_upd b f g p : (∀ blk, kb_data (f blk) = g (kb_data blk)) → pool_data (upd b f p) = alter g b (pool_data p).
Proof.
  intros Hfg. unfold pool_data. apply map_eq. intros k. cbn. rewrite lookup_fmap, !lookup_alter.
  case_decide; [subst|by rewrite lookup_fmap]. rewrite lookup_fmap. destruct (fq_blocks (bp_queue p) !! k); cbn; by rewrite ?Hfg.
Qed.

Lemma queue_rep_upd b f p l :
  (∀ blk, kb_next_free_block (f blk) = kb_next_free_block blk ∧ kb_prev_free_block (f blk) = kb_prev_free_block blk) →
  queue_rep (bp_queue p) l → queue_rep (bp_queue (upd b f p)) l.
Proof.
  intros Hf [[Hnd Hd Hn Hp] Hnum]. split; [|done]. split; [done|..]; cbn.
  - intros c Hc. rewrite lookup_alter_is_Some. by apply Hd.
  - intros c blk. rewrite lookup_alter. case_decide; [subst|by apply Hn].
    intros (blk0 & Hb & ->)%fmap_Some. rewrite (proj1 (Hf blk0)). by apply Hn.
  - intros c blk. rewrite lookup_alter. case_decide; [subst|by apply Hp].
    intros (blk0 & Hb & ->)%fmap_Some. rewrite (proj2 (Hf blk0)). by apply Hp.
Qed.

Lemma pool_data_lookup p l held b :
  pool_state p l held → 0 <= b < bp_num_gpu_blocks p →
  ∃ blk, fq_blocks (bp_queue p) !! b = Some blk ∧ pool_data p !! b = Some (kb_data blk).
Proof.
  intros [_ Hwf] Hb. destruct (proj2 (dw_dom _ _ _ _ Hwf b) (or_introl Hb)) as [d Hd].
  destruct (pool_data_block p b d Hd) as (blk & Hblk & ->). eauto.
Qed.

(** [_maybe_evict_cached_block] removes the hash of a block, and its entry in the
    index, which is always there. *)
Lemma maybe_evict_spec p l held b :
  pool_state p l held → 0 <= b < bp_num_gpu_blocks p →
  ∃ p' e, maybe_evict b p = Ok (p', e) ∧ pool_state p' l held ∧ same_config p p' ∧
    pool_data p' = alter d_reset b (pool_data p).
Proof.
  intros [Hq Hwf] Hb. destruct (pool_data_lookup p l held b (conj Hq Hwf) Hb) as (blk & Hblk & Hd).
  unfold maybe_evict_cached_block, collect. rewrite st_bind_modify.
  set (p1 := p <| bp_metrics ::= _ |>). rewrite (st_bind_pool_block b _ p1 blk Hblk).
  destruct (kb_block_hash blk) as [k|] eqn:Ek.
  2: { exists p1, false. split_and!; [done|done|done|]. by rewrite (alter_reset_id (pool_data p) b (kb_data blk)). }
  rewrite st_bind_get. destruct (data_wf_evict _ _ _ _ b (kb_data blk) k Hwf Hd Ek) as (m' & Heq & Hwf').
  assert (bhm_pop k b (bp_cached p1) = (m', Some b)) as -> by exact Heq. rewrite st_bind_modify.
  set (p2 := p1 <| bp_cached := m' |>). rewrite st_bind_set_block by (cbn; rewrite Hblk; by eexists).
  assert (pool_data (upd b reset_hash p2) = alter d_reset b (pool_data p)) as Hdata
    by exact (pool_data_upd b reset_hash d_reset p2 (fun _ => eq_refl)).
  unfold st_when, emit. destruct (bp_enable_kv_cache_events p1); rewrite ?st_bind_modify; eexists _, true;
    (split; [done|]); (split; [split; [by apply (queue_rep_upd b reset_hash)|]|done]); by rewrite <- Hdata in Hwf'.
Qed.

(** The data of a block that is handed out. *)
Definition d_alloc (caching : bool) (d : bdata) : bdata := d_ref Z.succ (if caching then d_reset d else d).

Lemma pool_state_data p p' l held :
  queue_rep (bp_queue p') l → bp_num_gpu_blocks p' = bp_num_gpu_blocks p →
  data_wf (bp_num_gpu_blocks p) (pool_data p') (bp_cached p') (held ++ l) → pool_state p' l held.
Proof. intros Hq Hn Hwf. split; [done|]. by rewrite Hn. Qed.

(** A change of the reference count of a block. *)
Lemma pool_state_ref p l held held' b blk f g :
  pool_state p l held → fq_blocks (bp_queue p) !! b = Some blk →
  (∀ x, kb_data (f x) = d_ref g (kb_data x)) →
  (∀ x, kb_next_free_block (f x) = kb_next_free_block x ∧ kb_prev_free_block (f x) = kb_prev_free_block x) →
  (0 < b → 0 <= g (kb_ref_cnt blk) ∧ (b ∈ held' ++ l ↔ g (kb_ref_cnt blk) = 0)) →
  (∀ c, c ≠ b → c ∈ held' ++ l ↔ c ∈ held ++ l) → (b ∈ held' ++ l → 0 < b < bp_num_gpu_blocks p) →
  pool_state (upd b f p) l held' ∧ pool_data (upd b f p) = alter (d_ref g) b (pool_data p).
Proof.
  intros [Hq Hwf] Hb Hf Hlinks Hg Hheld Hbn. pose proof (pool_data_upd b f (d_ref g) p Hf) as Hd. split; [|done].
  split; [by apply queue_rep_upd|]. rewrite Hd.
  apply (data_wf_ref _ _ _ (held ++ l) _ b (kb_data blk)); [done| |done..]. unfold pool_data. by rewrite lookup_fmap, Hb.
Qed.

Lemma allocate_block_spec p l held b :
  pool_state p l (b :: held) → b ∉ held ++ l →
  ∃ p', allocate_block use_int_hashes b p = Ok (p', tt) ∧ pool_state p' l held ∧ same_config p p' ∧
    pool_data p' = alter (d_alloc (bp_enable_caching p)) b (pool_data p).
Proof.
  intros Hst Hn. pose proof Hst as [Hq Hwf].
  pose proof (dw_free _ _ _ _ Hwf b ltac:(left)) as Hb. unfold allocate_block. rewrite st_bind_get.
  assert (∃ p1, st_when (bp_enable_caching p) (maybe_evict b;; mret tt) p = Ok (p1, tt) ∧ pool_state p1 l (b :: held) ∧
    same_config p p1 ∧ pool_data p1 = alter (if bp_enable_caching p then d_reset else id) b (pool_data p))
    as (p1 & Heq & Hst1 & Hc1 & Hd1).
  { unfold st_when. destruct (bp_enable_caching p).
    - destruct (maybe_evict_spec p l (b :: held) b Hst ltac:(lia)) as (p1 & e & Heq & ? & ? & ?).
      exists p1. split; [by rewrite (st_bind_eq _ _ _ _ _ Heq)|done].
    - exists p. split_and!; try done. symmetry. by apply alter_id. }
  st_step Heq. pose proof Hc1 as (Hn1 & _).
  destruct (pool_data_lookup p1 l (b :: held) b Hst1) as (blk & Hblk & Hd); [lia|].
  rewrite (st_bind_pool_block b _ p1 blk Hblk). pose proof (dw_ref _ _ _ _ (proj2 Hst1) b _ ltac:(lia) Hd) as [_ Hz].
  assert (kb_ref_cnt blk = 0) as Href by (apply Hz; left).
  rewrite st_bind_assert by (by apply Z.eqb_eq). rewrite st_bind_set_block by by eexists.
  set (f := fun blk : KVCacheBlock => blk <| kb_ref_cnt ::= Z.succ |>).
  destruct (pool_state_ref p1 l (b :: held) held b blk f Z.succ Hst1 Hblk) as [Hst2 Hd2].
  - done.
  - done.
  - intros _. rewrite Href. split; [lia|]. split; [done|lia].
  - intros c Hcb. cbn. rewrite elem_of_cons. naive_solver.
  - done.
  - eexists. split; [done|]. split; [exact Hst2|]. split; [exact Hc1|].
    change (pool_data (upd b f p1) = alter (d_alloc (bp_enable_caching p)) b (pool_data p)).
    rewrite Hd2, Hd1, alter_alter_eq. by destruct (bp_enable_caching p).
Qed.

Lemma st_iter_allocate p l bs :
  pool_state p l bs → NoDup (bs ++ l) →
  ∃ p', st_iter (allocate_block use_int_hashes) bs p = Ok (p', tt) ∧ pool_state p' l [] ∧ same_config p p' ∧
    pool_data p' = foldl (fun D b => alter (d_alloc (bp_enable_caching p)) b D) (pool_data p) bs.
Proof.
  revert p; induction bs as [|b bs IH]; intros p Hst Hnd; [by exists p|].
  cbn in Hnd. apply NoDup_cons in Hnd as [Hb Hnd].
  destruct (allocate_block_spec p l bs b Hst Hb) as (p1 & Heq1 & Hst1 & Hc1 & Hd1).
  destruct (IH p1 Hst1 Hnd) as (p2 & Heq2 & Hst2 & Hc2 & Hd2). exists p2. cbn [st_iter]. st_step Heq1.
  split_and!; [done|done|by etrans|]. cbn [foldl]. rewrite Hd2, Hd1. by destruct Hc1 as (_ & -> & _).
Qed.

Lemma on_queue_eq {A} (m : queue A) p q a : m (bp_queue p) = Ok (q, a) → on_queue m p = Ok (p <| bp_queue := q |>, a).
Proof. unfold on_queue. by intros ->. Qed.

Lemma pool_data_same p q : same_data (fq_blocks (bp_queue p)) (fq_blocks q) → pool_data (p <| bp_queue := q |>) = pool_data p.
Proof. done. Qed.

Lemma queue_nodup q l : queue_rep q l → NoDup l.
Proof. intros [[Hnd _ _ _] _]. unfold path in Hnd. apply NoDup_cons in Hnd as [_ Hnd]. by apply NoDup_app in Hnd as (? & _ & _). Qed.

Lemma get_new_blocks_spec p l1 l2 :
  pool_wf p (l1 ++ l2) →
  ∃ p', get_new_blocks use_int_hashes (lenZ l1) p = Ok (p', l1) ∧ pool_wf p' l2 ∧ same_config p p' ∧
    pool_data p' = foldl (fun D b => alter (d_alloc (bp_enable_caching p)) b D) (pool_data p) l1.
Proof.
  intros [Hq Hwf]. unfold get_new_blocks. rewrite st_bind_get. pose proof Hq as [_ Hnum].
  unfold get_num_free_blocks. rewrite Hnum, length_app. destruct (Z.ltb_spec (Z.of_nat (length l1 + length l2)) (lenZ l1)); [lia|].
  destruct (popleft_n_spec (bp_queue p) l1 l2 Hq) as (q & Heq & Hq' & Hs). st_step (on_queue_eq _ p q l1 Heq).
  set (p1 := p <| bp_queue := q |>). pose proof (pool_data_same p q Hs) as Hd.
  destruct (st_iter_allocate p1 l2 l1) as (p2 & Heq2 & Hst2 & Hc2 & Hd2).
  - split; [done|]. unfold p1. rewrite Hd. exact Hwf.
  - by eapply queue_nodup.
  - st_step Heq2. exists p2. split_and!; [done..|]. rewrite Hd2. unfold p1. by rewrite Hd.
Qed.

Lemma get_new_blocks_short p l n :
  pool_wf p l → lenZ l < n → get_new_blocks use_int_hashes n p = Err ValueError.
Proof.
  intros [[_ Hnum] _] Hlt. unfold get_new_blocks. rewrite st_bind_get. unfold get_num_free_blocks. rewrite Hnum.
  by destruct (Z.ltb_spec (lenZ l) n); [|lia].
Qed.

Lemma path_real p l held b : pool_state p l held → 0 <= b → b ∉ l → b ∉ path l.
Proof. intros _ Hb Hl. unfold path. rewrite elem_of_cons, elem_of_app, list_elem_of_singleton. unfold HEAD, TAIL. intros [?|[?|?]]; [lia|done|lia]. Qed.

(** [touch] of one block takes it out of the free queue if it was there. *)
Lemma touch_block_spec p l b :
  pool_wf p l → 0 <= b < bp_num_gpu_blocks p →
  ∃ p', touch_block b p = Ok (p', tt) ∧ pool_wf p' (filter (fun c => c ≠ b) l) ∧ same_config p p' ∧
    pool_data p' = alter (d_ref Z.succ) b (pool_data p) ∧ bp_cached p' = bp_cached p.
Proof.
  intros Hst Hb. pose proof Hst as [Hq Hwf]. unfold touch_block.
  destruct (pool_data_lookup p l [] b Hst Hb) as (blk & Hblk & Hd). rewrite (st_bind_pool_block b _ p blk Hblk).
  pose proof (dw_null _ _ _ _ Hwf b _ Hd) as Hnull. cbn in Hnull.
  pose proof (fun Hb0 => dw_ref _ _ _ _ Hwf b (kb_data blk) Hb0 Hd) as Hr. cbn in Hr.
  set (f := fun blk : KVCacheBlock => blk <| kb_ref_cnt ::= Z.succ |>).
  assert (∃ p1 blk1, st_when ((kb_ref_cnt blk =? 0) && negb (kb_is_null blk)) (on_queue (queue_remove b)) p = Ok (p1, tt) ∧
    queue_rep (bp_queue p1) (filter (fun c => c ≠ b) l) ∧ pool_data p1 = pool_data p ∧ same_config p p1 ∧
    bp_cached p1 = bp_cached p ∧ fq_blocks (bp_queue p1) !! b = Some blk1 ∧ kb_data blk1 = kb_data blk)
    as (p1 & blk1 & Heq & Hq1 & Hd1 & Hc1 & Hm1 & Hblk1 & Hdb).
  { unfold st_when. destruct (Z.eqb_spec (kb_ref_cnt blk) 0) as [Hz|Hz]; cbn [andb].
    - rewrite Hnull. destruct (decide (b = 0)) as [->|Hb0].
      + rewrite bool_decide_eq_true_2 by done. exists p, blk. split_and!; try done. cbn.
        rewrite list_filter_all; [done|]. intros x Hx ->. pose proof (dw_free _ _ _ _ Hwf 0 Hx). lia.
      + rewrite bool_decide_eq_false_2 by done. cbn [negb].
        assert (b ∈ l) as Hin by (apply Hr; [lia|done]).
        destruct (queue_remove_refines (bp_queue p) l b Hq Hin) as (q & Heq & Hq' & Hs).
        pose proof (same_data_lookup _ _ b Hs) as Hdl. rewrite Hblk in Hdl.
        destruct (fq_blocks q !! b) as [blk1|] eqn:Hb1; [|done]. injection Hdl as Hdl1 Hdl2 Hdl3.
        exists (p <| bp_queue := q |>), blk1. split_and!; try done; [by apply on_queue_eq|].
        unfold kb_data. congruence.
    - exists p, blk. split_and!; try done. rewrite list_filter_all; [done|]. intros x Hx ->.
      apply Hz, Hr; [|done]. by apply (dw_free _ _ _ _ Hwf). }
  st_step Heq. rewrite st_bind_set_block by by eexists.
  assert (pool_data (upd b f p1) = alter (d_ref Z.succ) b (pool_data p)) as Hd2.
  { rewrite <- Hd1. by apply pool_data_upd. }
  eexists. split; [done|]. split; [|split; [exact Hc1|split; [exact Hd2|exact Hm1]]].
  split; [by apply (queue_rep_upd b f)|]. pose proof Hc1 as (Hn1 & _).
  change (data_wf (bp_num_gpu_blocks p1) (pool_data (upd b f p1)) (bp_cached p1) (filter (fun c => c ≠ b) l)).
  rewrite Hn1, Hd2, Hm1. apply (data_wf_ref _ _ _ l _ b (kb_data blk)); [done|done|..].
  - intros Hb0. destruct (Hr Hb0) as [H0 _]. cbn. split; [lia|].
    rewrite list_elem_of_filter. split; [tauto|lia].
  - intros c Hc. rewrite list_elem_of_filter. tauto.
  - rewrite list_elem_of_filter. tauto.
Qed.

Lemma touch_spec bs p l :
  pool_wf p l → (∀ b, b ∈ bs → 0 <= b < bp_num_gpu_blocks p) →
  ∃ p', touch bs p = Ok (p', tt) ∧ pool_wf p' (filter (fun c => c ∉ bs) l) ∧ same_config p p' ∧
    pool_data p' = foldl (fun D b => alter (d_ref Z.succ) b D) (pool_data p) bs ∧ bp_cached p' = bp_cached p.
Proof.
  revert p l; induction bs as [|b bs IH]; intros p l Hst Hbs.
  { exists p. rewrite list_filter_all by (intros; apply not_elem_of_nil). done. }
  destruct (touch_block_spec p l b Hst) as (p1 & Heq1 & Hst1 & Hc1 & Hd1 & Hm1); [apply Hbs; left|].
  destruct (IH p1 _ Hst1) as (p2 & Heq2 & Hst2 & Hc2 & Hd2 & Hm2).
  { intros c Hc. destruct Hc1 as (-> & _). apply Hbs. by right. }
  exists p2. unfold touch in *. cbn [st_iter]. st_step Heq1. split_and!; [done| |by etrans| |congruence].
  - rewrite list_filter_filter in Hst2. rewrite (list_filter_ext_in _ (fun c => c ∉ bs ∧ c ≠ b)); [done|].
    intros c _. rewrite not_elem_of_cons. tauto.
  - cbn [foldl]. by rewrite Hd2, Hd1.
Qed.

(** A freed block has no reference left and is not the null block. *)
Definition is_freed (D : gmap Z bdata) b : bool :=
  match D !! b with Some d => (d.1.1 =? 0) && negb d.2 | None => false end.

Lemma freed_blocks_eq bs p :
  (∀ b, b ∈ bs → is_Some (pool_data p !! b)) →
  freed_blocks bs p = Ok (p, filter (fun b => is_freed (pool_data p) b) bs).
Proof.
  induction bs as [|b bs IH]; intros Hbs; [done|]. cbn [freed_blocks]. destruct (Hbs b) as [d Hd]; [left|].
  destruct (pool_data_block p b d Hd) as (blk & Hblk & ->). rewrite (st_bind_pool_block b _ p blk Hblk).
  rewrite (st_bind_eq _ _ _ _ _ (IH (fun c Hc => Hbs c (list_elem_of_further _ _ _ Hc)))).
  assert (is_freed (pool_data p) b = (kb_ref_cnt blk =? 0) && negb (kb_is_null blk)) as Hf
    by (unfold is_freed; by rewrite Hd).
  rewrite filter_cons, Hf. by destruct (_ && _).
Qed.

Definition decr b : pool unit := set_block b (fun blk => blk <| kb_ref_cnt ::= Z.pred |>).

(** The blocks are referenced, the null block apart. *)
Definition referenced (D : gmap Z bdata) b : Prop := b ≠ 0 → ∃ d, D !! b = Some d ∧ 1 <= d.1.1.

Lemma decr_loop bs p l held :
  pool_state p l held → (∀ b, b ∈ bs → 0 <= b < bp_num_gpu_blocks p ∧ referenced (pool_data p) b) →
  NoDup (filter (fun b => b ≠ 0) bs) →
  ∃ p' held', st_iter decr bs p = Ok (p', tt) ∧ pool_state p' l held' ∧ (∀ c, c ∈ held' → c ∈ held ∨ c ∈ bs) ∧
    same_config p p' ∧ pool_data p' = foldl (fun D b => alter (d_ref Z.pred) b D) (pool_data p) bs ∧
    bp_cached p' = bp_cached p.
Proof.
  revert p held; induction bs as [|b bs IH]; intros p held Hst Hbs Hnd; [exists p, held; naive_solver|].
  destruct (Hbs b) as [Hb Href]; [left|]. destruct (pool_data_lookup p l held b Hst Hb) as (blk & Hblk & Hd).
  set (held1 := if decide (b ≠ 0 ∧ kb_ref_cnt blk = 1) then b :: held else held).
  destruct (pool_state_ref p l held held1 b blk (fun blk => blk <| kb_ref_cnt ::= Z.pred |>) Z.pred Hst Hblk) as [Hst1 Hd1];
    [done|done| | | |].
  { intros Hb0. destruct (Href ltac:(lia)) as (d & Hd' & Hge). simplify_eq. cbn in Hge. split; [lia|].
    destruct (dw_ref _ _ _ _ (proj2 Hst) b _ Hb0 Hd) as [_ Hz]. cbn in Hz. unfold held1. case_decide as Hdec.
    - cbn. rewrite elem_of_cons. split; [lia|by left].
    - rewrite Hz. lia. }
  { intros c Hc. unfold held1. case_decide; [|done]. cbn. rewrite elem_of_cons. naive_solver. }
  { intros Hin. unfold held1 in Hin. case_decide; [lia|]. by apply (dw_free _ _ _ _ (proj2 Hst)). }
  set (p1 := upd b _ p) in *. rewrite filter_cons in Hnd.
  destruct (IH p1 held1 Hst1) as (p2 & held2 & Heq2 & Hst2 & Hh2 & Hc2 & Hd2 & Hm2).
  { intros c Hc. destruct (Hbs c) as [Hcn Hcr]; [by right|]. split; [done|]. intros Hc0. rewrite Hd1, lookup_alter_ne.
    - by apply Hcr.
    - intros <-. rewrite decide_True in Hnd by done. apply NoDup_cons in Hnd as [Hn _]. apply Hn.
      by apply list_elem_of_filter. }
  { case_decide; [by apply NoDup_cons in Hnd as [_ ?]|done]. }
  exists p2, held2. split_and!; [|done| |done| |done].
  - assert (decr b p = Ok (p1, tt)) as Heq1 by (apply set_block_eq; by eexists). cbn [st_iter]. by st_step Heq1.
  - intros c Hc. destruct (Hh2 c Hc) as [Hc1|Hc1]; [|right; by right]. unfold held1 in Hc1.
    case_decide; [apply elem_of_cons in Hc1 as [->|?]; [right; left|by left]|by left].
  - cbn [foldl]. by rewrite Hd2, Hd1.
Qed.

Lemma free_blocks_spec p l bs :
  pool_wf p l → (∀ b, b ∈ bs → 0 <= b < bp_num_gpu_blocks p ∧ referenced (pool_data p) b) →
  NoDup (filter (fun b => b ≠ 0) bs) →
  ∃ p', free_blocks bs p = Ok (p', tt) ∧
    pool_wf p' (l ++ filter (fun b => is_freed (pool_data p') b) bs) ∧ same_config p p' ∧
    pool_data p' = foldl (fun D b => alter (d_ref Z.pred) b D) (pool_data p) bs ∧ bp_cached p' = bp_cached p.
Proof.
  intros Hst Hbs Hnd. destruct (decr_loop bs p l [] Hst Hbs Hnd) as (p1 & held & Heq & Hst1 & Hh & Hc & Hd & Hm).
  unfold free_blocks. fold decr in Heq. change (fun b => set_block b _) with decr. st_step Heq.
  pose proof Hst1 as [Hq1 Hwf1]. pose proof Hc as (Hn & _).
  assert (∀ b, b ∈ bs → is_Some (pool_data p1 !! b)) as Hsome.
  { intros b Hb. apply (dw_dom _ _ _ _ Hwf1). left. rewrite Hn. by apply Hbs. }
  st_step (freed_blocks_eq bs p1 Hsome). set (X := filter (fun b => is_freed (pool_data p1) b) bs).
  assert (∀ c, c ∈ X ↔ c ∈ bs ∧ 0 < c ∧ ∃ d, pool_data p1 !! c = Some d ∧ d.1.1 = 0) as HX.
  { intros c. unfold X. rewrite list_elem_of_filter. split.
    - intros [Hf Hin]. split; [done|]. unfold is_freed in Hf. destruct (pool_data p1 !! c) as [d|] eqn:Hdc; [|done].
      apply Is_true_true, andb_true_iff in Hf as [Hz%Z.eqb_eq Hnz%negb_true_iff].
      rewrite (dw_null _ _ _ _ Hwf1 c d Hdc) in Hnz. apply bool_decide_eq_false in Hnz.
      destruct (Hbs c Hin) as [? _]. split; [lia|eauto].
    - intros (Hin & Hc0 & d & Hdc & Hz). split; [|done]. unfold is_freed. rewrite Hdc, Hz.
      rewrite (dw_null _ _ _ _ Hwf1 c d Hdc), bool_decide_eq_false_2 by lia. done. }
  destruct (append_n_spec (bp_queue p1) l X Hq1) as (q & Heq2 & Hq2 & Hs2).
  { unfold X. apply (NoDup_filter_sub _ (fun b => b ≠ 0)); [|done]. intros c Hin Hf.
    assert (c ∈ X) as Hx by by apply list_elem_of_filter. apply HX in Hx as (_ & ? & _). lia. }
  { intros c Hin. pose proof (proj1 (HX c) Hin) as (Hinb & Hc0 & d & Hdc & _). split.
    - destruct (pool_data_block p1 c d Hdc) as (blk & -> & _). by eexists.
    - destruct (Hbs c Hinb) as [Hcn Hcr]. eapply path_real; [exact Hst1|lia|]. intros Hl.
      destruct (Hcr ltac:(lia)) as (d0 & Hd0 & Hge). destruct (dw_ref _ _ _ _ (proj2 Hst) c d0 Hc0 Hd0) as [_ Hz].
      pose proof (proj1 Hz Hl). lia. }
  rewrite (on_queue_eq _ p1 q tt Heq2). eexists. split; [done|].
  assert (pool_data (p1 <| bp_queue := q |>) = pool_data p1) as Hd2 by by apply pool_data_same.
  rewrite Hd2. split_and!; [|done|done|done]. split; [exact Hq2|].
  change (data_wf (bp_num_gpu_blocks p1) (pool_data (p1 <| bp_queue := q |>)) (bp_cached p1) (l ++ X)). rewrite Hd2.
  apply (data_wf_free_ext _ _ _ (held ++ l)); [|done]. intros c. rewrite !elem_of_app, HX. split.
  - intros [Hin|Hin]; [right|by left]. pose proof (dw_free _ _ _ _ Hwf1 c ltac:(apply elem_of_app; by left)).
    destruct (Hh c Hin) as [Hnil|Hinb]; [by apply elem_of_nil in Hnil|]. split_and!; [done|lia|].
    destruct (Hsome c Hinb) as [d Hdc]. exists d. split; [done|].
    apply (dw_ref _ _ _ _ Hwf1 c d); [lia|done|]. apply elem_of_app. by left.
  - intros [?|(Hinb & Hc0 & d & Hdc & Hz)]; [by right|]. apply elem_of_app, (dw_ref _ _ _ _ Hwf1 c d); done.
Qed.

Lemma pool_init_spec n caching hbs events metrics p :
  pool_init n caching hbs events metrics = Ok p →
  pool_wf p (seqZ 1 (n - 1)) ∧ bp_num_gpu_blocks p = n ∧ bp_enable_caching p = caching ∧ bp_hash_block_size p = hbs ∧
  bp_null_block p = 0 ∧ bp_cached p = ∅.
Proof.
  unfold pool_init. destruct (Z.ltb_spec 0 n) as [Hn|]; [|done]. cbn [passert].
  destruct (fresh_queue_rep n) as [Hq Hs]. rewrite (seqZ_cons 0 n Hn) in Hq at 2.
  destruct (popleft_spec _ _ _ Hq) as (q & Hpop & Hq' & Hs'). cbn. rewrite Hpop. cbn.
  destruct (proj2 (same_data_is_Some _ _ 0 Hs')) as [blk0 Hblk0].
  { apply (proj2 (same_data_is_Some _ _ 0 Hs)). rewrite !lookup_insert_ne, fresh_blocks_lookup by done.
    rewrite decide_True by lia. by eexists. }
  unfold blk_set, blk_get, mbind, st_bind, st_get. cbn. rewrite Hblk0. cbn. intros [= <-].
  split_and!; try done. set (p1 := mkBlockPool n caching hbs q ∅ 0 events [] (if metrics then Some [] else None)).
  set (f := fun blk : KVCacheBlock => blk <| kb_is_null := true |>).
  change (pool_wf (upd 0 f p1) (seqZ 1 (n - 1))).
  split; [by apply (queue_rep_upd 0 f)|]. cbn [app].
  assert (pool_data (upd 0 f p1) = alter (fun d => (d.1, true)) 0
            (kb_data <$> <[TAIL := new_block]> (<[HEAD := new_block]> (fresh_blocks n)))) as ->.
  { rewrite (pool_data_upd 0 f (fun d => (d.1, true))) by done. f_equal. unfold pool_data, same_data in *. cbn. congruence. }
  assert (∀ b, alter (fun d : bdata => (d.1, true)) 0 (kb_data <$> <[TAIL := new_block]> (<[HEAD := new_block]> (fresh_blocks n))) !! b =
    if decide (0 <= b < n ∨ b = HEAD ∨ b = TAIL) then Some (0, None, bool_decide (b = 0)) else None) as HD.
  { intros b. rewrite lookup_alter, !lookup_fmap, !lookup_insert, !fresh_blocks_lookup. unfold HEAD, TAIL in *.
    repeat case_decide; try lia; cbn; rewrite ?bool_decide_eq_true_2, ?bool_decide_eq_false_2 by lia; done. }
  split; [done|..].
  - intros b. rewrite HD. case_decide; split; try done; by intros [? ?].
  - intros b d. rewrite HD. case_decide; [by intros [= <-]|done].
  - intros b d Hb. rewrite HD. case_decide as Hd; [intros [= <-]|done]. cbn. rewrite elem_of_seqZ. unfold HEAD, TAIL in Hd. lia.
  - intros b. rewrite elem_of_seqZ. cbn. lia.
  - intros b d k. rewrite HD. case_decide; [by intros [= <-]|done].
  - intros k b. unfold blocks_at. cbn. rewrite lookup_empty, elem_of_nil. split; [done|]. intros (d & Hd & Hk).
    rewrite HD in Hd. case_decide; [|done]. by injection Hd as <-.
  - intros k bs. cbn. by rewrite lookup_empty.
Qed.

Lemma evict_one_spec p l b :
  pool_wf p l → 0 <= b < bp_num_gpu_blocks p →
  ∃ p', evict_one use_int_hashes b p = Ok (p', tt) ∧ pool_wf p' l ∧ same_config p p' ∧
    pool_data p' = alter d_reset b (pool_data p).
Proof.
  intros Hst Hb. unfold evict_one. rewrite st_bind_get, st_bind_assert by (apply Z.ltb_lt; lia).
  assert (st_lift (py_index (seqZ 0 (bp_num_gpu_blocks p)) b) p = Ok (p, b)) as Hix.
  { unfold st_lift. rewrite <- (Z2Nat.id b) at 1 by lia. rewrite py_index_nonneg, lookup_seqZ_lt by lia. cbn.
    by rewrite Z2Nat.id by lia. }
  st_step Hix. destruct (maybe_evict_spec p l [] b Hst Hb) as (p' & e & Heq & ? & ? & ?). st_step Heq. by exists p'.
Qed.

Lemma evict_blocks_spec p l ids :
  pool_wf p l → (∀ b, b ∈ ids → 0 <= b < bp_num_gpu_blocks p) →
  ∃ p', evict_blocks use_int_hashes ids p = Ok (p', tt) ∧ pool_wf p' l ∧ same_config p p' ∧
    pool_data p' = foldl (fun D b => alter d_reset b D) (pool_data p) (elements ids).
Proof.
  intros Hst Hids. unfold evict_blocks. setoid_rewrite <- elem_of_elements in Hids.
  revert p Hst Hids. induction (elements ids) as [|b bs IH]; intros p Hst Hids; [by exists p|].
  destruct (evict_one_spec p l b Hst) as (p1 & Heq1 & Hst1 & Hc1 & Hd1); [apply Hids; left|].
  destruct (IH p1 Hst1) as (p2 & Heq2 & Hst2 & Hc2 & Hd2).
  { intros c Hc. destruct Hc1 as (-> & _). apply Hids. by right. }
  exists p2. cbn [st_iter]. st_step Heq1. split_and!; [done|done|by etrans|]. cbn [foldl]. by rewrite Hd2, Hd1.
Qed.

Lemma reset_hash_loop bs p :
  (∀ b, b ∈ bs → is_Some (pool_data p !! b)) → NoDup bs →
  ∃ p', st_iter (fun b => set_block b reset_hash) bs p = Ok (p', tt) ∧ same_config p p' ∧ bp_cached p' = bp_cached p ∧
    bp_metrics p' = bp_metrics p ∧ bp_kv_event_queue p' = bp_kv_event_queue p ∧
    (∀ l, queue_rep (bp_queue p) l → queue_rep (bp_queue p') l) ∧
    (∀ c, pool_data p' !! c = if decide (c ∈ bs) then d_reset <$> pool_data p !! c else pool_data p !! c).
Proof.
  revert p; induction bs as [|b bs IH]; intros p Hbs Hnd; [by exists p|]. apply NoDup_cons in Hnd as [Hb Hnd].
  destruct (Hbs b) as [d Hd]; [left|]. destruct (pool_data_block p b d Hd) as (blk & Hblk & _).
  pose proof (pool_data_upd b reset_hash d_reset p (fun _ => eq_refl)) as Hd1.
  destruct (IH (upd b reset_hash p)) as (p2 & Heq & Hc & Hm & Hme & Hev & Hq & Hd2); [|done|].
  { intros c Hc. rewrite Hd1, lookup_alter_is_Some. apply Hbs. by right. }
  exists p2. cbn [st_iter]. rewrite st_bind_set_block by by eexists. split_and!; try done.
  { intros l Hl. by apply Hq, queue_rep_upd. }
  intros c. rewrite Hd2, Hd1, lookup_alter. destruct (decide (b = c)) as [->|Hne].
  - rewrite decide_False, decide_True by (done || left). done.
  - destruct (decide (c ∈ bs)); [by rewrite decide_True by by right|].
    rewrite decide_False; [done|]. rewrite elem_of_cons. naive_solver.
Qed.

Lemma reset_prefix_cache_spec p l :
  pool_wf p l →
  ∃ p', reset_prefix_cache p = Ok (p', bool_decide (lenZ l = bp_num_gpu_blocks p - 1)) ∧ pool_wf p' l ∧ same_config p p' ∧
    (lenZ l ≠ bp_num_gpu_blocks p - 1 → p' = p) ∧
    (lenZ l = bp_num_gpu_blocks p - 1 → bp_cached p' = ∅ ∧ pool_data p' = d_reset <$> pool_data p).
Proof.
  intros [Hq Hwf]. unfold reset_prefix_cache. rewrite st_bind_get. unfold get_num_free_blocks. rewrite (proj2 Hq).
  destruct (Z.eqb_spec (bp_num_gpu_blocks p - lenZ l) 1) as [Hn|Hn]; cbn [negb].
  2: { exists p. rewrite bool_decide_eq_false_2 by lia. split_and!; (done || lia). }
  rewrite bool_decide_eq_true_2, st_bind_modify by lia. set (p1 := p <| bp_cached := ∅ |>).
  destruct (reset_hash_loop (seqZ 0 (bp_num_gpu_blocks p)) p1) as (p2 & Heq & Hc & Hm & _ & _ & Hq2 & Hd2); [|apply NoDup_seqZ|].
  { intros b Hb%elem_of_seqZ. apply (dw_dom _ _ _ _ Hwf). lia. }
  assert (pool_data p2 = d_reset <$> pool_data p) as Hd.
  { apply map_eq. intros c. rewrite Hd2, lookup_fmap. case_decide as Hin; [done|]. change (pool_data p1) with (pool_data p).
    destruct (pool_data p !! c) as [d|] eqn:Hdc; [|done]. cbn. f_equal. destruct (d.1.2) as [k|] eqn:Hk.
    - pose proof (dw_hash _ _ _ _ Hwf c d k Hdc Hk). rewrite elem_of_seqZ in Hin.
      destruct (proj1 (dw_dom _ _ _ _ Hwf c)) as [?|?]; [by eexists|lia|unfold HEAD, TAIL in *; lia].
    - destruct d as [[r h] z]. cbn in Hk. by subst. }
  assert (pool_wf p2 l) as Hst2.
  { split; [by apply Hq2|]. pose proof Hc as (Hn2 & _). rewrite Hn2, Hd, Hm. by apply (data_wf_clear _ _ (bp_cached p)). }
  st_step Heq. unfold collect. rewrite st_bind_modify. unfold st_when, emit.
  destruct (bp_enable_kv_cache_events p); rewrite ?st_bind_modify; eexists; (split; [done|]);
    (split; [exact Hst2|split; [exact Hc|split; [lia|done]]]).
Qed.

Lemma peek_loop_spec k l1 l2 p :
  queue_rep (bp_queue p) (l1 ++ l2) →
  peek_loop k (head (l2 ++ [TAIL])) p =
    Ok (p, (fun b => (b, (pool_data p !! b) ≫= (fun d => d.1.2))) <$> take k l2).
Proof.
  revert l1 l2; induction k as [|k IH]; intros l1 l2 Hq; [by destruct l2|].
  destruct l2 as [|b l2]; [done|]. cbn [peek_loop app head].
  pose proof Hq as [Hr _]. destruct (last_split l1) as (pr & a & Ha).
  destruct (head_split l2) as (c & p' & Hc). destruct (heap_rep_mid _ l1 b l2 pr a c p' Hr Ha Hc) as (blk & Hb & _ & Hnext).
  rewrite decide_False.
  2: { intros ->. pose proof (hr_nodup _ _ Hr) as Hnd. unfold path in Hnd. apply NoDup_cons in Hnd as [_ Hnd].
       rewrite <- app_assoc in Hnd. apply NoDup_app in Hnd as (_ & _ & Hnd). cbn in Hnd.
       apply NoDup_cons in Hnd as [Hnd _]. apply Hnd, elem_of_app. right. left. }
  rewrite (st_bind_pool_block b _ p blk Hb), Hnext. rewrite (app_assoc l1 [b] l2 : l1 ++ b :: l2 = _) in Hq.
  specialize (IH (l1 ++ [b]) l2 Hq). rewrite Hc in IH. cbn [head] in IH. st_step IH. cbn.
  unfold pool_data at 2. by rewrite lookup_fmap, Hb.
Qed.

Lemma peek_spec p l limit :
  pool_wf p l → 0 <= limit →
  peek_free_block_frontier limit p =
    Ok (p, (fun b => (b, (pool_data p !! b) ≫= (fun d => d.1.2))) <$> take (Z.to_nat limit) l).
Proof.
  intros [Hq Hwf] Hl. unfold peek_free_block_frontier. rewrite st_bind_assert by (by apply Z.leb_le).
  destruct (head_split l) as (b & p' & Hb). destruct (heap_rep_head _ l b p' (proj1 Hq) Hb) as (hd & Hhd & Hnext).
  rewrite (st_bind_pool_block HEAD _ p hd Hhd), Hnext. rewrite <- (peek_loop_spec (Z.to_nat limit) [] l p Hq). by rewrite Hb.
Qed.

(** A block gets a hash. *)
Lemma pool_state_store p l b blk k :
  pool_wf p l → fq_blocks (bp_queue p) !! b = Some blk → 0 < b → kb_block_hash blk = None →
  let p' := upd b (fun blk => blk <| kb_block_hash := Some k |>) p <| bp_cached ::= bhm_insert k b |> in
  (set_block_hash b k;; st_modify (fun p => p <| bp_cached ::= bhm_insert k b |>)) p = Ok (p', tt) ∧
  pool_wf p' l ∧ same_config p p' ∧ pool_data p' = alter (d_hash k) b (pool_data p).
Proof.
  intros [Hq Hwf] Hb Hb0 Hn. cbn zeta. set (f := fun blk : KVCacheBlock => blk <| kb_block_hash := Some k |>).
  set (p' := upd b f p <| bp_cached ::= _ |>).
  assert (pool_data p' = alter (d_hash k) b (pool_data p)) as Hd by exact (pool_data_upd b f (d_hash k) p (fun _ => eq_refl)).
  split_and!; [| |done|done].
  - assert (set_block_hash b k p = Ok (upd b f p, tt)) as Heq.
    { unfold set_block_hash. rewrite (st_bind_pool_block b _ p blk Hb).
      rewrite st_bind_assert by (by apply bool_decide_eq_true_2). apply set_block_eq. by eexists. }
    by st_step Heq.
  - split; [by apply (queue_rep_upd b f)|]. change (bp_num_gpu_blocks p') with (bp_num_gpu_blocks p). rewrite Hd.
    apply (data_wf_store _ _ (bp_cached p) l b (kb_data blk)); [done| |done|done]. unfold pool_data. by rewrite lookup_fmap, Hb.
Qed.

(** What the loop of [cache_full_blocks] needs at a block: it is masked out, or
    has no hash yet and a hash to get. *)
Definition cacheable (hs : list string) mask (i : nat) (D : gmap Z bdata) b : Prop :=
  b ≠ 0 → masked_out mask (Z.of_nat i) = Ok true ∨
    (masked_out mask (Z.of_nat i) = Ok false ∧ is_Some (hs !! i) ∧ ∃ d, D !! b = Some d ∧ d.1.2 = None).

Lemma cache_loop_spec hs gid mask blocks i p l :
  pool_wf p l → 0 <= gid < 2 ^ 32 → (∀ b, b ∈ blocks → 0 <= b < bp_num_gpu_blocks p) →
  NoDup (filter (fun b => b ≠ 0) blocks) →
  (∀ j b, blocks !! j = Some b → cacheable hs mask (i + j) (pool_data p) b) →
  ∃ p' out, cache_loop use_int_hashes hs gid mask (Z.of_nat i) blocks p = Ok (p', out) ∧ pool_wf p' l ∧ same_config p p' ∧
    (∀ c, c ∉ blocks → pool_data p' !! c = pool_data p !! c) ∧
    (∀ j b d h, blocks !! j = Some b → pool_data p !! b = Some d → b ≠ 0 → hs !! (i + j)%nat = Some h →
      pool_data p' !! b = Some (if masked_out mask (Z.of_nat (i + j)) is Ok false then d_hash (h +:+ be32 gid) d else d)).
Proof.
  intros Hst Hgid. revert i p Hst. induction blocks as [|b blocks IH]; intros i p Hst Hbs Hnd Hc.
  { exists p, []. naive_solver. }
  pose proof (Hc 0%nat b eq_refl) as Hcb. rewrite Nat.add_0_r in Hcb.
  destruct (pool_data_lookup p l [] b Hst) as (blk & Hblk & Hd); [apply Hbs; left|].
  pose proof (dw_null _ _ _ _ (proj2 Hst) b _ Hd) as Hnull. cbn in Hnull.
  rewrite filter_cons in Hnd.
  assert (b ≠ 0 → b ∉ blocks) as Hnb.
  { intros Hb0 Hin. rewrite decide_True in Hnd by done. apply NoDup_cons in Hnd as [Hn _]. apply Hn.
    by apply list_elem_of_filter. }
  assert (∃ p1, (∀ r, cache_loop use_int_hashes hs gid mask (Z.of_nat (S i)) blocks p1 = Ok r →
      ∃ out, cache_loop use_int_hashes hs gid mask (Z.of_nat i) (b :: blocks) p = Ok (r.1, out)) ∧
    pool_wf p1 l ∧ same_config p p1 ∧ (∀ c, c ≠ b → pool_data p1 !! c = pool_data p !! c) ∧
    (b ≠ 0 → ∀ h, hs !! i = Some h → pool_data p1 !! b =
      Some (if masked_out mask (Z.of_nat i) is Ok false then d_hash (h +:+ be32 gid) (kb_data blk) else kb_data blk)))
    as (p1 & Hrun & Hst1 & Hc1 & Hd1 & Hb1).
  { cbn [cache_loop]. rewrite Nat2Z.inj_succ. change (Z.succ (Z.of_nat i)) with (Z.of_nat i + 1).
    rewrite (st_bind_pool_block b _ p blk Hblk), Hnull. destruct (decide (b = 0)) as [->|Hb0].
    { rewrite (bool_decide_eq_true_2 (0 = 0)) by done. exists p. split_and!; try done. intros [p2 out] Hr. by exists out. }
    rewrite (bool_decide_eq_false_2 (b = 0)) by done. destruct (Hcb Hb0) as [Hm|(Hm & [h Hh] & d & Hd' & Hnone)].
    { rewrite (st_bind_lift _ true) by done. exists p. rewrite Hm. split_and!; try done. intros [p2 out] Hr. by exists out. }
    simplify_eq. assert (0 < b) by (pose proof (Hbs b ltac:(left)); lia).
    destruct (pool_state_store p l b blk (h +:+ be32 gid) Hst Hblk) as (Heq & Hst1 & Hc1 & Hd1); [done|done|].
    eexists. split_and!; [|exact Hst1|exact Hc1| |].
    - intros [p2 out] Hr. exists (maybe_convert_block_hash use_int_hashes h :: out).
      rewrite (st_bind_lift _ false) by done. rewrite st_bind_assert by (by apply bool_decide_eq_true_2).
      rewrite (st_bind_lift _ h) by (by rewrite py_index_nonneg, Hh).
      rewrite (st_bind_lift _ _ _ _ (make_key_ok h gid Hgid)). rewrite <- st_bind_assoc. st_step Heq. by st_step Hr.
    - intros c Hcb'. rewrite Hd1. by apply lookup_alter_ne.
    - intros _ h' Hh'. simplify_eq. by rewrite Hm, Hd1, lookup_alter_eq, Hd. }
  destruct (IH (S i) p1 Hst1) as (p2 & out & Heq2 & Hst2 & Hc2 & Ho2 & Hb2).
  - intros c Hin. destruct Hc1 as (-> & _). apply Hbs. by right.
  - case_decide; [by apply NoDup_cons in Hnd as [_ ?]|done].
  - intros j c Hj Hc0. replace (S i + j)%nat with (i + S j)%nat by lia. rewrite Hd1.
    + by apply (Hc (S j) c).
    + intros ->. apply Hnb; [done|]. by eapply list_elem_of_lookup_2.
  - destruct (Hrun _ Heq2) as [out' Hout]. exists p2, out'. split_and!; [exact Hout|done|by etrans|..].
    + intros c [Hcb' Hcs]%not_elem_of_cons. rewrite Ho2, Hd1; done.
    + intros [|j] c d h Hj Hdc Hc0 Hh; cbn in Hj.
      * injection Hj as <-. rewrite Nat.add_0_r in *. rewrite Ho2 by by apply Hnb. rewrite (Hb1 Hc0 h Hh). by simplify_eq.
      * replace (i + S j)%nat with (S i + j)%nat in * by lia. apply Hb2; try done. rewrite Hd1; [done|].
        intros ->. apply Hnb; [done|]. by eapply list_elem_of_lookup_2.
Qed.

Lemma make_key_inv h gid k : make_block_hash_with_group_id h gid = Ok k → k = h +:+ be32 gid.
Proof. unfold make_block_hash_with_group_id. case_match; [by intros [= <-]|done]. Qed.

Lemma st_bind_pool_block_Ok {A} b (f : KVCacheBlock → pool A) p r :
  (pool_block b ≫= f) p = Ok r → ∃ blk, fq_blocks (bp_queue p) !! b = Some blk ∧ f blk p = Ok r.
Proof.
  destruct (fq_blocks (bp_queue p) !! b) as [blk|] eqn:Hb.
  - rewrite (st_bind_pool_block b f p blk Hb). eauto.
  - unfold pool_block, on_queue, blk_get, mbind, st_bind, st_get. by rewrite Hb.
Qed.

Lemma st_lift_Ok {A B} (x : res A) (f : A → pool B) p r : (st_lift x ≫= f) p = Ok r → ∃ v, x = Ok v ∧ f v p = Ok r.
Proof. destruct x; [eauto|done]. Qed.

Lemma st_assert_Ok {B} (c : bool) (f : unit → pool B) p r : (st_assert c ≫= f) p = Ok r → c = true ∧ f tt p = Ok r.
Proof. by destruct c. Qed.

(** Whatever the loop returns with, the pool is well formed, and every new hash is
    one that the loop was given for that block. *)
Lemma cache_loop_wf hs gid mask blocks i p l p' out :
  pool_wf p l → (∀ b, b ∈ blocks → 0 <= b < bp_num_gpu_blocks p) →
  cache_loop use_int_hashes hs gid mask (Z.of_nat i) blocks p = Ok (p', out) →
  pool_wf p' l ∧ same_config p p' ∧
  (∀ c d', pool_data p' !! c = Some d' → ∃ d, pool_data p !! c = Some d ∧ d'.1.1 = d.1.1 ∧
    (d' = d ∨ ∃ j h, blocks !! j = Some c ∧ hs !! (i + j)%nat = Some h ∧ d'.1.2 = Some (h +:+ be32 gid))).
Proof.
  revert i p p' out. induction blocks as [|b blocks IH]; intros i p p' out Hst Hbs; cbn [cache_loop].
  { intros [= <- <-]. split_and!; [done|done|]. intros c d Hd. exists d. split_and!; [done|done|by left]. }
  assert (∀ p1 out1, pool_wf p1 l → same_config p p1 →
    (∀ c d1, pool_data p1 !! c = Some d1 → ∃ d, pool_data p !! c = Some d ∧ d1.1.1 = d.1.1 ∧
      (d1 = d ∨ c = b ∧ ∃ h, hs !! i = Some h ∧ d1.1.2 = Some (h +:+ be32 gid))) →
    cache_loop use_int_hashes hs gid mask (Z.of_nat i + 1) blocks p1 = Ok (p', out1) →
    pool_wf p' l ∧ same_config p p' ∧
    (∀ c d', pool_data p' !! c = Some d' → ∃ d, pool_data p !! c = Some d ∧ d'.1.1 = d.1.1 ∧
      (d' = d ∨ ∃ j h, (b :: blocks) !! j = Some c ∧ hs !! (i + j)%nat = Some h ∧ d'.1.2 = Some (h +:+ be32 gid)))) as Hrec.
  { intros p1 out1 Hst1 Hc1 Hd1 Heq. replace (Z.of_nat i + 1) with (Z.of_nat (S i)) in Heq by lia.
    destruct (IH (S i) p1 p' out1 Hst1) as (Hst2 & Hc2 & Hd2); [|done|].
    { intros c Hc. destruct Hc1 as (-> & _). apply Hbs. by right. }
    split_and!; [done|by etrans|]. intros c d' Hd'. destruct (Hd2 c d' Hd') as (d1 & Hdc1 & Hr1 & Ho1).
    destruct (Hd1 c d1 Hdc1) as (d & Hdc & Hr & Ho). exists d. split_and!; [done|congruence|].
    destruct Ho1 as [->|(j & h & Hj & Hh & Hk)].
    - destruct Ho as [->|(-> & h & Hh & Hk)]; [by left|right]. exists 0%nat, h. by rewrite Nat.add_0_r.
    - right. exists (S j), h. by replace (i + S j)%nat with (S i + j)%nat by lia. }
  intros (blk & Hblk & Hrun)%st_bind_pool_block_Ok. apply st_bind_Ok in Hrun as (p0 & masked & Hm & Hrun).
  assert (p0 = p) as ->.
  { destruct (kb_is_null blk); [by injection Hm|]. unfold st_lift in Hm. destruct (masked_out _ _); [by injection Hm|done]. }
  destruct masked.
  { apply (Hrec p out); [done|done| |done]. intros c d Hd. exists d. split_and!; [done|done|by left]. }
  apply st_assert_Ok in Hrun as [Hnone%bool_decide_eq_true Hrun].
  apply st_lift_Ok in Hrun as (h & Hh & Hrun). apply st_lift_Ok in Hrun as (k & ->%make_key_inv & Hrun).
  rewrite <- st_bind_assoc in Hrun. rewrite py_index_nonneg in Hh. destruct (hs !! i) as [h'|] eqn:Hhi; [|done].
  injection Hh as ->. assert (pool_data p !! b = Some (kb_data blk)) as Hd by (unfold pool_data; by rewrite lookup_fmap, Hblk).
  assert (0 < b) as Hb0.
  { pose proof (Hbs b ltac:(left)). pose proof (dw_null _ _ _ _ (proj2 Hst) b _ Hd) as Hz. cbn in Hz.
    destruct (decide (b = 0)) as [->|]; [|lia]. by rewrite Hz in Hm. }
  destruct (pool_state_store p l b blk (h +:+ be32 gid) Hst Hblk Hb0 Hnone) as (Heq & Hst1 & Hc1 & Hd1).
  rewrite (st_bind_eq _ _ _ _ _ Heq) in Hrun. apply st_bind_Ok in Hrun as (p2 & out2 & Hrun & [= -> _]).
  eapply Hrec; [exact Hst1|exact Hc1| |exact Hrun]. intros c d1. rewrite Hd1, lookup_alter. case_decide as Hcb.
  - subst c. rewrite Hd. intros [= <-]. exists (kb_data blk). split_and!; [done|done|]. right. eauto.
  - intros Hdc. exists d1. split_and!; [done|done|by left].
Qed.

Lemma event_keys_loop_pool blocks mask bs nc ixs mm (r : Request F E) p x :
  event_keys_loop embeds_digest blocks mask bs nc ixs mm r p = Ok x → x.1 = p.
Proof.
  revert mm r x; induction ixs as [|i ixs IH]; intros mm r x; cbn [event_keys_loop]; [by intros [= <-]|].
  intros (b & _ & Hrun)%st_lift_Ok. apply st_bind_pool_block_Ok in Hrun as (blk & _ & Hrun).
  apply st_bind_Ok in Hrun as (p0 & masked & Hm & Hrun).
  assert (p0 = p) as ->.
  { destruct (kb_is_null blk); [by injection Hm|]. unfold st_lift in Hm. destruct (masked_out _ _); [by injection Hm|done]. }
  destruct masked; [by apply IH in Hrun|]. apply st_lift_Ok in Hrun as ([[r1 ks] mm1] & _ & Hrun).
  apply st_bind_Ok in Hrun as (p1 & [r2 rest] & Hrun & [= <-]). by apply IH in Hrun.
Qed.

(** The hashes of the blocks from [num_cached_blocks] on, at the block size of
    the group. *)
Definition new_hashes_of (r : Request F E) hbs nc bs : list string :=
  if bs =? hbs then py_slice (rq_block_hashes r) nc (lenZ (rq_block_hashes r))
  else bhl_from (mkBlockHashList (rq_block_hashes r) (bs / hbs)) nc.

Lemma cache_full_blocks_wf (r : Request F E) blocks nc nf bs gid mask p l p' r' :
  pool_wf p l → (∀ b, b ∈ blocks → 0 <= b < bp_num_gpu_blocks p) →
  cache_full_blocks embeds_digest use_int_hashes r blocks nc nf bs gid mask p = Ok (p', r') →
  pool_wf p' l ∧ same_config p p' ∧
  (∀ c d', pool_data p' !! c = Some d' → ∃ d, pool_data p !! c = Some d ∧ d'.1.1 = d.1.1 ∧
    (d' = d ∨ ∃ j h, py_slice blocks nc nf !! j = Some c ∧ new_hashes_of r (bp_hash_block_size p) nc bs !! j = Some h ∧
       d'.1.2 = Some (h +:+ be32 gid))).
Proof.
  intros Hst Hbs. unfold cache_full_blocks. destruct (nf <=? nc).
  { intros [= <- <-]. split_and!; [done|done|]. intros c d Hd. exists d. split_and!; [done|done|by left]. }
  rewrite st_bind_get. intros [_ Hrun]%st_assert_Ok. apply st_assert_Ok in Hrun as [_ Hrun].
  apply st_bind_Ok in Hrun as (p0 & gh & Hgh & Hrun).
  assert (p0 = p ∧ gh_from gh nc = new_hashes_of r (bp_hash_block_size p) nc bs) as [-> Hfrom].
  { unfold new_hashes_of. destruct (bs =? bp_hash_block_size p); [by injection Hgh as <- <-|].
    apply st_lift_Ok in Hgh as (b & Hb & [= <- <-]). split; [done|]. unfold bhl_init in Hb.
    destruct (bp_hash_block_size p =? 0); [done|]. destruct (bs mod _ =? 0); [|done]. by injection Hb as <-. }
  apply st_bind_Ok in Hrun as (p1 & out & Hloop & Hrun). rewrite Hfrom in Hloop.
  assert (∀ b, b ∈ py_slice blocks nc nf → 0 <= b < bp_num_gpu_blocks p) as Hsl.
  { intros b Hb. apply Hbs. unfold py_slice in Hb. apply (subseteq_take _ _) in Hb. by apply (subseteq_drop _ _) in Hb. }
  destruct (cache_loop_wf _ gid mask _ 0 p l p1 out Hst Hsl Hloop) as (Hst1 & Hc1 & Hd1).
  assert (bp_queue p' = bp_queue p1 ∧ bp_cached p' = bp_cached p1 ∧ same_config p1 p') as (Hq & Hm & Hc).
  { destruct (negb _); [by injection Hrun as <- <-|]. apply st_bind_Ok in Hrun as (p2 & par & Hpar & Hrun).
    assert (p2 = p1) as ->.
    { destruct (nc =? 0); [by injection Hpar|]. by apply st_lift_Ok in Hpar as (h & _ & [= <- _]). }
    apply st_bind_Ok in Hrun as (p3 & [r3 ks] & Hev%event_keys_loop_pool & Hrun). cbn in Hev. subst p3.
    unfold emit in Hrun. rewrite st_bind_modify in Hrun. by injection Hrun as <- <-. }
  split_and!; [|by etrans|].
  - destruct Hst1 as [Hq1 Hwf1]. split; [by rewrite Hq|]. destruct Hc as (-> & _). unfold pool_data in *. by rewrite Hq, Hm.
  - unfold pool_data in *. rewrite Hq. exact Hd1.
Qed.

End operations.
