(* ===== verification/BlockPoolThms.v ===== *)
(** * The block pool: reachable pools

    Runs of [BlockPool] under the contract of its clients (the KV cache managers):
    the accounting of free blocks, allocation, sharing, and what a hit of the
    prefix cache means. *)

From S2P Require Import Prelude PyFloat Protocol Request BlockHash FreeQueue BlockPool.

Section runs.
Context {F E : Type} `{PyFloat F}.
Context (embeds_digest : E → Z → Z → string) (use_int_hashes : bool).
Implicit Types (p : BlockPool) (l bs : list Z) (b : Z).

(** The free blocks, and what a block records. *)
Definition free_list p : list Z :=
  match get_all_free_blocks (S (Z.to_nat (bp_num_gpu_blocks p))) (bp_queue p) with Ok (_, Some l) => l | _ => [] end.
Definition ref_of p b : option Z := kb_ref_cnt <$> fq_blocks (bp_queue p) !! b.
Definition hash_of p b : option string := fq_blocks (bp_queue p) !! b ≫= kb_block_hash.

Definition in_pool p b : Prop := 0 <= b < bp_num_gpu_blocks p.

(** What a client frees: blocks it holds a reference to, each once. *)
Definition freeable p bs : Prop :=
  NoDup (filter (fun b => b ≠ 0) bs) ∧ ∀ b, b ∈ bs → in_pool p b ∧ (b ≠ 0 → ∃ n, ref_of p b = Some n ∧ 1 <= n).

(** What a run does to the hashes of blocks: a call to [cache_full_blocks] (request, its
    blocks, block size and group), blocks given out by [get_new_blocks], blocks named to
    [evict_blocks], and a reset that took place. *)
Inductive pool_event :=
  | Cached (r : Request F E) (blocks : list Z) (block_size group_id : Z)
  | HandedOut (blocks : list Z)
  | Evicted (block_ids : gset Z)
  | WasReset.

(** The event takes block [b] from the prefix cache. *)
Definition drops (e : pool_event) b : Prop :=
  match e with Cached _ _ _ _ => False | HandedOut bs => b ∈ bs | Evicted ids => b ∈ ids | WasReset => True end.

(** The runs of the pool, with their events, most recent first. *)
Inductive pool_run : list pool_event → BlockPool → Prop :=
  | run_init n caching hbs events metrics p : pool_init n caching hbs events metrics = Ok p → pool_run [] p
  | run_new tr p n p' bs :
      pool_run tr p → 0 <= n → get_new_blocks use_int_hashes n p = Ok (p', bs) → pool_run (HandedOut bs :: tr) p'
  | run_touch tr p bs p' : pool_run tr p → (∀ b, b ∈ bs → in_pool p b) → touch bs p = Ok (p', tt) → pool_run tr p'
  | run_free tr p bs p' : pool_run tr p → freeable p bs → free_blocks bs p = Ok (p', tt) → pool_run tr p'
  | run_cache tr p r blocks nc nf sz gid mask p' r' :
      pool_run tr p → (∀ b, b ∈ blocks → in_pool p b) → 0 <= nc → 0 <= nf → 0 <= gid < 2 ^ 32 →
      cache_full_blocks embeds_digest use_int_hashes r blocks nc nf sz gid mask p = Ok (p', r') →
      pool_run (Cached r blocks sz gid :: tr) p'
  | run_evict tr p ids p' :
      pool_run tr p → (∀ b, b ∈ ids → in_pool p b) → evict_blocks use_int_hashes ids p = Ok (p', tt) → pool_run (Evicted ids :: tr) p'
  | run_reset tr p p' (e : bool) : pool_run tr p → reset_prefix_cache p = Ok (p', e) → pool_run (if e then WasReset :: tr else tr) p'
  | run_events tr p p' evs : pool_run tr p → take_events p = Ok (p', evs) → pool_run tr p'.

Lemma ref_of_data p b : ref_of p b = (fun d => d.1.1) <$> pool_data p !! b.
Proof. unfold ref_of, pool_data. rewrite lookup_fmap. by destruct (fq_blocks _ !! b). Qed.
Lemma hash_of_data p b : hash_of p b = pool_data p !! b ≫= (fun d => d.1.2).
Proof. unfold hash_of, pool_data. rewrite lookup_fmap. by destruct (fq_blocks _ !! b). Qed.

Lemma freeable_spec p bs :
  freeable p bs → (∀ b, b ∈ bs → 0 <= b < bp_num_gpu_blocks p ∧ referenced (pool_data p) b) ∧
    NoDup (filter (fun b => b ≠ 0) bs).
Proof.
  intros [Hnd Hf]. split; [|done]. intros b Hb. destruct (Hf b Hb) as [Hin Hr]. split; [done|]. intros Hb0.
  destruct (Hr Hb0) as (n & Hn & Hge). rewrite ref_of_data in Hn. destruct (pool_data p !! b) as [d|]; [|done].
  injection Hn as <-. eauto.
Qed.

Lemma free_length p l : pool_wf p l → NoDup l ∧ lenZ l < bp_num_gpu_blocks p.
Proof.
  intros [Hq Hwf]. pose proof (queue_nodup _ _ Hq) as Hnd. split; [done|].
  pose proof (dw_pos _ _ _ _ Hwf). assert (length l <= length (seqZ 1 (bp_num_gpu_blocks p - 1)))%nat as Hl.
  { apply submseteq_length, NoDup_submseteq; [done|]. intros b Hb. apply elem_of_seqZ.
    pose proof (dw_free _ _ _ _ Hwf b Hb). lia. }
  rewrite length_seqZ in Hl. lia.
Qed.

Lemma free_list_spec p l : pool_wf p l → free_list p = l.
Proof.
  intros Hst. destruct (free_length p l Hst) as [_ Hl]. unfold free_list.
  by rewrite (get_all_free_blocks_spec (bp_queue p) l) by (apply Hst || lia).
Qed.

(** Hashes only disappear. *)
Definition hash_sub (D' D : gmap Z (Z * option string * bool)) : Prop :=
  ∀ b d' k, D' !! b = Some d' → d'.1.2 = Some k → ∃ d, D !! b = Some d ∧ d.1.2 = Some k.

Lemma hash_sub_foldl f bs D :
  (∀ d k, (f d).1.2 = Some k → d.1.2 = Some k) → hash_sub (foldl (fun D b => alter f b D) D bs) D.
Proof.
  intros Hf. revert D; induction bs as [|b bs IH]; intros D; [intros ? ? ? ? ?; eauto|].
  intros c d' k Hd' Hk. destruct (IH _ c d' k Hd' Hk) as (d1 & Hd1 & Hk1). rewrite lookup_alter in Hd1.
  case_decide; [subst|eauto]. apply fmap_Some in Hd1 as (d & Hd & ->). eauto.
Qed.

(** Block [b] got hash [k] as block [i] of a call, and was not taken from the cache
    since. *)
Definition cached_by hbs (tr : list pool_event) b k : Prop :=
  ∃ tr1 tr2 r blocks sz gid (i : nat) h, tr = tr1 ++ Cached r blocks sz gid :: tr2 ∧ (∀ e, e ∈ tr1 → ¬ drops e b) ∧ blocks !! i = Some b ∧
    new_hashes_of r hbs 0 sz !! i = Some h ∧ k = h +:+ be32 gid ∧ 0 <= gid < 2 ^ 32.

Lemma new_hashes_shift (r : Request F E) hbs nc sz j h :
  0 <= nc → new_hashes_of r hbs nc sz !! j = Some h → new_hashes_of r hbs 0 sz !! (Z.to_nat nc + j)%nat = Some h.
Proof.
  intros Hnc. unfold new_hashes_of. destruct (sz =? hbs).
  - rewrite !py_slice_nonneg by lia. rewrite Z.sub_0_r, Nat2Z.id, drop_0.
    intros [Hj _]%lookup_take_Some. by rewrite take_ge, <- lookup_drop by lia.
  - unfold bhl_from. set (n := bhl_len _). rewrite !list_lookup_fmap.
    intros (x & Hx & ->)%fmap_Some. apply lookup_seqZ in Hx as [-> Hlt].
    assert (py_bound n 0 = 0 ∨ n < 0) as Hb0 by (unfold py_bound; cbn; lia).
    assert (0 <= n) as Hn.
    { unfold n, bhl_len. cbn. destruct (Z.eq_dec (sz / hbs) 0) as [->|]; [by rewrite Zdiv_0_r|].
      unfold n, bhl_len in Hlt. cbn in Hlt. unfold py_bound in Hlt. destruct (Z.ltb_spec nc 0); lia. }
    assert (py_bound n nc = nc) as Hb.
    { unfold py_bound in *. destruct (Z.ltb_spec nc 0); [lia|]. lia. }
    rewrite Hb in *. destruct Hb0 as [->|]; [|lia]. rewrite lookup_seqZ_lt by lia. cbn. do 2 f_equal. lia.
Qed.

Lemma cached_by_weaken hbs tr evs b k : cached_by hbs tr b k → (∀ e, e ∈ evs → ¬ drops e b) → cached_by hbs (evs ++ tr) b k.
Proof.
  intros (tr1 & tr2 & r & bl & sz & gid & i & h & -> & Hd & ?) Hevs. exists (evs ++ tr1), tr2, r, bl, sz, gid, i, h. split; [by rewrite app_assoc|].
  split; [|done]. intros e [?|?]%elem_of_app; auto.
Qed.

Lemma foldl_alter_lookup f bs (D : gmap Z (Z * option string * bool)) c :
  NoDup bs → foldl (fun D b => alter f b D) D bs !! c = if decide (c ∈ bs) then f <$> D !! c else D !! c.
Proof.
  revert D; induction bs as [|b bs IH]; intros D Hnd; [done|]. apply NoDup_cons in Hnd as [Hb Hnd].
  cbn [foldl]. rewrite IH, lookup_alter by done. destruct (decide (b = c)) as [->|Hne].
  - rewrite decide_False, decide_True by (done || left). done.
  - destruct (decide (c ∈ bs)); [by rewrite decide_True by by right|].
    rewrite decide_False; [done|]. rewrite elem_of_cons. naive_solver.
Qed.

(** Blocks whose data lost its hash. *)
Lemma foldl_unhashed f bs p p' b :
  pool_data p' = foldl (fun D b => alter f b D) (pool_data p) bs → NoDup bs → (∀ d, (f d).1.2 = None) → b ∈ bs → hash_of p' b = None.
Proof. intros Hd Hnd Hf Hb. rewrite hash_of_data, Hd, foldl_alter_lookup, decide_True by done. destruct (pool_data p !! b) as [d|]; cbn; [apply Hf|done]. Qed.

Lemma get_new_blocks_cases p l n :
  pool_wf p l → 0 <= n →
  (lenZ l < n ∧ get_new_blocks use_int_hashes n p = Err ValueError) ∨
  (n <= lenZ l ∧ ∃ p', get_new_blocks use_int_hashes n p = Ok (p', take (Z.to_nat n) l) ∧ pool_wf p' (drop (Z.to_nat n) l) ∧
    same_config p p' ∧
    pool_data p' = foldl (fun D b => alter (d_alloc (bp_enable_caching p)) b D) (pool_data p) (take (Z.to_nat n) l)).
Proof.
  intros Hst Hn. destruct (Z.lt_ge_cases (lenZ l) n) as [Hlt|Hge]; [left; split; [done|by eapply get_new_blocks_short]|].
  right. split; [done|]. rewrite <- (take_drop (Z.to_nat n) l) in Hst.
  destruct (get_new_blocks_spec use_int_hashes p _ _ Hst) as (p' & Heq & ? & ? & ?). exists p'. split; [|done].
  rewrite <- Heq. f_equal. rewrite length_take. lia.
Qed.

Definition run_inv (tr : list pool_event) p : Prop :=
  (∃ l, pool_wf p l) ∧ (bp_enable_caching p = true → ∀ b k, hash_of p b = Some k → cached_by (bp_hash_block_size p) tr b k).

Lemma run_inv_sub evs tr p p' l :
  run_inv tr p → pool_wf p' l → same_config p p' → hash_sub (pool_data p') (pool_data p) →
  (bp_enable_caching p = true → ∀ b e, e ∈ evs → drops e b → hash_of p' b = None) → run_inv (evs ++ tr) p'.
Proof.
  intros [_ Hk] Hst Hc Hs Hevs. split; [by exists l|]. destruct Hc as (_ & -> & -> & _). intros Hca b k Hb. apply cached_by_weaken.
  - apply Hk; [done|]. rewrite hash_of_data in Hb |- *. destruct (pool_data p' !! b) as [d'|] eqn:Hd'; [|done].
    destruct (Hs b d' k Hd' Hb) as (d & Hd & Hdk). by rewrite Hd.
  - intros e He Hdr. pose proof (Hevs Hca b e He Hdr). congruence.
Qed.

Lemma no_drops b (Q : Prop) (e : pool_event) : e ∈ [] → drops e b → Q.
Proof. by intros ?%elem_of_nil. Qed.

Lemma pool_run_inv tr p : pool_run tr p → run_inv tr p.
Proof.
  induction 1 as [n ca hbs ev me p Hi|tr p n p' bs _ IH Hn Heq|tr p bs p' _ IH Hbs Heq|tr p bs p' _ IH Hf Heq
    |tr p r blocks nc nf sz gid mask p' r' _ IH Hbs Hnc Hnf Hg Heq|tr p ids p' _ IH Hids Heq|tr p p' e _ IH Heq|tr p p' evs _ IH Heq];
    [|pose proof IH as [[l Hst] Hk]..].
  - destruct (pool_init_spec n ca hbs ev me p Hi) as (Hst & _ & _ & _ & _ & Hm). split; [eauto|].
    intros _ b k. rewrite hash_of_data. destruct (pool_data p !! b) as [d|] eqn:Hd; [|done]. cbn. intros Hdk.
    assert (b ∈ blocks_at (bp_cached p) k) as Hin by (apply (dw_cached _ _ _ _ (proj2 Hst)); eauto).
    unfold blocks_at in Hin. rewrite Hm, lookup_empty in Hin. by apply elem_of_nil in Hin.
  - destruct (get_new_blocks_cases p l n Hst Hn) as [[_ Hx]|(_ & p1 & Hx & Hst1 & Hc1 & Hd1)]; rewrite Hx in Heq; [done|].
    injection Heq as <- <-. apply (run_inv_sub [HandedOut _] tr p p1 _ IH Hst1 Hc1).
    + rewrite Hd1. apply hash_sub_foldl. intros d k. by destruct (bp_enable_caching p).
    + intros Hca b e ->%list_elem_of_singleton Hb. eapply foldl_unhashed; [exact Hd1| |by rewrite Hca|exact Hb].
      destruct (free_length p l Hst) as [Hnd _]. by apply (sublist_NoDup _ _ Hnd), sublist_take.
  - destruct (touch_spec bs p l Hst Hbs) as (p1 & Hx & Hst1 & Hc1 & Hd1 & _). rewrite Hx in Heq. injection Heq as <-.
    apply (run_inv_sub [] tr p p1 _ IH Hst1 Hc1); [|intros ? ? ?; apply no_drops]. rewrite Hd1. by apply hash_sub_foldl.
  - apply freeable_spec in Hf as [Hf Hnd]. destruct (free_blocks_spec p l bs Hst Hf Hnd) as (p1 & Hx & Hst1 & Hc1 & Hd1 & _).
    rewrite Hx in Heq. injection Heq as <-. apply (run_inv_sub [] tr p p1 _ IH Hst1 Hc1); [|intros ? ? ?; apply no_drops]. rewrite Hd1. by apply hash_sub_foldl.
  - destruct (cache_full_blocks_wf _ _ r blocks nc nf sz gid mask p l p' r' Hst Hbs Heq) as (Hst1 & Hc1 & Hd1).
    split; [eauto|]. pose proof Hc1 as (_ & -> & -> & _). intros Hca b k. rewrite hash_of_data.
    destruct (pool_data p' !! b) as [d'|] eqn:Hd'; [|done]. cbn. intros Hk'.
    destruct (Hd1 b d' Hd') as (d & Hd & _ & [->|(j & h & Hj & Hh & Hkh)]).
    + apply (cached_by_weaken _ _ [_]); [|intros e ->%list_elem_of_singleton; by intros []]. apply Hk; [done|]. by rewrite hash_of_data, Hd.
    + exists [], tr, r, blocks, sz, gid, (Z.to_nat nc + j)%nat, h. split_and!; [done|by intros e ?%elem_of_nil| |by apply new_hashes_shift|congruence|lia|lia].
      rewrite py_slice_nonneg in Hj by lia. apply lookup_take_Some in Hj as [Hj _]. by rewrite lookup_drop in Hj.
  - destruct (evict_blocks_spec use_int_hashes p l ids Hst Hids) as (p1 & Hx & Hst1 & Hc1 & Hd1). rewrite Hx in Heq.
    injection Heq as <-. apply (run_inv_sub [Evicted _] tr p p1 _ IH Hst1 Hc1); [rewrite Hd1; by apply hash_sub_foldl|].
    intros _ b e ->%list_elem_of_singleton Hb. eapply foldl_unhashed; [exact Hd1|apply NoDup_elements|done|by apply elem_of_elements].
  - destruct (reset_prefix_cache_spec p l Hst) as (p1 & Hx & Hst1 & Hc1 & Hsame & Hd1). rewrite Hx in Heq. injection Heq as <- <-.
    case_bool_decide as Hl; [|rewrite (Hsame Hl); done]. destruct (Hd1 Hl) as [_ Hd].
    assert (∀ b, hash_of p1 b = None) as Hno by (intros b; rewrite hash_of_data, Hd, lookup_fmap; by destruct (pool_data p !! b)).
    apply (run_inv_sub [WasReset] tr p p1 _ IH Hst1 Hc1); [|by intros]. intros b d' k Hd' Hk'. pose proof (Hno b) as Hb. rewrite hash_of_data, Hd' in Hb. cbn in Hb. congruence.
  - unfold take_events in Heq. rewrite st_bind_get in Heq. destruct (negb _); injection Heq as <- _; [done|].
    apply (run_inv_sub [] tr p _ l IH); [exact Hst|done| |intros ? ? ?; apply no_drops]. intros ? ? ? ? ?. eauto.
Qed.

(** C15. In every reachable pool the free queue, walked from its head, lists without
    repetition exactly the blocks other than the null block that have reference
    count 0, [get_num_free_blocks] is its length, no reference count is negative,
    and the index of the prefix cache lists under a hash exactly the blocks that
    carry it.  So no block in use is ever handed out, no block is lost, and an
    index entry never outlives the hash of its block. *)
Theorem pool_accounting tr p :
  pool_run tr p →
  NoDup (free_list p) ∧ get_num_free_blocks p = lenZ (free_list p) ∧
  (∀ b, b ∈ free_list p ↔ 0 < b < bp_num_gpu_blocks p ∧ ref_of p b = Some 0) ∧
  (∀ b, 0 < b < bp_num_gpu_blocks p → ∃ n, ref_of p b = Some n ∧ 0 <= n) ∧
  (∀ b k, b ∈ blocks_at (bp_cached p) k ↔ hash_of p b = Some k).
Proof.
  intros [[l Hst] _]%pool_run_inv. rewrite (free_list_spec p l Hst). pose proof Hst as [[_ Hnum] Hwf].
  assert (∀ b, 0 < b < bp_num_gpu_blocks p → ∃ d, pool_data p !! b = Some d) as Hdom.
  { intros b Hb. apply (dw_dom _ _ _ _ Hwf). lia. }
  split_and!; [by apply (free_length p l Hst)|done|..].
  - intros b. rewrite ref_of_data. split.
    + intros Hb. pose proof (dw_free _ _ _ _ Hwf b Hb) as Hb'. split; [done|]. destruct (Hdom b Hb') as [d Hd].
      rewrite Hd. cbn. f_equal. apply (dw_ref _ _ _ _ Hwf b d); [lia|done|done].
    + intros [Hb Hr]. destruct (Hdom b Hb) as [d Hd]. rewrite Hd in Hr. injection Hr as Hr.
      by apply (dw_ref _ _ _ _ Hwf b d); [lia|..].
  - intros b Hb. destruct (Hdom b Hb) as [d Hd]. exists d.1.1. rewrite ref_of_data, Hd. split; [done|].
    by apply (dw_ref _ _ _ _ Hwf b d); [lia|].
  - intros b k. rewrite (dw_cached _ _ _ _ Hwf), hash_of_data. destruct (pool_data p !! b) as [d|]; naive_solver.
Qed.

(** [get_new_blocks(n)] in a reachable pool: with fewer than [n] free blocks it
    raises [ValueError]; otherwise it returns the [n] blocks at the front of the
    free queue, the least recently used, each now with reference count 1 and, when
    caching is enabled, without hash, removed from the prefix cache; the rest of
    the queue keeps its order and no other block changes. *)
Theorem get_new_blocks_correct tr p n :
  pool_run tr p → 0 <= n →
  if n <=? get_num_free_blocks p then
    ∃ p' bs, get_new_blocks use_int_hashes n p = Ok (p', bs) ∧ lenZ bs = n ∧ free_list p = bs ++ free_list p' ∧
      (∀ b, b ∈ bs → ref_of p b = Some 0 ∧ ref_of p' b = Some 1 ∧ (bp_enable_caching p = true → hash_of p' b = None)) ∧
      (∀ b, b ∉ bs → ref_of p' b = ref_of p b ∧ hash_of p' b = hash_of p b) ∧
      (bp_enable_caching p = true → ∀ b k, b ∈ blocks_at (bp_cached p') k ↔ b ∈ blocks_at (bp_cached p) k ∧ b ∉ bs)
  else get_new_blocks use_int_hashes n p = Err ValueError.
Proof.
  intros [[l Hst] _]%pool_run_inv Hn. pose proof Hst as [[_ Hnum] Hwf]. unfold get_num_free_blocks at 1. rewrite Hnum.
  destruct (get_new_blocks_cases p l n Hst Hn) as [[Hlt Heq]|(Hge & p' & Heq & Hst' & Hc & Hd)];
    [by destruct (Z.leb_spec n (lenZ l)); [lia|]|]. destruct (Z.leb_spec n (lenZ l)); [|lia].
  exists p', (take (Z.to_nat n) l). rewrite (free_list_spec p l Hst), (free_list_spec p' _ Hst').
  destruct (free_length p l Hst) as [Hnd _]. rewrite <- (take_drop (Z.to_nat n) l) in Hnd at 1. apply NoDup_app in Hnd as (Hnd & _ & _).
  assert (∀ b, pool_data p' !! b = if decide (b ∈ take (Z.to_nat n) l) then d_alloc (bp_enable_caching p) <$> pool_data p !! b
    else pool_data p !! b) as Hlook by (intros b; rewrite Hd; by apply foldl_alter_lookup).
  assert (∀ b, b ∈ take (Z.to_nat n) l → ∃ d, pool_data p !! b = Some d ∧ d.1.1 = 0) as Hfree.
  { intros b Hb%subseteq_take. pose proof (dw_free _ _ _ _ Hwf b Hb). destruct (proj2 (dw_dom _ _ _ _ Hwf b)) as [d Hdb]; [lia|].
    exists d. split; [done|]. apply (dw_ref _ _ _ _ Hwf b d); [lia|done|done]. }
  split_and!; [done|rewrite length_take; lia|by rewrite take_drop|..].
  - intros b Hb. destruct (Hfree b Hb) as (d & Hdb & Hr). rewrite !ref_of_data, hash_of_data, Hlook, decide_True, Hdb by done.
    cbn. rewrite Hr. split_and!; [done|by destruct (bp_enable_caching p); cbn; rewrite Hr|by intros ->].
  - intros b Hb. rewrite !ref_of_data, !hash_of_data, Hlook, decide_False by done. done.
  - intros Hca b k. rewrite (dw_cached _ _ _ _ (proj2 Hst')), (dw_cached _ _ _ _ Hwf), Hlook, Hca.
    case_decide as Hb; [|naive_solver]. split; [|naive_solver]. intros (d' & (d & _ & ->)%fmap_Some & ?). done.
Qed.

Lemma get_cached_block_spec p l h gs :
  pool_wf p l → (∀ g, g ∈ gs → 0 <= g < 2 ^ 32) →
  get_cached_block p h gs = Ok (mapM (fun g => head (blocks_at (bp_cached p) (h +:+ be32 g))) gs).
Proof.
  intros Hst. induction gs as [|g gs IH]; intros Hg; [done|]. cbn [get_cached_block mapM].
  rewrite make_key_ok by (apply Hg; left). cbn [mbind res_bind].
  rewrite get_one_block_spec by apply (proj2 Hst). cbn [mbind res_bind]. destruct (head _); [|done]. cbn.
  rewrite IH by (intros; apply Hg; by right). cbn. by destruct (mapM _ gs).
Qed.

Lemma cached_head p l k :
  pool_wf p l →
  match head (blocks_at (bp_cached p) k) with Some b => hash_of p b = Some k | None => ∀ b, hash_of p b ≠ Some k end.
Proof.
  intros [_ Hwf].
  assert (∀ b, b ∈ blocks_at (bp_cached p) k ↔ hash_of p b = Some k) as Hat.
  { intros b. rewrite (dw_cached _ _ _ _ Hwf), hash_of_data. destruct (pool_data p !! b); naive_solver. }
  destruct (blocks_at (bp_cached p) k) as [|b bs]; cbn.
  - intros b Hb. apply Hat in Hb. by apply elem_of_nil in Hb.
  - apply Hat. left.
Qed.

(** Sharing and releasing blocks: [touch] followed by [free_blocks] of the same
    distinct blocks restores every reference count and hash and the whole prefix
    cache.  While they are touched the blocks are out of the free queue; the ones
    that were free end up at its tail, in the order freed, behind all others, so
    a touch refreshes a block in the eviction order. *)
Theorem touch_free_roundtrip tr p bs :
  pool_run tr p → NoDup bs → (∀ b, b ∈ bs → 0 < b < bp_num_gpu_blocks p) →
  ∃ p1 p2, touch bs p = Ok (p1, tt) ∧ free_blocks bs p1 = Ok (p2, tt) ∧
    (∀ b, ref_of p2 b = ref_of p b ∧ hash_of p2 b = hash_of p b) ∧ bp_cached p2 = bp_cached p ∧
    free_list p1 = filter (fun b => b ∉ bs) (free_list p) ∧
    free_list p2 = filter (fun b => b ∉ bs) (free_list p) ++ filter (fun b => b ∈ free_list p) bs.
Proof.
  intros [[l Hst] _]%pool_run_inv Hnd Hbs. pose proof Hst as [_ Hwf].
  destruct (touch_spec bs p l Hst) as (p1 & Heq1 & Hst1 & Hc1 & Hd1 & Hm1); [intros b Hb; specialize (Hbs b Hb); lia|].
  assert (∀ b, pool_data p1 !! b = if decide (b ∈ bs) then d_ref Z.succ <$> pool_data p !! b else pool_data p !! b) as Hl1
    by (intros b; rewrite Hd1; by apply foldl_alter_lookup).
  pose proof Hc1 as (Hn1 & _).
  assert (∀ b, b ∈ bs → ∃ d, pool_data p !! b = Some d ∧ 0 <= d.1.1 ∧ (b ∈ l ↔ d.1.1 = 0)) as Hd.
  { intros b Hb. specialize (Hbs b Hb). destruct (proj2 (dw_dom _ _ _ _ Hwf b)) as [d Hdb]; [lia|]. exists d. split; [done|].
    by apply (dw_ref _ _ _ _ Hwf b d); [lia|]. }
  destruct (free_blocks_spec p1 _ bs Hst1) as (p2 & Heq2 & Hst2 & Hc2 & Hd2 & Hm2).
  { intros b Hb. rewrite Hn1. specialize (Hbs b Hb). split; [lia|]. intros _. destruct (Hd b Hb) as (d & Hdb & Hge & _).
    exists (d_ref Z.succ d). rewrite Hl1, decide_True, Hdb by done. split; [done|]. cbn. lia. }
  { by apply NoDup_filter. }
  assert (pool_data p2 = pool_data p) as Hsame.
  { apply map_eq. intros b. rewrite Hd2, foldl_alter_lookup, Hl1 by done. case_decide; [|done].
    destruct (pool_data p !! b) as [[[r h] z]|]; [|done]. cbn. unfold d_ref. cbn. by rewrite Z.pred_succ. }
  exists p1, p2. split_and!; [done|done| |congruence|..].
  - intros b. by rewrite !ref_of_data, !hash_of_data, Hsame.
  - by rewrite (free_list_spec p l Hst), (free_list_spec p1 _ Hst1).
  - rewrite (free_list_spec p l Hst), (free_list_spec p2 _ Hst2). f_equal. apply list_filter_ext_in. intros b Hb.
    destruct (Hd b Hb) as (d & Hdb & _ & Hz). rewrite Hz. unfold is_freed. rewrite Hsame, Hdb.
    rewrite (dw_null _ _ _ _ Hwf b d Hdb), bool_decide_eq_false_2 by (specialize (Hbs b Hb); lia).
    rewrite andb_true_r. rewrite Is_true_true. apply Z.eqb_eq.
Qed.

Lemma event_keys_total blocks (r : Request F E) p l sz nc ixs mm :
  pool_wf p l → (∀ i, i ∈ ixs → ∃ b, 0 <= i ∧ blocks !! Z.to_nat i = Some b ∧ in_pool p b) → -1 <= mm →
  ∃ r' keys, event_keys_loop embeds_digest blocks None sz nc ixs mm r p = Ok (p, (r', keys)) ∧ same_hash_inputs r r'.
Proof.
  intros Hst. revert mm r; induction ixs as [|i ixs IH]; intros mm r Hix Hmm; cbn [event_keys_loop]; [by exists r, []|].
  destruct (Hix i) as (b & Hi & Hb & Hin); [left|].
  rewrite (st_bind_lift _ b) by (rewrite <- (Z2Nat.id i) by done; by rewrite py_index_nonneg, Hb).
  destruct (pool_data_lookup p l [] b Hst Hin) as (blk & Hblk & _). rewrite (st_bind_pool_block b _ p blk Hblk).
  assert (∀ j, j ∈ ixs → ∃ b, 0 <= j ∧ blocks !! Z.to_nat j = Some b ∧ in_pool p b) as Hix' by (intros j Hj; apply Hix; by right).
  assert ((if kb_is_null blk then mret true else st_lift (masked_out None (i - nc))) p = Ok (p, kb_is_null blk)) as Hm
    by by destruct (kb_is_null blk).
  st_step Hm. destruct (kb_is_null blk); [by apply IH|].
  destruct (generate_total embeds_digest (i * sz) (i * sz + sz) mm r Hmm) as (r1 & ks & mm1 & Hgen & Hmm1 & Hs1).
  rewrite (st_bind_lift _ _ _ _ Hgen). destruct (IH mm1 r1 Hix' Hmm1) as (r2 & keys & Heq & [Hs2 Hs3]). st_step Heq.
  exists r2, (ks :: keys). split; [done|]. destruct Hs1. split; congruence.
Qed.

(** [cache_full_blocks] at the hash block size, over blocks without hash. *)
Lemma cache_full_total p l (r : Request F E) blocks nc nf gid :
  pool_wf p l → (∀ b, b ∈ blocks → in_pool p b) → NoDup (filter (fun b => b ≠ 0) blocks) →
  (∀ i b, (Z.to_nat nc <= i < Z.to_nat nf)%nat → blocks !! i = Some b → b ≠ 0 → hash_of p b = None) →
  0 <= gid < 2 ^ 32 → 0 <= nc < nf → nf <= lenZ blocks → nf <= lenZ (rq_block_hashes r) →
  ∃ p' r', cache_full_blocks embeds_digest use_int_hashes r blocks nc nf (bp_hash_block_size p) gid None p = Ok (p', r') ∧
    pool_wf p' l ∧ same_config p p' ∧ same_hash_inputs r r' ∧ (∀ b, ref_of p' b = ref_of p b) ∧
    (∀ i b h, (Z.to_nat nc <= i < Z.to_nat nf)%nat → blocks !! i = Some b → rq_block_hashes r !! i = Some h → b ≠ 0 →
      hash_of p' b = Some (h +:+ be32 gid)) ∧
    (∀ b, (∀ i, (Z.to_nat nc <= i < Z.to_nat nf)%nat → blocks !! i ≠ Some b) → hash_of p' b = hash_of p b).
Proof.
  intros Hst Hin Hnd Hnone Hg Hnc Hnb Hnh. unfold cache_full_blocks. destruct (Z.leb_spec nf nc) as [|_]; [lia|].
  rewrite st_bind_get, !st_bind_assert by (done || (apply Z.leb_le; lia)). rewrite Z.eqb_refl.
  rewrite (st_bind_eq _ _ p p (PlainHashes (rq_block_hashes r)) eq_refl). cbn [gh_from].
  set (hs := py_slice (rq_block_hashes r) nc (lenZ (rq_block_hashes r))). set (bl := py_slice blocks nc nf).
  assert (∀ j, hs !! j = rq_block_hashes r !! (Z.to_nat nc + j)%nat) as Hhs.
  { intros j. unfold hs. rewrite py_slice_nonneg, take_ge, lookup_drop by (rewrite ?length_drop; lia). done. }
  assert (bl = take (Z.to_nat (nf - nc)) (drop (Z.to_nat nc) blocks)) as Hbl by (apply py_slice_nonneg; lia).
  assert (∀ j b, bl !! j = Some b ↔ (j < Z.to_nat (nf - nc))%nat ∧ blocks !! (Z.to_nat nc + j)%nat = Some b) as Hblj.
  { intros j b. rewrite Hbl, lookup_take_Some, lookup_drop. tauto. }
  assert (∀ b, b ∈ blocks → ∃ d, pool_data p !! b = Some d) as Hdat.
  { intros b Hb. exact (proj2 (dw_dom _ _ _ _ (proj2 Hst) b) (or_introl (Hin b Hb))). }
  destruct (cache_loop_spec use_int_hashes hs gid None bl 0 p l Hst Hg) as (p1 & out & Heq & Hst1 & Hc & Ho & Hd).
  - intros b [j Hj]%list_elem_of_lookup. apply Hblj in Hj as [_ Hj]. apply Hin. by eapply list_elem_of_lookup_2.
  - rewrite <- (take_drop (Z.to_nat nc) blocks), <- (take_drop (Z.to_nat (nf - nc)) (drop _ _)), !filter_app, <- Hbl in Hnd.
    apply NoDup_app in Hnd as (_ & _ & Hnd). by apply NoDup_app in Hnd as (? & _).
  - intros j b [Hj Hb]%Hblj Hb0. right. split; [done|]. cbn. rewrite Hhs. split; [apply lookup_lt_is_Some; lia|].
    pose proof (Hnone (Z.to_nat nc + j)%nat b ltac:(lia) Hb Hb0) as Hn. rewrite hash_of_data in Hn.
    destruct (Hdat b) as [d Hdb]; [by eapply list_elem_of_lookup_2|]. rewrite Hdb in Hn. eauto.
  - assert (∀ i b d, (Z.to_nat nc <= i < Z.to_nat nf)%nat → blocks !! i = Some b → pool_data p !! b = Some d → b ≠ 0 →
      ∃ h, rq_block_hashes r !! i = Some h ∧ pool_data p1 !! b = Some (d_hash (h +:+ be32 gid) d)) as Hnew.
    { intros i b d Hi Hb Hdb Hb0. destruct (lookup_lt_is_Some_2 (rq_block_hashes r) i ltac:(lia)) as [h Hh]. exists h. split; [done|].
      replace i with (Z.to_nat nc + (i - Z.to_nat nc))%nat in Hb, Hh by lia.
      rewrite (Hd (i - Z.to_nat nc)%nat b d h); [done| |done|done|by rewrite Hhs]. apply Hblj. split; [lia|done]. }
    assert (∀ b, (∀ i, (Z.to_nat nc <= i < Z.to_nat nf)%nat → blocks !! i ≠ Some b) → pool_data p1 !! b = pool_data p !! b) as Hold.
    { intros b Hb. apply Ho. intros [j Hj]%list_elem_of_lookup. apply Hblj in Hj as [Hlt Hj]. by apply (Hb (Z.to_nat nc + j)%nat); [lia|]. }
    assert (∀ b, ref_of p1 b = ref_of p b) as Href1.
    { intros b. rewrite !ref_of_data. destruct (pool_data p1 !! b) as [d'|] eqn:Hd'.
      - assert (∀ c, c ∈ bl → 0 <= c < bp_num_gpu_blocks p) as Hbli.
        { intros c [j Hj]%list_elem_of_lookup. apply Hblj in Hj as [_ Hj]. apply Hin. by eapply list_elem_of_lookup_2. }
        destruct (cache_loop_wf use_int_hashes hs gid None bl 0 p l p1 out Hst Hbli Heq) as (_ & _ & Hw).
        destruct (Hw b d' Hd') as (d & -> & Hr & _). cbn. by rewrite Hr.
      - destruct (pool_data p !! b) as [d|] eqn:Hdb; [|done]. exfalso. pose proof Hc as (Hn & _).
        destruct (proj2 (dw_dom _ _ _ _ (proj2 Hst1) b)) as [? ?]; [|congruence]. rewrite Hn.
        apply (dw_dom _ _ _ _ (proj2 Hst)). by eexists. }
    st_step Heq.
    match goal with |- ∃ p' r', ?c p1 = _ ∧ _ =>
      assert (∃ p' r', c p1 = Ok (p', r') ∧ bp_queue p' = bp_queue p1 ∧ bp_cached p' = bp_cached p1 ∧ same_config p1 p' ∧
        same_hash_inputs r r') as (p' & r' & Hev & Hq & Hm & Hc' & Hs) end.
    2: { exists p', r'. split_and!; [exact Hev| |by etrans|done|..].
      - destruct Hst1 as [Hq1 Hwf1]. split; [by rewrite Hq|]. destruct Hc' as (-> & _). unfold pool_data in *. by rewrite Hq, Hm.
      - intros b. rewrite <- Href1. unfold ref_of. by rewrite Hq.
      - intros i b h Hi Hb Hh Hb0. destruct (Hdat b) as [d Hdb]; [by eapply list_elem_of_lookup_2|].
        destruct (Hnew i b d Hi Hb Hdb Hb0) as (h' & Hh' & Hp1). simplify_eq. rewrite hash_of_data. unfold pool_data in *. by rewrite Hq, Hp1.
      - intros b Hb. rewrite !hash_of_data. unfold pool_data in *. by rewrite Hq, Hold. }
    destruct (bp_enable_kv_cache_events p); cbn [negb]; [|by exists p1, r].
    assert (∀ A (f : option (string + Z) → pool A), ∃ par, ((if nc =? 0 then mret None
       else h ← st_lift (gh_get (PlainHashes (rq_block_hashes r)) (nc - 1)); mret (Some (maybe_convert_block_hash use_int_hashes h))) ≫= f) p1 = f par p1) as Hpar.
    { intros A f. destruct (Z.eqb_spec nc 0); [by exists None|]. destruct (lookup_lt_is_Some_2 (rq_block_hashes r) (Z.to_nat (nc - 1)) ltac:(lia)) as [h Hh].
      exists (Some (maybe_convert_block_hash use_int_hashes h)). apply st_bind_eq. rewrite (st_bind_lift _ h); [done|].
      cbn. rewrite <- (Z2Nat.id (nc - 1)) by lia. by rewrite py_index_nonneg, Hh. }
    edestruct Hpar as [par ->]. clear Hpar.
    destruct (event_keys_total blocks r p1 l (bp_hash_block_size p) nc (seqZ nc (nf - nc)) 0 Hst1) as (r' & keys & Hev & Hs); [|lia|].
    { intros i Hi%elem_of_seqZ. destruct (lookup_lt_is_Some_2 blocks (Z.to_nat i) ltac:(lia)) as [b Hb]. exists b. split_and!; [lia|done|].
      pose proof Hc as (Hn & _). unfold in_pool. rewrite Hn. apply Hin. by eapply list_elem_of_lookup_2. }
    st_step Hev. unfold emit. rewrite st_bind_modify. eexists _, r'. split; [done|]. split; [done|]. split; [done|]. done.
Qed.

(** What is cached is found: [cache_full_blocks] over blocks without hash (at the
    hash block size, without mask) returns, gives block [i] of the new full blocks
    the request's hash [i], null blocks apart, and afterwards a lookup of any of
    these hashes hits, with a block that carries it; the request's hashes,
    reference counts and the free queue do not change. *)
Theorem cached_blocks_found tr p (r : Request F E) blocks nc nf gid :
  pool_run tr p → (∀ b, b ∈ blocks → in_pool p b ∧ hash_of p b = None) → NoDup (filter (fun b => b ≠ 0) blocks) →
  0 <= gid < 2 ^ 32 → 0 <= nc < nf → nf <= lenZ blocks → nf <= lenZ (rq_block_hashes r) →
  ∃ p' r', cache_full_blocks embeds_digest use_int_hashes r blocks nc nf (bp_hash_block_size p) gid None p = Ok (p', r') ∧
    free_list p' = free_list p ∧ rq_block_hashes r' = rq_block_hashes r ∧ (∀ b, ref_of p' b = ref_of p b) ∧
    ∀ i b h, (Z.to_nat nc <= i < Z.to_nat nf)%nat → blocks !! i = Some b → rq_block_hashes r !! i = Some h → b ≠ 0 →
      hash_of p' b = Some (h +:+ be32 gid) ∧
      ∃ b', get_cached_block p' h [gid] = Ok (Some [b']) ∧ hash_of p' b' = Some (h +:+ be32 gid).
Proof.
  intros [[l Hst] _]%pool_run_inv Hbs Hnd Hg Hnc Hnb Hnh.
  destruct (cache_full_total p l r blocks nc nf gid Hst) as (p' & r' & Heq & Hst' & _ & [_ Hs] & Href & Hnew & _); try done.
  { intros b Hb. by apply Hbs. }
  { intros i b _ Hb _. apply Hbs. by eapply list_elem_of_lookup_2. }
  exists p', r'. split_and!; [done|by rewrite (free_list_spec p l Hst), (free_list_spec p' l Hst')|done|done|].
  intros i b h Hi Hb Hh Hb0. pose proof (Hnew i b h Hi Hb Hh Hb0) as Hhb. split; [done|].
  rewrite (get_cached_block_spec p' l) by (done || by intros g ->%list_elem_of_singleton). cbn.
  pose proof (cached_head p' l (h +:+ be32 gid) Hst') as Hhd. destruct (head _) as [b'|]; [by exists b'|].
  by destruct (Hhd b Hhb).
Qed.

End runs.

(** ** Hits of the prefix cache *)

Section hits.
Context {F E : Type} `{PyFloat F}.
Context (embeds_digest : E → Z → Z → string) (embeds_len : E → Z) (use_int_hashes : bool).
Context (hash_function : string * list Z * option (list extra_key) → string) (NONE_HASH : string).
Context `{!CollisionFree hash_function NONE_HASH}.
Notation built bs := (built (F := F) embeds_digest embeds_len hash_function NONE_HASH bs).

Lemma key_injective h h' g g' :
  0 <= g < 2 ^ 32 → 0 <= g' < 2 ^ 32 → h +:+ be32 g = h' +:+ be32 g' → h = h' ∧ g = g'.
Proof.
  intros Hg Hg' Heq. destruct (be32_suffix h g Hg) as [H1 H2], (be32_suffix h' g' Hg') as [H1' H2']. split; congruence.
Qed.

(** C6. A hit of the prefix cache serves the right keys and values: let every request
    whose blocks were cached be created and extended by [Request] (not by the next
    input of a streaming session), at the block size of the hashes, and let [h] be the
    hash of block [j] of such a request [r].  With caching enabled, looking [h] up for
    any cache groups does not raise.  If it hits, the block returned for each group
    was cached, in that group, as block [j] of a request that has the same tokens as
    [r] from the start up to the end of block [j]; after that call the block was never
    handed out by [get_new_blocks], evicted, or dropped by a reset, so what was
    written for those tokens was not given to anyone to overwrite.  If it misses, some
    group has no block with that hash. *)
Theorem prefix_hit_sound tr p (r : Request F E) j h gs :
  pool_run embeds_digest use_int_hashes tr p → bp_enable_caching p = true → 0 < bp_hash_block_size p →
  (∀ r1 blocks sz g, Cached r1 blocks sz g ∈ tr → built (bp_hash_block_size p) r1 ∧ sz = bp_hash_block_size p) →
  built (bp_hash_block_size p) r → rq_block_hashes r !! j = Some h → (∀ g, g ∈ gs → 0 <= g < 2 ^ 32) →
  ∃ hit, get_cached_block p h gs = Ok hit ∧
    match hit with
    | Some bs => Forall2 (fun g b => hash_of p b = Some (h +:+ be32 g) ∧
        ∃ tr1 tr2 r1 blocks sz, tr = tr1 ++ Cached r1 blocks sz g :: tr2 ∧ (∀ e, e ∈ tr1 → ¬ drops e b) ∧ blocks !! j = Some b ∧
          take (Z.to_nat (Z.of_nat (S j) * bp_hash_block_size p)) (rq_all_token_ids r1) =
          take (Z.to_nat (Z.of_nat (S j) * bp_hash_block_size p)) (rq_all_token_ids r)) gs bs
    | None => ∃ g, g ∈ gs ∧ ∀ b, hash_of p b ≠ Some (h +:+ be32 g)
    end.
Proof.
  intros [[l Hst] Hby]%pool_run_inv Hca Hbs Htr [Hr _]%built_hashed Hh Hg; [|done].
  rewrite (get_cached_block_spec p l) by done. eexists. split; [done|].
  destruct (mapM _ gs) as [bs|] eqn:Em.
  - apply mapM_Some in Em. apply Forall2_same_length_lookup_2; [by eapply Forall2_length|].
    intros n g b Hgn Hbn. pose proof (Forall2_lookup_lr _ _ _ _ _ _ Em Hgn Hbn) as Hb. apply list_elem_of_lookup_2 in Hgn as Hin.
    pose proof (cached_head p l (h +:+ be32 g) Hst) as Hhd. rewrite Hb in Hhd. split; [done|].
    destruct (Hby Hca b _ Hhd) as (tr1 & tr2 & r1 & blocks & sz & gid & i & h1 & -> & Hdr & Hi & Hh1 & Hk & Hgid).
    apply key_injective in Hk as [<- <-]; [|by apply Hg|done]. destruct (Htr r1 blocks sz g) as [[Hr1 _]%built_hashed ->]; [apply elem_of_app; right; left| |done].
    unfold new_hashes_of in Hh1. rewrite Z.eqb_refl, py_slice_nonneg in Hh1 by lia.
    rewrite Z.sub_0_r, Nat2Z.id, drop_0, take_ge in Hh1 by done.
    destruct (chain_injective hash_function NONE_HASH (bp_hash_block_size p) Hbs _ _ _ _ i j h Hr1 Hr Hh1 Hh) as [-> Ht].
    by exists tr1, tr2, r1, blocks, (bp_hash_block_size p).
  - apply mapM_None in Em as (g & Hin & Hn)%Exists_exists. exists g. split; [done|].
    pose proof (cached_head p l (h +:+ be32 g) Hst) as Hhd. by rewrite Hn in Hhd.
Qed.

End hits.

(** ** Witnesses: a run of a pool of five blocks *)

Definition ex_p0 : BlockPool := from_ok (pool_init 5 true 4 false true) ltac:(vm_compute; reflexivity).
Definition ex_p1 : BlockPool := (from_ok (get_new_blocks false 2 ex_p0) ltac:(vm_compute; reflexivity)).1.
Definition ex_r : Request b64 unit := from_ok (ex_built [10; 11; 12; 13; 1]) ltac:(vm_compute; reflexivity).
Definition ex_r2 : Request b64 unit := from_ok (ex_built [10; 11; 12; 13; 2]) ltac:(vm_compute; reflexivity).
Definition ex_cached := from_ok (cache_full_blocks no_digest false ex_r [1; 2] 0 1 4 0 None ex_p1) ltac:(vm_compute; reflexivity).
(** Block 1 is cached, and both blocks are free again. *)
Definition ex_p3 : BlockPool := (from_ok (free_blocks [2; 1] ex_cached.1) ltac:(vm_compute; reflexivity)).1.

Notation ex_run := (pool_run (F := b64) no_digest false).

Lemma ex_run1 : ex_run [HandedOut [1; 2]] ex_p1.
Proof.
  refine (run_new _ _ [] ex_p0 2 ex_p1 [1; 2] _ ltac:(lia) _); [|vm_compute; reflexivity].
  exact (run_init _ _ 5 true 4 false true _ (from_ok_eq _ _)).
Qed.

Lemma ex_in_pool (p : BlockPool) bs : forallb (fun b => (0 <=? b) && (b <? bp_num_gpu_blocks p)) bs = true → ∀ b, b ∈ bs → in_pool p b.
Proof. intros Hf b Hb. rewrite forallb_forall in Hf. apply list_elem_of_In, Hf in Hb. unfold in_pool. lia. Qed.

Lemma ex_run3 : ex_run [Cached ex_r [1; 2] 4 0; HandedOut [1; 2]] ex_p3.
Proof.
  refine (run_free _ _ _ ex_cached.1 [2; 1] _ _ _ _); [|split|].
  - refine (run_cache _ _ [HandedOut [1; 2]] ex_p1 ex_r [1; 2] 0 1 4 0 None _ ex_cached.2 ex_run1 _ _ _ _ _); [|lia..|].
    + apply ex_in_pool. vm_compute. reflexivity.
    + rewrite <- surjective_pairing. exact (from_ok_eq _ _).
  - apply (bool_decide_unpack _). vm_compute. done.
  - intros b Hb. split; [revert b Hb; apply ex_in_pool; vm_compute; reflexivity|]. intros _.
    exists 1. split; [|lia]. apply elem_of_cons in Hb as [->|Hb%list_elem_of_singleton]; [|subst b]; vm_compute; reflexivity.
  - exact (from_ok_unit _ _).
Qed.

Lemma pool_accounting_witness :
  free_list ex_p3 = [3; 4; 2; 1] ∧ get_num_free_blocks ex_p3 = 4 ∧ (1 ∈ free_list ex_p3 ↔ 0 < 1 < 5 ∧ ref_of ex_p3 1 = Some 0).
Proof.
  destruct (pool_accounting no_digest false _ ex_p3 ex_run3) as (_ & Hn & Hf & _).
  split; [vm_compute; reflexivity|]. split; [rewrite Hn; vm_compute; reflexivity|]. exact (Hf 1).
Defined.

(** The cached block is the last of the four to be reused. *)
Lemma get_new_blocks_correct_witness :
  (∃ p', get_new_blocks false 3 ex_p3 = Ok (p', [3; 4; 2])) ∧ get_new_blocks false 5 ex_p3 = Err ValueError.
Proof.
  split.
  - pose proof (get_new_blocks_correct no_digest false _ ex_p3 3 ex_run3 ltac:(lia)) as Hc.
    assert ((3 <=? get_num_free_blocks ex_p3) = true) as Hle by (vm_compute; reflexivity). rewrite Hle in Hc.
    destruct Hc as (p' & bs & Heq & Hl & Hfl & _). exists p'. rewrite Heq. do 2 f_equal.
    assert (free_list ex_p3 = [3; 4; 2; 1]) as Hfl3 by (vm_compute; reflexivity). rewrite Hfl3 in Hfl.
    apply (f_equal (take 3)) in Hfl. rewrite take_app_length' in Hfl by lia. exact (eq_sym Hfl).
  - exact (get_new_blocks_correct no_digest false _ ex_p3 5 ex_run3 ltac:(lia)).
Defined.

Lemma touch_free_roundtrip_witness :
  ∃ p1 p2, touch [1; 3] ex_p3 = Ok (p1, tt) ∧ free_blocks [1; 3] p1 = Ok (p2, tt) ∧ free_list p1 = [4; 2] ∧
    free_list p2 = [4; 2; 1; 3].
Proof.
  destruct (touch_free_roundtrip no_digest false _ ex_p3 [1; 3] ex_run3) as (p1 & p2 & H1 & H2 & _ & _ & Hf1 & Hf2).
  - apply (bool_decide_unpack _). vm_compute. done.
  - assert (bp_num_gpu_blocks ex_p3 = 5) as -> by (vm_compute; reflexivity).
    intros b [Hb|Hb%list_elem_of_singleton]%elem_of_cons; lia.
  - exists p1, p2. split; [exact H1|]. split; [exact H2|]. split; [rewrite Hf1|rewrite Hf2]; vm_compute; reflexivity.
Defined.

Lemma cached_blocks_found_witness :
  ∃ p' r', cache_full_blocks no_digest false ex_r [1; 2] 0 1 4 0 None ex_p1 = Ok (p', r') ∧ free_list p' = [3; 4].
Proof.
  destruct (cached_blocks_found no_digest false _ ex_p1 ex_r [1; 2] 0 1 0 ex_run1) as (p' & r' & Heq & Hf & _).
  - intros b Hb. split; [revert b Hb; apply ex_in_pool; vm_compute; reflexivity|].
    apply elem_of_cons in Hb as [->|Hb%list_elem_of_singleton]; [|subst b]; vm_compute; reflexivity.
  - apply (bool_decide_unpack _). vm_compute. done.
  - lia.
  - lia.
  - cbn. lia.
  - vm_compute. discriminate.
  - exists p', r'. split; [exact Heq|]. rewrite Hf. vm_compute. reflexivity.
Defined.

(** The three other blocks are handed out; the second request hits the block cached for
    the first. *)
Definition ex_p4 : BlockPool := (from_ok (get_new_blocks false 3 ex_p3) ltac:(vm_compute; reflexivity)).1.

Lemma ex_run4 : ex_run [HandedOut [3; 4; 2]; Cached ex_r [1; 2] 4 0; HandedOut [1; 2]] ex_p4.
Proof. refine (run_new _ _ _ ex_p3 3 ex_p4 [3; 4; 2] ex_run3 ltac:(lia) _). vm_compute. reflexivity. Qed.

Lemma only_cached {F E} (q r1 : Request F E) bs bl x y sz sz' g tr1 tr2 :
  [HandedOut x; Cached q bs sz g; HandedOut y] = tr1 ++ Cached r1 bl sz' g :: tr2 → tr1 = [HandedOut x] ∧ r1 = q.
Proof. destruct tr1 as [|e [|e' [|e'' tr1]]]; cbn; intros Htr; try discriminate; [|by destruct tr1].
  injection Htr as -> -> _ _ _. done.
Qed.

Lemma prefix_hit_sound_witness :
  ∃ h b, rq_block_hashes ex_r2 !! 0%nat = Some h ∧ get_cached_block ex_p4 h [0] = Ok (Some [b]) ∧ b ∉ [3; 4; 2] ∧
    take 4 (rq_all_token_ids ex_r) = take 4 (rq_all_token_ids ex_r2).
Proof.
  set (h := ex_hash ("none", [10; 11; 12; 13], None)). assert (rq_block_hashes ex_r2 !! 0%nat = Some h) as Hh by (vm_compute; reflexivity).
  assert (bp_hash_block_size ex_p4 = 4) as H4 by (vm_compute; reflexivity).
  assert (get_cached_block ex_p4 h [0] = Ok (Some [1])) as Hit by (vm_compute; reflexivity).
  assert (∀ toks H, built no_digest no_len ex_hash "none" 4 (from_ok (ex_built toks) H)) as Hb.
  { intros toks H. apply (ex_built_built toks), from_ok_eq. }
  destruct (prefix_hit_sound no_digest no_len false ex_hash "none" _ ex_p4 ex_r2 0 h [0] ex_run4) as (hit & Heq & Hcase).
  - vm_compute. reflexivity.
  - rewrite H4. lia.
  - rewrite H4. intros r1 blocks sz g. rewrite !elem_of_cons. intros [Hin|[Hin|[Hin|Hin%elem_of_nil]]]; [discriminate| |discriminate|contradiction].
    injection Hin as -> -> -> ->. split; [apply Hb|reflexivity].
  - rewrite H4. apply Hb.
  - exact Hh.
  - intros g ->%list_elem_of_singleton. lia.
  - rewrite Hit in Heq. injection Heq as <-. apply Forall2_cons_1 in Hcase as [(_ & tr1 & tr2 & r1 & bl & sz & Htr & Hdr & _ & Ht) _].
    apply only_cached in Htr as [-> ->]. rewrite H4 in Ht. exists h, 1. split; [exact Hh|]. split; [exact Hit|]. split; [exact (Hdr _ (list_elem_of_here _ _))|exact Ht].
Defined.
