(* ===== verification/SingleType.v ===== *)
(** * The managers of one KV-cache group

    [v1/core/single_type_kv_cache_manager.py]: which blocks each request holds, for
    full, sliding-window, chunked-local and cross attention and for Mamba layers,
    and the lookup of the longest cached prefix for each of them.  The managers of
    all groups share one [BlockPool]. *)

From S2P Require Import Prelude PyFloat Protocol Request BlockHash FreeQueue BlockPool.

(** ** The kinds of layers *)

(** [FullAttentionSpec] and its subclasses. *)
Inductive full_kind := FullPlain | FullTQ | FullMLA | FullHidden | FullSink (sink_len : option Z).

Inductive spec_type :=
  | FullAttentionSpec (kind : full_kind)
  | SlidingWindowSpec (mla : bool) (sliding_window : Z)
  | ChunkedLocalAttentionSpec (attention_chunk_size : Z)
  | MambaSpec (align : bool) (num_speculative_blocks : Z)
  | CrossAttentionSpec.

(** [spec_shape] stands for the fields that describe tensors; only the equality of
    specs depends on them. *)
Record KVCacheSpec := mkSpec { spec_type_of : spec_type; spec_block_size : Z; spec_shape : Z }.

#[global] Instance full_kind_eq_dec : EqDecision full_kind.
Proof. solve_decision. Defined.
#[global] Instance spec_type_eq_dec : EqDecision spec_type.
Proof. solve_decision. Defined.
#[global] Instance KVCacheSpec_eq_dec : EqDecision KVCacheSpec.
Proof. solve_decision. Defined.

Definition cdiv (a b : Z) : Z := - (a / - b).

(** [isinstance(spec, FullAttentionSpec)] *)
Definition is_full (s : KVCacheSpec) : bool := match spec_type_of s with FullAttentionSpec _ => true | _ => false end.
Definition is_cross (s : KVCacheSpec) : bool := match spec_type_of s with CrossAttentionSpec => true | _ => false end.
(** [type(spec) in (FullAttentionSpec, TQFullAttentionSpec)] *)
Definition needs_zeroing (s : KVCacheSpec) : bool :=
  match spec_type_of s with FullAttentionSpec FullPlain | FullAttentionSpec FullTQ => true | _ => false end.

Definition max_admission_blocks_per_request (s : KVCacheSpec) (max_num_batched_tokens max_model_len : Z) : option Z :=
  match spec_type_of s with
  | SlidingWindowSpec _ w =>
      Some (cdiv (Z.min (w - 1 + max_num_batched_tokens) max_model_len) (spec_block_size s) + 1)
  | ChunkedLocalAttentionSpec c => Some (cdiv (Z.min (c + max_num_batched_tokens) max_model_len) (spec_block_size s))
  | _ => None
  end.

(** ** A manager *)

Record SingleTypeKVCacheManager := mkSingleType {
  sm_spec : KVCacheSpec;
  sm_block_size : Z;
  sm_enable_caching : bool;
  sm_max_admission : option Z;
  sm_kv_cache_group_id : Z;
  sm_new_block_ids : list Z;
  sm_req_to_blocks : gmap string (list Z);
  sm_num_cached_block : gmap string Z;
  (** of [MambaManager] and [SinkFullAttentionManager] *)
  sm_cached_blocks_this_step : gset string;
  sm_last_state_block_idx : gmap string Z;
  sm_allocated_block_reqs : gset string;
  sm_sink_blocks : list Z;
}.
#[global] Instance SingleType_settable : Settable SingleTypeKVCacheManager := mk_settable _
  (fun m => mkSingleType (sm_spec m) (sm_block_size m) (sm_enable_caching m) (sm_max_admission m)
     (sm_kv_cache_group_id m) (sm_new_block_ids m) (sm_req_to_blocks m) (sm_num_cached_block m)
     (sm_cached_blocks_this_step m) (sm_last_state_block_idx m) (sm_allocated_block_reqs m) (sm_sink_blocks m)).

(** Operations of a manager, over the pool and its own state. *)
Notation mgr := (st (BlockPool * SingleTypeKVCacheManager)).

Definition on_pool {A} (c : pool A) : mgr A := fun s =>
  match c s.1 with Ok (p, a) => Ok ((p, s.2), a) | Err e => Err e end.
Definition self : mgr SingleTypeKVCacheManager := fun s => Ok (s, s.2).
Definition update (f : SingleTypeKVCacheManager → SingleTypeKVCacheManager) : mgr unit := fun s => Ok ((s.1, f s.2), tt).
Definition null_block : mgr Z := fun s => Ok (s, bp_null_block s.1).

(** [self.req_to_blocks[request_id]] on a [defaultdict]: a missing entry is created. *)
Definition req_blocks (rid : string) : mgr (list Z) :=
  m ← self;
  match sm_req_to_blocks m !! rid with
  | Some bs => mret bs
  | None => update (fun m => m <| sm_req_to_blocks ::= insert rid [] |>);; mret []
  end.
Definition set_req_blocks (rid : string) (bs : list Z) : mgr unit :=
  update (fun m => m <| sm_req_to_blocks ::= insert rid bs |>).

Definition single_type_init (spec : KVCacheSpec) (enable_caching : bool) (kv_cache_group_id dcp_world_size pcp_world_size : Z)
    (max_admission : option Z) : SingleTypeKVCacheManager :=
  let bs := if 1 <? dcp_world_size * pcp_world_size then spec_block_size spec * (dcp_world_size * pcp_world_size)
            else spec_block_size spec in
  mkSingleType spec bs enable_caching max_admission kv_cache_group_id [] ∅ ∅ ∅ ∅ ∅ [].

(** [get_manager_for_kv_cache_spec]; the manager of sink attention takes its sink
    blocks out of the free queue. *)
Definition get_manager_for_kv_cache_spec (spec : KVCacheSpec) (max_num_batched_tokens max_model_len : Z)
    (enable_caching : bool) (kv_cache_group_id dcp_world_size pcp_world_size : Z) : pool SingleTypeKVCacheManager :=
  let m := single_type_init spec enable_caching kv_cache_group_id dcp_world_size pcp_world_size
             (max_admission_blocks_per_request spec max_num_batched_tokens max_model_len) in
  match spec_type_of spec with
  | FullAttentionSpec (FullSink sink_len) =>
      match sink_len with
      | None => st_raise AssertionError
      | Some n =>
          st_assert ((0 <? n) && (n mod sm_block_size m =? 0));;
          sink ← on_queue (popleft_n (n / sm_block_size m));
          mret (m <| sm_sink_blocks := sink |>)
      end
  | _ => mret m
  end.

(** ** Demand *)

Definition get_num_skipped_tokens (m : SingleTypeKVCacheManager) (num_computed_tokens : Z) : Z :=
  match spec_type_of (sm_spec m) with
  | SlidingWindowSpec _ w => Z.max 0 (num_computed_tokens - w + 1)
  | ChunkedLocalAttentionSpec c => num_computed_tokens / c * c
  | MambaSpec _ _ => num_computed_tokens - 1
  | FullAttentionSpec _ | CrossAttentionSpec => 0
  end.

Fixpoint get_num_evictable_blocks (blocks : list Z) : pool Z :=
  match blocks with
  | [] => mret 0
  | b :: blocks =>
      blk ← pool_block b;
      n ← get_num_evictable_blocks blocks;
      mret (Z.b2z ((kb_ref_cnt blk =? 0) && negb (kb_is_null blk)) + n)
  end.

(** [SingleTypeKVCacheManager.get_num_blocks_to_allocate] *)
Definition base_num_blocks_to_allocate (rid : string) (num_tokens : Z) (new_computed_blocks : list Z)
    (total_computed_tokens : Z) (apply_admission_cap : bool) : mgr Z :=
  m ← self;
  let num_required_blocks := cdiv num_tokens (sm_block_size m) in
  let num_required_blocks :=
    match sm_max_admission m with
    | Some cap => if apply_admission_cap then Z.min num_required_blocks cap else num_required_blocks
    | None => num_required_blocks
    end in
  let num_req_blocks := lenZ (default [] (sm_req_to_blocks m !! rid)) in
  match sm_num_cached_block m !! rid with
  | Some _ =>
      st_assert (lenZ new_computed_blocks =? 0);;
      mret (Z.max (num_required_blocks - num_req_blocks) 0)
  | None =>
      let num_skipped_blocks := get_num_skipped_tokens m total_computed_tokens / sm_block_size m in
      let num_local_computed_blocks := lenZ new_computed_blocks + num_req_blocks in
      let num_new_blocks := Z.max (num_required_blocks - Z.max num_skipped_blocks num_local_computed_blocks) 0 in
      let num_skipped_new_computed_blocks := Z.max 0 (num_skipped_blocks - num_req_blocks) in
      num_evictable_blocks ←
        on_pool (get_num_evictable_blocks
          (py_slice new_computed_blocks num_skipped_new_computed_blocks (lenZ new_computed_blocks)));
      mret (num_new_blocks + num_evictable_blocks)
  end.

(** [MambaManager.get_num_blocks_to_allocate] *)
Definition mamba_num_blocks_to_allocate (align : bool) (num_speculative_blocks : Z) (rid : string) (num_tokens : Z)
    (new_computed_blocks : list Z) (total_computed_tokens num_tokens_main_model : Z) (apply_admission_cap : bool) : mgr Z :=
  m ← self;
  fresh ←
    (match last new_computed_blocks with
     | None => mret false
     | Some b =>
         blk ← on_pool (pool_block b);
         mret (match kb_block_hash blk with
               | Some k => bool_decide (k ∈ sm_cached_blocks_this_step m)
               | None => false
               end)
     end);
  if fresh : bool then p ← on_pool st_get; mret (bp_num_gpu_blocks p + 1)
  else if negb align then
    let num_tokens :=
      if 0 <? num_speculative_blocks then num_tokens + spec_block_size (sm_spec m) * num_speculative_blocks
      else num_tokens in
    base_num_blocks_to_allocate rid num_tokens new_computed_blocks total_computed_tokens apply_admission_cap
  else
    held ← req_blocks rid;
    let num_required_blocks := cdiv num_tokens_main_model (sm_block_size m) + num_speculative_blocks in
    let num_new_blocks := num_required_blocks - lenZ new_computed_blocks - lenZ held in
    let num_new_blocks :=
      if 0 <? num_new_blocks then
        if bool_decide (rid ∈ sm_allocated_block_reqs m) then 1 else 1 + num_speculative_blocks
      else num_new_blocks in
    num_evictable ← on_pool (get_num_evictable_blocks new_computed_blocks);
    mret (num_new_blocks + num_evictable).

Definition sm_get_num_blocks_to_allocate (rid : string) (num_tokens : Z) (new_computed_blocks : list Z)
    (total_computed_tokens num_tokens_main_model : Z) (apply_admission_cap : bool) : mgr Z :=
  m ← self;
  match spec_type_of (sm_spec m) with
  | MambaSpec align n =>
      mamba_num_blocks_to_allocate align n rid num_tokens new_computed_blocks total_computed_tokens num_tokens_main_model
        apply_admission_cap
  | _ => base_num_blocks_to_allocate rid num_tokens new_computed_blocks total_computed_tokens apply_admission_cap
  end.

(** ** Allocation *)

Section managers.
Context {F E : Type} `{PyFloat F}.
Context (embeds_digest : E → Z → Z → string) (use_int_hashes : bool).

Definition new_pool_blocks (n : Z) : mgr (list Z) := on_pool (get_new_blocks use_int_hashes n).

(** Blocks of plain full attention are recorded, to be zeroed. *)
Definition record_new_blocks (blocks : list Z) : mgr unit :=
  m ← self;
  st_when (needs_zeroing (sm_spec m)) (update (fun m => m <| sm_new_block_ids ::= fun l => l ++ blocks |>)).

Definition base_allocate_new_computed_blocks (rid : string) (new_computed_blocks : list Z)
    (num_local_computed_tokens num_external_computed_tokens : Z) : mgr unit :=
  m ← self;
  match sm_num_cached_block m !! rid with
  | Some _ => st_assert (lenZ new_computed_blocks =? 0)
  | None =>
      held ← req_blocks rid;
      st_assert (lenZ held =? 0);;
      let num_total_computed_tokens := num_local_computed_tokens + num_external_computed_tokens in
      let num_skipped_tokens := get_num_skipped_tokens m num_total_computed_tokens in
      let num_skipped_blocks := num_skipped_tokens / sm_block_size m in
      let computed :=
        if 0 <? num_skipped_blocks then py_slice new_computed_blocks num_skipped_blocks (lenZ new_computed_blocks)
        else new_computed_blocks in
      let num_external_computed_tokens :=
        if 0 <? num_skipped_blocks then Z.min (num_total_computed_tokens - num_skipped_tokens) num_external_computed_tokens
        else num_external_computed_tokens in
      (if sm_enable_caching m then on_pool (touch computed)
       else st_assert (match computed with [] => true | _ => false end));;
      null ← null_block;
      let held := replicate (Z.to_nat num_skipped_blocks) null ++ computed in
      set_req_blocks rid held;;
      update (fun m => m <| sm_num_cached_block ::= insert rid (lenZ held) |>);;
      st_when (0 <? num_external_computed_tokens)
        (allocated ← new_pool_blocks (cdiv num_total_computed_tokens (sm_block_size m) - lenZ held);
         set_req_blocks rid (held ++ allocated);;
         record_new_blocks allocated;;
         mret tt)
  end.

Definition sm_allocate_new_computed_blocks (rid : string) (new_computed_blocks : list Z)
    (num_local_computed_tokens num_external_computed_tokens : Z) : mgr unit :=
  m ← self;
  if is_cross (sm_spec m) then st_assert (lenZ new_computed_blocks =? 0)
  else base_allocate_new_computed_blocks rid new_computed_blocks num_local_computed_tokens num_external_computed_tokens.

Definition base_allocate_new_blocks (rid : string) (num_tokens : Z) : mgr (list Z) :=
  m ← self;
  held ← req_blocks rid;
  let num_new_blocks := cdiv num_tokens (sm_block_size m) - lenZ held in
  if num_new_blocks <=? 0 then mret []
  else
    new_blocks ← new_pool_blocks num_new_blocks;
    set_req_blocks rid (held ++ new_blocks);;
    record_new_blocks new_blocks;;
    mret new_blocks.

(** The loop of [MambaManager.allocate_new_blocks] that moves the speculative
    blocks of the previous step to the end, leaving null blocks. *)
Fixpoint reuse_loop (null num_skipped_blocks : Z) (idxs : list Z) (held : list Z) : res (list Z) :=
  match idxs with
  | [] => Ok held
  | i :: idxs =>
      if i <? num_skipped_blocks then
        b ← py_index held i;
        let held := held ++ [b] in
        let j := Z.to_nat (if i <? 0 then lenZ held + i else i) in
        reuse_loop null num_skipped_blocks idxs (<[j := null]> held)
      else Ok held
  end.

(** [MambaManager.allocate_new_blocks] in align mode. *)
Definition mamba_allocate_new_blocks (num_speculative_blocks : Z) (rid : string) (num_tokens_main_model : Z) : mgr (list Z) :=
  m ← self;
  held ← req_blocks rid;
  let num_required_blocks := cdiv num_tokens_main_model (sm_block_size m) + num_speculative_blocks in
  if num_required_blocks =? lenZ held then mret []
  else
    st_assert (lenZ held <? num_required_blocks);;
    let prev_block_len := lenZ held in
    let blocks_allocated := bool_decide (rid ∈ sm_allocated_block_reqs m) in
    (if blocks_allocated then
       update (fun m => m <| sm_last_state_block_idx ::= insert rid (prev_block_len - 1 - num_speculative_blocks) |>)
     else
       st_when (0 <? prev_block_len) (update (fun m => m <| sm_last_state_block_idx ::= insert rid (prev_block_len - 1) |>)));;
    let num_skipped_blocks := num_required_blocks - num_speculative_blocks - 1 in
    null ← null_block;
    let held := held ++ replicate (Z.to_nat (num_skipped_blocks - prev_block_len)) null in
    held ←
      st_lift (if blocks_allocated
               then reuse_loop null num_skipped_blocks (seqZ (prev_block_len - num_speculative_blocks) num_speculative_blocks) held
               else Ok held);
    let num_new_blocks := num_required_blocks - lenZ held in
    st_assert (num_new_blocks <=? (if blocks_allocated then 1 else num_speculative_blocks + 1));;
    new_blocks ← new_pool_blocks num_new_blocks;
    let held := held ++ new_blocks in
    set_req_blocks rid held;;
    update (fun m => m <| sm_allocated_block_reqs ::= union {[rid]} |>);;
    mret (py_slice held prev_block_len (lenZ held)).

Definition sm_allocate_new_blocks (rid : string) (num_tokens num_tokens_main_model : Z) : mgr (list Z) :=
  m ← self;
  match spec_type_of (sm_spec m) with
  | MambaSpec false n =>
      base_allocate_new_blocks rid (if 0 <? n then num_tokens + sm_block_size m * n else num_tokens)
  | MambaSpec true n => mamba_allocate_new_blocks n rid num_tokens_main_model
  | _ => base_allocate_new_blocks rid num_tokens
  end.

Definition take_new_block_ids : mgr (list Z) :=
  m ← self;
  update (fun m => m <| sm_new_block_ids := [] |>);;
  mret (sm_new_block_ids m).

(** ** Caching *)

Definition cache_block_mask (m : SingleTypeKVCacheManager) (num_cached_blocks num_full_blocks alignment_tokens : Z)
    : res (option (list bool)) :=
  match spec_type_of (sm_spec m) with
  | SlidingWindowSpec _ w =>
      passert (sm_block_size m <? alignment_tokens);;
      let per_segment := alignment_tokens / sm_block_size m in
      let tail := cdiv (w - 1) (sm_block_size m) in
      if per_segment <=? tail then Ok None
      else Ok (Some ((fun i => per_segment - tail <=? i mod per_segment) <$>
                     seqZ num_cached_blocks (num_full_blocks - num_cached_blocks)))
  | _ => Ok None
  end.

Definition base_cache_blocks (r : Request F E) (num_tokens : Z) (alignment_tokens : option Z) : mgr (Request F E) :=
  m ← self;
  let rid := rq_request_id r in
  let num_cached_blocks := default 0 (sm_num_cached_block m !! rid) in
  let num_full_blocks := num_tokens / sm_block_size m in
  if num_full_blocks <=? num_cached_blocks then mret r
  else
    block_mask ←
      st_lift (match alignment_tokens with
               | None => Ok None
               | Some a => if a <=? sm_block_size m then Ok None else cache_block_mask m num_cached_blocks num_full_blocks a
               end);
    blocks ← req_blocks rid;
    r ← on_pool (cache_full_blocks embeds_digest use_int_hashes r blocks num_cached_blocks num_full_blocks
                   (sm_block_size m) (sm_kv_cache_group_id m) block_mask);
    update (fun m => m <| sm_num_cached_block ::= insert rid num_full_blocks |>);;
    mret r.

(** The hashes of the blocks Mamba layers cached in this step. *)
Fixpoint collect_hashes (blocks : list Z) : mgr unit :=
  match blocks with
  | [] => mret tt
  | b :: blocks =>
      blk ← on_pool (pool_block b);
      st_when (negb (kb_is_null blk))
        (match kb_block_hash blk with
         | None => st_raise AssertionError
         | Some k => update (fun m => m <| sm_cached_blocks_this_step ::= union {[k]} |>)
         end);;
      collect_hashes blocks
  end.

Definition sm_cache_blocks (r : Request F E) (num_tokens : Z) (alignment_tokens : option Z) : mgr (Request F E) :=
  m ← self;
  match spec_type_of (sm_spec m) with
  | CrossAttentionSpec => st_raise ValueError
  | MambaSpec _ _ =>
      let before := default 0 (sm_num_cached_block m !! rq_request_id r) in
      r ← base_cache_blocks r num_tokens alignment_tokens;
      m ← self;
      let after := default 0 (sm_num_cached_block m !! rq_request_id r) in
      st_when (before <? after)
        (blocks ← req_blocks (rq_request_id r); collect_hashes (py_slice blocks before after));;
      mret r
  | _ => base_cache_blocks r num_tokens alignment_tokens
  end.

(** ** Release *)

Definition base_free (rid : string) : mgr unit :=
  m ← self;
  update (fun m => m <| sm_req_to_blocks ::= delete rid |>);;
  on_pool (free_blocks (reverse (default [] (sm_req_to_blocks m !! rid))));;
  update (fun m => m <| sm_num_cached_block ::= delete rid |>).

Definition sm_free (rid : string) : mgr unit :=
  m ← self;
  (match spec_type_of (sm_spec m) with
   | MambaSpec true _ =>
       update (fun m => m <| sm_allocated_block_reqs ::= fun s => s ∖ {[rid]} |> <| sm_last_state_block_idx ::= delete rid |>)
   | _ => mret tt
   end);;
  base_free rid.

(** The loop of [remove_skipped_blocks] over the first [n] blocks, from the last
    one back: the blocks removed, in that order, and the list with null blocks in
    their place. *)
Fixpoint skip_loop (null : Z) (n : nat) (blocks : list Z) : list Z * list Z :=
  match n with
  | O => ([], blocks)
  | S n =>
      match blocks !! n with
      | None => ([], blocks)
      | Some b =>
          if decide (b = null) then ([], blocks)
          else let '(removed, blocks) := skip_loop null n (<[n := null]> blocks) in (b :: removed, blocks)
      end
  end.

Definition base_remove_skipped_blocks (rid : string) (total_computed_tokens : Z) : mgr unit :=
  m ← self;
  let num_skipped_tokens := get_num_skipped_tokens m total_computed_tokens in
  if num_skipped_tokens <=? 0 then mret tt
  else
    blocks ← req_blocks rid;
    null ← null_block;
    let num_skipped_blocks := Z.min (num_skipped_tokens / sm_block_size m) (lenZ blocks) in
    let '(removed, blocks) := skip_loop null (Z.to_nat num_skipped_blocks) blocks in
    set_req_blocks rid blocks;;
    on_pool (free_blocks removed).

(** [MambaManager.remove_skipped_blocks] *)
Definition mamba_remove_skipped_blocks (align : bool) (num_speculative_blocks : Z) (rid : string) (num_computed_tokens : Z)
    : mgr unit :=
  let num_computed_tokens := Z.max 0 (num_computed_tokens - num_speculative_blocks) in
  base_remove_skipped_blocks rid num_computed_tokens;;
  m ← self;
  match sm_last_state_block_idx m !! rid with
  | Some idx =>
      st_when (align && (idx <? cdiv num_computed_tokens (sm_block_size m) - 1))
        (blocks ← req_blocks rid;
         b ← st_lift (py_index blocks idx);
         null ← null_block;
         st_when (negb (bool_decide (b = null)))
           (on_pool (free_blocks [b]);;
            let j := Z.to_nat (if idx <? 0 then lenZ blocks + idx else idx) in
            set_req_blocks rid (<[j := null]> blocks)))
  | None => mret tt
  end.

Definition sm_remove_skipped_blocks (rid : string) (total_computed_tokens : Z) : mgr unit :=
  m ← self;
  match spec_type_of (sm_spec m) with
  | MambaSpec align n => mamba_remove_skipped_blocks align n rid total_computed_tokens
  | _ => base_remove_skipped_blocks rid total_computed_tokens
  end.

Definition sm_new_step_starts : mgr unit :=
  m ← self;
  match spec_type_of (sm_spec m) with
  | MambaSpec _ _ => update (fun m => m <| sm_cached_blocks_this_step := ∅ |>)
  | _ => mret tt
  end.

(** The common prefix: the leading blocks that every request holds. *)
Fixpoint common_loop (num_requests : Z) (blocks : list Z) : pool Z :=
  match blocks with
  | [] => mret 0
  | b :: blocks =>
      blk ← pool_block b;
      if kb_ref_cnt blk =? num_requests then n ← common_loop num_requests blocks; mret (1 + n) else mret 0
  end.

Definition sm_get_num_common_prefix_blocks (rid : string) : mgr Z :=
  m ← self;
  if is_full (sm_spec m) then
    blocks ← req_blocks rid;
    m ← self;
    on_pool (common_loop (Z.of_nat (size (sm_req_to_blocks m))) blocks)
  else mret 0.

End managers.

(** ** The longest cached prefix

    One list of blocks per group, for all groups with the same layers. *)

Notation hits := (list (list Z)).

(** [len(computed_blocks[0])] *)
Definition hit_len (computed : hits) : res Z :=
  match computed with [] => Err IndexError | c :: _ => Ok (lenZ c) end.

(** [for computed in computed_blocks: computed.pop()] *)
Definition pop_one (l : list Z) : res (list Z) :=
  match l with [] => Err IndexError | _ => Ok (removelast l) end.
Definition pop_all (computed : hits) : res hits :=
  foldr (fun c acc => c ← pop_one c; acc ← acc; Ok (c :: acc)) (Ok []) computed.

(** The [while] loop that pops to the alignment: at most one iteration per block. *)
Fixpoint align_loop (fuel : nat) (block_size alignment_tokens : Z) (computed : hits) : res hits :=
  n ← hit_len computed;
  if n * block_size mod alignment_tokens =? 0 then Ok computed
  else
    match fuel with
    | O => Err OutOfFuel
    | S fuel => computed ← pop_all computed; align_loop fuel block_size alignment_tokens computed
    end.
Definition align_hits (block_size alignment_tokens : Z) (computed : hits) : res hits :=
  if block_size =? alignment_tokens then Ok computed
  else n ← hit_len computed; align_loop (Z.to_nat n) block_size alignment_tokens computed.

(** [if use_eagle and computed_blocks[0]: pop] *)
Definition eagle_pop (use_eagle : bool) (computed : hits) : res hits :=
  if use_eagle then n ← hit_len computed; if n =? 0 then Ok computed else pop_all computed else Ok computed.

(** [if cached_block := block_pool.get_cached_block(...)]: a non-empty list. *)
Definition cached_row (p : BlockPool) (h : string) (gids : list Z) : res (option (list Z)) :=
  c ← get_cached_block p h gids;
  Ok match c with Some (b :: bs) => Some (b :: bs) | _ => None end.

(** [for computed, cached in zip(computed_blocks, cached_block): computed.append(cached)] *)
Definition append_row (computed : hits) (row : list Z) : hits := zip_with (fun c b => c ++ [b]) computed row.

(** The leading hashes that are cached. *)
Fixpoint prefix_loop (p : BlockPool) (gids : list Z) (hashes : list string) (computed : hits) : res hits :=
  match hashes with
  | [] => Ok computed
  | h :: hashes =>
      row ← cached_row p h gids;
      match row with
      | Some row => prefix_loop p gids hashes (append_row computed row)
      | None => Ok computed
      end
  end.

(** [FullAttentionManager.find_longest_cache_hit] *)
Definition full_find_longest_cache_hit (p : BlockPool) (block_hashes : group_hashes) (max_length : Z) (gids : list Z)
    (spec : KVCacheSpec) (use_eagle : bool) (alignment_tokens dcp_world_size pcp_world_size : Z) : res hits :=
  let block_size := if 1 <? dcp_world_size * pcp_world_size then spec_block_size spec * (dcp_world_size * pcp_world_size)
                    else spec_block_size spec in
  let max_num_blocks := max_length / block_size in
  (* [itertools.islice] refuses a negative bound *)
  if max_num_blocks <? 0 then Err ValueError
  else
    computed ← prefix_loop p gids (take (Z.to_nat max_num_blocks) (gh_from block_hashes 0)) (replicate (length gids) []);
    computed ← eagle_pop use_eagle computed;
    align_hits block_size alignment_tokens computed.

(** The search of [SlidingWindowManager.find_longest_cache_hit], from block [n - 1]
    down: the lists, the number of contiguous hits, and whether they suffice. *)
Fixpoint window_loop (p : BlockPool) (gids : list Z) (block_hashes : group_hashes) (needed block_size alignment_tokens : Z)
    (use_eagle : bool) (n : nat) (computed : hits) (contiguous : Z) : res (hits * Z * bool) :=
  match n with
  | O => Ok (computed, contiguous, false)
  | S n =>
      let i := Z.of_nat n in
      h ← gh_get block_hashes i;
      row ← cached_row p h gids;
      match row with
      | Some row =>
          if (contiguous =? 0) && negb (block_size =? alignment_tokens) &&
             negb ((if use_eagle then i else i + 1) * block_size mod alignment_tokens =? 0)
          then window_loop p gids block_hashes needed block_size alignment_tokens use_eagle n computed contiguous
          else
            let computed := zip_with (fun c b => <[n := b]> c) computed row in
            let contiguous := contiguous + 1 in
            if needed <=? contiguous then Ok ((fun c => take (Z.to_nat (i + contiguous)) c) <$> computed, contiguous, true)
            else window_loop p gids block_hashes needed block_size alignment_tokens use_eagle n computed contiguous
      | None => window_loop p gids block_hashes needed block_size alignment_tokens use_eagle n computed 0
      end
  end.

(** [SlidingWindowManager.find_longest_cache_hit] *)
Definition window_find_longest_cache_hit (p : BlockPool) (block_hashes : group_hashes) (max_length : Z) (gids : list Z)
    (sliding_window : Z) (spec : KVCacheSpec) (use_eagle : bool) (alignment_tokens dcp_world_size pcp_world_size : Z) : res hits :=
  passert (dcp_world_size =? 1);;
  passert (pcp_world_size =? 1);;
  let block_size := spec_block_size spec in
  let needed := cdiv (sliding_window - 1) block_size + (if use_eagle then 1 else 0) in
  let max_num_blocks := Z.to_nat (max_length / block_size) in
  '(computed, contiguous, found) ←
    window_loop p gids block_hashes needed block_size alignment_tokens use_eagle max_num_blocks
      (replicate (length gids) (replicate max_num_blocks (bp_null_block p))) 0;
  computed ← (if found : bool then Ok computed
              else align_hits block_size alignment_tokens ((fun c => take (Z.to_nat contiguous) c) <$> computed));
  if use_eagle then
    n ← hit_len computed;
    if n =? 0 then Ok computed else computed ← pop_all computed; align_hits block_size alignment_tokens computed
  else Ok computed.

(** The loop of [ChunkedLocalAttentionManager.find_longest_cache_hit]. *)
Fixpoint chunk_loop (p : BlockPool) (gids : list Z) (block_hashes : group_hashes) (idxs : list Z) (computed : hits) : res hits :=
  match idxs with
  | [] => Ok computed
  | i :: idxs =>
      h ← gh_get block_hashes i;
      row ← cached_row p h gids;
      match row with
      | Some row => chunk_loop p gids block_hashes idxs (append_row computed row)
      | None => Ok computed
      end
  end.

(** [ChunkedLocalAttentionManager.find_longest_cache_hit] *)
Definition chunk_find_longest_cache_hit (p : BlockPool) (block_hashes : group_hashes) (max_length : Z) (gids : list Z)
    (attention_chunk_size : Z) (spec : KVCacheSpec) (use_eagle : bool) (alignment_tokens dcp_world_size pcp_world_size : Z)
    : res hits :=
  passert (negb use_eagle);;
  passert (dcp_world_size =? 1);;
  passert (pcp_world_size =? 1);;
  passert (spec_block_size spec =? alignment_tokens);;
  let max_num_blocks := max_length / spec_block_size spec in
  let local_attention_start_idx :=
    if 0 <? max_length then max_length / attention_chunk_size * attention_chunk_size else 0 in
  let start := local_attention_start_idx / spec_block_size spec in
  chunk_loop p gids block_hashes (seqZ start (max_num_blocks - start))
    (replicate (length gids) (replicate (Z.to_nat start) (bp_null_block p))).

(** The loop of [MambaManager.find_longest_cache_hit], from block [n - 1] down. *)
Fixpoint mamba_loop (p : BlockPool) (gids : list Z) (block_hashes : group_hashes) (block_size alignment_tokens : Z)
    (n : nat) : res hits :=
  match n with
  | O => Ok (replicate (length gids) [])
  | S n =>
      h ← gh_get block_hashes (Z.of_nat n);
      row ← cached_row p h gids;
      match row with
      | Some row =>
          if negb (block_size =? alignment_tokens) && negb ((Z.of_nat n + 1) * block_size mod alignment_tokens =? 0)
          then mamba_loop p gids block_hashes block_size alignment_tokens n
          else Ok (zip_with (fun _ b => replicate n (bp_null_block p) ++ [b]) gids row)
      | None => mamba_loop p gids block_hashes block_size alignment_tokens n
      end
  end.

(** [find_longest_cache_hit] of the manager class of [spec]. *)
Definition sm_find_longest_cache_hit (p : BlockPool) (block_hashes : group_hashes) (max_length : Z) (gids : list Z)
    (spec : KVCacheSpec) (use_eagle : bool) (alignment_tokens dcp_world_size pcp_world_size : Z) : res hits :=
  match spec_type_of spec with
  | FullAttentionSpec _ =>
      full_find_longest_cache_hit p block_hashes max_length gids spec use_eagle alignment_tokens dcp_world_size pcp_world_size
  | SlidingWindowSpec _ w =>
      window_find_longest_cache_hit p block_hashes max_length gids w spec use_eagle alignment_tokens dcp_world_size
        pcp_world_size
  | ChunkedLocalAttentionSpec c =>
      chunk_find_longest_cache_hit p block_hashes max_length gids c spec use_eagle alignment_tokens dcp_world_size
        pcp_world_size
  | MambaSpec _ _ =>
      passert (dcp_world_size =? 1);;
      passert (pcp_world_size =? 1);;
      mamba_loop p gids block_hashes (spec_block_size spec) alignment_tokens (Z.to_nat (max_length / spec_block_size spec))
  | CrossAttentionSpec => Err NotImplementedError
  end.
