(* ===== verification/KVManager.v ===== *)
(** * The KV cache manager

    [v1/core/kv_cache_coordinator.py] and [v1/core/kv_cache_manager.py]: the
    coordinators that keep the managers of the KV-cache groups together, and the
    manager the scheduler calls to look up cached prefixes, to allocate slots for
    tokens and to free the blocks of a request. *)

From S2P Require Import Prelude PyFloat Protocol Request BlockHash FreeQueue BlockPool SingleType.

Record KVCacheGroupSpec := mkGroup { grp_spec : KVCacheSpec; grp_is_eagle : bool }.
Record KVCacheConfig := mkKVConfig { kvc_num_blocks : Z; kvc_groups : list KVCacheGroupSpec }.

(** Layers with equal specs, with the indices of their groups; the manager class is
    that of the spec. *)
Notation attention_group := (KVCacheSpec * list Z)%type.

(** The three coordinator classes. *)
Inductive coordinator_kind :=
  | NoPrefixCache
  | Unitary (block_size dcp_world_size pcp_world_size : Z)
  | Hybrid (hash_block_size : Z) (attention_groups : list attention_group) (lcm_block_size : Z)
      (eagle_attn_group_indices : gset Z).

Record KVCacheCoordinator := mkCoordinator {
  kc_config : KVCacheConfig;
  kc_max_model_len : Z;
  kc_enable_caching : bool;
  kc_pool : BlockPool;
  kc_eagle_group_ids : gset Z;
  kc_managers : list SingleTypeKVCacheManager;
  kc_kind : coordinator_kind;
}.
#[global] Instance Coordinator_settable : Settable KVCacheCoordinator := mk_settable _
  (fun c => mkCoordinator (kc_config c) (kc_max_model_len c) (kc_enable_caching c) (kc_pool c) (kc_eagle_group_ids c)
     (kc_managers c) (kc_kind c)).

Notation coord := (st KVCacheCoordinator).

(** ** One operation on every manager *)

Definition run_manager {A} (c : mgr A) (m : SingleTypeKVCacheManager) : pool (SingleTypeKVCacheManager * A) := fun p =>
  match c (p, m) with Ok ((p, m), a) => Ok (p, (m, a)) | Err e => Err e end.

Fixpoint each_manager {A} (f : Z → mgr A) (i : Z) (ms : list SingleTypeKVCacheManager)
    : pool (list SingleTypeKVCacheManager * list A) :=
  match ms with
  | [] => mret ([], [])
  | m :: ms =>
      '(m, a) ← run_manager (f i) m;
      '(ms, l) ← each_manager f (i + 1) ms;
      mret (m :: ms, a :: l)
  end.

(** [for i, manager in enumerate(self.single_type_managers)] *)
Definition for_managers {A} (f : Z → mgr A) : coord (list A) := fun c =>
  match each_manager f 0 (kc_managers c) (kc_pool c) with
  | Ok (p, (ms, l)) => Ok (c <| kc_pool := p |> <| kc_managers := ms |>, l)
  | Err e => Err e
  end.

Definition in_coordinator {A} (m : pool A) : coord A := fun c =>
  match m (kc_pool c) with Ok (p, a) => Ok (c <| kc_pool := p |>, a) | Err e => Err e end.

(** ** Construction *)

(** [verify_and_split_kv_cache_groups]: groups with equal specs together, in order of
    first occurrence. *)
Fixpoint add_group (spec : KVCacheSpec) (i : Z) (groups : list attention_group) : list attention_group :=
  match groups with
  | [] => [(spec, [i])]
  | (s, ids) :: groups => if decide (s = spec) then (s, ids ++ [i]) :: groups else (s, ids) :: add_group spec i groups
  end.
Definition split_groups (specs : list KVCacheSpec) : list attention_group :=
  foldl (fun acc '(i, s) => add_group s i acc) [] (zip (seqZ 0 (lenZ specs)) specs).

(** [sorted(attention_groups, key=lambda x: not isinstance(x[0], FullAttentionSpec))] *)
Definition full_first (groups : list attention_group) : list attention_group :=
  filter (fun g => is_full g.1) groups ++ filter (fun g => ¬ is_full g.1) groups.

Definition hybrid_kind (hash_block_size : Z) (specs : list KVCacheSpec) (eagle_group_ids : gset Z) : res coordinator_kind :=
  let groups := split_groups specs in
  passert (1 <? lenZ groups);;
  let attention_groups := full_first groups in
  let lcm_block_size := foldl (fun acc g => Z.lcm acc (spec_block_size g.1)) 1 groups in
  let indices := filter (fun '(_, (_, ids)) => existsb (fun gid => bool_decide (gid ∈ eagle_group_ids)) ids)
                   (zip (seqZ 0 (lenZ attention_groups)) attention_groups) in
  Ok (Hybrid hash_block_size attention_groups lcm_block_size (list_to_set indices.*1)).

Section coordinator.
Context {F E : Type} `{PyFloat F}.
Context (embeds_digest : E → Z → Z → string) (use_int_hashes : bool).

Fixpoint make_managers (groups : list KVCacheGroupSpec) (i max_num_batched_tokens max_model_len : Z) (enable_caching : bool)
    (dcp_world_size pcp_world_size : Z) : pool (list SingleTypeKVCacheManager) :=
  match groups with
  | [] => mret []
  | g :: groups =>
      m ← get_manager_for_kv_cache_spec (grp_spec g) max_num_batched_tokens max_model_len enable_caching i dcp_world_size
            pcp_world_size;
      ms ← make_managers groups (i + 1) max_num_batched_tokens max_model_len enable_caching dcp_world_size pcp_world_size;
      mret (m :: ms)
  end.

(** [get_kv_cache_coordinator] and the constructors of the three classes. *)
Definition get_kv_cache_coordinator (cfg : KVCacheConfig) (max_model_len max_num_batched_tokens : Z)
    (use_eagle enable_caching enable_kv_cache_events : bool) (dcp_world_size pcp_world_size hash_block_size : Z)
    (with_metrics : bool) : res KVCacheCoordinator :=
  let groups := kvc_groups cfg in
  let specs := grp_spec <$> groups in
  p ← pool_init (kvc_num_blocks cfg) enable_caching hash_block_size enable_kv_cache_events with_metrics;
  let flagged : gset Z := list_to_set (filter (fun ig => grp_is_eagle ig.2) (zip (seqZ 0 (lenZ groups)) groups)).*1 in
  let eagle_group_ids :=
    if use_eagle && bool_decide (flagged = ∅) then list_to_set (seqZ 0 (lenZ groups)) else flagged in
  '(p, managers) ← make_managers groups 0 max_num_batched_tokens max_model_len enable_caching dcp_world_size pcp_world_size p;
  kind ←
    (if negb enable_caching then Ok NoPrefixCache
     else if lenZ groups =? 1 then
       spec ← py_index specs 0;
       let block_size := spec_block_size spec * (if 1 <? dcp_world_size then dcp_world_size else 1) in
       let block_size := block_size * (if 1 <? pcp_world_size then pcp_world_size else 1) in
       passert (hash_block_size =? block_size);;
       Ok (Unitary block_size dcp_world_size pcp_world_size)
     else
       (if (hash_block_size =? 0) && negb (lenZ specs =? 0) then Err ZeroDivisionError else Ok tt);;
       passert (forallb (fun s => spec_block_size s mod hash_block_size =? 0) specs);;
       passert (dcp_world_size =? 1);;
       passert (pcp_world_size =? 1);;
       hybrid_kind hash_block_size specs eagle_group_ids);
  Ok (mkCoordinator cfg max_model_len enable_caching p eagle_group_ids managers kind).

(** ** Operations *)

Definition kc_get_num_blocks_to_allocate (rid : string) (num_tokens : Z) (new_computed_blocks : list (list Z))
    (num_encoder_tokens total_computed_tokens num_tokens_main_model : Z) (apply_admission_cap : bool) : coord Z :=
  counts ← for_managers (fun i =>
    m ← self;
    if is_cross (sm_spec m) then
      sm_get_num_blocks_to_allocate rid num_encoder_tokens [] 0 num_encoder_tokens apply_admission_cap
    else
      new ← st_lift (py_index new_computed_blocks i);
      sm_get_num_blocks_to_allocate rid num_tokens new total_computed_tokens num_tokens_main_model apply_admission_cap);
  mret (sumZ id counts).

Definition kc_allocate_new_computed_blocks (rid : string) (new_computed_blocks : list (list Z))
    (num_local_computed_tokens num_external_computed_tokens : Z) : coord unit :=
  for_managers (fun i =>
    new ← st_lift (py_index new_computed_blocks i);
    sm_allocate_new_computed_blocks use_int_hashes rid new num_local_computed_tokens num_external_computed_tokens);;
  mret tt.

Definition kc_allocate_new_blocks (rid : string) (num_tokens num_tokens_main_model num_encoder_tokens : Z)
    : coord (list (list Z)) :=
  for_managers (fun _ =>
    m ← self;
    sm_allocate_new_blocks use_int_hashes rid (if is_cross (sm_spec m) then num_encoder_tokens else num_tokens)
      num_tokens_main_model).

(** The managers cache the blocks of the request one after the other; hashing the
    prompt embeddings may fill the request's cache of hashes. *)
Fixpoint each_cache (r : Request F E) (num_tokens : Z) (alignment : option Z) (ms : list SingleTypeKVCacheManager)
    : pool (list SingleTypeKVCacheManager * Request F E) :=
  match ms with
  | [] => mret ([], r)
  | m :: ms =>
      '(m, r) ← run_manager (sm_cache_blocks embeds_digest use_int_hashes r num_tokens alignment) m;
      '(ms, r) ← each_cache r num_tokens alignment ms;
      mret (m :: ms, r)
  end.

Definition kc_cache_blocks (r : Request F E) (num_computed_tokens : Z) : coord (Request F E) := fun c =>
  let '(num_computed_tokens, alignment) :=
    match kc_kind c with
    | Hybrid _ _ lcm_block_size _ => (num_computed_tokens / lcm_block_size * lcm_block_size, Some lcm_block_size)
    | _ => (num_computed_tokens, None)
    end in
  match each_cache r num_computed_tokens alignment (kc_managers c) (kc_pool c) with
  | Ok (p, (ms, r)) => Ok (c <| kc_pool := p |> <| kc_managers := ms |>, r)
  | Err e => Err e
  end.

Definition kc_free (rid : string) : coord unit := for_managers (fun _ => sm_free rid);; mret tt.

Definition kc_get_num_common_prefix_blocks (rid : string) : coord (list Z) :=
  c ← st_get;
  match kc_kind c with
  | NoPrefixCache => mret (replicate (length (kc_managers c)) 0)
  | _ => for_managers (fun _ => sm_get_num_common_prefix_blocks rid)
  end.

Definition kc_remove_skipped_blocks (rid : string) (total_computed_tokens : Z) : coord unit :=
  for_managers (fun _ => sm_remove_skipped_blocks rid total_computed_tokens);; mret tt.

Definition kc_get_blocks (c : KVCacheCoordinator) (rid : string) : list (list Z) :=
  (fun m => default [] (sm_req_to_blocks m !! rid)) <$> kc_managers c.

Definition kc_new_step_starts : coord unit := for_managers (fun _ => sm_new_step_starts);; mret tt.

(** *** The longest cache hit *)

(** The hit lists of the groups, [None] before the first lookup. *)
Notation group_hits := (list (option (list Z))).

(** The hashes at the block size of [spec]. *)
Definition hashes_for (block_hashes : list string) (hash_block_size : Z) (spec : KVCacheSpec) : res group_hashes :=
  if spec_block_size spec =? hash_block_size then Ok (PlainHashes block_hashes)
  else b ← bhl_init block_hashes hash_block_size (spec_block_size spec); Ok (ScaledHashes b).

Definition set_group_hits (ids : list Z) (computed : list (list Z)) (by_group : group_hits) : group_hits :=
  foldl (fun acc '(i, blocks) => <[Z.to_nat i := Some blocks]> acc) by_group (zip ids computed).

(** The [for] loop of [HybridKVCacheCoordinator.find_longest_cache_hit] over the
    attention groups, with their indices. *)
Fixpoint hybrid_pass (p : BlockPool) (block_hashes : list string) (hash_block_size lcm_block_size max_cache_hit_length : Z)
    (eagle_indices : gset Z) (groups : list (Z * attention_group)) (by_group : group_hits) (curr_hit_length : Z)
    (eagle_verified : gset Z) : res (group_hits * Z * gset Z) :=
  match groups with
  | [] => Ok (by_group, curr_hit_length, eagle_verified)
  | (idx, (spec, ids)) :: groups =>
      gid ← or_raise IndexError (head ids);
      cached_blocks ← py_index by_group gid;
      match is_full spec, cached_blocks with
      | true, Some _ =>
          hybrid_pass p block_hashes hash_block_size lcm_block_size max_cache_hit_length eagle_indices groups by_group
            (curr_hit_length / spec_block_size spec * spec_block_size spec) eagle_verified
      | _, _ =>
          let use_eagle := bool_decide (idx ∈ eagle_indices) && negb (bool_decide (idx ∈ eagle_verified)) in
          let max_length :=
            if use_eagle then Z.min (curr_hit_length + spec_block_size spec) max_cache_hit_length else curr_hit_length in
          hashes ← hashes_for block_hashes hash_block_size spec;
          hit_blocks ← sm_find_longest_cache_hit p hashes max_length ids spec use_eagle lcm_block_size 1 1;
          n ← hit_len hit_blocks;
          let new_hit_length := n * spec_block_size spec in
          let eagle_verified :=
            if use_eagle then {[idx]} ∪ eagle_verified
            else if new_hit_length <? curr_hit_length then ∅ else eagle_verified in
          hybrid_pass p block_hashes hash_block_size lcm_block_size max_cache_hit_length eagle_indices groups
            (set_group_hits ids hit_blocks by_group) new_hit_length eagle_verified
      end
  end.

(** The [while True] loop; [None] when the fuel is used up. *)
Fixpoint hybrid_loop (fuel : nat) (p : BlockPool) (block_hashes : list string)
    (hash_block_size lcm_block_size max_cache_hit_length : Z) (eagle_indices : gset Z) (groups : list (Z * attention_group))
    (is_simple_hybrid : bool) (by_group : group_hits) (hit_length : Z) (eagle_verified : gset Z)
    : res (option (group_hits * Z)) :=
  match fuel with
  | O => Ok None
  | S fuel =>
      '(by_group, curr_hit_length, eagle_verified) ←
        hybrid_pass p block_hashes hash_block_size lcm_block_size max_cache_hit_length eagle_indices groups by_group
          hit_length eagle_verified;
      if hit_length <=? curr_hit_length then Ok (Some (by_group, hit_length))
      else if is_simple_hybrid then Ok (Some (by_group, curr_hit_length))
      else hybrid_loop fuel p block_hashes hash_block_size lcm_block_size max_cache_hit_length eagle_indices groups
             is_simple_hybrid by_group curr_hit_length eagle_verified
  end.

(** The blocks found, full attention cut to the final length. *)
Definition trim_full (first : attention_group) (hit_length : Z) (by_group : group_hits) : list (list Z) :=
  let cut := fmap (M := option) (take (Z.to_nat (hit_length / spec_block_size first.1))) in
  default [] <$>
    (if is_full first.1 then foldl (fun acc gid => alter cut (Z.to_nat gid) acc) by_group first.2 else by_group).

(** [HybridKVCacheCoordinator.find_longest_cache_hit] *)
Definition hybrid_find_longest_cache_hit (p : BlockPool) (num_groups : nat) (block_hashes : list string)
    (hash_block_size lcm_block_size max_cache_hit_length : Z) (eagle_indices : gset Z) (attention_groups : list attention_group)
    : res (option (list (list Z) * Z)) :=
  let groups := zip (seqZ 0 (lenZ attention_groups)) attention_groups in
  first ← or_raise IndexError (head attention_groups);
  let is_simple_hybrid := (lenZ attention_groups =? 2) && is_full first.1 in
  found ← hybrid_loop (S (S (Z.to_nat max_cache_hit_length))) p block_hashes hash_block_size lcm_block_size
            max_cache_hit_length eagle_indices groups is_simple_hybrid (replicate num_groups None) max_cache_hit_length ∅;
  Ok match found with
     | None => None
     | Some (by_group, hit_length) => Some (trim_full first hit_length by_group, hit_length)
     end.

(** [find_longest_cache_hit] of the three coordinators. *)
Definition kc_find_longest_cache_hit (c : KVCacheCoordinator) (block_hashes : list string) (max_cache_hit_length : Z)
    : res (option (list (list Z) * Z)) :=
  match kc_kind c with
  | NoPrefixCache => Ok (Some (replicate (length (kc_managers c)) [], 0))
  | Unitary block_size dcp_world_size pcp_world_size =>
      g ← or_raise IndexError (head (kvc_groups (kc_config c)));
      hit_blocks ← sm_find_longest_cache_hit (kc_pool c) (PlainHashes block_hashes) max_cache_hit_length [0] (grp_spec g)
                     (bool_decide (0 ∈ kc_eagle_group_ids c)) block_size dcp_world_size pcp_world_size;
      n ← hit_len hit_blocks;
      Ok (Some (hit_blocks, n * block_size))
  | Hybrid hash_block_size attention_groups lcm_block_size eagle_indices =>
      hybrid_find_longest_cache_hit (kc_pool c) (length (kvc_groups (kc_config c))) block_hashes hash_block_size
        lcm_block_size max_cache_hit_length eagle_indices attention_groups
  end.

End coordinator.

(** ** The manager *)

(** [KVCacheBlocks]: the preallocated empty instance, or blocks per group. *)
Inductive KVCacheBlocks :=
  | EmptyBlocks
  | SomeBlocks (blocks : list (list Z)).

Inductive KVCacheSpecKind :=
  | FULL_ATTENTION | MLA_ATTENTION | SLIDING_WINDOW | SLIDING_WINDOW_MLA | MAMBA | CHUNKED_LOCAL_ATTENTION
  | SINK_FULL_ATTENTION | CROSS_ATTENTION.

Definition get_kv_cache_spec_kind (s : KVCacheSpec) : KVCacheSpecKind :=
  match spec_type_of s with
  | SlidingWindowSpec true _ => SLIDING_WINDOW_MLA
  | FullAttentionSpec FullMLA | FullAttentionSpec FullHidden => MLA_ATTENTION
  | FullAttentionSpec (FullSink _) => SINK_FULL_ATTENTION
  | FullAttentionSpec _ => FULL_ATTENTION
  | ChunkedLocalAttentionSpec _ => CHUNKED_LOCAL_ATTENTION
  | SlidingWindowSpec false _ => SLIDING_WINDOW
  | MambaSpec _ _ => MAMBA
  | CrossAttentionSpec => CROSS_ATTENTION
  end.
Definition get_kv_cache_spec_sliding_window (s : KVCacheSpec) : option Z :=
  match spec_type_of s with SlidingWindowSpec _ w => Some w | _ => None end.

Record PrefixCacheStats := mkPrefixStats {
  ps_reset : bool;
  ps_requests : Z;
  ps_queries : Z;
  ps_hits : Z;
  ps_preempted_requests : Z;
  ps_preempted_queries : Z;
  ps_preempted_hits : Z;
}.
#[global] Instance PrefixStats_settable : Settable PrefixCacheStats := mk_settable _
  (fun s => mkPrefixStats (ps_reset s) (ps_requests s) (ps_queries s) (ps_hits s) (ps_preempted_requests s)
     (ps_preempted_queries s) (ps_preempted_hits s)).
Definition new_prefix_stats : PrefixCacheStats := mkPrefixStats false 0 0 0 0 0 0.

Definition stats_record (num_tokens num_hits : Z) (preempted : bool) (s : PrefixCacheStats) : PrefixCacheStats :=
  if preempted then
    s <| ps_preempted_requests ::= Z.succ |> <| ps_preempted_queries ::= Z.add num_tokens |>
      <| ps_preempted_hits ::= Z.add num_hits |>
  else s <| ps_requests ::= Z.succ |> <| ps_queries ::= Z.add num_tokens |> <| ps_hits ::= Z.add num_hits |>.

Record KVCacheManager := mkKVManager {
  km_coordinator : KVCacheCoordinator;
  km_max_model_len : Z;
  km_enable_caching : bool;
  km_log_stats : bool;
  km_prefix_cache_stats : option PrefixCacheStats;
  km_num_kv_cache_groups : nat;
  km_event_metadata : list (KVCacheSpecKind * option Z);
}.
#[global] Instance KVManager_settable : Settable KVCacheManager := mk_settable _
  (fun k => mkKVManager (km_coordinator k) (km_max_model_len k) (km_enable_caching k) (km_log_stats k)
     (km_prefix_cache_stats k) (km_num_kv_cache_groups k) (km_event_metadata k)).

Notation kvm := (st KVCacheManager).

Definition on_coordinator {A} (m : coord A) : kvm A := fun k =>
  match m (km_coordinator k) with Ok (c, a) => Ok (k <| km_coordinator := c |>, a) | Err e => Err e end.
Definition on_block_pool {A} (m : pool A) : kvm A := on_coordinator (in_coordinator m).
Definition km_pool (k : KVCacheManager) : BlockPool := kc_pool (km_coordinator k).

(** [.blocks] *)
Definition blocks_of (k : KVCacheManager) (b : KVCacheBlocks) : list (list Z) :=
  match b with EmptyBlocks => replicate (km_num_kv_cache_groups k) [] | SomeBlocks l => l end.

Definition create_kv_cache_blocks (blocks : list (list Z)) : KVCacheBlocks :=
  if existsb (fun l => negb (lenZ l =? 0)) blocks then SomeBlocks blocks else EmptyBlocks.

Section manager.
Context {F E : Type} `{PyFloat F}.
Context (embeds_digest : E → Z → Z → string) (use_int_hashes : bool).

Definition kv_cache_manager_init (cfg : KVCacheConfig) (max_model_len hash_block_size : Z) (max_num_batched_tokens : option Z)
    (enable_caching use_eagle log_stats enable_kv_cache_events : bool) (dcp_world_size pcp_world_size : Z)
    (with_metrics : bool) : res KVCacheManager :=
  c ← get_kv_cache_coordinator cfg max_model_len (default max_model_len max_num_batched_tokens) use_eagle enable_caching
        enable_kv_cache_events dcp_world_size pcp_world_size hash_block_size with_metrics;
  Ok (mkKVManager c max_model_len enable_caching log_stats (if log_stats then Some new_prefix_stats else None)
        (length (kvc_groups cfg))
        ((fun g => (get_kv_cache_spec_kind (grp_spec g), get_kv_cache_spec_sliding_window (grp_spec g))) <$> kvc_groups cfg)).

Definition usage (k : KVCacheManager) : F := get_usage (km_pool k).

Definition make_prefix_cache_stats : kvm (option PrefixCacheStats) :=
  k ← st_get;
  if negb (km_log_stats k) then mret None
  else st_modify (fun k => k <| km_prefix_cache_stats := Some new_prefix_stats |>);; mret (km_prefix_cache_stats k).

(** [None] for a search that does not end. *)
Definition get_computed_blocks (r : Request F E) : kvm (option (KVCacheBlocks * Z)) :=
  k ← st_get;
  if negb (km_enable_caching k) || rq_skip_reading_prefix_cache r then mret (Some (EmptyBlocks, 0))
  else
    found ← st_lift (kc_find_longest_cache_hit (km_coordinator k) (rq_block_hashes r) (num_tokens r - 1));
    match found with
    | None => mret None
    | Some (computed_blocks, num_new_computed_tokens) =>
        st_when (km_log_stats k)
          (match km_prefix_cache_stats k with
           | None => st_raise AssertionError
           | Some s =>
               st_modify (fun k => k <| km_prefix_cache_stats :=
                 Some (stats_record (num_tokens r) num_new_computed_tokens (0 <? rq_num_preemptions r) s) |>)
           end);;
        mret (Some (create_kv_cache_blocks computed_blocks, num_new_computed_tokens))
    end.

(** [None] when the blocks do not fit. *)
Definition allocate_slots (r : Request F E) (num_new_tokens num_new_computed_tokens : Z)
    (new_computed_blocks : option KVCacheBlocks) (num_lookahead_tokens num_external_computed_tokens : Z)
    (delay_cache_blocks : bool) (num_encoder_tokens : Z) (full_sequence_must_fit : bool)
    : kvm (Request F E * option KVCacheBlocks) :=
  if (num_new_tokens =? 0) && (num_external_computed_tokens =? 0) then st_raise ValueError
  else
    k ← st_get;
    let rid := rq_request_id r in
    let new_computed := default EmptyBlocks new_computed_blocks in
    let new_computed_block_list := blocks_of k new_computed in
    let num_local_computed_tokens := rq_num_computed_tokens r + num_new_computed_tokens in
    let total_computed_tokens := Z.min (num_local_computed_tokens + num_external_computed_tokens) (km_max_model_len k) in
    fits ←
      (if full_sequence_must_fit then
         let full_num_tokens := Z.min (num_tokens r) (km_max_model_len k) in
         n ← on_coordinator (kc_get_num_blocks_to_allocate rid full_num_tokens new_computed_block_list num_encoder_tokens
                               total_computed_tokens full_num_tokens true);
         k ← st_get;
         mret (n <=? get_num_free_blocks (km_pool k))
       else mret true);
    if negb fits then mret (r, None)
    else
      let num_tokens_main_model := total_computed_tokens + num_new_tokens in
      let num_tokens_need_slot := Z.min (num_tokens_main_model + num_lookahead_tokens) (km_max_model_len k) in
      on_coordinator (kc_remove_skipped_blocks rid total_computed_tokens);;
      n ← on_coordinator (kc_get_num_blocks_to_allocate rid num_tokens_need_slot new_computed_block_list num_encoder_tokens
                            (num_local_computed_tokens + num_external_computed_tokens) num_tokens_main_model false);
      k ← st_get;
      if get_num_free_blocks (km_pool k) <? n then mret (r, None)
      else
        st_when (match new_computed with EmptyBlocks => 0 <? num_external_computed_tokens | SomeBlocks _ => true end)
          (on_coordinator (kc_allocate_new_computed_blocks use_int_hashes rid new_computed_block_list num_local_computed_tokens
                             num_external_computed_tokens));;
        new_blocks ← on_coordinator (kc_allocate_new_blocks use_int_hashes rid num_tokens_need_slot num_tokens_main_model
                                       num_encoder_tokens);
        if negb (km_enable_caching k) || delay_cache_blocks then mret (r, Some (create_kv_cache_blocks new_blocks))
        else
          r ← on_coordinator (kc_cache_blocks embeds_digest use_int_hashes r
                                (Z.min (total_computed_tokens + num_new_tokens) (num_tokens r)));
          mret (r, Some (create_kv_cache_blocks new_blocks)).

Definition km_free (r : Request F E) : kvm unit := on_coordinator (kc_free (rq_request_id r)).
Definition km_remove_skipped_blocks (rid : string) (total_computed_tokens : Z) : kvm unit :=
  on_coordinator (kc_remove_skipped_blocks rid total_computed_tokens).
Definition km_evict_blocks (block_ids : gset Z) : kvm unit := on_block_pool (evict_blocks use_int_hashes block_ids).

Definition km_reset_prefix_cache : kvm bool :=
  done ← on_block_pool reset_prefix_cache;
  if negb done then mret false
  else
    k ← st_get;
    st_when (km_log_stats k)
      (match km_prefix_cache_stats k with
       | None => st_raise AssertionError
       | Some s => st_modify (fun k => k <| km_prefix_cache_stats := Some (s <| ps_reset := true |>) |>)
       end);;
    mret true.

Definition km_get_num_common_prefix_blocks (rid : string) : kvm (list Z) :=
  on_coordinator (kc_get_num_common_prefix_blocks rid).

(** The events, with the kind and window of the layers of their group. *)
Definition annotate (meta : list (KVCacheSpecKind * option Z)) (e : KVCacheEvent)
    : KVCacheEvent * option (KVCacheSpecKind * option Z) :=
  match e with
  | BlockStored _ _ _ _ _ _ _ g => (e, if (g <? 0) || (lenZ meta <=? g) then None else meta !! Z.to_nat g)
  | _ => (e, None)
  end.
Definition km_take_events : kvm (list (KVCacheEvent * option (KVCacheSpecKind * option Z))) :=
  events ← on_block_pool take_events;
  k ← st_get;
  mret (annotate (km_event_metadata k) <$> events).

Definition km_get_blocks (k : KVCacheManager) (rid : string) : KVCacheBlocks :=
  create_kv_cache_blocks (kc_get_blocks (km_coordinator k) rid).
Definition km_get_block_ids (k : KVCacheManager) (rid : string) : list (list Z) := blocks_of k (km_get_blocks k rid).
Definition km_cache_blocks (r : Request F E) (num_computed_tokens : Z) : kvm (Request F E) :=
  k ← st_get;
  if km_enable_caching k then on_coordinator (kc_cache_blocks embeds_digest use_int_hashes r num_computed_tokens) else mret r.
Definition km_take_new_block_ids : kvm (list Z) :=
  ids ← on_coordinator (for_managers (fun _ => take_new_block_ids)); mret (concat ids).
Definition km_new_step_starts : kvm unit := on_coordinator kc_new_step_starts.

(** [KVCacheBlocks.__add__] and the views of the blocks. *)
Definition blocks_add (k : KVCacheManager) (a b : KVCacheBlocks) : KVCacheBlocks :=
  SomeBlocks (zip_with app (blocks_of k a) (blocks_of k b)).
Definition blocks_get_block_ids (k : KVCacheManager) (allow_none : bool) (b : KVCacheBlocks) : option (list (list Z)) :=
  if allow_none && forallb (fun g => lenZ g =? 0) (blocks_of k b) then None else Some (blocks_of k b).

End manager.
