(* ===== verification/KVManagerThms.v ===== *)
(** * The KV cache manager: correctness

    Termination of the search for a common cache hit, the longest hit of full
    attention, the ownership of blocks by requests, and the soundness of
    [allocate_slots]: what fits according to [get_num_blocks_to_allocate] can be
    allocated, cached and freed again without raising. *)

From S2P Require Import Prelude PyFloat Protocol Request BlockHash FreeQueue BlockPool BlockPoolThms SingleType.
From S2P Require Import KVManager.

(** ** The pool as the managers use it *)

Section pool_use.
Context (use_int_hashes : bool).
Implicit Types (p : BlockPool) (l bs : list Z) (b : Z).

Lemma foldl_alter_real f bs (D : gmap Z (Z * option string * bool)) c :
  NoDup (filter (fun b => b ≠ 0) bs) → c ≠ 0 →
  foldl (fun D b => alter f b D) D bs !! c = if decide (c ∈ bs) then f <$> D !! c else D !! c.
Proof.
  intros Hnd Hc. revert D Hnd; induction bs as [|b bs IH]; intros D Hnd; [done|]. rewrite filter_cons in Hnd.
  cbn [foldl]. rewrite IH, lookup_alter by (case_decide; [by apply NoDup_cons in Hnd as [_ ?]|done]).
  destruct (decide (b = c)) as [->|Hne].
  - rewrite (decide_True (P := c ∈ c :: bs)) by left. rewrite decide_False; [done|]. intros Hin.
    rewrite decide_True in Hnd by done. apply NoDup_cons in Hnd as [Hn _]. by apply Hn, list_elem_of_filter.
  - destruct (decide (c ∈ bs)); [by rewrite decide_True by by right|].
    rewrite decide_False; [done|]. rewrite elem_of_cons. naive_solver.
Qed.

Lemma ref_wf p l b : pool_wf p l → 0 < b < bp_num_gpu_blocks p → ∃ n, ref_of p b = Some n ∧ 0 <= n ∧ (b ∈ l ↔ n = 0).
Proof.
  intros [_ Hwf] Hb. destruct (proj2 (dw_dom _ _ _ _ Hwf b)) as [d Hd]; [lia|].
  exists d.1.1. rewrite ref_of_data, Hd. split; [done|]. by apply (dw_ref _ _ _ _ Hwf b d); [lia|].
Qed.

Lemma pool_new p l n :
  pool_wf p l → 0 <= n <= lenZ l →
  ∃ p' bs, get_new_blocks use_int_hashes n p = Ok (p', bs) ∧ pool_wf p' (drop (Z.to_nat n) l) ∧ same_config p p' ∧
    bs = take (Z.to_nat n) l ∧ lenZ bs = n ∧ NoDup bs ∧ (∀ b, b ∈ bs → 0 < b < bp_num_gpu_blocks p ∧ ref_of p b = Some 0) ∧
    (∀ b, ref_of p' b = if decide (b ∈ bs) then Some 1 else ref_of p b) ∧
    (∀ b, hash_of p' b = if decide (b ∈ bs) then (if bp_enable_caching p then None else hash_of p b) else hash_of p b).
Proof.
  intros Hst Hn. pose proof Hst as [_ Hwf].
  destruct (get_new_blocks_cases use_int_hashes p l n Hst ltac:(lia)) as [[? _]|(_ & p' & Heq & Hst' & Hc & Hd)]; [lia|].
  set (bs := take (Z.to_nat n) l) in *. destruct (free_length p l Hst) as [Hnd _].
  assert (NoDup bs) as Hndb by (rewrite <- (take_drop (Z.to_nat n) l) in Hnd; by apply NoDup_app in Hnd as (? & _)).
  assert (∀ b, b ∈ bs → 0 < b < bp_num_gpu_blocks p ∧ ref_of p b = Some 0) as Hfree.
  { intros b Hb%subseteq_take. pose proof (dw_free _ _ _ _ Hwf b Hb) as Hb'. split; [done|].
    destruct (ref_wf p l b Hst Hb') as (k & -> & _ & Hk). f_equal. by apply Hk. }
  exists p', bs. split_and!; try done; [unfold bs; rewrite length_take; lia|..].
  - intros b. rewrite !ref_of_data, Hd, foldl_alter_lookup by done. case_decide as Hb; [|done].
    destruct (Hfree b Hb) as [_ Hr]. rewrite ref_of_data in Hr. destruct (pool_data p !! b) as [d|]; [|done].
    injection Hr as Hr. cbn. f_equal. destruct (bp_enable_caching p); cbn; lia.
  - intros b. rewrite !hash_of_data, Hd, foldl_alter_lookup by done. case_decide as Hb; [|done].
    destruct (pool_data p !! b) as [d|]; [|by destruct (bp_enable_caching p)]. by destruct (bp_enable_caching p).
Qed.

Lemma pool_touch p l bs :
  pool_wf p l → (∀ b, b ∈ bs → in_pool p b) → NoDup (filter (fun b => b ≠ 0) bs) →
  ∃ p', touch bs p = Ok (p', tt) ∧ pool_wf p' (filter (fun b => b ∉ bs) l) ∧ same_config p p' ∧
    (∀ b, b ≠ 0 → ref_of p' b = (Z.add (if decide (b ∈ bs) then 1 else 0)) <$> ref_of p b) ∧
    (∀ b, b ≠ 0 → hash_of p' b = hash_of p b).
Proof.
  intros Hst Hbs Hnd. destruct (touch_spec bs p l Hst Hbs) as (p' & Heq & Hst' & Hc & Hd & _).
  exists p'. split_and!; [done|done|done|..]; intros b Hb0.
  - rewrite !ref_of_data, Hd, foldl_alter_real by done. case_decide; destruct (pool_data p !! b); cbn; try done. f_equal. lia.
  - rewrite !hash_of_data, Hd, foldl_alter_real by done. case_decide; by destruct (pool_data p !! b).
Qed.

Lemma pool_free p l bs :
  pool_wf p l → freeable p bs →
  ∃ p' freed, free_blocks bs p = Ok (p', tt) ∧ pool_wf p' (l ++ freed) ∧ same_config p p' ∧
    (∀ b, b ≠ 0 → ref_of p' b = (Z.add (if decide (b ∈ bs) then -1 else 0)) <$> ref_of p b) ∧
    (∀ b, b ≠ 0 → hash_of p' b = hash_of p b).
Proof.
  intros Hst [Hbs Hnd]%freeable_spec. destruct (free_blocks_spec p l bs Hst Hbs Hnd) as (p' & Heq & Hst' & Hc & Hd & _).
  eexists p', _. split_and!; [done|done|done|..]; intros b Hb0.
  - rewrite !ref_of_data, Hd, foldl_alter_real by done. case_decide; destruct (pool_data p !! b); cbn; try done. f_equal. lia.
  - rewrite !hash_of_data, Hd, foldl_alter_real by done. case_decide; by destruct (pool_data p !! b).
Qed.

Lemma num_free_wf p l : pool_wf p l → get_num_free_blocks p = lenZ l.
Proof. by intros [[_ ?] _]. Qed.

Lemma evictable_spec p l bs :
  pool_wf p l → (∀ b, b ∈ bs → in_pool p b) →
  get_num_evictable_blocks bs p = Ok (p, lenZ (filter (fun b => b ∈ l) bs)).
Proof.
  intros Hst. pose proof Hst as [_ Hwf]. induction bs as [|b bs IH]; intros Hbs; [done|]. cbn [get_num_evictable_blocks].
  destruct (pool_data_lookup p l [] b Hst) as (blk & Hblk & Hd); [by apply Hbs; left|].
  rewrite (st_bind_pool_block b _ p blk Hblk). st_step (IH (fun c Hc => Hbs c (list_elem_of_further _ _ _ Hc))).
  pose proof (dw_null _ _ _ _ Hwf b _ Hd) as Hnull. cbn in Hnull. rewrite filter_cons. unfold mret, st_ret. do 2 f_equal.
  assert ((kb_ref_cnt blk =? 0) && negb (kb_is_null blk) = bool_decide (b ∈ l)) as ->.
  { rewrite Hnull. destruct (decide (b = 0)) as [->|Hb0].
    - rewrite (bool_decide_eq_true_2 (0 = 0)), andb_false_r by done. symmetry. apply bool_decide_eq_false.
      intros Hin. pose proof (dw_free _ _ _ _ Hwf 0 Hin). lia.
    - rewrite (bool_decide_eq_false_2 (b = 0)), andb_true_r by done. pose proof (Hbs b ltac:(left)) as Hb. unfold in_pool in Hb.
      destruct (dw_ref _ _ _ _ Hwf b _ ltac:(lia) Hd) as [_ Hz]. cbn in Hz.
      destruct (Z.eqb_spec (kb_ref_cnt blk) 0); symmetry; [apply bool_decide_eq_true|apply bool_decide_eq_false]; tauto. }
  destruct (decide (b ∈ l)) as [Hin|Hin]; [rewrite (bool_decide_eq_true_2 _ Hin)|rewrite (bool_decide_eq_false_2 _ Hin)]; cbn; lia.
Qed.

End pool_use.

(** ** Who holds which block *)

Section ownership.
Implicit Types (p : BlockPool) (m : SingleTypeKVCacheManager) (l bs : list Z) (b : Z) (rid : string).

Definition holds b bs : Z := if decide (b ∈ bs) then 1 else 0.
(** The number of requests that hold [b]. *)
Definition owned (req : gmap string (list Z)) b : Z := sum_map (holds b) req.
Definition held m rid : list Z := default [] (sm_req_to_blocks m !! rid).
Definition num_cached m rid : Z := default 0 (sm_num_cached_block m !! rid).

Lemma holds_bound b bs : 0 <= holds b bs <= 1.
Proof. unfold holds. case_decide; lia. Qed.

Lemma holds_app b bs1 bs2 : (b ∈ bs1 → b ∉ bs2) → holds b (bs1 ++ bs2) = holds b bs1 + holds b bs2.
Proof. intros Hd. unfold holds. repeat case_decide; rewrite ?elem_of_app in *; tauto || lia. Qed.

Lemma owned_insert (req : gmap string (list Z)) rid bs b :
  owned (<[rid := bs]> req) b = owned req b - holds b (default [] (req !! rid)) + holds b bs.
Proof.
  unfold owned. destruct (req !! rid) as [old|] eqn:E; cbn; [by rewrite (sum_map_insert _ _ _ old)|].
  rewrite sum_map_insert_new by done. change (holds b []) with 0. lia.
Qed.

Lemma owned_delete (req : gmap string (list Z)) rid b :
  owned (delete rid req) b = owned req b - holds b (default [] (req !! rid)).
Proof.
  unfold owned. destruct (req !! rid) as [old|] eqn:E; cbn; [rewrite (sum_map_delete _ req rid old E); lia|].
  rewrite delete_id by done. change (holds b []) with 0. lia.
Qed.

Lemma owned_ge (req : gmap string (list Z)) rid bs b : req !! rid = Some bs → b ∈ bs → 1 <= owned req b.
Proof.
  intros Hr Hb. pose proof (sum_map_ge (holds b) req rid bs (fun x => proj1 (holds_bound b x)) Hr) as Hge.
  unfold holds at 1 in Hge. by rewrite decide_True in Hge by done.
Qed.

(** A block with one owner is held by no other request. *)
Lemma owned_one (req : gmap string (list Z)) rid rid' bs bs' b :
  req !! rid = Some bs → req !! rid' = Some bs' → b ∈ bs → b ∈ bs' → owned req b = 1 → rid = rid'.
Proof.
  intros Hr Hr' Hb Hb' H1. destruct (decide (rid = rid')) as [|Hne]; [done|]. exfalso.
  assert (delete rid req !! rid' = Some bs') as Hd by by rewrite lookup_delete_ne.
  pose proof (owned_ge _ rid' bs' b Hd Hb') as Hge. rewrite owned_delete, Hr in Hge. cbn in Hge.
  unfold holds in Hge. rewrite decide_True in Hge by done. lia.
Qed.

(** Layers whose blocks are found by position, with sensible parameters. *)
Definition positional (s : KVCacheSpec) : Prop :=
  match spec_type_of s with
  | FullAttentionSpec (FullSink _) => False
  | FullAttentionSpec _ => True
  | SlidingWindowSpec _ w => 1 <= w
  | ChunkedLocalAttentionSpec c => 1 <= c
  | _ => False
  end.

Lemma skipped_bounds m n : positional (sm_spec m) → 0 <= n → 0 <= get_num_skipped_tokens m n <= n.
Proof.
  unfold positional, get_num_skipped_tokens. destruct (spec_type_of (sm_spec m)) as [k|mla w|c|al n'|]; try done; try lia.
  intros Hc Hn. pose proof (Z.mul_div_le n c). pose proof (Z.div_pos n c). nia.
Qed.

(** A manager and the pool it uses alone; [l] is the free queue.  With caching, the
    blocks of a request past those it has cached are its own and carry no hash. *)
Record kv_state p m l : Prop := {
  kv_wf : pool_wf p l;
  kv_null : bp_null_block p = 0;
  kv_caching : bp_enable_caching p = sm_enable_caching m;
  kv_size : 0 < sm_block_size m;
  kv_spec : positional (sm_spec m);
  kv_group : 0 <= sm_kv_cache_group_id m < 2 ^ 32;
  kv_blocks : ∀ rid bs, sm_req_to_blocks m !! rid = Some bs →
    (∀ b, b ∈ bs → in_pool p b) ∧ NoDup (filter (fun b => b ≠ 0) bs);
  kv_ref : ∀ b, 0 < b < bp_num_gpu_blocks p → ref_of p b = Some (owned (sm_req_to_blocks m) b);
  kv_fresh : sm_enable_caching m = true → ∀ rid i b, held m rid !! i = Some b → b ≠ 0 → num_cached m rid <= Z.of_nat i →
    hash_of p b = None ∧ owned (sm_req_to_blocks m) b = 1;
  kv_cached : ∀ rid n, sm_num_cached_block m !! rid = Some n → 0 <= n;
}.

Lemma kv_held p m l rid : kv_state p m l → (∀ b, b ∈ held m rid → in_pool p b) ∧ NoDup (filter (fun b => b ≠ 0) (held m rid)).
Proof.
  intros Hkv. unfold held. destruct (sm_req_to_blocks m !! rid) as [bs|] eqn:E; cbn; [by apply (kv_blocks _ _ _ Hkv rid)|].
  split; [intros b Hb; by apply elem_of_nil in Hb|apply NoDup_nil_2].
Qed.

Lemma in_pool_config p p' b : same_config p p' → in_pool p' b ↔ in_pool p b.
Proof. intros (Hn & _). unfold in_pool. by rewrite Hn. Qed.

(** A held block is not free. *)
Lemma held_not_free p m l rid b : kv_state p m l → b ∈ held m rid → b ∉ l.
Proof.
  intros Hkv Hb Hl. destruct (sm_req_to_blocks m !! rid) as [bs|] eqn:E; unfold held in Hb; rewrite E in Hb; [|by apply elem_of_nil in Hb].
  pose proof (dw_free _ _ _ _ (proj2 (kv_wf _ _ _ Hkv)) b Hl) as Hr. pose proof (kv_ref _ _ _ Hkv b Hr) as Href.
  destruct (ref_wf p l b (kv_wf _ _ _ Hkv) Hr) as (n & Hn & _ & Hz). pose proof (owned_ge _ rid bs b E Hb).
  rewrite Href in Hn. injection Hn as Hn. pose proof (proj1 Hz Hl). lia.
Qed.

End ownership.

(** ** Steps of a manager *)

Section steps.
Context {F E : Type} `{PyFloat F}.
Context (embeds_digest : E → Z → Z → string) (use_int_hashes : bool).
Implicit Types (p : BlockPool) (m : SingleTypeKVCacheManager) (l bs : list Z) (b : Z) (rid : string).

Definition with_blocks rid bs m : SingleTypeKVCacheManager := m <| sm_req_to_blocks ::= insert rid bs |>.
Definition with_cached rid n m : SingleTypeKVCacheManager := m <| sm_num_cached_block ::= insert rid n |>.

Lemma on_pool_eq {A} (c : pool A) p m p' a : c p = Ok (p', a) → on_pool c (p, m) = Ok ((p', m), a).
Proof. unfold on_pool. cbn. by intros ->. Qed.

Lemma st_bind_self {A} (f : SingleTypeKVCacheManager → mgr A) p m : (self ≫= f) (p, m) = f m (p, m).
Proof. done. Qed.
Lemma st_bind_update {A} g (f : unit → mgr A) p m : (update g ≫= f) (p, m) = f tt (p, g m).
Proof. done. Qed.
Lemma st_bind_null {A} (f : Z → mgr A) p m : bp_null_block p = 0 → (null_block ≫= f) (p, m) = f 0 (p, m).
Proof. intros Hn. unfold mbind, st_bind, null_block. cbn. by rewrite Hn. Qed.

Lemma with_blocks_id m rid bs : sm_req_to_blocks m !! rid = Some bs → with_blocks rid bs m = m.
Proof. intros Hr. destruct m. unfold with_blocks, update_field. cbn in *. by rewrite insert_id. Qed.

Lemma with_blocks_twice m rid bs bs' : with_blocks rid bs' (with_blocks rid bs m) = with_blocks rid bs' m.
Proof. destruct m. unfold with_blocks, update_field. cbn. by rewrite insert_insert_eq. Qed.

Lemma st_bind_req_blocks {A} rid (f : list Z → mgr A) p m :
  (req_blocks rid ≫= f) (p, m) = f (held m rid) (p, with_blocks rid (held m rid) m).
Proof.
  apply st_bind_eq. unfold req_blocks. rewrite st_bind_self. unfold held.
  destruct (sm_req_to_blocks m !! rid) as [bs|] eqn:E'; cbn; [by rewrite with_blocks_id|done].
Qed.

Lemma held_with_blocks rid rid' bs m : held (with_blocks rid bs m) rid' = if decide (rid = rid') then bs else held m rid'.
Proof. unfold held, with_blocks. cbn. rewrite lookup_insert. by case_decide. Qed.

Lemma owned_with_blocks rid bs m b :
  owned (sm_req_to_blocks (with_blocks rid bs m)) b = owned (sm_req_to_blocks m) b - holds b (held m rid) + holds b bs.
Proof. apply owned_insert. Qed.

(** A block of the free queue has no owner. *)
Lemma free_unowned p m l b : kv_state p m l → b ∈ l → owned (sm_req_to_blocks m) b = 0.
Proof.
  intros Hkv Hl. pose proof (dw_free _ _ _ _ (proj2 (kv_wf _ _ _ Hkv)) b Hl) as Hr.
  destruct (ref_wf p l b (kv_wf _ _ _ Hkv) Hr) as (n & Hn & _ & Hz). rewrite (kv_ref _ _ _ Hkv b Hr) in Hn.
  injection Hn as ->. by apply Hz.
Qed.

Lemma owned_one_held m rid rid' b :
  owned (sm_req_to_blocks m) b = 1 → b ∈ held m rid' → rid' ≠ rid → b ∉ held m rid.
Proof.
  intros Ho Hb' Hne Hb. unfold held in Hb, Hb'. destruct (sm_req_to_blocks m !! rid) as [bs1|] eqn:E1; [|by apply elem_of_nil in Hb].
  destruct (sm_req_to_blocks m !! rid') as [bs2|] eqn:E2; [|by apply elem_of_nil in Hb'].
  apply Hne. by apply (owned_one (sm_req_to_blocks m) rid' rid bs2 bs1 b).
Qed.

(** The blocks of one request change. *)
Lemma kv_change p m l p' l' rid bs nc :
  kv_state p m l → pool_wf p' l' → same_config p p' → 0 <= nc →
  (∀ b, b ∈ bs → in_pool p b) → NoDup (filter (fun b => b ≠ 0) bs) →
  (∀ b, b ≠ 0 → ref_of p' b = (Z.add (holds b bs - holds b (held m rid))) <$> ref_of p b) →
  (sm_enable_caching m = true →
    (∀ rid' i b, rid' ≠ rid → held m rid' !! i = Some b → b ≠ 0 → num_cached m rid' <= Z.of_nat i →
      b ∉ bs ∧ hash_of p' b = None) ∧
    (∀ i b, bs !! i = Some b → b ≠ 0 → nc <= Z.of_nat i →
      hash_of p' b = None ∧ owned (sm_req_to_blocks m) b = holds b (held m rid))) →
  kv_state p' (with_cached rid nc (with_blocks rid bs m)) l'.
Proof.
  intros Hkv Hst' Hc Hnc Hbs Hnd Href Hfresh. pose proof Hc as (Hn & Hca & _ & Hnull & _). split; try done.
  - by rewrite Hnull, (kv_null _ _ _ Hkv).
  - by rewrite Hca, (kv_caching _ _ _ Hkv).
  - apply (kv_size _ _ _ Hkv).
  - apply (kv_spec _ _ _ Hkv).
  - apply (kv_group _ _ _ Hkv).
  - intros rid' bs'. cbn. rewrite lookup_insert. case_decide.
    + intros [= <-]. split; [|done]. intros b Hb. apply (in_pool_config p p' b Hc). by apply Hbs.
    + intros Hr. destruct (kv_blocks _ _ _ Hkv rid' bs' Hr) as [Hb ?]. split; [|done].
      intros b Hin. apply (in_pool_config p p' b Hc). by apply Hb.
  - intros b Hb. rewrite Hn in Hb. change (sm_req_to_blocks (with_cached _ _ ?x)) with (sm_req_to_blocks x).
    rewrite owned_with_blocks, Href, (kv_ref _ _ _ Hkv b Hb) by lia. cbn. f_equal. lia.
  - intros Hcache rid' i b. destruct (Hfresh Hcache) as [Hother Hown].
    change (held (with_cached _ _ ?x) rid') with (held x rid'). rewrite held_with_blocks.
    change (sm_req_to_blocks (with_cached _ _ ?x)) with (sm_req_to_blocks x). rewrite owned_with_blocks.
    unfold num_cached. cbn. rewrite lookup_insert. destruct (decide (rid = rid')) as [<-|Hne]; cbn.
    + intros Hi Hb0 Hge. destruct (Hown i b Hi Hb0 Hge) as [Hh Ho]. split; [done|]. rewrite Ho. unfold holds at 3.
      rewrite decide_True by by eapply list_elem_of_lookup_2. lia.
    + intros Hi Hb0 Hge. destruct (Hother rid' i b (not_eq_sym Hne) Hi Hb0 Hge) as [Hnb Hh]. split; [done|].
      destruct (kv_fresh _ _ _ Hkv Hcache rid' i b Hi Hb0 Hge) as [_ Ho]. rewrite Ho. unfold holds. rewrite (decide_False (P := b ∈ bs)) by done.
      rewrite decide_False; [lia|]. apply (owned_one_held m rid rid'); [done|by eapply list_elem_of_lookup_2|congruence].
  - intros rid' n. cbn. rewrite lookup_insert. case_decide; [by intros [= <-]|apply (kv_cached _ _ _ Hkv)].
Qed.

Lemma num_cached_nonneg p m l rid : kv_state p m l → 0 <= num_cached m rid.
Proof.
  intros Hkv. unfold num_cached. destruct (sm_num_cached_block m !! rid) as [n|] eqn:E'; cbn; [|lia].
  by apply (kv_cached _ _ _ Hkv rid).
Qed.

Lemma kv_drop_cached p m l rid :
  (∀ rid n, sm_num_cached_block m !! rid = Some n → 0 <= n) →
  kv_state p (with_cached rid (num_cached m rid) m) l → kv_state p m l.
Proof.
  intros Hnn Hkv. destruct Hkv. split; try done. intros Hca rid' i b Hi Hb0 Hge. apply (kv_fresh0 Hca rid' i b Hi Hb0).
  unfold num_cached in *. cbn. rewrite lookup_insert. by case_decide; [subst|].
Qed.

Lemma kv_change_blocks p m l p' l' rid bs :
  kv_state p m l → pool_wf p' l' → same_config p p' →
  (∀ b, b ∈ bs → in_pool p b) → NoDup (filter (fun b => b ≠ 0) bs) →
  (∀ b, b ≠ 0 → ref_of p' b = (Z.add (holds b bs - holds b (held m rid))) <$> ref_of p b) →
  (sm_enable_caching m = true →
    (∀ rid' i b, rid' ≠ rid → held m rid' !! i = Some b → b ≠ 0 → num_cached m rid' <= Z.of_nat i →
      b ∉ bs ∧ hash_of p' b = None) ∧
    (∀ i b, bs !! i = Some b → b ≠ 0 → num_cached m rid <= Z.of_nat i →
      hash_of p' b = None ∧ owned (sm_req_to_blocks m) b = holds b (held m rid))) →
  kv_state p' (with_blocks rid bs m) l'.
Proof.
  intros Hkv Hst' Hc Hbs Hnd Href Hfresh. apply (kv_drop_cached _ _ _ rid); [apply (kv_cached _ _ _ Hkv)|].
  change (num_cached (with_blocks rid bs m) rid) with (num_cached m rid).
  apply (kv_change p m l p' l' rid bs); try done. by eapply num_cached_nonneg.
Qed.

(** Reading [req_to_blocks] may create an empty entry. *)
Lemma kv_entry p m l rid : kv_state p m l → kv_state p (with_blocks rid (held m rid) m) l.
Proof.
  intros Hkv. destruct (kv_held p m l rid Hkv) as [Hb Hnd]. apply (kv_change_blocks p m l); try done.
  - apply (kv_wf _ _ _ Hkv).
  - intros b _. rewrite Z.sub_diag. by destruct (ref_of p b).
  - intros Hca. split.
    + intros rid' i b Hne Hi Hb0 Hge. destruct (kv_fresh _ _ _ Hkv Hca rid' i b Hi Hb0 Hge) as [? Ho]. split; [|done].
      apply (owned_one_held m rid rid'); [done|by eapply list_elem_of_lookup_2|done].
    + intros i b Hi Hb0 Hge. destruct (kv_fresh _ _ _ Hkv Hca rid i b Hi Hb0 Hge) as [? ->]. split; [done|].
      unfold holds. by rewrite decide_True by by eapply list_elem_of_lookup_2.
Qed.

Lemma filter_real_app bs1 bs2 :
  NoDup (filter (fun b => b ≠ 0) bs1) → NoDup (filter (fun b => b ≠ 0) bs2) →
  (∀ b, b ≠ 0 → b ∈ bs1 → b ∉ bs2) → NoDup (filter (fun b => b ≠ 0) (bs1 ++ bs2)).
Proof.
  intros H1 H2 Hd. rewrite filter_app. apply NoDup_app. split_and!; [done| |done].
  intros b [Hb0 Hb]%list_elem_of_filter [_ Hb2]%list_elem_of_filter. by apply (Hd b).
Qed.

(** A request gets new blocks. *)
Lemma kv_grow p m l rid n :
  kv_state p m l → 0 <= n <= lenZ l →
  ∃ p' bs, get_new_blocks use_int_hashes n p = Ok (p', bs) ∧ lenZ bs = n ∧ same_config p p' ∧
    kv_state p' (with_blocks rid (held m rid ++ bs) m) (drop (Z.to_nat n) l) ∧
    (∀ b, b ∈ bs → b ∈ l) ∧ (∀ b, b ∉ l → hash_of p' b = hash_of p b).
Proof.
  intros Hkv Hn. destruct (pool_new use_int_hashes p l n (kv_wf _ _ _ Hkv) Hn) as (p' & bs & Heq & Hst' & Hc & Hbs & Hlen & Hnd & Hfree & Href & Hhash).
  assert (∀ b, b ∈ bs → b ∈ l) as Hsub by (intros b Hb; rewrite Hbs in Hb; by eapply subseteq_take).
  assert (∀ rid' b, b ∈ held m rid' → b ∉ bs) as Hdis by (intros rid' b Hb Hin; eapply held_not_free; [done..|by apply Hsub]).
  exists p', bs. split_and!; try done.
  2: { intros b Hb. rewrite Hhash, decide_False; [done|]. intros ?. by apply Hb, Hsub. }
  destruct (kv_held p m l rid Hkv) as [Hb1 Hnd1]. apply (kv_change_blocks p m l); try done.
  - intros b [Hb|Hb]%elem_of_app; [by apply Hb1|]. destruct (Hfree b Hb) as [? _]. unfold in_pool. lia.
  - apply filter_real_app; [done|by apply NoDup_filter|]. intros b _ Hb. by apply (Hdis rid).
  - intros b _. rewrite Href, holds_app by apply Hdis. unfold holds at 2. destruct (decide (b ∈ bs)) as [Hb|Hb].
    + destruct (Hfree b Hb) as [_ ->]. unfold holds. rewrite decide_False by (intros ?; by apply (Hdis rid b)). done.
    + unfold holds. replace (_ - _) with 0 by lia. by destruct (ref_of p b).
  - intros Hca. pose proof (kv_caching _ _ _ Hkv) as Hpc. rewrite Hca in Hpc. rewrite Hpc in Hhash. split.
    + intros rid' i b Hne Hi Hb0 Hge. destruct (kv_fresh _ _ _ Hkv Hca rid' i b Hi Hb0 Hge) as [Hh Ho].
      assert (b ∈ held m rid') as Hin by by eapply list_elem_of_lookup_2. split.
      * intros [Hr|Hr]%elem_of_app; [|by apply (Hdis rid' b)]. by apply (owned_one_held m rid rid' b).
      * rewrite Hhash, Hh. by case_decide.
    + intros i b Hi Hb0 Hge. apply lookup_app_Some in Hi as [Hi|[Hlt Hi]].
      * destruct (kv_fresh _ _ _ Hkv Hca rid i b Hi Hb0 Hge) as [Hh ->]. rewrite Hhash, Hh. split; [by case_decide|].
        unfold holds. by rewrite decide_True by by eapply list_elem_of_lookup_2.
      * assert (b ∈ bs) as Hb by by eapply list_elem_of_lookup_2. rewrite Hhash, decide_True by done. split; [done|].
        rewrite (free_unowned p m l b Hkv (Hsub b Hb)). unfold holds. rewrite decide_False; [done|]. intros ?. by apply (Hdis rid b).
Qed.

(** [get_num_blocks_to_allocate] as a function of the state. *)
Definition demand m l rid num_tokens (nc : list Z) total_computed_tokens (cap : bool) : Z :=
  let required := cdiv num_tokens (sm_block_size m) in
  let required := match sm_max_admission m with Some c => if cap then Z.min required c else required | None => required end in
  match sm_num_cached_block m !! rid with
  | Some _ => Z.max (required - lenZ (held m rid)) 0
  | None =>
      let skipped := get_num_skipped_tokens m total_computed_tokens / sm_block_size m in
      Z.max (required - Z.max skipped (lenZ nc + lenZ (held m rid))) 0 +
      lenZ (filter (fun b => b ∈ l) (drop (Z.to_nat (skipped - lenZ (held m rid))) nc))
  end.

Lemma drop_slice {A} (bs : list A) n : py_slice bs (Z.max 0 n) (lenZ bs) = drop (Z.to_nat n) bs.
Proof.
  rewrite py_slice_nonneg by lia. replace (Z.to_nat (Z.max 0 n)) with (Z.to_nat n) by lia.
  apply take_ge. rewrite length_drop. lia.
Qed.

Lemma demand_eq p m l rid nt nc tct ntm cap :
  kv_state p m l → (∀ b, b ∈ nc → in_pool p b) → (is_Some (sm_num_cached_block m !! rid) → nc = []) →
  sm_get_num_blocks_to_allocate rid nt nc tct ntm cap (p, m) = Ok ((p, m), demand m l rid nt nc tct cap).
Proof.
  intros Hkv Hnc Hcached. unfold sm_get_num_blocks_to_allocate. rewrite st_bind_self.
  assert (base_num_blocks_to_allocate rid nt nc tct cap (p, m) = Ok ((p, m), demand m l rid nt nc tct cap)) as Hbase.
  { unfold base_num_blocks_to_allocate, demand. rewrite st_bind_self. destruct (sm_num_cached_block m !! rid) as [n|].
    - rewrite Hcached by by eexists. rewrite st_bind_assert by done. by destruct (sm_max_admission m).
    - rewrite drop_slice.
      assert (∀ b, b ∈ drop (Z.to_nat (get_num_skipped_tokens m tct / sm_block_size m - lenZ (held m rid))) nc → in_pool p b) as Hd
        by (intros b Hb; apply Hnc; by eapply subseteq_drop).
      st_step (on_pool_eq _ p m _ _ (evictable_spec p l _ (kv_wf _ _ _ Hkv) Hd)). by destruct (sm_max_admission m). }
  pose proof (kv_spec _ _ _ Hkv) as Hs. unfold positional in Hs. by destruct (spec_type_of (sm_spec m)).
Qed.

(** What no operation of a manager changes. *)
Definition same_mgr m m' : Prop :=
  sm_spec m' = sm_spec m ∧ sm_block_size m' = sm_block_size m ∧ sm_kv_cache_group_id m' = sm_kv_cache_group_id m ∧
  sm_enable_caching m' = sm_enable_caching m ∧ sm_max_admission m' = sm_max_admission m.
#[global] Instance same_mgr_refl : Reflexive same_mgr.
Proof. by intros m. Qed.
#[global] Instance same_mgr_trans : Transitive same_mgr.
Proof. unfold same_mgr. intros m1 m2 m3. intuition congruence. Qed.

(** The blocks of request [rid] become [bs], those of other requests stay. *)
Definition blocks_changed rid bs m m' : Prop :=
  held m' rid = bs ∧ ∀ rid', rid' ≠ rid → held m' rid' = held m rid'.

(** The counts of cached blocks of other requests stay. *)
Definition cached_kept rid m m' : Prop := ∀ rid', rid' ≠ rid → sm_num_cached_block m' !! rid' = sm_num_cached_block m !! rid'.
#[global] Instance cached_kept_refl rid : Reflexive (cached_kept rid).
Proof. by intros m rid'. Qed.
#[global] Instance cached_kept_trans rid : Transitive (cached_kept rid).
Proof. intros m1 m2 m3 H12 H23 rid' Hne. by rewrite H23, H12. Qed.

Lemma blocks_changed_with rid bs m : blocks_changed rid bs m (with_blocks rid bs m).
Proof. split; [|intros rid' Hne]; rewrite held_with_blocks; by case_decide. Qed.

Lemma with_blocks_held m rid rid' : held (with_blocks rid (held m rid) m) rid' = held m rid'.
Proof. rewrite held_with_blocks. by case_decide; [subst|]. Qed.

Lemma kv_recorded p m l f : kv_state p m l → kv_state p (m <| sm_new_block_ids ::= f |>) l.
Proof. intros []. by split. Qed.

(** New blocks appended to those of the request, and recorded. *)
Lemma grow_recorded p m l rid n :
  kv_state p m l → 0 <= n <= lenZ l →
  ∃ p' m' bs, (∀ A (f : list Z → mgr A), (allocated ← new_pool_blocks use_int_hashes n;
      set_req_blocks rid (held m rid ++ allocated);; record_new_blocks allocated;; f allocated) (p, m) = f bs (p', m')) ∧
    kv_state p' m' (drop (Z.to_nat n) l) ∧ same_config p p' ∧ same_mgr m m' ∧ lenZ bs = n ∧
    blocks_changed rid (held m rid ++ bs) m m' ∧ sm_num_cached_block m' = sm_num_cached_block m ∧
    (∀ b, b ∈ bs → b ∈ l) ∧ (∀ b, b ∉ l → hash_of p' b = hash_of p b).
Proof.
  intros Hkv Hn. destruct (kv_grow p m l rid n Hkv Hn) as (p' & bs & Heq & Hlen & Hc & Hkv' & Hsub & Hh).
  set (m1 := with_blocks rid (held m rid ++ bs) m) in *.
  exists p', (if needs_zeroing (sm_spec m1) then m1 <| sm_new_block_ids ::= fun l => l ++ bs |> else m1), bs.
  split.
  { intros A f. unfold new_pool_blocks. st_step (on_pool_eq _ p m p' bs Heq). unfold set_req_blocks. rewrite st_bind_update.
    change (m <| sm_req_to_blocks ::= _ |>) with m1. unfold record_new_blocks. rewrite st_bind_assoc, st_bind_self.
    unfold st_when. by destruct (needs_zeroing (sm_spec m1)). }
  pose proof (blocks_changed_with rid (held m rid ++ bs) m) as Hbc.
  split; [destruct (needs_zeroing _); [by apply kv_recorded|done]|]. by destruct (needs_zeroing _).
Qed.

(** [allocate_new_blocks] gives the request the slots it asks for. *)
Lemma allocate_new_blocks_spec p m l rid nt ntm :
  kv_state p m l → cdiv nt (sm_block_size m) - lenZ (held m rid) <= lenZ l →
  ∃ p' m' l' bs, sm_allocate_new_blocks use_int_hashes rid nt ntm (p, m) = Ok ((p', m'), bs) ∧ kv_state p' m' l' ∧
    same_config p p' ∧ same_mgr m m' ∧ blocks_changed rid (held m rid ++ bs) m m' ∧
    sm_num_cached_block m' = sm_num_cached_block m ∧
    lenZ bs = Z.max 0 (cdiv nt (sm_block_size m) - lenZ (held m rid)) ∧ lenZ l' = lenZ l - lenZ bs ∧
    (∀ b, b ∈ bs → b ∈ l) ∧ (∀ b, b ∉ l → hash_of p' b = hash_of p b).
Proof.
  intros Hkv Hfit. unfold sm_allocate_new_blocks. rewrite st_bind_self.
  set (n := cdiv nt (sm_block_size m) - lenZ (held m rid)) in *.
  assert (∃ p' m' l' bs, base_allocate_new_blocks use_int_hashes rid nt (p, m) = Ok ((p', m'), bs) ∧ kv_state p' m' l' ∧
    same_config p p' ∧ same_mgr m m' ∧ blocks_changed rid (held m rid ++ bs) m m' ∧
    sm_num_cached_block m' = sm_num_cached_block m ∧ lenZ bs = Z.max 0 n ∧ lenZ l' = lenZ l - lenZ bs ∧
    (∀ b, b ∈ bs → b ∈ l) ∧ (∀ b, b ∉ l → hash_of p' b = hash_of p b)) as Hbase.
  2: { pose proof (kv_spec _ _ _ Hkv) as Hs. unfold positional in Hs. by destruct (spec_type_of (sm_spec m)). }
  unfold base_allocate_new_blocks. rewrite st_bind_self, st_bind_req_blocks. fold n.
  set (m1 := with_blocks rid (held m rid) m). assert (kv_state p m1 l) as Hkv1 by by apply kv_entry.
  destruct (Z.leb_spec n 0) as [Hn|Hn].
  { exists p, m1, l, []. rewrite app_nil_r. pose proof (blocks_changed_with rid (held m rid) m).
    split_and!; try done; try (cbn; lia). intros b Hb. by apply elem_of_nil in Hb. }
  destruct (grow_recorded p m1 l rid n Hkv1 ltac:(lia)) as (p' & m' & bs & Heq & Hkv' & Hc & Hs & Hlen & [Hb1 Hb2] & Hca & Hsub & Hh).
  unfold m1 in Heq at 1, Hb1. rewrite with_blocks_held in Heq, Hb1. rewrite Heq.
  exists p', m', (drop (Z.to_nat n) l), bs. split_and!; try done; [|lia|rewrite length_drop; lia].
  split; [done|]. intros rid' Hne. rewrite Hb2 by done. apply with_blocks_held.
Qed.

Lemma cdiv_spec a b : 0 < b → cdiv a b * b - b < a <= cdiv a b * b.
Proof.
  intros Hb. unfold cdiv. pose proof (Z_div_mod_eq_full a (- b)). pose proof (Z.mod_neg_bound a (- b) ltac:(lia)). nia.
Qed.

Lemma filter_counts (l c : list Z) :
  NoDup l → 0 ∉ l → NoDup (filter (fun b => b ≠ 0) c) →
  lenZ (filter (fun b => b ∉ c) l) = lenZ l - lenZ (filter (fun b => b ∈ l) c).
Proof.
  intros Hl H0 Hc. assert (filter (fun b => b ∈ c) l ≡ₚ filter (fun b => b ∈ l) c) as Hp.
  { apply NoDup_Permutation; [by apply NoDup_filter| |].
    - apply (NoDup_filter_sub _ (fun b => b ≠ 0)); [|done]. by intros b _ Hb ->.
    - intros b. rewrite !list_elem_of_filter. tauto. }
  rewrite <- (Permutation_length Hp). clear. induction l as [|b l IH]; [done|]. rewrite !filter_cons.
  destruct (decide (b ∈ c)) as [Hb|Hb]; [rewrite (decide_False (P := b ∉ c)) by tauto|rewrite decide_True by done]; cbn in *; lia.
Qed.

Lemma elem_of_padded b n bs : b ≠ 0 → b ∈ replicate n 0 ++ bs ↔ b ∈ bs.
Proof. intros Hb. rewrite elem_of_app. split; [|by right]. intros [[-> _]%elem_of_replicate|]; done. Qed.

Lemma padded_real n bs : filter (fun b => b ≠ 0) (replicate n 0 ++ bs) = filter (fun b => b ≠ 0) bs.
Proof. rewrite filter_app, list_filter_none; [done|]. intros b [-> _]%elem_of_replicate. by intros ?. Qed.

(** Hits of the prefix cache, as [find_longest_cache_hit] returns them. *)
Definition valid_hits p (nc : list Z) : Prop :=
  NoDup (filter (fun b => b ≠ 0) nc) ∧ ∀ b, b ∈ nc → in_pool p b ∧ (b ≠ 0 → hash_of p b ≠ None).

(** A request takes over its hits: padded with null blocks, and touched. *)
Lemma kv_adopt p m l rid nc sk :
  kv_state p m l → held m rid = [] → valid_hits p nc → (sm_enable_caching m = false → nc = []) → 0 <= sk →
  let computed := drop (Z.to_nat sk) nc in
  let bs := replicate (Z.to_nat sk) 0 ++ computed in
  ∃ p', (if sm_enable_caching m then on_pool (touch computed)
         else st_assert (match computed with [] => true | _ => false end)) (p, with_blocks rid [] m) =
        Ok ((p', with_blocks rid [] m), tt) ∧ same_config p p' ∧
    kv_state p' (with_cached rid (lenZ bs) (with_blocks rid bs m)) (filter (fun b => b ∉ computed) l) ∧
    lenZ (filter (fun b => b ∉ computed) l) = lenZ l - lenZ (filter (fun b => b ∈ l) computed) ∧
    (∀ b, b ≠ 0 → hash_of p' b = hash_of p b).
Proof.
  intros Hkv Hh [Hnd Hhit] Hnc Hsk computed bs. pose proof (kv_wf _ _ _ Hkv) as Hst.
  assert (∀ b, b ∈ computed → b ∈ nc) as Hsub by (intros b Hb; by eapply subseteq_drop).
  assert (NoDup (filter (fun b => b ≠ 0) computed)) as Hndc.
  { rewrite <- (take_drop (Z.to_nat sk) nc), filter_app in Hnd. by apply NoDup_app in Hnd as (_ & _ & ?). }
  assert (∀ b, b ∈ computed → in_pool p b) as Hin by (intros b Hb; apply Hhit; by apply Hsub).
  destruct (pool_touch p l computed Hst Hin Hndc) as (p' & Heq & Hst' & Hc & Href & Hhash).
  assert (sm_enable_caching m = false → computed = []) as Hno by (intros Hf; unfold computed; rewrite Hnc by done; apply drop_nil).
  exists (if sm_enable_caching m then p' else p). split.
  { destruct (sm_enable_caching m); [by apply on_pool_eq|]. by rewrite Hno. }
  assert (kv_state p' (with_cached rid (lenZ bs) (with_blocks rid bs m)) (filter (fun b => b ∉ computed) l)) as Hkv'.
  { apply (kv_change p m l); try done; [lia| | | |].
    - intros b [[-> _]%elem_of_replicate|Hb]%elem_of_app; [|by apply Hin]. unfold in_pool.
      pose proof (dw_pos _ _ _ _ (proj2 Hst)). lia.
    - unfold bs. by rewrite padded_real.
    - intros b Hb0. rewrite Hh, (Href b Hb0). unfold holds, bs. rewrite (decide_False (P := b ∈ [])) by apply not_elem_of_nil.
      rewrite Z.sub_0_r. destruct (decide (b ∈ computed)) as [Hb|Hb].
      + by rewrite decide_True by by apply elem_of_padded.
      + by rewrite decide_False by by rewrite elem_of_padded.
    - intros Hca. split.
      + intros rid' i b _ Hi Hb0 Hge. destruct (kv_fresh _ _ _ Hkv Hca rid' i b Hi Hb0 Hge) as [Hnone _].
        rewrite (Hhash b Hb0). split; [|done]. unfold bs. rewrite elem_of_padded by done. intros Hb%Hsub.
        by destruct (Hhit b Hb) as [_ Hsome]; apply (Hsome Hb0).
      + intros i b Hi%lookup_lt_Some. lia. }
  split_and!.
  - by destruct (sm_enable_caching m).
  - destruct (sm_enable_caching m) eqn:Hca; [done|]. subst bs. rewrite (Hno eq_refl), app_nil_r in *.
    rewrite list_filter_all in Hkv' |- * by (intros; apply not_elem_of_nil).
    apply (kv_change p m l); try done; [lia| | | |].
    + intros b [-> _]%elem_of_replicate. unfold in_pool. pose proof (dw_pos _ _ _ _ (proj2 Hst)). lia.
    + rewrite <- (app_nil_r (replicate _ _)), padded_real. apply NoDup_nil_2.
    + intros b Hb0. rewrite Hh. unfold holds. rewrite (decide_False (P := b ∈ [])) by apply not_elem_of_nil.
      rewrite decide_False by (intros [-> _]%elem_of_replicate; done). by destruct (ref_of p b).
    + by rewrite Hca.
  - apply filter_counts; [by eapply free_length| |done]. intros H0. pose proof (dw_free _ _ _ _ (proj2 Hst) 0 H0). lia.
  - intros b Hb0. destruct (sm_enable_caching m); [by apply Hhash|done].
Qed.

Lemma skipped_blocks m n :
  0 < sm_block_size m → positional (sm_spec m) → 0 <= n →
  0 <= get_num_skipped_tokens m n / sm_block_size m <= cdiv n (sm_block_size m).
Proof.
  intros Hb Hs Hn. pose proof (skipped_bounds m n Hs Hn). pose proof (cdiv_spec n (sm_block_size m) Hb).
  pose proof (Z.div_pos (get_num_skipped_tokens m n) (sm_block_size m)). pose proof (Z.mul_div_le (get_num_skipped_tokens m n) (sm_block_size m)). nia.
Qed.

(** [allocate_new_computed_blocks] for a request without blocks. *)
Lemma allocate_computed_spec p m l rid nc local ext :
  kv_state p m l → held m rid = [] → sm_num_cached_block m !! rid = None → valid_hits p nc →
  (sm_enable_caching m = false → nc = []) → local = lenZ nc * sm_block_size m → 0 <= ext →
  let sk := get_num_skipped_tokens m (local + ext) / sm_block_size m in
  let total := cdiv (local + ext) (sm_block_size m) in
  total - Z.max sk (lenZ nc) + lenZ (filter (fun b => b ∈ l) (drop (Z.to_nat sk) nc)) <= lenZ l →
  ∃ p' m' l' new, sm_allocate_new_computed_blocks use_int_hashes rid nc local ext (p, m) = Ok ((p', m'), tt) ∧
    kv_state p' m' l' ∧ same_config p p' ∧ same_mgr m m' ∧
    blocks_changed rid ((replicate (Z.to_nat sk) 0 ++ drop (Z.to_nat sk) nc) ++ new) m m' ∧
    sm_num_cached_block m' = <[rid := Z.max sk (lenZ nc)]> (sm_num_cached_block m) ∧
    0 <= lenZ new <= total - Z.max sk (lenZ nc) ∧
    lenZ l' = lenZ l - lenZ (filter (fun b => b ∈ l) (drop (Z.to_nat sk) nc)) - lenZ new.
Proof.
  intros Hkv Hh Huc Hv Hnc Hloc Hext sk total Hfit. pose proof (kv_size _ _ _ Hkv) as Hbs. pose proof (kv_spec _ _ _ Hkv) as Hsp.
  pose proof (skipped_blocks m (local + ext) Hbs Hsp ltac:(nia)) as Hsk. fold sk total in Hsk.
  pose proof (cdiv_spec (local + ext) (sm_block_size m) Hbs) as Htot. fold total in Htot.
  assert (lenZ nc <= total) as Hnct by nia.
  unfold sm_allocate_new_computed_blocks. rewrite st_bind_self.
  assert (is_cross (sm_spec m) = false) as ->
    by (unfold is_cross, positional in *; by destruct (spec_type_of (sm_spec m))).
  unfold base_allocate_new_computed_blocks. rewrite st_bind_self, Huc, st_bind_req_blocks, Hh, st_bind_assert by done. fold sk.
  assert ((if 0 <? sk then py_slice nc sk (lenZ nc) else nc) = drop (Z.to_nat sk) nc) as ->.
  { destruct (Z.ltb_spec 0 sk); [by rewrite <- drop_slice, Z.max_r by lia|]. by replace sk with 0 by lia. }
  set (computed := drop (Z.to_nat sk) nc) in *. set (bs := replicate (Z.to_nat sk) 0 ++ computed).
  destruct (kv_adopt p m l rid nc sk Hkv Hh Hv Hnc ltac:(lia)) as (p1 & Heq1 & Hc1 & Hkv1 & Hl1 & _). fold computed bs in Heq1, Hkv1, Hl1.
  st_step Heq1. rewrite st_bind_null by (destruct Hc1 as (_ & _ & _ & -> & _); apply (kv_null _ _ _ Hkv)). fold bs.
  unfold set_req_blocks. rewrite !st_bind_update.
  assert ((with_blocks rid [] m) <| sm_req_to_blocks ::= insert rid bs |> = with_blocks rid bs m) as ->
    by exact (with_blocks_twice m rid [] bs).
  fold (with_cached rid (lenZ bs) (with_blocks rid bs m)).
  set (m1 := with_cached rid (lenZ bs) (with_blocks rid bs m)) in *.
  assert (lenZ bs = Z.max sk (lenZ nc)) as Hlb by (unfold bs, computed; rewrite length_app, length_replicate, length_drop; lia).
  assert (held m1 rid = bs) as Hh1 by (unfold m1; change (held (with_blocks rid bs m) rid = bs); rewrite held_with_blocks; by rewrite decide_True).
  assert (∀ rid', rid' ≠ rid → held m1 rid' = held m rid') as Ho1
    by (intros rid' Hne; change (held (with_blocks rid bs m) rid' = held m rid'); rewrite held_with_blocks; by rewrite decide_False).
  unfold st_when. destruct (0 <? _).
  - destruct (grow_recorded p1 m1 _ rid (total - lenZ bs) Hkv1 ltac:(lia)) as (p' & m' & new & Heq & Hkv' & Hc & Hs & Hlen & [Hb1 Hb2] & Hca & _ & _).
    rewrite Hh1 in Heq, Hb1. rewrite Heq. exists p', m', (drop (Z.to_nat (total - lenZ bs)) (filter (fun b => b ∉ computed) l)), new.
    split_and!; try done; [by etrans| |by rewrite Hca, <- Hlb|lia|lia|rewrite length_drop; lia].
    split; [done|]. intros rid' Hne. by rewrite Hb2, Ho1.
  - exists p1, m1, (filter (fun b => b ∉ computed) l), []. rewrite app_nil_r.
    split_and!; first [done|by split|by rewrite <- Hlb|cbn; lia].
Qed.

Lemma skip_loop_spec n bs :
  (n <= length bs)%nat → NoDup (filter (fun b => b ≠ 0) bs) →
  let '(removed, bs') := skip_loop 0 n bs in
  length bs' = length bs ∧ NoDup removed ∧ (∀ b, b ∈ removed → b ≠ 0 ∧ b ∈ bs) ∧
  (∀ i b, bs' !! i = Some b → b ≠ 0 → bs !! i = Some b ∧ b ∉ removed) ∧
  (∀ b, b ≠ 0 → b ∈ bs → b ∈ removed ∨ b ∈ bs').
Proof.
  revert bs; induction n as [|n IH]; intros bs Hn Hnd; cbn [skip_loop].
  { split_and!; try done; [apply NoDup_nil_2|intros b Hb; by apply elem_of_nil in Hb| |by right]. intros i b Hi _. split; [done|apply not_elem_of_nil]. }
  destruct (lookup_lt_is_Some_2 bs n ltac:(lia)) as [b Hb]. rewrite Hb.
  destruct (decide (b = 0)) as [->|Hb0].
  { split_and!; try done; [apply NoDup_nil_2|intros c Hc; by apply elem_of_nil in Hc| |by right]. intros i c Hi _. split; [done|apply not_elem_of_nil]. }
  assert (bs = take n bs ++ b :: drop (S n) bs) as Hsplit by (symmetry; by apply take_drop_middle).
  assert (<[n := 0]> bs = take n bs ++ 0 :: drop (S n) bs) as Hins by (apply insert_take_drop; lia).
  assert (∀ c, c ≠ 0 → c ∈ <[n := 0]> bs ↔ c ∈ bs ∧ c ≠ b) as Hmem.
  { rewrite Hsplit, filter_app, filter_cons, decide_True in Hnd by done. apply NoDup_app in Hnd as (_ & Hd1 & Hd2).
    apply NoDup_cons in Hd2 as [Hd2 _].
    intros c Hc0. rewrite Hins. rewrite Hsplit at 3. rewrite !elem_of_app, !elem_of_cons. split.
    - intros [Hc|[?|Hc]]; [|done|]; (split; [tauto|]); intros ->.
      + apply (Hd1 b); [by apply list_elem_of_filter|left].
      + by apply Hd2, list_elem_of_filter.
    - intros [[?|[?|?]] ?]; tauto. }
  specialize (IH (<[n := 0]> bs)). destruct (skip_loop 0 n (<[n := 0]> bs)) as [removed bs'].
  destruct IH as (Hlen & Hndr & Hrem & Hkeep & Hcov).
  { rewrite length_insert. lia. }
  { rewrite Hins. rewrite Hsplit in Hnd. rewrite filter_app, filter_cons in Hnd |- *. rewrite decide_True in Hnd by done.
    rewrite decide_False by (by intros ?). apply NoDup_app in Hnd as (? & Hd & Hd2). apply NoDup_cons in Hd2 as [_ ?].
    apply NoDup_app. split_and!; [done| |done]. intros c Hc Hc'. apply (Hd c Hc). by right. }
  rewrite length_insert in Hlen. split_and!; [done| | | |].
  - apply NoDup_cons. split; [|done]. intros Hr. destruct (Hrem b Hr) as [_ Hin]. by apply Hmem in Hin as [_ ?].
  - intros c [->|Hc]%elem_of_cons; [split; [done|by eapply list_elem_of_lookup_2]|]. destruct (Hrem c Hc) as [Hc0 Hin]. split; [done|].
    by apply Hmem in Hin as [? _].
  - intros i c Hi Hc0. destruct (Hkeep i c Hi Hc0) as [Hi' Hnr]. pose proof (proj1 (Hmem c Hc0) (list_elem_of_lookup_2 _ _ _ Hi')) as [_ Hcb].
    split; [|by apply not_elem_of_cons]. rewrite list_lookup_insert in Hi'. case_decide; [|done]. naive_solver.
  - intros c Hc0 Hc. destruct (decide (c = b)) as [->|Hcb]; [left; left|].
    destruct (Hcov c Hc0) as [?|?]; [by apply Hmem|left; by right|by right].
Qed.

(** Blocks a request gives up can be freed. *)
Lemma kv_freeable p m l rid bs :
  kv_state p m l → NoDup (filter (fun b => b ≠ 0) bs) → (∀ b, b ∈ bs → b ∈ held m rid) → freeable p bs.
Proof.
  intros Hkv Hnd Hsub. split; [done|]. intros b Hb. pose proof (proj1 (kv_held p m l rid Hkv) b (Hsub b Hb)) as Hin.
  split; [done|]. intros Hb0. unfold in_pool in Hin. exists (owned (sm_req_to_blocks m) b).
  split; [apply (kv_ref _ _ _ Hkv); lia|]. specialize (Hsub b Hb). unfold held in Hsub.
  destruct (sm_req_to_blocks m !! rid) as [bs1|] eqn:E1; [|by apply elem_of_nil in Hsub]. by eapply owned_ge.
Qed.

Lemma kv_shrink p m l rid removed bs' :
  kv_state p m l → NoDup removed → length bs' = length (held m rid) →
  (∀ b, b ∈ removed → b ≠ 0 ∧ b ∈ held m rid) →
  (∀ i b, bs' !! i = Some b → b ≠ 0 → held m rid !! i = Some b ∧ b ∉ removed) →
  (∀ b, b ≠ 0 → b ∈ held m rid → b ∈ removed ∨ b ∈ bs') → (∀ b, b ∈ bs' → b = 0 ∨ b ∈ held m rid) →
  NoDup (filter (fun b => b ≠ 0) bs') →
  ∃ p' freed, free_blocks removed p = Ok (p', tt) ∧ kv_state p' (with_blocks rid bs' m) (l ++ freed) ∧ same_config p p' ∧
    (∀ b, b ≠ 0 → hash_of p' b = hash_of p b).
Proof.
  intros Hkv Hndr Hlen Hrem Hkeep Hcov Hbs' Hnd'. pose proof (kv_wf _ _ _ Hkv) as Hst.
  destruct (pool_free p l removed Hst) as (p' & freed & Heq & Hst' & Hc & Href & Hhash).
  { apply (kv_freeable p m l rid); [done|by apply NoDup_filter|]. intros b Hb. by apply Hrem. }
  exists p', freed. split_and!; [done| |done|done].
  assert (∀ b, b ≠ 0 → b ∈ bs' → b ∈ held m rid ∧ b ∉ removed) as Hk.
  { intros b Hb0 [i Hi]%list_elem_of_lookup. destruct (Hkeep i b Hi Hb0) as [Hh ?]. split; [by eapply list_elem_of_lookup_2|done]. }
  apply (kv_change_blocks p m l); try done.
  - intros b Hb. destruct (Hbs' b Hb) as [->|Hh]; [|by apply (kv_held p m l rid Hkv)].
    unfold in_pool. pose proof (dw_pos _ _ _ _ (proj2 Hst)). lia.
  - intros b Hb0. rewrite (Href b Hb0). unfold holds. f_equal. f_equal.
    destruct (decide (b ∈ removed)) as [Hr|Hr].
    + rewrite (decide_True (P := b ∈ held m rid)) by by apply Hrem. rewrite decide_False; [done|]. intros Hb'. by apply (Hk b Hb0 Hb').
    + destruct (decide (b ∈ bs')) as [Hb'|Hb'].
      * by rewrite (decide_True (P := b ∈ held m rid)) by by apply (Hk b Hb0 Hb').
      * rewrite decide_False; [done|]. intros Hh. by destruct (Hcov b Hb0 Hh).
  - intros Hca. split.
    + intros rid' i b Hne Hi Hb0 Hge. destruct (kv_fresh _ _ _ Hkv Hca rid' i b Hi Hb0 Hge) as [Hh Ho]. rewrite (Hhash b Hb0). split; [|done].
      intros Hb'. destruct (Hk b Hb0 Hb') as [Hin _].
      apply (owned_one_held m rid rid' b Ho); [by eapply list_elem_of_lookup_2|done|done].
    + intros i b Hi Hb0 Hge. destruct (Hkeep i b Hi Hb0) as [Hi' _]. rewrite (Hhash b Hb0).
      destruct (kv_fresh _ _ _ Hkv Hca rid i b Hi' Hb0 Hge) as [? ->]. split; [done|].
      unfold holds. by rewrite decide_True by by eapply list_elem_of_lookup_2.
Qed.

Lemma real_index bs i j b : NoDup (filter (fun b => b ≠ 0) bs) → bs !! i = Some b → bs !! j = Some b → b ≠ 0 → i = j.
Proof.
  revert i j; induction bs as [|b' bs IH]; intros i j Hnd Hi Hj Hb0; [done|]. rewrite filter_cons in Hnd.
  assert (NoDup (filter (fun b => b ≠ 0) bs) ∧ (b' ≠ 0 → b' ∉ bs)) as [Hnd' Hnew].
  { destruct (decide (b' ≠ 0)); [|done]. apply NoDup_cons in Hnd as [Hn ?]. split; [done|]. intros ? ?. by apply Hn, list_elem_of_filter. }
  destruct i as [|i], j as [|j]; cbn in Hi, Hj; [done|..|f_equal; by apply IH].
  - injection Hi as ->. destruct (Hnew Hb0). by eapply list_elem_of_lookup_2.
  - injection Hj as ->. destruct (Hnew Hb0). by eapply list_elem_of_lookup_2.
Qed.

Lemma real_nodup_lookup bs bs' :
  length bs' = length bs → (∀ i b, bs' !! i = Some b → b ≠ 0 → bs !! i = Some b) →
  NoDup (filter (fun b => b ≠ 0) bs) → NoDup (filter (fun b => b ≠ 0) bs').
Proof.
  revert bs; induction bs' as [|b' bs' IH]; intros [|b bs] Hlen Hkeep Hnd; [done|done|done|].
  rewrite filter_cons in Hnd |- *. injection Hlen as Hlen.
  assert (NoDup (filter (fun b => b ≠ 0) bs')) as Hnd'.
  { apply (IH bs Hlen); [intros i c Hi; apply (Hkeep (S i) c Hi)|]. case_decide; [by apply NoDup_cons in Hnd as [_ ?]|done]. }
  destruct (decide (b' ≠ 0)) as [Hb'|Hb']; [|done]. apply NoDup_cons. split; [|done]. pose proof (Hkeep 0%nat b' eq_refl Hb') as [= ->].
  rewrite decide_True in Hnd by done. apply NoDup_cons in Hnd as [Hn _]. intros [_ [i Hi]%list_elem_of_lookup]%list_elem_of_filter.
  apply Hn, list_elem_of_filter. split; [done|]. eapply list_elem_of_lookup_2. by apply (Hkeep (S i)).
Qed.

(** [remove_skipped_blocks] keeps the positions of the blocks. *)
Lemma remove_skipped_spec p m l rid tct :
  kv_state p m l → ∃ p' m' l' bs', sm_remove_skipped_blocks rid tct (p, m) = Ok ((p', m'), tt) ∧ kv_state p' m' l' ∧
    same_config p p' ∧ same_mgr m m' ∧ blocks_changed rid bs' m m' ∧ length bs' = length (held m rid) ∧
    sm_num_cached_block m' = sm_num_cached_block m ∧ lenZ l <= lenZ l' ∧ (∀ b, b ≠ 0 → hash_of p' b = hash_of p b).
Proof.
  intros Hkv. unfold sm_remove_skipped_blocks. rewrite st_bind_self.
  assert (∃ p' m' l' bs', base_remove_skipped_blocks rid tct (p, m) = Ok ((p', m'), tt) ∧ kv_state p' m' l' ∧
    same_config p p' ∧ same_mgr m m' ∧ blocks_changed rid bs' m m' ∧ length bs' = length (held m rid) ∧
    sm_num_cached_block m' = sm_num_cached_block m ∧ lenZ l <= lenZ l' ∧ (∀ b, b ≠ 0 → hash_of p' b = hash_of p b)) as Hbase.
  2: { pose proof (kv_spec _ _ _ Hkv) as Hs. unfold positional in Hs. by destruct (spec_type_of (sm_spec m)). }
  unfold base_remove_skipped_blocks. rewrite st_bind_self. destruct (_ <=? 0).
  { exists p, m, l, (held m rid). split_and!; done. }
  rewrite st_bind_req_blocks, st_bind_null by apply (kv_null _ _ _ Hkv). set (m1 := with_blocks rid (held m rid) m).
  set (n := Z.to_nat _). destruct (kv_held p m l rid Hkv) as [Hin Hnd].
  pose proof (skip_loop_spec n (held m rid) ltac:(lia) Hnd) as Hskip. destruct (skip_loop 0 n (held m rid)) as [removed bs'].
  destruct Hskip as (Hlen & Hndr & Hrem & Hkeep & Hcov). unfold set_req_blocks. rewrite st_bind_update.
  assert (m1 <| sm_req_to_blocks ::= insert rid bs' |> = with_blocks rid bs' m) as -> by exact (with_blocks_twice m rid _ bs').
  destruct (kv_shrink p m l rid removed bs') as (p' & freed & Heq & Hkv' & Hc & Hhash); try done.
  { intros b [i Hi]%list_elem_of_lookup. destruct (decide (b = 0)); [by left|right]. destruct (Hkeep i b Hi) as [? _]; [done|].
    by eapply list_elem_of_lookup_2. }
  { apply (real_nodup_lookup (held m rid)); [done| |done]. intros i b Hi Hb0. by apply Hkeep. }
  exists p', (with_blocks rid bs' m), (l ++ freed), bs'. split_and!; try done.
  - by apply on_pool_eq.
  - apply blocks_changed_with.
  - rewrite length_app. lia.
Qed.

Lemma kv_forget p m l rid :
  kv_state p (with_cached rid 0 (with_blocks rid [] m)) l →
  kv_state p (m <| sm_req_to_blocks ::= delete rid |> <| sm_num_cached_block ::= delete rid |>) l.
Proof.
  intros Hkv. set (m0 := with_cached rid 0 (with_blocks rid [] m)) in *.
  set (m' := m <| sm_req_to_blocks ::= _ |> <| sm_num_cached_block ::= _ |>).
  assert (∀ b, owned (sm_req_to_blocks m') b = owned (sm_req_to_blocks m0) b) as Ho.
  { intros b. change (sm_req_to_blocks m') with (delete rid (sm_req_to_blocks m)). unfold m0.
    change (sm_req_to_blocks (with_cached _ _ ?x)) with (sm_req_to_blocks x). rewrite owned_with_blocks, owned_delete.
    change (holds b []) with 0. unfold held. lia. }
  assert (∀ rid', held m' rid' = held m0 rid') as Hh.
  { intros rid'. unfold m0. change (held (with_cached _ _ ?x) rid') with (held x rid'). rewrite held_with_blocks. unfold held, m'. cbn.
    rewrite lookup_delete. by case_decide. }
  assert (∀ rid', num_cached m' rid' = num_cached m0 rid') as Hn.
  { intros rid'. unfold num_cached, m', m0. cbn. rewrite lookup_delete, lookup_insert. by case_decide. }
  destruct Hkv. split; try done.
  - intros rid' bs. unfold m'. cbn. rewrite lookup_delete. case_decide as Hd; [done|]. intros Hb. apply (kv_blocks0 rid').
    unfold m0. cbn. by rewrite lookup_insert_ne.
  - intros b Hb. rewrite Ho. by apply kv_ref0.
  - intros Hca rid' i b. rewrite Hh, Hn, Ho. by apply kv_fresh0.
  - intros rid' n. unfold m'. cbn. rewrite lookup_delete. case_decide as Hd; [done|]. intros Hc. apply (kv_cached0 rid').
    unfold m0. cbn. by rewrite lookup_insert_ne.
Qed.

(** [free] returns every block the request holds alone. *)
Lemma free_spec p m l rid :
  kv_state p m l → ∃ p' m' freed, sm_free rid (p, m) = Ok ((p', m'), tt) ∧ kv_state p' m' (l ++ freed) ∧ same_config p p' ∧
    same_mgr m m' ∧ cached_kept rid m m' ∧ sm_num_cached_block m' !! rid = None ∧ blocks_changed rid [] m m'.
Proof.
  intros Hkv. unfold sm_free. rewrite st_bind_self.
  assert (∀ A (f : mgr A), ((match spec_type_of (sm_spec m) with
      | MambaSpec true _ => update (fun m => m <| sm_allocated_block_reqs ::= fun s => s ∖ {[rid]} |> <| sm_last_state_block_idx ::= delete rid |>)
      | _ => mret tt end);; f) (p, m) = f (p, m)) as ->.
  { intros A f. pose proof (kv_spec _ _ _ Hkv) as Hs. unfold positional in Hs. by destruct (spec_type_of (sm_spec m)) as [| | |[] ?|]. }
  destruct (kv_held p m l rid Hkv) as [Hin Hnd]. pose proof (kv_wf _ _ _ Hkv) as Hst. set (bs := reverse (held m rid)).
  destruct (pool_free p l bs Hst) as (p' & freed & Heq & Hst' & Hc & Href & Hhash).
  { apply (kv_freeable p m l rid); [done| |intros b; unfold bs; by rewrite elem_of_reverse].
    unfold bs. rewrite filter_reverse. by apply NoDup_rev. }
  unfold base_free. rewrite st_bind_self, st_bind_update. fold (held m rid) bs.
  st_step (on_pool_eq _ p (m <| sm_req_to_blocks ::= delete rid |>) p' tt Heq).
  assert (∀ b, holds b bs = holds b (held m rid)) as Hhb.
  { intros b. unfold holds, bs. destruct (decide (b ∈ held m rid)) as [Hb|Hb].
    - by rewrite decide_True by by apply elem_of_reverse.
    - by rewrite decide_False by by rewrite elem_of_reverse. }
  assert (kv_state p' (with_cached rid 0 (with_blocks rid [] m)) (l ++ freed)) as Hkv0.
  { apply (kv_change p m l); try done; [intros b Hb; by apply elem_of_nil in Hb|apply NoDup_nil_2| |].
    - intros b Hb0. rewrite (Href b Hb0), <- Hhb. unfold holds. change (decide (b ∈ [])) with (decide (b ∈ @nil Z)).
      rewrite (decide_False (P := b ∈ [])) by apply not_elem_of_nil. f_equal. f_equal. by destruct (decide (b ∈ bs)).
    - intros Hca. split; [|by intros]. intros rid' i b _ Hi Hb0 Hge. rewrite (Hhash b Hb0).
      split; [apply not_elem_of_nil|]. by apply (kv_fresh _ _ _ Hkv Hca rid' i b). }
  eexists p', _, freed. split; [done|]. split; [by apply kv_forget|]. split_and!; try done.
  - intros rid' Hne. cbn. by rewrite lookup_delete_ne.
  - cbn. by rewrite lookup_delete_eq.
  - split; [|intros rid' Hne]; unfold held; cbn; rewrite lookup_delete; by case_decide.
Qed.

(** [cache_blocks] over blocks that were computed. *)
Lemma cache_blocks_spec p m l (r : Request F E) nt :
  kv_state p m l → sm_enable_caching m = true → sm_block_size m = bp_hash_block_size p →
  nt / sm_block_size m <= lenZ (held m (rq_request_id r)) → nt / sm_block_size m <= lenZ (rq_block_hashes r) →
  ∃ p' m' r', sm_cache_blocks embeds_digest use_int_hashes r nt None (p, m) = Ok ((p', m'), r') ∧ kv_state p' m' l ∧
    same_config p p' ∧ same_mgr m m' ∧ (∀ rid, held m' rid = held m rid) ∧ same_hash_inputs r r' ∧
    num_cached m' (rq_request_id r) = Z.max (num_cached m (rq_request_id r)) (nt / sm_block_size m) ∧
    (∀ rid, rid ≠ rq_request_id r → sm_num_cached_block m' !! rid = sm_num_cached_block m !! rid).
Proof.
  intros Hkv Hca Hsz Hheld Hhash. set (rid := rq_request_id r) in *. set (nf := nt / sm_block_size m) in *.
  unfold sm_cache_blocks. rewrite st_bind_self.
  match goal with |- ∃ p' m' r', _ ∧ ?P => assert (∃ p' m' r', base_cache_blocks embeds_digest use_int_hashes r nt None (p, m) = Ok ((p', m'), r') ∧ P) as Hbase end.
  2: { pose proof (kv_spec _ _ _ Hkv) as Hs. unfold positional in Hs. by destruct (spec_type_of (sm_spec m)). }
  unfold base_cache_blocks. rewrite st_bind_self. fold rid. fold (num_cached m rid). fold nf.
  pose proof (num_cached_nonneg p m l rid Hkv) as Hnn. destruct (Z.leb_spec nf (num_cached m rid)) as [Hle|Hlt].
  { exists p, m, r. split_and!; try done. lia. }
  rewrite (st_bind_lift _ None) by done. rewrite st_bind_req_blocks. set (m1 := with_blocks rid (held m rid) m).
  destruct (kv_held p m l rid Hkv) as [Hin Hnd]. pose proof (kv_fresh _ _ _ Hkv Hca) as Hfresh.
  destruct (cache_full_total embeds_digest use_int_hashes p l r (held m rid) (num_cached m rid) nf (sm_kv_cache_group_id m))
    as (p' & r' & Heq & Hst' & Hc & Hr & Href & _ & Hold); try done; [apply (kv_wf _ _ _ Hkv)| |apply (kv_group _ _ _ Hkv)|].
  { intros i b Hi Hb Hb0. apply (Hfresh rid i b); [done..|lia]. }
  rewrite <- Hsz in Heq. st_step (on_pool_eq _ p m1 p' r' Heq). rewrite st_bind_update.
  exists p', (with_cached rid nf m1), r'. split; [done|]. split.
  { apply (kv_change p m l); try done; [lia| |].
    - intros b _. rewrite Href, Z.sub_diag. by destruct (ref_of p b).
    - intros _. split.
      + intros rid' i b Hne Hi Hb0 Hge. destruct (Hfresh rid' i b Hi Hb0 Hge) as [Hh Ho].
        assert (b ∉ held m rid) as Hnb by (apply (owned_one_held m rid rid'); [done|by eapply list_elem_of_lookup_2|done]).
        split; [done|]. rewrite Hold; [done|]. intros j _ Hj. apply Hnb. by eapply list_elem_of_lookup_2.
      + intros i b Hi Hb0 Hge. destruct (Hfresh rid i b Hi Hb0 ltac:(lia)) as [Hh ->]. split.
        * rewrite Hold; [done|]. intros j Hj Hjb. assert (i = j) as -> by by apply (real_index (held m rid) i j b). lia.
        * unfold holds. by rewrite decide_True by by eapply list_elem_of_lookup_2. }
  split_and!; try done; [intros rid'; apply with_blocks_held| |].
  - unfold num_cached at 1. cbn. rewrite lookup_insert_eq. cbn. lia.
  - intros rid' Hne. cbn. by rewrite lookup_insert_ne.
Qed.

End steps.

(** ** A manager with one group *)

Section one_group.
Context {F E : Type} `{PyFloat F}.
Context (embeds_digest : E → Z → Z → string) (use_int_hashes : bool).
Implicit Types (k : KVCacheManager) (p : BlockPool) (m : SingleTypeKVCacheManager) (l nc : list Z) (rid : string).

(** The blocks of every request are accounted for in the pool. *)
Record km_state k m l : Prop := {
  ks_managers : kc_managers (km_coordinator k) = [m];
  ks_kv : kv_state (km_pool k) m l;
  ks_groups : km_num_kv_cache_groups k = 1%nat;
  ks_caching : km_enable_caching k = sm_enable_caching m;
  ks_kind : ∀ hbs gs lcm eagle, kc_kind (km_coordinator k) ≠ Hybrid hbs gs lcm eagle;
  ks_size : sm_enable_caching m = true → sm_block_size m = bp_hash_block_size (km_pool k);
  ks_unitary : sm_enable_caching m = true → ∃ g dcp pcp, kc_kind (km_coordinator k) = Unitary (sm_block_size m) dcp pcp ∧
    kvc_groups (kc_config (km_coordinator k)) = [g] ∧ grp_spec g = sm_spec m ∧ sm_kv_cache_group_id m = 0 ∧
    sm_block_size m = if 1 <? dcp * pcp then spec_block_size (sm_spec m) * (dcp * pcp) else spec_block_size (sm_spec m);
  ks_stats : km_log_stats k = true → km_prefix_cache_stats k ≠ None;
}.

Definition with_state k p m : KVCacheManager :=
  k <| km_coordinator := (km_coordinator k) <| kc_pool := p |> <| kc_managers := [m] |> |>.

Lemma for_one {A} (f : Z → mgr A) k m l p' m' a :
  km_state k m l → f 0 (km_pool k, m) = Ok ((p', m'), a) →
  for_managers f (km_coordinator k) = Ok ((km_coordinator k) <| kc_pool := p' |> <| kc_managers := [m'] |>, [a]).
Proof.
  intros Hks Hf. assert (run_manager (f 0) m (km_pool k) = Ok (p', (m', a))) as Hr by (unfold run_manager; by rewrite Hf).
  unfold for_managers. rewrite (ks_managers _ _ _ Hks). cbn [each_manager]. by st_step Hr.
Qed.

Lemma on_one_all {A} (f : Z → mgr A) k m l p' m' a :
  km_state k m l → f 0 (km_pool k, m) = Ok ((p', m'), a) → on_coordinator (for_managers f) k = Ok (with_state k p' m', [a]).
Proof. intros Hks Hf. unfold on_coordinator. by rewrite (for_one f k m l p' m' a Hks Hf). Qed.

Lemma on_one {A B} (f : Z → mgr A) (g : list A → B) k m l p' m' a :
  km_state k m l → f 0 (km_pool k, m) = Ok ((p', m'), a) →
  on_coordinator (x ← for_managers f; mret (g x)) k = Ok (with_state k p' m', g [a]).
Proof.
  intros Hks Hf. unfold on_coordinator. by st_step (for_one f k m l p' m' a Hks Hf).
Qed.

Lemma with_state_twice k p m p' m' : with_state (with_state k p m) p' m' = with_state k p' m'.
Proof. by destruct k as [[] ? ? ? ? ? ?]. Qed.

Lemma with_state_id k m l : km_state k m l → with_state k (km_pool k) m = k.
Proof. intros []. destruct k as [[] ? ? ? ? ? ?]. unfold with_state, km_pool, update_field in *. cbn in *. by subst. Qed.

Lemma km_step k m l p' m' l' :
  km_state k m l → kv_state p' m' l' → same_config (km_pool k) p' → same_mgr m m' → km_state (with_state k p' m') m' l'.
Proof.
  intros [] Hkv Hc Hm. destruct Hm as (Hs & Hb & Hg & Hca & _). split; try done.
  - cbn. congruence.
  - intros Hon. rewrite Hb. rewrite ks_size0 by congruence. symmetry. apply Hc.
  - rewrite Hca, Hb, Hg, Hs. exact ks_unitary0.
Qed.

Lemma positional_cross s : positional s → is_cross s = false.
Proof. unfold positional, is_cross. by destruct (spec_type_of s). Qed.

Lemma km_demand k m l rid nt nc enc tct ntm cap :
  km_state k m l → (∀ b, b ∈ nc → in_pool (km_pool k) b) → (is_Some (sm_num_cached_block m !! rid) → nc = []) →
  on_coordinator (kc_get_num_blocks_to_allocate rid nt [nc] enc tct ntm cap) k = Ok (k, demand m l rid nt nc tct cap).
Proof.
  intros Hks Hin Hnc. unfold kc_get_num_blocks_to_allocate. pose proof (ks_kv _ _ _ Hks) as Hkv.
  erewrite (on_one _ (sumZ id) k m l (km_pool k) m (demand m l rid nt nc tct cap)); [|done|].
  - rewrite (with_state_id _ _ _ Hks). cbn. do 2 f_equal. unfold id. lia.
  - rewrite st_bind_self, (positional_cross _ (kv_spec _ _ _ Hkv)), (st_bind_lift _ nc) by done. by apply demand_eq.
Qed.

(** A running request, for which [allocate_slots] gets no cache hits. *)
Definition resident m (r : Request F E) (ncb : KVCacheBlocks) nc nnc ext : Prop :=
  ncb = EmptyBlocks ∧ nc = [] ∧ nnc = 0 ∧ ext = 0 ∧
  0 <= rq_num_computed_tokens r <= lenZ (held m (rq_request_id r)) * sm_block_size m.

(** A request without blocks, with its hits [nc] and external tokens. *)
Definition newcomer p m (r : Request F E) nc nnc ext : Prop :=
  held m (rq_request_id r) = [] ∧ sm_num_cached_block m !! rq_request_id r = None ∧ valid_hits p nc ∧
  (sm_enable_caching m = false → nc = []) ∧ rq_num_computed_tokens r + nnc = lenZ nc * sm_block_size m ∧ 0 <= ext.

Lemma resident_fit p m l rid need tct :
  kv_state p m l → 0 <= tct <= lenZ (held m rid) * sm_block_size m →
  Z.max 0 (cdiv need (sm_block_size m) - lenZ (held m rid)) <= demand m l rid need [] tct false.
Proof.
  intros Hkv Ht. pose proof (kv_size _ _ _ Hkv) as Hbs. pose proof (skipped_bounds m tct (kv_spec _ _ _ Hkv) ltac:(lia)).
  pose proof (Z.mul_div_le (get_num_skipped_tokens m tct) (sm_block_size m) Hbs).
  unfold demand. rewrite drop_nil. change (filter _ []) with (@nil Z). cbn [length].
  destruct (sm_num_cached_block m !! rid), (sm_max_admission m); cbn -[Z.mul Z.div]; nia.
Qed.

(** The blocks of the hits and of the external tokens. *)
Lemma slots_computed k m l (r : Request F E) ncb nc nnc ext need :
  let rid := rq_request_id r in
  let local := rq_num_computed_tokens r + nnc in
  km_state k m l → blocks_of k ncb = [nc] → resident m r ncb nc nnc ext ∨ newcomer (km_pool k) m r nc nnc ext →
  local + ext <= need → demand m l rid need nc (local + ext) false <= lenZ l →
  ∃ p1 m1 l1, (∀ A (f : unit → kvm A), (st_when (match ncb with EmptyBlocks => 0 <? ext | SomeBlocks _ => true end)
         (on_coordinator (kc_allocate_new_computed_blocks use_int_hashes rid [nc] local ext)) ≫= f) k = f tt (with_state k p1 m1)) ∧
      kv_state p1 m1 l1 ∧ same_config (km_pool k) p1 ∧ same_mgr m m1 ∧ (∀ rid', rid' ≠ rid → held m1 rid' = held m rid') ∧
      cached_kept rid m m1 ∧
      Z.max 0 (cdiv need (sm_block_size m1) - lenZ (held m1 rid)) + lenZ l - lenZ l1 <= demand m l rid need nc (local + ext) false.
Proof.
  intros rid local Hks Hncb Hcase Hneed Hfit. pose proof (ks_kv _ _ _ Hks) as Hkv. pose proof (kv_size _ _ _ Hkv) as Hbs.
  set (cond := match ncb with EmptyBlocks => _ | SomeBlocks _ => _ end). destruct cond eqn:Hcond.
  - destruct Hcase as [(-> & _ & _ & -> & _)|(Hh & Hca & Hv & Hnc & Hloc & Hext)]; [done|].
    pose proof (cdiv_spec need (sm_block_size m) Hbs). pose proof (cdiv_spec (local + ext) (sm_block_size m) Hbs).
    assert (cdiv (local + ext) (sm_block_size m) <= cdiv need (sm_block_size m)) by nia.
    unfold demand in *. fold rid in Hh, Hca. rewrite Hca, Hh in *. cbn [length] in *. rewrite Z.sub_0_r, Z.add_0_r in *.
    pose proof (allocate_computed_spec use_int_hashes (km_pool k) m l rid nc local ext Hkv Hh Hca Hv Hnc Hloc Hext) as Hspec. cbn zeta in Hspec.
    set (sk := get_num_skipped_tokens m (local + ext) / sm_block_size m) in *.
    destruct Hspec as (p1 & m1 & l1 & new & Heq & Hkv1 & Hc & Hm & [Hb1 Hb2] & Hcb & Hnew & Hl1); [destruct (sm_max_admission m); lia|].
    exists p1, m1, l1. split_and!; try done.
    + intros A f. unfold st_when, kc_allocate_new_computed_blocks.
      rewrite (st_bind_eq _ _ k (with_state k p1 m1) tt); [done|]. apply (on_one _ (fun _ => tt) k m l _ _ tt Hks).
      by rewrite (st_bind_lift _ nc) by done.
    + intros rid' Hne. by rewrite Hcb, lookup_insert_ne.
    + destruct Hm as (_ & -> & _). rewrite Hb1, !length_app, length_replicate, length_drop. destruct (sm_max_admission m); lia.
  - exists (km_pool k), m, l. rewrite (with_state_id _ _ _ Hks). split_and!; try done.
    assert (ext <= 0 ∧ nc = []) as [Hext Hnil].
    { unfold cond in Hcond. destruct ncb; [|done]. cbn in Hncb. rewrite (ks_groups _ _ _ Hks) in Hncb. split; [lia|]. cbn in Hncb. congruence. }
    rewrite Hnil. enough (Z.max 0 (cdiv need (sm_block_size m) - lenZ (held m rid)) <= demand m l rid need [] (local + ext) false) by lia.
    apply (resident_fit (km_pool k)); [done|].
    destruct Hcase as [(_ & _ & Hn & -> & Hc)|(Hh & _ & _ & _ & Hl & He)]; unfold local; [subst nnc; fold rid in Hc; lia|].
    fold rid in Hh. rewrite Hh. rewrite Hl, Hnil. cbn. lia.
Qed.

(** The two allocations of [allocate_slots]. *)
Lemma slots_alloc k m l (r : Request F E) ncb nc nnc ext need ntm enc :
  let rid := rq_request_id r in
  let local := rq_num_computed_tokens r + nnc in
  km_state k m l → blocks_of k ncb = [nc] → resident m r ncb nc nnc ext ∨ newcomer (km_pool k) m r nc nnc ext →
  local + ext <= need → demand m l rid need nc (local + ext) false <= lenZ l →
  ∃ p' m' l' new pre, (∀ A (f : list (list Z) → kvm A),
      (st_when (match ncb with EmptyBlocks => 0 <? ext | SomeBlocks _ => true end)
         (on_coordinator (kc_allocate_new_computed_blocks use_int_hashes rid [nc] local ext));;
       new ← on_coordinator (kc_allocate_new_blocks use_int_hashes rid need ntm enc); f new) k = f [new] (with_state k p' m')) ∧
    kv_state p' m' l' ∧ same_config (km_pool k) p' ∧ same_mgr m m' ∧ blocks_changed rid (pre ++ new) m m' ∧
    cached_kept rid m m' ∧ cdiv need (sm_block_size m) <= lenZ (pre ++ new) ∧ lenZ l - demand m l rid need nc (local + ext) false <= lenZ l'.
Proof.
  intros rid local Hks Hncb Hcase Hneed Hfit.
  destruct (slots_computed k m l r ncb nc nnc ext need Hks Hncb Hcase Hneed Hfit) as (p1 & m1 & l1 & Heq1 & Hkv1 & Hc1 & Hm1 & Ho1 & Hk1 & Hfit1).
  fold rid in Heq1, Ho1, Hfit1. fold local in Heq1. pose proof (km_step _ _ _ _ _ _ Hks Hkv1 Hc1 Hm1) as Hks1.
  fold local in Hfit1. destruct (allocate_new_blocks_spec use_int_hashes p1 m1 l1 rid need ntm Hkv1 ltac:(lia))
    as (p' & m' & l' & new & Heq & Hkv' & Hc' & Hm' & [Hb1 Hb2] & Hcb & Hlen & Hlen' & _).
  assert (on_coordinator (kc_allocate_new_blocks use_int_hashes rid need ntm enc) (with_state k p1 m1) =
          Ok (with_state k p' m', [new])) as Hall.
  { unfold kc_allocate_new_blocks. erewrite (on_one_all _ _ m1 l1 p' m' new Hks1); [by rewrite with_state_twice|].
    by rewrite st_bind_self, (positional_cross _ (kv_spec _ _ _ Hkv1)). }
  exists p', m', l', new, (held m1 rid). split_and!; try done; [|by etrans|by etrans| | | |lia].
  - intros A f. rewrite Heq1. by st_step Hall.
  - split; [done|]. intros rid' Hne. by rewrite Hb2, Ho1.
  - intros rid' Hne. rewrite Hcb. by apply Hk1.
  - destruct Hm1 as (_ & <- & _). rewrite length_app. lia.
Qed.

Lemma km_cache k m l (r : Request F E) nt :
  km_state k m l → sm_enable_caching m = true →
  nt / sm_block_size m <= lenZ (held m (rq_request_id r)) → nt / sm_block_size m <= lenZ (rq_block_hashes r) →
  ∃ k' m' r', on_coordinator (kc_cache_blocks embeds_digest use_int_hashes r nt) k = Ok (k', r') ∧ km_state k' m' l ∧
    same_config (km_pool k) (km_pool k') ∧ same_mgr m m' ∧ (∀ rid, held m' rid = held m rid) ∧ same_hash_inputs r r' ∧
    cached_kept (rq_request_id r) m m'.
Proof.
  intros Hks Hca Hh Hr. pose proof (ks_kv _ _ _ Hks) as Hkv.
  destruct (cache_blocks_spec embeds_digest use_int_hashes (km_pool k) m l r nt Hkv Hca (ks_size _ _ _ Hks Hca) Hh Hr)
    as (p' & m' & r' & Heq & Hkv' & Hc & Hm & Hheld & Hsame & _ & Hck).
  exists (with_state k p' m'), m', r'. split_and!; [|by eapply km_step|done..].
  unfold on_coordinator, kc_cache_blocks. rewrite (ks_managers _ _ _ Hks).
  assert (match kc_kind (km_coordinator k) with
          | Hybrid _ _ lcm_block_size _ => (nt / lcm_block_size * lcm_block_size, Some lcm_block_size)
          | _ => (nt, None)
          end = (nt, None)) as ->
    by (pose proof (ks_kind _ _ _ Hks); destruct (kc_kind (km_coordinator k)); naive_solver).
  cbn [each_cache].
  assert (run_manager (sm_cache_blocks embeds_digest use_int_hashes r nt None) m (kc_pool (km_coordinator k)) = Ok (p', (m', r')))
    as Hrun by (unfold run_manager; change (kc_pool (km_coordinator k)) with (km_pool k); by rewrite Heq).
  by st_step Hrun.
Qed.

Lemma km_skip k m l rid tct :
  km_state k m l → ∃ k' m' l' bs', on_coordinator (kc_remove_skipped_blocks rid tct) k = Ok (k', tt) ∧ km_state k' m' l' ∧
    k' = with_state k (km_pool k') m' ∧ same_config (km_pool k) (km_pool k') ∧
    same_mgr m m' ∧ blocks_changed rid bs' m m' ∧ length bs' = length (held m rid) ∧
    sm_num_cached_block m' = sm_num_cached_block m ∧ lenZ l <= lenZ l' ∧
    (∀ b, b ≠ 0 → hash_of (km_pool k') b = hash_of (km_pool k) b).
Proof.
  intros Hks. destruct (remove_skipped_spec (km_pool k) m l rid tct (ks_kv _ _ _ Hks))
    as (p' & m' & l' & bs' & Heq & Hkv' & Hc & Hm & Hb & Hlen & Hcached & Hl & Hh).
  exists (with_state k p' m'), m', l', bs'. split_and!; try done; [|by eapply km_step].
  apply (on_one _ (fun _ => tt) k m l _ _ tt Hks). done.
Qed.

(** What [allocate_slots] is called with. *)
Record slot_request k m (r : Request F E) nnew nnc ncb nla ext nc : Prop := {
  sr_hits : blocks_of k ncb = [nc];
  sr_case : resident m r ncb nc nnc ext ∨ newcomer (km_pool k) m r nc nnc ext;
  sr_new : 0 <= nnew ∧ 0 <= nla ∧ 0 < nnew + ext;
  sr_computed : rq_num_computed_tokens r + nnc + ext <= km_max_model_len k;
  sr_tokens : num_tokens r <= km_max_model_len k;
  sr_hashes : sm_enable_caching m = true → num_tokens r / sm_block_size m <= lenZ (rq_block_hashes r);
}.

Definition slots_needed k (r : Request F E) nnew nnc nla ext : Z :=
  Z.min (rq_num_computed_tokens r + nnc + ext + nnew + nla) (km_max_model_len k).

Lemma sr_pool k m l (r : Request F E) nnew nnc ncb nla ext nc :
  slot_request k m r nnew nnc ncb nla ext nc →
  0 <= ext ∧ (∀ b, b ∈ nc → in_pool (km_pool k) b) ∧ (is_Some (sm_num_cached_block m !! rq_request_id r) → nc = []).
Proof.
  intros []. destruct sr_case0 as [(_ & -> & _ & -> & _)|(_ & -> & [_ Hv] & _ & _ & ?)].
  - split_and!; [done|intros b Hb; by apply elem_of_nil in Hb|done].
  - split_and!; [done|apply Hv|by intros []].
Qed.

(** Freeing the blocks outside the window of the layers keeps the contract. *)
Lemma sr_skip k m (r : Request F E) nnew nnc ncb nla ext nc k' m' bs' :
  slot_request k m r nnew nnc ncb nla ext nc → k' = with_state k (km_pool k') m' → same_config (km_pool k) (km_pool k') →
  same_mgr m m' → blocks_changed (rq_request_id r) bs' m m' → length bs' = length (held m (rq_request_id r)) →
  sm_num_cached_block m' = sm_num_cached_block m → (∀ b, b ≠ 0 → hash_of (km_pool k') b = hash_of (km_pool k) b) →
  slot_request k' m' r nnew nnc ncb nla ext nc.
Proof.
  intros [] Hk Hc (_ & Hbs & _ & Hca & _) [Hb _] Hlen Hcached Hh.
  assert (km_max_model_len k' = km_max_model_len k) as Hmax by (rewrite Hk; done).
  split; rewrite ?Hmax, ?Hca, ?Hbs; try done.
  - rewrite Hk. by destruct ncb.
  - destruct sr_case0 as [(? & ? & ? & ? & ?)|(Hh0 & ? & [Hnd Hv] & ? & ? & ?)]; [left|right].
    + unfold resident. rewrite Hb, Hlen, Hbs. done.
    + unfold newcomer. rewrite Hb, Hcached, Hca, Hbs. rewrite Hh0 in Hlen. split_and!; try done; [by apply nil_length_inv|].
      split; [done|]. intros b Hb'. destruct (Hv b Hb'). split; [by apply (in_pool_config _ _ _ Hc)|].
      intros Hb0. rewrite Hh by done. auto.
Qed.

(** The rest of [allocate_slots] once the blocks fit. *)
Lemma slots_commit k m l (r : Request F E) nnew nnc ncb nla ext nc delay enc ntm :
  let rid := rq_request_id r in
  let local := rq_num_computed_tokens r + nnc in
  let need := slots_needed k r nnew nnc nla ext in
  km_state k m l → slot_request k m r nnew nnc ncb nla ext nc → demand m l rid need nc (local + ext) false <= lenZ l →
  ∃ k' m' l' r' new pre,
    (st_when (match ncb with EmptyBlocks => 0 <? ext | SomeBlocks _ => true end)
       (on_coordinator (kc_allocate_new_computed_blocks use_int_hashes rid [nc] local ext));;
     new_blocks ← on_coordinator (kc_allocate_new_blocks use_int_hashes rid need ntm enc);
     if negb (km_enable_caching k) || delay then mret (r, Some (create_kv_cache_blocks new_blocks))
     else
       r ← on_coordinator (kc_cache_blocks embeds_digest use_int_hashes r (Z.min (local + ext + nnew) (num_tokens r)));
       mret (r, Some (create_kv_cache_blocks new_blocks))) k = Ok (k', (r', Some (create_kv_cache_blocks [new]))) ∧
    km_state k' m' l' ∧ same_config (km_pool k) (km_pool k') ∧ same_mgr m m' ∧ blocks_changed rid (pre ++ new) m m' ∧ same_hash_inputs r r' ∧
    cached_kept rid m m' ∧ cdiv need (sm_block_size m) <= lenZ (pre ++ new) ∧ lenZ l - demand m l rid need nc (local + ext) false <= lenZ l'.
Proof.
  intros rid local need Hks Hsr Hfit. destruct Hsr as [Hncb Hcase Hnew Hcomp Htok Hhash].
  assert (local + ext <= need) as Hneed by (unfold need, slots_needed, local; lia).
  destruct (slots_alloc k m l r ncb nc nnc ext need ntm enc Hks Hncb Hcase Hneed Hfit)
    as (p1 & m1 & l1 & new & pre & Heq & Hkv1 & Hc1 & Hm1 & Hb1 & Hk1 & Hcov & Hleft).
  rewrite Heq. pose proof (km_step _ _ _ _ _ _ Hks Hkv1 Hc1 Hm1) as Hks1. pose proof Hm1 as (_ & Hbs1 & _ & Hca1 & _).
  pose proof (kv_size _ _ _ (ks_kv _ _ _ Hks)) as Hbs. pose proof (cdiv_spec need (sm_block_size m) Hbs) as Hcd.
  destruct (negb (km_enable_caching k) || delay) eqn:Hd; [by exists (with_state k p1 m1), m1, l1, r, new, pre|].
  apply orb_false_iff in Hd as [Hca%negb_false_iff _]. rewrite (ks_caching _ _ _ Hks) in Hca.
  set (nt := Z.min (local + ext + nnew) (num_tokens r)).
  assert (nt / sm_block_size m <= cdiv need (sm_block_size m)) as Hnt.
  { assert (nt <= need) by (unfold nt, need, slots_needed, local; lia). pose proof (Z.mul_div_le nt (sm_block_size m) Hbs). nia. }
  destruct (km_cache (with_state k p1 m1) m1 l1 r nt Hks1) as (k2 & m2 & r' & Heq2 & Hks2 & Hc2 & Hm2 & Hheld & Hsame & Hk2).
  { congruence. }
  { rewrite Hbs1. destruct Hb1 as [-> _]. lia. }
  { rewrite Hbs1. specialize (Hhash Hca). assert (nt / sm_block_size m <= num_tokens r / sm_block_size m) by (apply Z.div_le_mono; lia). lia. }
  exists k2, m2, l1, r', new, pre. split_and!; try done; [by st_step Heq2|by etrans|by etrans| |by etrans].
  destruct Hb1 as [Hb1 Ho1]. split; [by rewrite Hheld|]. intros rid' Hne. by rewrite Hheld, Ho1.
Qed.

Lemma owned_zero m b : owned (sm_req_to_blocks m) b = 0 ↔ ∀ rid, b ∉ held m rid.
Proof.
  split.
  - intros Ho rid Hb. unfold held in Hb. destruct (sm_req_to_blocks m !! rid) as [bs|] eqn:E'; [|by apply elem_of_nil in Hb].
    pose proof (owned_ge _ rid bs b E' Hb). lia.
  - intros Hn. apply sum_map_zero. intros rid bs Hr. unfold holds. rewrite decide_False; [done|]. intros Hb. apply (Hn rid).
    unfold held. by rewrite Hr.
Qed.

Lemma km_free_iff k m l b :
  km_state k m l → 0 < b < bp_num_gpu_blocks (km_pool k) → b ∈ l ↔ ∀ rid, b ∉ held m rid.
Proof.
  intros Hks Hb. pose proof (ks_kv _ _ _ Hks) as Hkv. destruct (ref_wf _ l b (kv_wf _ _ _ Hkv) Hb) as (n & Hn & _ & Hz).
  rewrite (kv_ref _ _ _ Hkv b Hb) in Hn. injection Hn as <-. by rewrite Hz, owned_zero.
Qed.

(** Managers whose requests hold the same blocks have the same free blocks. *)
Lemma free_range k m l b : km_state k m l → b ∈ l → 0 < b < bp_num_gpu_blocks (km_pool k).
Proof. intros Hks. apply (dw_free _ _ _ _ (proj2 (kv_wf _ _ _ (ks_kv _ _ _ Hks)))). Qed.

Lemma free_same k m l k' m' l' :
  km_state k m l → km_state k' m' l' → same_config (km_pool k) (km_pool k') → (∀ rid, held m' rid = held m rid) → l' ≡ₚ l.
Proof.
  intros Hks Hks' (Hn & _) Hh. apply NoDup_Permutation; [by apply (free_length _ l' (kv_wf _ _ _ (ks_kv _ _ _ Hks')))|
    by apply (free_length _ l (kv_wf _ _ _ (ks_kv _ _ _ Hks)))|].
  intros b. split; intros Hb.
  - pose proof (free_range _ _ _ _ Hks' Hb) as Hr. apply (km_free_iff k m l b Hks); [lia|]. intros rid. rewrite <- Hh. by apply (km_free_iff k' m' l').
  - pose proof (free_range _ _ _ _ Hks Hb) as Hr. apply (km_free_iff k' m' l' b Hks'); [lia|]. intros rid. rewrite Hh. by apply (km_free_iff k m l).
Qed.

Lemma demand_same m l m' l' rid nt nc tct cap :
  same_mgr m m' → sm_num_cached_block m' = sm_num_cached_block m → held m' rid = held m rid → l' ≡ₚ l →
  demand m' l' rid nt nc tct cap = demand m l rid nt nc tct cap.
Proof.
  intros (Hs & Hb & _ & _ & Ha) Hc Hh Hl. unfold demand, get_num_skipped_tokens. rewrite Hs, Hb, Hc, Hh, Ha.
  destruct (sm_num_cached_block m !! rid); [done|]. do 3 f_equal. apply list_filter_iff. intros b. by rewrite Hl.
Qed.

Definition slots_outcome k m l (r : Request F E) nnew nnc nla ext nc must k' m' l' (out : option KVCacheBlocks) : Prop :=
  let rid := rq_request_id r in
  let total := rq_num_computed_tokens r + nnc + ext in
  let need := slots_needed k r nnew nnc nla ext in
  km_state k' m' l' ∧ same_config (km_pool k) (km_pool k') ∧ same_mgr m m' ∧ (∀ rid', rid' ≠ rid → held m' rid' = held m rid') ∧
  cached_kept rid m m' ∧
  match out with
  | None =>
      lenZ (held m' rid) = lenZ (held m rid) ∧ sm_num_cached_block m' = sm_num_cached_block m ∧
      (must = true ∧ lenZ l < demand m l rid (num_tokens r) nc total true ∨ lenZ l' < demand m' l' rid need nc total false) ∧
      (held m rid = [] → must = false → lenZ l < demand m l rid need nc total false)
  | Some blocks =>
      cdiv need (sm_block_size m) <= lenZ (held m' rid) ∧
      (must = true → demand m l rid (num_tokens r) nc total true <= lenZ l) ∧
      (held m rid = [] → lenZ l - demand m l rid need nc total false <= lenZ l') ∧
      ∃ pre new, held m' rid = pre ++ new ∧ blocks = create_kv_cache_blocks [new]
  end.

Lemma allocate_slots_spec k m l (r : Request F E) nnew nnc ncb nla ext nc delay enc must :
  km_state k m l → slot_request k m r nnew nnc (default EmptyBlocks ncb) nla ext nc →
  ∃ k' m' l' r' out,
    allocate_slots embeds_digest use_int_hashes r nnew nnc ncb nla ext delay enc must k = Ok (k', (r', out)) ∧
    same_hash_inputs r r' ∧ slots_outcome k m l r nnew nnc nla ext nc must k' m' l' out.
Proof.
  intros Hks Hsr. unfold slots_outcome. set (rid := rq_request_id r). set (total := rq_num_computed_tokens r + nnc + ext).
  set (need := slots_needed k r nnew nnc nla ext). pose proof (sr_pool _ _ l _ _ _ _ _ _ _ Hsr) as (Hext & Hin & Hres).
  pose proof (sr_new _ _ _ _ _ _ _ _ _ Hsr) as Hnew. pose proof (sr_computed _ _ _ _ _ _ _ _ _ Hsr) as Hcomp.
  unfold allocate_slots. assert ((nnew =? 0) && (ext =? 0) = false) as -> by (destruct (Z.eqb_spec nnew 0), (Z.eqb_spec ext 0); done || lia).
  rewrite st_bind_get, (sr_hits _ _ _ _ _ _ _ _ _ Hsr). cbn zeta. fold rid. rewrite (Z.min_l _ _ Hcomp), (Z.min_l _ _ (sr_tokens _ _ _ _ _ _ _ _ _ Hsr)).
  fold total. change (Z.min (total + nnew + nla) (km_max_model_len k)) with need. set (fits := negb must || (demand m l rid (num_tokens r) nc total true <=? lenZ l)).
  match goal with |- ∃ k' m' l' r' out, (?g ≫= ?h) k = _ ∧ _ => assert (g k = Ok (k, fits)) as Hg; [|st_step Hg; clear Hg] end.
  { unfold fits. destruct must; [|done]. st_step (km_demand k m l rid (num_tokens r) nc enc total (num_tokens r) true Hks Hin Hres).
    rewrite st_bind_get, (num_free_wf _ l) by apply (kv_wf _ _ _ (ks_kv _ _ _ Hks)). done. }
  destruct (negb fits) eqn:Hfits; [apply negb_true_iff in Hfits|apply negb_false_iff in Hfits].
  { apply orb_false_iff in Hfits as [Hm%negb_false_iff Hlt%Z.leb_gt]. exists k, m, l, r, None. split_and!; try done; [by left|congruence]. }
  destruct (km_skip k m l rid total Hks) as (k1 & m1 & l1 & bs1 & Heq1 & Hks1 & Hk1 & Hc1 & Hm1 & Hb1 & Hlen1 & Hca1 & _ & Hh1).
  st_step Heq1. pose proof (sr_skip _ _ _ _ _ _ _ _ _ _ _ _ Hsr Hk1 Hc1 Hm1 Hb1 Hlen1 Hca1 Hh1) as Hsr1.
  pose proof (sr_pool _ _ l1 _ _ _ _ _ _ _ Hsr1) as (_ & Hin1 & Hres1).
  st_step (km_demand k1 m1 l1 rid need nc enc total (total + nnew) false Hks1 Hin1 Hres1).
  rewrite st_bind_get, (num_free_wf _ l1) by apply (kv_wf _ _ _ (ks_kv _ _ _ Hks1)).
  destruct Hb1 as [Hb1 Ho1].
  assert (held m rid = [] → lenZ l1 = lenZ l ∧ demand m1 l1 rid need nc total false = demand m l rid need nc total false) as Hidle.
  { intros Hnone. rewrite Hnone in Hlen1. apply nil_length_inv in Hlen1 as ->. assert (l1 ≡ₚ l) as Hl1; [|split; [by rewrite Hl1|apply demand_same; done || congruence]].
    apply (free_same k m l k1 m1 l1); try done. intros rid'. destruct (decide (rid' = rid)) as [->|Hne]; [by rewrite Hb1|by apply Ho1]. }
  destruct (Z.ltb_spec (lenZ l1) (demand m1 l1 rid need nc total false)) as [Hlt|Hle].
  { exists k1, m1, l1, r, None. rewrite Hb1, Hlen1. split_and!; try done; [intros rid' _; by rewrite Hca1|by right|]. intros Hnone _. destruct (Hidle Hnone) as [<- <-]. done. }
  assert (need = slots_needed k1 r nnew nnc nla ext) as Hneed by (rewrite Hk1; done). rewrite Hneed in *.
  destruct (slots_commit k1 m1 l1 r nnew nnc _ nla ext nc delay enc (total + nnew) Hks1 Hsr1 Hle)
    as (k' & m' & l' & r' & new & pre & Heq & Hks' & Hc' & Hm' & [Hb Ho] & Hsame & Hk' & Hcov & Hleft).
  exists k', m', l', r', (Some (create_kv_cache_blocks [new])). fold rid in Hb, Ho. split_and!; try done; [by etrans|by etrans| | | | | |by exists pre, new].
  - intros rid' Hne. by rewrite Ho, Ho1.
  - intros rid' Hne. by rewrite Hk', Hca1.
  - rewrite Hb. destruct Hm1 as (_ & <- & _). exact Hcov.
  - intros ->. unfold fits in Hfits. cbn in Hfits. by apply Z.leb_le.
  - intros Hnone. destruct (Hidle Hnone) as [<- <-]. exact Hleft.
Qed.

Lemma km_free_spec k m l (r : Request F E) :
  km_state k m l → ∃ k' m' freed, km_free r k = Ok (k', tt) ∧ km_state k' m' (l ++ freed) ∧
    same_config (km_pool k) (km_pool k') ∧ same_mgr m m' ∧ cached_kept (rq_request_id r) m m' ∧
    sm_num_cached_block m' !! rq_request_id r = None ∧ blocks_changed (rq_request_id r) [] m m'.
Proof.
  intros Hks. destruct (free_spec (km_pool k) m l (rq_request_id r) (ks_kv _ _ _ Hks)) as (p' & m' & freed & Heq & Hkv & Hc & Hm & Hk & Hn & Hb).
  exists (with_state k p' m'), m', freed. split_and!; try done; [|by eapply km_step].
  apply (on_one _ (fun _ => tt) k m l _ _ tt Hks). done.
Qed.

(** Forgetting hashes keeps the accounting. *)
Lemma kv_forget_hashes p m l p' :
  kv_state p m l → pool_wf p' l → same_config p p' → (∀ b, ref_of p' b = ref_of p b) →
  (∀ b, hash_of p b = None → hash_of p' b = None) → kv_state p' m l.
Proof.
  intros [] Hst (Hn & Hca & _ & Hnull & _) Href Hh. split; try done; try congruence.
  - intros rid bs Hr. unfold in_pool. rewrite Hn. by apply (kv_blocks0 rid).
  - intros b Hb. rewrite Href. apply kv_ref0. by rewrite <- Hn.
  - intros Hc rid i b Hi Hb0 Hge. destruct (kv_fresh0 Hc rid i b Hi Hb0 Hge). by split; [apply Hh|].
Qed.

Lemma km_on_pool {A} (c : pool A) k m l p' a :
  km_state k m l → c (km_pool k) = Ok (p', a) → on_block_pool c k = Ok (with_state k p' m, a).
Proof.
  intros Hks Hc. unfold on_block_pool, on_coordinator, in_coordinator. change (kc_pool (km_coordinator k)) with (km_pool k). rewrite Hc.
  destruct Hks. by destruct k as [[] ? ? ? ? ? ?]; cbn in *; subst.
Qed.

Lemma reset_hashes (D : gmap Z bdata) (bs : list Z) b :
  foldl (fun D b => alter d_reset b D) D bs !! b = D !! b ∨ foldl (fun D b => alter d_reset b D) D bs !! b = d_reset <$> D !! b.
Proof.
  revert D; induction bs as [|c bs IH]; intros D; [by left|]. cbn [foldl]. destruct (IH (alter d_reset c D)) as [->| ->].
  all: rewrite lookup_alter; case_decide; [right|auto]; subst; by destruct (D !! b) as [[[]]|].
Qed.

Lemma km_evict_spec k m l ids :
  km_state k m l → (∀ b, b ∈ ids → in_pool (km_pool k) b) →
  ∃ k', km_evict_blocks use_int_hashes ids k = Ok (k', tt) ∧ km_state k' m l.
Proof.
  intros Hks Hids. pose proof (ks_kv _ _ _ Hks) as Hkv.
  destruct (evict_blocks_spec use_int_hashes (km_pool k) l ids (kv_wf _ _ _ Hkv) Hids) as (p' & Heq & Hst & Hc & Hd).
  exists (with_state k p' m). split; [by apply (km_on_pool _ k m l)|]. apply (km_step k m l); try done.
  apply (kv_forget_hashes (km_pool k)); try done; intros b; rewrite ?ref_of_data, ?hash_of_data, Hd;
    destruct (reset_hashes (pool_data (km_pool k)) (elements ids) b) as [->| ->]; by destruct (pool_data (km_pool k) !! b).
Qed.

Lemma km_reset_eq k m l :
  km_state k m l → ∃ k', km_reset_prefix_cache k = Ok (k', bool_decide (lenZ l = bp_num_gpu_blocks (km_pool k) - 1)) ∧ km_state k' m l ∧
    km_max_model_len k' = km_max_model_len k.
Proof.
  intros Hks. pose proof (ks_kv _ _ _ Hks) as Hkv. unfold km_reset_prefix_cache.
  destruct (reset_prefix_cache_spec (km_pool k) l (kv_wf _ _ _ Hkv)) as (p' & Heq & Hst & Hc & Hno & Hyes).
  set (done_ := bool_decide _) in *. st_step (km_on_pool _ k m l p' done_ Hks Heq).
  assert (km_state (with_state k p' m) m l) as Hks'.
  { apply (km_step k m l); try done. destruct (decide (lenZ l = bp_num_gpu_blocks (km_pool k) - 1)) as [He|Hne]; [|by rewrite Hno].
    destruct (Hyes He) as [_ Hd]. apply (kv_forget_hashes (km_pool k)); try done; intros b; rewrite ?ref_of_data, ?hash_of_data, Hd, lookup_fmap;
      by destruct (pool_data (km_pool k) !! b). }
  assert (km_max_model_len (with_state k p' m) = km_max_model_len k) as Hlen by done. set (k1 := with_state k p' m) in *. clearbody k1.
  destruct done_; cbn [negb]; [|by exists k1]. rewrite st_bind_get. pose proof (ks_stats _ _ _ Hks') as Hlog. destruct (km_log_stats k1) eqn:He; [|by exists k1].
  destruct (km_prefix_cache_stats k1) as [st|]; [|by destruct Hlog]. eexists. split; [done|]. split; [destruct Hks'; by split|done].
Qed.

Lemma km_reset_spec k m l k' x : km_state k m l → km_reset_prefix_cache k = Ok (k', x) → km_state k' m l.
Proof. intros Hks Heq. destruct (km_reset_eq k m l Hks) as (k1 & Heq1 & Hks1 & _). rewrite Heq in Heq1. injection Heq1 as <- _. done. Qed.

Lemma km_events_eq k m l : km_state k m l → ∃ k' events, km_take_events k = Ok (k', events) ∧ km_state k' m l ∧ km_max_model_len k' = km_max_model_len k.
Proof.
  intros Hks. pose proof (ks_kv _ _ _ Hks) as Hkv. unfold km_take_events.
  assert (∃ p' evs, take_events (km_pool k) = Ok (p', evs) ∧ kv_state p' m l ∧ same_config (km_pool k) p') as (p' & evs & Heq & Hkv' & Hc).
  { unfold take_events. rewrite st_bind_get. destruct (negb _); [by eexists _, _|]. eexists _, _. split; [done|]. split; [|done].
    apply (kv_forget_hashes (km_pool k)); try done. apply (kv_wf _ _ _ Hkv). }
  st_step (km_on_pool _ k m l p' evs Hks Heq). eexists _, _. split; [done|]. split; [by apply (km_step k m l)|done].
Qed.

Lemma km_lookup_spec k m l (r : Request F E) k' x : km_state k m l → get_computed_blocks r k = Ok (k', x) → km_state k' m l.
Proof.
  intros Hks. unfold get_computed_blocks. rewrite st_bind_get. destruct (_ || _); [by intros [= <- _]|].
  destruct (kc_find_longest_cache_hit _ _ _) as [found|e] eqn:Hf; [|done]. rewrite (st_bind_lift _ found) by done.
  destruct found as [[bs n]|]; [|by intros [= <- _]]. unfold st_when. destruct (km_log_stats k); [|by intros [= <- _]].
  destruct (km_prefix_cache_stats k); [|done]. intros [= <- _]. destruct Hks. by split.
Qed.

Lemma km_make_stats_eq k m l :
  km_state k m l → ∃ k' st, make_prefix_cache_stats k = Ok (k', st) ∧ km_state k' m l ∧ km_max_model_len k' = km_max_model_len k.
Proof.
  intros Hks. unfold make_prefix_cache_stats. rewrite st_bind_get. destruct (negb (km_log_stats k)); [by eexists _, _|].
  eexists _, _. split; [done|]. split; [destruct Hks; by split|done].
Qed.

Lemma km_make_stats_spec k m l k' x : km_state k m l → make_prefix_cache_stats k = Ok (k', x) → km_state k' m l.
Proof. intros Hks Heq. destruct (km_make_stats_eq k m l Hks) as (k1 & st & Heq1 & Hks1 & _). rewrite Heq in Heq1. injection Heq1 as <- _. done. Qed.

(** Only the record of new blocks, or an empty entry of a request, changes. *)
Definition same_holders m m' : Prop := same_mgr m m' ∧ (∀ rid, held m' rid = held m rid) ∧ sm_num_cached_block m' = sm_num_cached_block m.

Lemma km_take_eq k m l : km_state k m l → ∃ k' m' ids, km_take_new_block_ids k = Ok (k', ids) ∧ km_state k' m' l ∧ same_holders m m'.
Proof.
  intros Hks. unfold km_take_new_block_ids. set (m' := m <| sm_new_block_ids := [] |>).
  assert (on_coordinator (for_managers (fun _ => take_new_block_ids)) k = Ok (with_state k (km_pool k) m', [sm_new_block_ids m])) as Heq
    by by apply (on_one_all _ k m l).
  st_step Heq. eexists _, m', _. split; [done|]. split; [|done]. apply (km_step k m l); try done. apply (kv_recorded _ _ _ (fun _ => [])). apply (ks_kv _ _ _ Hks).
Qed.

Lemma km_take_spec k m l k' x : km_state k m l → km_take_new_block_ids k = Ok (k', x) → ∃ m', km_state k' m' l.
Proof. intros Hks Heq. destruct (km_take_eq k m l Hks) as (k1 & m1 & ids & Heq' & Hks' & _). rewrite Heq in Heq'. injection Heq' as <- _. by exists m1. Qed.

(** The blocks that every request holds are counted without a change, except that the
    entry of the request is created. *)
Lemma common_loop_spec n (bs : list Z) p l : pool_wf p l → (∀ b, b ∈ bs → in_pool p b) → ∃ c, common_loop n bs p = Ok (p, c).
Proof.
  intros Hwf. induction bs as [|b bs IH]; intros Hbs; [by exists 0|]. cbn [common_loop].
  destruct (pool_data_lookup p l [] b Hwf) as (blk & Hblk & _); [by apply Hbs; left|]. rewrite (st_bind_pool_block _ _ _ _ Hblk).
  destruct IH as [c Hc]; [intros b' Hb'; apply Hbs; by right|]. destruct (_ =? _); [st_step Hc|]; eauto.
Qed.

Lemma km_common_spec k m l rid :
  km_state k m l → ∃ k' m' ns, km_get_num_common_prefix_blocks rid k = Ok (k', ns) ∧ km_state k' m' l ∧ same_holders m m'.
Proof.
  intros Hks. pose proof (ks_kv _ _ _ Hks) as Hkv. unfold km_get_num_common_prefix_blocks, kc_get_num_common_prefix_blocks.
  assert (∃ m' c, sm_get_num_common_prefix_blocks rid (km_pool k, m) = Ok ((km_pool k, m'), c) ∧ kv_state (km_pool k) m' l ∧ same_holders m m') as (m' & c & Heq & Hkv' & Hsame).
  { unfold sm_get_num_common_prefix_blocks. rewrite st_bind_self. destruct (is_full (sm_spec m)); [|exists m, 0; done]. rewrite st_bind_req_blocks, st_bind_self.
    destruct (common_loop_spec (Z.of_nat (size (sm_req_to_blocks (with_blocks rid (held m rid) m)))) (held m rid) (km_pool k) l (kv_wf _ _ _ Hkv)) as [c Hc];
      [apply (kv_held _ _ _ rid Hkv)|]. eexists _, c. split; [by apply on_pool_eq|]. split; [by apply kv_entry|]. split; [done|]. split; [|done]. intros rid'. apply with_blocks_held. }
  unfold on_coordinator. rewrite st_bind_get.
  destruct (kc_kind (km_coordinator k)); [exists k, m; eexists; split; [by destruct k|done]|..];
    (rewrite (for_one _ k m l _ _ _ Hks Heq); eexists _, m', _; split; [done|split; [|done]]; apply (km_step k m l _ _ _ Hks Hkv'); [done|apply Hsame]).
Qed.

Lemma km_new_step_spec k m l : km_state k m l → km_new_step_starts k = Ok (k, tt).
Proof.
  intros Hks. unfold km_new_step_starts, kc_new_step_starts. rewrite <- (with_state_id _ _ _ Hks) at 2. apply (on_one _ (fun _ => tt) k m l _ _ tt Hks).
  unfold sm_new_step_starts. rewrite st_bind_self. pose proof (kv_spec _ _ _ (ks_kv _ _ _ Hks)) as Hs. unfold positional in Hs.
  by destruct (spec_type_of (sm_spec m)).
Qed.

(** ** Histories *)

(** The states of a manager with one group whose blocks are positional (full, sliding
    window or chunked attention): what the scheduler may call, in any order.  Several
    groups, Mamba, cross and sink attention are modelled, but are not in this
    invariant. *)
Inductive km_reach : KVCacheManager → Prop :=
  | reach_init cfg g max_len hbs batch caching eagle log events dcp pcp metrics k :
      kv_cache_manager_init cfg max_len hbs batch caching eagle log events dcp pcp metrics = Ok k →
      kvc_groups cfg = [g] → positional (grp_spec g) → 0 < spec_block_size (grp_spec g) → 0 < dcp → 0 < pcp → km_reach k
  | reach_stats k k' x : km_reach k → make_prefix_cache_stats k = Ok (k', x) → km_reach k'
  | reach_lookup k k' (r : Request F E) x : km_reach k → get_computed_blocks r k = Ok (k', x) → km_reach k'
  | reach_alloc k k' m (r : Request F E) nnew nnc ncb nla ext nc delay enc must x :
      km_reach k → kc_managers (km_coordinator k) = [m] → slot_request k m r nnew nnc (default EmptyBlocks ncb) nla ext nc →
      allocate_slots embeds_digest use_int_hashes r nnew nnc ncb nla ext delay enc must k = Ok (k', x) → km_reach k'
  | reach_cache k k' m (r : Request F E) nt x :
      km_reach k → kc_managers (km_coordinator k) = [m] → nt / sm_block_size m <= lenZ (held m (rq_request_id r)) →
      nt / sm_block_size m <= lenZ (rq_block_hashes r) → km_cache_blocks embeds_digest use_int_hashes r nt k = Ok (k', x) → km_reach k'
  | reach_skip k k' rid n : km_reach k → km_remove_skipped_blocks rid n k = Ok (k', tt) → km_reach k'
  | reach_free k k' (r : Request F E) : km_reach k → km_free r k = Ok (k', tt) → km_reach k'
  | reach_evict k k' ids :
      km_reach k → (∀ b, b ∈ ids → in_pool (km_pool k) b) → km_evict_blocks use_int_hashes ids k = Ok (k', tt) → km_reach k'
  | reach_reset k k' x : km_reach k → km_reset_prefix_cache k = Ok (k', x) → km_reach k'
  | reach_take k k' x : km_reach k → km_take_new_block_ids k = Ok (k', x) → km_reach k'
  | reach_events k k' x : km_reach k → km_take_events k = Ok (k', x) → km_reach k'
  | reach_step k k' : km_reach k → km_new_step_starts k = Ok (k', tt) → km_reach k'.

Lemma init_state cfg g max_len hbs batch caching eagle log events dcp pcp metrics k :
  kv_cache_manager_init cfg max_len hbs batch caching eagle log events dcp pcp metrics = Ok k →
  kvc_groups cfg = [g] → positional (grp_spec g) → 0 < spec_block_size (grp_spec g) → 0 < dcp → 0 < pcp →
  ∃ admission l, km_state k (single_type_init (grp_spec g) caching 0 dcp pcp admission) l ∧ km_max_model_len k = max_len.
Proof.
  intros Hi Hg Hs Hb Hd Hp. unfold kv_cache_manager_init in Hi.
  destruct (get_kv_cache_coordinator _ _ _ _ _ _ _ _ _ _) as [c|e] eqn:Hc; [|done]. injection Hi as <-.
  unfold get_kv_cache_coordinator in Hc. rewrite Hg in Hc.
  destruct (pool_init _ _ _ _ _) as [p|e] eqn:Hpool; [|done]. cbn [mbind res_bind] in Hc.
  set (m := single_type_init (grp_spec g) caching 0 dcp pcp (max_admission_blocks_per_request (grp_spec g) (default max_len batch) max_len)).
  assert (make_managers [g] 0 (default max_len batch) max_len caching dcp pcp p = Ok (p, [m])) as Hms.
  { cbn [make_managers]. assert (get_manager_for_kv_cache_spec (grp_spec g) (default max_len batch) max_len caching 0 dcp pcp p = Ok (p, m)) as Hm.
    { unfold get_manager_for_kv_cache_spec. unfold positional in Hs. by destruct (spec_type_of (grp_spec g)) as [[]| | | |]. }
    by st_step Hm. }
  rewrite Hms in Hc. cbn [mbind res_bind] in Hc. destruct (pool_init_spec _ _ _ _ _ _ Hpool) as (Hst & Hn & Hca & Hh & Hnull & _).
  exists (max_admission_blocks_per_request (grp_spec g) (default max_len batch) max_len), (seqZ 1 (kvc_num_blocks cfg - 1)). fold m.
  split; [|done].
  assert (0 < sm_block_size m) as Hsz by (unfold m; cbn; destruct (Z.ltb_spec 1 (dcp * pcp)); nia).
  assert (kv_state p m (seqZ 1 (kvc_num_blocks cfg - 1))) as Hkv.
  { split; try done; try (by intros; unfold held in *).
    intros b Hb'. destruct (ref_wf _ _ b Hst Hb') as (n & -> & _ & Hz). f_equal. apply Hz, elem_of_seqZ. lia. }
  destruct caching; cbn [negb] in Hc.
  2: { injection Hc as <-. split; try done; cbn; [by rewrite Hg|by destruct log]. }
  change (lenZ [g] =? 1) with true in Hc. cbn iota in Hc. change (py_index (grp_spec <$> [g]) 0) with (@Ok KVCacheSpec (grp_spec g)) in Hc.
  cbn [mbind res_bind] in Hc. unfold passert in Hc. destruct (_ =? _) eqn:Hsize in Hc; [|done]. injection Hc as <-.
  assert (sm_block_size m = spec_block_size (grp_spec g) * (if 1 <? dcp then dcp else 1) * (if 1 <? pcp then pcp else 1)) as Hm.
  { unfold m. cbn. destruct (Z.ltb_spec 1 (dcp * pcp)), (Z.ltb_spec 1 dcp), (Z.ltb_spec 1 pcp); nia. }
  apply Z.eqb_eq in Hsize. split; try done; [cbn; by rewrite Hg| | |by destruct log]; intros _.
  - change (km_pool _) with p. by rewrite Hh, Hsize.
  - exists g, dcp, pcp. split_and!; try done. cbn [kc_kind km_coordinator]. by rewrite Hm.
Qed.

Lemma reach_state k : km_reach k → ∃ m l, km_state k m l.
Proof.
  induction 1 as [|? ? ? _ (m & l & Hks) Heq|? ? ? ? _ (m & l & Hks) Heq|k k' m0 r nnew nnc ncb nla ext nc delay enc must x _ (m & l & Hks) Hm Hsr Heq
    |k k' m0 r nt x _ (m & l & Hks) Hm Hh Hr Heq|k k' rid n _ (m & l & Hks) Heq|k k' r _ (m & l & Hks) Heq|k k' ids _ (m & l & Hks) Hids Heq
    |? ? ? _ (m & l & Hks) Heq|? ? ? _ (m & l & Hks) Heq|? ? ? _ (m & l & Hks) Heq|? ? _ (m & l & Hks) Heq].
  - edestruct init_state as (? & ? & Hks & _); eauto.
  - exists m, l. by eapply km_make_stats_spec.
  - exists m, l. by eapply km_lookup_spec.
  - rewrite (ks_managers _ _ _ Hks) in Hm. injection Hm as ->.
    destruct (allocate_slots_spec k m0 l r nnew nnc ncb nla ext nc delay enc must Hks Hsr) as (k1 & m1 & l1 & r1 & out & Heq1 & _ & Ho).
    rewrite Heq in Heq1. injection Heq1 as -> _. exists m1, l1. apply Ho.
  - rewrite (ks_managers _ _ _ Hks) in Hm. injection Hm as ->. unfold km_cache_blocks in Heq. rewrite st_bind_get in Heq.
    destruct (km_enable_caching k) eqn:Hca; [|injection Heq as -> _; eauto]. rewrite (ks_caching _ _ _ Hks) in Hca.
    destruct (km_cache k m0 l r nt Hks Hca Hh Hr) as (k1 & m1 & r1 & Heq1 & Hks1 & _). rewrite Heq in Heq1. injection Heq1 as -> _. eauto.
  - destruct (km_skip k m l rid n Hks) as (k1 & m1 & l1 & bs & Heq1 & Hks1 & _). unfold km_remove_skipped_blocks in Heq.
    rewrite Heq in Heq1. injection Heq1 as ->. eauto.
  - destruct (km_free_spec k m l r Hks) as (k1 & m1 & fr & Heq1 & Hks1 & _). rewrite Heq in Heq1. injection Heq1 as ->. eauto.
  - destruct (km_evict_spec k m l ids Hks Hids) as (k1 & Heq1 & Hks1). rewrite Heq in Heq1. injection Heq1 as ->. eauto.
  - exists m, l. by eapply km_reset_spec.
  - destruct (km_take_spec _ _ _ _ _ Hks Heq) as [m' ?]. eauto.
  - destruct (km_events_eq _ _ _ Hks) as (k1 & evs & Heq1 & Hks1 & _). rewrite Heq in Heq1. injection Heq1 as <- _. eauto.
  - rewrite (km_new_step_spec _ _ _ Hks) in Heq. injection Heq as <-. eauto.
Qed.

Lemma km_all_free k m l :
  km_state k m l → (∀ rid, held m rid = []) → get_num_free_blocks (km_pool k) = bp_num_gpu_blocks (km_pool k) - 1.
Proof.
  intros Hks Hno. pose proof (kv_wf _ _ _ (ks_kv _ _ _ Hks)) as Hst. rewrite (num_free_wf _ l Hst).
  destruct (free_length _ l Hst) as [Hnd Hlen]. set (n := bp_num_gpu_blocks (km_pool k)) in *.
  assert (seqZ 1 (n - 1) ⊆+ l) as Hsub%submseteq_length.
  { apply NoDup_submseteq; [apply NoDup_seqZ|]. intros b Hb%elem_of_seqZ. apply (km_free_iff k m l b Hks); [fold n; lia|].
    intros rid. rewrite Hno. apply not_elem_of_nil. }
  rewrite length_seqZ in Hsub. lia.
Qed.

Lemma drain (rs : list (Request F E)) k m l :
  km_state k m l → ∃ k' m' l', st_iter km_free rs k = Ok (k', tt) ∧ km_state k' m' l' ∧
    same_config (km_pool k) (km_pool k') ∧
    (∀ r, r ∈ rs → held m' (rq_request_id r) = []) ∧ (∀ rid, held m rid = [] → held m' rid = []).
Proof.
  revert k m l; induction rs as [|r rs IH]; intros k m l Hks.
  { exists k, m, l. split_and!; try done. intros r Hr. by apply elem_of_nil in Hr. }
  destruct (km_free_spec k m l r Hks) as (k1 & m1 & fr & Heq1 & Hks1 & Hc1 & _ & _ & _ & [Hb1 Ho1]).
  destruct (IH k1 m1 _ Hks1) as (k' & m' & l' & Heq & Hks' & Hc & Hall & Hkeep).
  exists k', m', l'. cbn [st_iter]. st_step Heq1. split_and!; try done; [by etrans|..].
  - intros r' [->|Hr]%elem_of_cons; [by apply Hkeep|by apply Hall].
  - intros rid Hrid. apply Hkeep. destruct (decide (rid = rq_request_id r)) as [->|Hne]; [done|]. by rewrite Ho1.
Qed.

(** C4. In every state the KV cache manager reaches, with one group of full,
    sliding-window or chunked attention, in any order of lookups, allocations,
    caching, frees, evictions and resets: the reference count of a block is the
    number of requests that hold it, and the block is in the free queue exactly when
    none does. *)
Theorem kv_accounting k :
  km_reach k → ∃ m, kc_managers (km_coordinator k) = [m] ∧
    ∀ b, 0 < b < bp_num_gpu_blocks (km_pool k) →
      ref_of (km_pool k) b = Some (owned (sm_req_to_blocks m) b) ∧ (b ∈ free_list (km_pool k) ↔ ∀ rid, b ∉ held m rid).
Proof.
  intros (m & l & Hks)%reach_state. pose proof (ks_kv _ _ _ Hks) as Hkv. exists m. split; [apply (ks_managers _ _ _ Hks)|]. intros b Hb.
  split; [by apply (kv_ref _ _ _ Hkv)|]. rewrite (free_list_spec _ l (kv_wf _ _ _ Hkv)). by apply (km_free_iff k m l).
Qed.

(** C5. [KVCacheManager.allocate_slots], for a running request or for one with cache
    hits and external tokens, never raises in a reachable state.  It returns [None]
    only when the free blocks do not cover what it must allocate; otherwise the
    request holds enough blocks for all its tokens, the computed, the new and the
    lookahead ones, the blocks returned are the last of them, the blocks of every
    other request are as they were, and an allocation for a request that held none
    takes no more than the blocks announced by [get_num_blocks_to_allocate]. *)
Theorem allocate_slots_sound k m (r : Request F E) nnew nnc ncb nla ext nc delay enc must :
  km_reach k → kc_managers (km_coordinator k) = [m] → slot_request k m r nnew nnc (default EmptyBlocks ncb) nla ext nc →
  let rid := rq_request_id r in
  let total := rq_num_computed_tokens r + nnc + ext in
  let need := slots_needed k r nnew nnc nla ext in
  ∃ k' m' r' out,
    allocate_slots embeds_digest use_int_hashes r nnew nnc ncb nla ext delay enc must k = Ok (k', (r', out)) ∧
    kc_managers (km_coordinator k') = [m'] ∧ same_hash_inputs r r' ∧ (∀ rid', rid' ≠ rid → held m' rid' = held m rid') ∧
    match out with
    | None =>
        lenZ (held m' rid) = lenZ (held m rid) ∧
        (must = true ∧ get_num_free_blocks (km_pool k) < demand m (free_list (km_pool k)) rid (num_tokens r) nc total true ∨
         get_num_free_blocks (km_pool k') < demand m' (free_list (km_pool k')) rid need nc total false)
    | Some blocks =>
        cdiv need (sm_block_size m) <= lenZ (held m' rid) ∧
        (must = true → demand m (free_list (km_pool k)) rid (num_tokens r) nc total true <= get_num_free_blocks (km_pool k)) ∧
        (held m rid = [] → get_num_free_blocks (km_pool k) - demand m (free_list (km_pool k)) rid need nc total false
                           <= get_num_free_blocks (km_pool k')) ∧
        ∃ pre new, held m' rid = pre ++ new ∧ blocks = create_kv_cache_blocks [new]
    end.
Proof.
  intros (m0 & l & Hks)%reach_state Hm Hsr. rewrite (ks_managers _ _ _ Hks) in Hm. injection Hm as ->.
  destruct (allocate_slots_spec k m l r nnew nnc ncb nla ext nc delay enc must Hks Hsr) as (k' & m' & l' & r' & out & Heq & Hsame & Ho).
  exists k', m', r', out. destruct Ho as (Hks' & _ & _ & Hoth & _ & Hout).
  rewrite (free_list_spec _ l (kv_wf _ _ _ (ks_kv _ _ _ Hks))), (free_list_spec _ l' (kv_wf _ _ _ (ks_kv _ _ _ Hks'))).
  rewrite (num_free_wf _ l (kv_wf _ _ _ (ks_kv _ _ _ Hks))), (num_free_wf _ l' (kv_wf _ _ _ (ks_kv _ _ _ Hks'))).
  split_and!; try done; [apply (ks_managers _ _ _ Hks')|]. destruct out; [done|]. split; apply Hout.
Qed.

(** C22. No block is ever lost: from every reachable state, freeing the requests that
    hold blocks raises nothing and leaves every block but the null block free. *)
Theorem free_drains k m (rs : list (Request F E)) :
  km_reach k → kc_managers (km_coordinator k) = [m] → (∀ rid, held m rid ≠ [] → ∃ r, r ∈ rs ∧ rq_request_id r = rid) →
  ∃ k', st_iter km_free rs k = Ok (k', tt) ∧ get_num_free_blocks (km_pool k') = bp_num_gpu_blocks (km_pool k) - 1.
Proof.
  intros (m0 & l & Hks)%reach_state Hm Hrs. rewrite (ks_managers _ _ _ Hks) in Hm. injection Hm as ->.
  destruct (drain rs k m l Hks) as (k' & m' & l' & Heq & Hks' & (<- & _) & Hall & Hkeep). exists k'. split; [done|].
  apply (km_all_free k' m' l' Hks'). intros rid. destruct (decide (held m rid = [])) as [He|Hne]; [by apply Hkeep|].
  destruct (Hrs rid Hne) as (r & Hr & <-). by apply Hall.
Qed.

End one_group.

(** ** Witnesses: a pool of six blocks, a request of five tokens *)

Definition ex_full : KVCacheSpec := mkSpec (FullAttentionSpec FullPlain) 4 0.
Definition ex_k0 : KVCacheManager :=
  from_ok (kv_cache_manager_init (mkKVConfig 6 [mkGroup ex_full false]) 16 4 None true false true false 1 1 false)
    ltac:(vm_compute; reflexivity).
Definition ex_m0 : SingleTypeKVCacheManager := single_type_init ex_full true 0 1 1 None.
Definition ex_alloc := from_ok (allocate_slots no_digest false ex_r 5 0 None 0 0 false 0 true ex_k0) ltac:(vm_compute; reflexivity).
(** The request holds blocks 1 and 2, and block 1 is cached. *)
Definition ex_k1 : KVCacheManager := ex_alloc.1.
Definition ex_m1 : SingleTypeKVCacheManager := hd ex_m0 (kc_managers (km_coordinator ex_k1)).

Lemma ok_inj {A} (a b : A) : Ok a = Ok b → a = b.
Proof. congruence. Qed.
Lemma one_inj {A} (a b : A) : [a] = [b] → a = b.
Proof. congruence. Qed.

Notation ex_reach := (km_reach (F := b64) no_digest false).

Lemma ex_reach0 : ex_reach ex_k0.
Proof.
  refine (reach_init _ _ (mkKVConfig 6 [mkGroup ex_full false]) (mkGroup ex_full false) 16 4 None true false true false 1 1 false _
    (from_ok_eq _ _) eq_refl I _ _ _); vm_compute; reflexivity.
Qed.

Lemma ex_slots0 : slot_request ex_k0 ex_m0 ex_r 5 0 EmptyBlocks 0 0 [].
Proof. split; [reflexivity|left|lia|vm_compute; discriminate..|]; [|intros _; vm_compute; discriminate]. repeat split; vm_compute; discriminate. Qed.

Lemma ex_reach1 : ex_reach ex_k1.
Proof.
  refine (reach_alloc no_digest false ex_k0 ex_k1 ex_m0 ex_r 5 0 None 0 0 [] false 0 true ex_alloc.2 ex_reach0 _ ex_slots0 _).
  - vm_compute. reflexivity.
  - unfold ex_k1. rewrite <- surjective_pairing. exact (from_ok_eq _ _).
Qed.

Lemma kv_accounting_witness : ref_of (km_pool ex_k1) 2 = Some 1 ∧ free_list (km_pool ex_k1) = [3; 4; 5] ∧ 2 ∉ free_list (km_pool ex_k1).
Proof.
  destruct (kv_accounting no_digest false ex_k1 ex_reach1) as (m & Hm & Hall).
  assert (kc_managers (km_coordinator ex_k1) = [ex_m1]) as Hm1 by (vm_compute; reflexivity). rewrite Hm1 in Hm. apply one_inj in Hm as <-.
  destruct (Hall 2) as [Hr Hf]; [vm_compute; split; reflexivity|]. split; [rewrite Hr; vm_compute; reflexivity|].
  split; [vm_compute; reflexivity|]. intros H2. apply (proj1 Hf H2 (rq_request_id ex_r)).
  assert (held ex_m1 (rq_request_id ex_r) = [1; 2]) as -> by (vm_compute; reflexivity). right. left.
Defined.

(** Five tokens get two blocks; sixteen more would not fit the model length and five
    tokens with lookahead still do. *)
Lemma allocate_slots_sound_witness :
  ∃ k' m' r' out, allocate_slots no_digest false ex_r 5 0 None 0 0 false 0 true ex_k0 = Ok (k', (r', Some out)) ∧
    2 <= lenZ (held m' (rq_request_id ex_r)).
Proof.
  destruct (allocate_slots_sound no_digest false ex_k0 ex_m0 ex_r 5 0 None 0 0 [] false 0 true ex_reach0 ltac:(vm_compute; reflexivity) ex_slots0)
    as (k' & m' & r' & [out|] & Heq & _ & _ & _ & Hout).
  - exists k', m', r', out. split; [exact Heq|]. exact (proj1 Hout).
  - exfalso. assert (snd (ex_alloc.2) ≠ None) as Hn by (vm_compute; discriminate). apply Hn.
    assert (ex_alloc = (k', (r', None))) as ->; [|reflexivity]. pose proof (from_ok_eq _ _ : _ = Ok ex_alloc) as Ha. rewrite Heq in Ha.
    exact (eq_sym (ok_inj _ _ Ha)).
Defined.

Lemma free_drains_witness : ∃ k', st_iter km_free [ex_r] ex_k1 = Ok (k', tt) ∧ get_num_free_blocks (km_pool k') = 5.
Proof.
  destruct (free_drains no_digest false ex_k1 ex_m1 [ex_r] ex_reach1) as (k' & Heq & Hn).
  - vm_compute. reflexivity.
  - intros rid Hh. exists ex_r. split; [left|].
    assert (sm_req_to_blocks ex_m1 = {[rq_request_id ex_r := [1; 2]]}) as Hb by (vm_compute; reflexivity).
    unfold held in Hh. rewrite Hb in Hh. destruct (decide (rid = rq_request_id ex_r)) as [->|Hne]; [reflexivity|].
    rewrite lookup_singleton_ne in Hh by (intros He; apply Hne; exact (eq_sym He)). exfalso. apply Hh. reflexivity.
  - exists k'. split; [exact Heq|]. rewrite Hn. vm_compute. reflexivity.
Defined.
