(* ===== verification/CacheHitThms.v ===== *)
(** * Cache hits: correctness

    The search for the longest cached prefix: the lookup of full attention returns
    the longest one, the search over groups of different layers terminates, and the
    hits it returns are ones [allocate_slots] may be given. *)

From S2P Require Import Prelude PyFloat Protocol Request BlockHash FreeQueue BlockPool BlockPoolThms SingleType KVManager KVManagerThms.

(** ** Full attention *)

Section full.
Implicit Types (p : BlockPool) (l c : list Z) (g : Z) (h : string).

(** The block a hash is looked up to. *)
Definition cached_block p g h : option Z := head (blocks_at (bp_cached p) (h +:+ be32 g)).

(** The blocks of the leading hashes that are cached. *)
Fixpoint leading p g (hs : list string) : list Z :=
  match hs with
  | [] => []
  | h :: hs => match cached_block p g h with Some b => b :: leading p g hs | None => [] end
  end.

Lemma get_cached_one p l g h : pool_wf p l → 0 <= g < 2 ^ 32 → get_cached_block p h [g] = Ok (cached_block p g h ≫= fun b => Some [b]).
Proof.
  intros Hst Hg. rewrite (get_cached_block_spec p l) by (done || by intros ? ->%list_elem_of_singleton). done.
Qed.

Lemma prefix_loop_spec p l g hs c :
  pool_wf p l → 0 <= g < 2 ^ 32 → prefix_loop p [g] hs [c] = Ok [c ++ leading p g hs].
Proof.
  intros Hst Hg. revert c; induction hs as [|h hs IH]; intros c; cbn [prefix_loop leading]; [by rewrite app_nil_r|].
  unfold cached_row. rewrite (get_cached_one p l) by done. cbn [mbind res_bind].
  destruct (cached_block p g h) as [b|]; cbn; [|by rewrite app_nil_r]. rewrite IH. by rewrite <- app_assoc.
Qed.

Lemma leading_lookup p g hs i b : leading p g hs !! i = Some b → ∃ h, hs !! i = Some h ∧ cached_block p g h = Some b.
Proof.
  revert i; induction hs as [|h hs IH]; intros i; [done|]. cbn. destruct (cached_block p g h) as [b'|] eqn:Hb; [|done].
  destruct i as [|i]; cbn; [intros [= <-]; eauto|apply IH].
Qed.

Lemma leading_bound p g hs : (length (leading p g hs) <= length hs)%nat.
Proof. induction hs as [|h hs IH]; [done|]. cbn. destruct (cached_block p g h); cbn; lia. Qed.

Lemma leading_length p g hs n :
  (n <= length hs)%nat → (∀ h, h ∈ take n hs → cached_block p g h ≠ None) → (n <= length (leading p g hs))%nat.
Proof.
  revert n; induction hs as [|h hs IH]; intros n Hn Hc; [done|]. destruct n as [|n]; [lia|]. cbn in Hn, Hc. cbn.
  destruct (cached_block p g h) eqn:Hb; [|destruct (Hc h); [left|done]]. cbn. apply le_n_S, IH; [lia|].
  intros h' Hh'. apply Hc. by right.
Qed.

Lemma pop_last c n : length c = S n → pop_one c = Ok (take n c).
Proof.
  intros Hl. destruct c as [|x c]; [done|]. unfold pop_one. rewrite (app_removelast_last x (l := x :: c)) at 2 by done.
  assert (length (removelast (x :: c)) = n) as Hn.
  { pose proof (f_equal length (app_removelast_last (l := x :: c) x ltac:(done))) as He. rewrite length_app in He. cbn [length] in He, Hl. lia. }
  by rewrite take_app_length'.
Qed.

(** The longest prefix of whole multiples of the alignment. *)
Lemma align_loop_spec fuel bs a c :
  (length c <= fuel)%nat → ∃ j, align_loop fuel bs a [c] = Ok [take j c] ∧ (j <= length c)%nat ∧ Z.of_nat j * bs mod a = 0 ∧
    ∀ i, (j < i <= length c)%nat → Z.of_nat i * bs mod a ≠ 0.
Proof.
  revert c; induction fuel as [|fuel IH]; intros c Hf; cbn [align_loop hit_len mbind res_bind].
  all: destruct (Z.eqb_spec (lenZ c * bs mod a) 0) as [H0|H0].
  1, 3: exists (length c); rewrite take_ge by lia; split_and!; (done || lia).
  - exfalso. apply H0. replace (lenZ c) with 0 by lia. by rewrite Z.mul_0_l, Zmod_0_l.
  - destruct (length c) as [|n] eqn:Hl; [exfalso; apply H0; by rewrite Z.mul_0_l, Zmod_0_l|].
    assert (pop_all [c] = Ok [take n c]) as -> by (cbn; by rewrite (pop_last c n Hl)). cbn [mbind res_bind].
    destruct (IH (take n c)) as (j & -> & Hj & Hmod & Hmax); [rewrite length_take; lia|]. rewrite length_take in Hj, Hmax.
    exists j. rewrite take_take, Nat.min_l by lia. split_and!; [done|lia|done|]. intros i Hi.
    destruct (decide (i = S n)) as [->|Hne]; [done|apply Hmax; lia].
Qed.

Lemma align_hits_spec bs a c :
  0 < a → ∃ j, align_hits bs a [c] = Ok [take j c] ∧ (j <= length c)%nat ∧ Z.of_nat j * bs mod a = 0 ∧
    ∀ i, (j < i <= length c)%nat → Z.of_nat i * bs mod a ≠ 0.
Proof.
  intros Ha. unfold align_hits. destruct (Z.eqb_spec bs a) as [->|Hne].
  - exists (length c). rewrite take_ge, Z.mod_mul by lia. split_and!; (done || lia).
  - cbn [hit_len mbind res_bind]. apply align_loop_spec. lia.
Qed.

Lemma eagle_pop_spec eagle c : eagle_pop eagle [c] = Ok [take (length c - (if eagle : bool then 1 else 0)) c].
Proof.
  destruct eagle; cbn [eagle_pop]; [|by rewrite Nat.sub_0_r, take_ge by lia]. cbn [hit_len mbind res_bind].
  destruct (Z.eqb_spec (lenZ c) 0) as [H0|H0]; [by rewrite (nil_length_inv c) by lia|].
  cbn. destruct (length c) as [|n] eqn:Hl; [done|]. rewrite (pop_last c n Hl). cbn. by rewrite Nat.sub_0_r.
Qed.

(** The result of the lookup for one group. *)
Lemma full_find_spec p l hs max g spec eagle a dcp pcp :
  let bs := if 1 <? dcp * pcp then spec_block_size spec * (dcp * pcp) else spec_block_size spec in
  pool_wf p l → 0 <= g < 2 ^ 32 → 0 <= max → 0 < bs → 0 < a →
  let cands := leading p g (take (Z.to_nat (max / bs)) hs) in
  let n := (length cands - (if eagle : bool then 1 else 0))%nat in
  ∃ j, full_find_longest_cache_hit p (PlainHashes hs) max [g] spec eagle a dcp pcp = Ok [take j cands] ∧ (j <= n)%nat ∧
    Z.of_nat j * bs mod a = 0 ∧ ∀ i, (j < i <= n)%nat → Z.of_nat i * bs mod a ≠ 0.
Proof.
  intros bs Hst Hg Hmax Hbs Ha cands n. unfold full_find_longest_cache_hit. fold bs.
  pose proof (Z.div_pos max bs Hmax Hbs). destruct (Z.ltb_spec (max / bs) 0); [lia|]. cbn [length replicate gh_from].
  assert (py_slice hs 0 (lenZ hs) = hs) as -> by (rewrite py_slice_nonneg, drop_0 by lia; apply take_ge; lia).
  rewrite (prefix_loop_spec p l) by done. cbn [mbind res_bind]. rewrite app_nil_l. fold cands. rewrite eagle_pop_spec. fold n. cbn [mbind res_bind].
  destruct (align_hits_spec bs a (take n cands) Ha) as (j & -> & Hj & Hmod & Hlong).
  rewrite length_take in Hj, Hlong. exists j. rewrite take_take, Nat.min_l by lia. split_and!; [done|lia|done|].
  intros i Hi. apply Hlong. unfold n in *. lia.
Qed.

(** Hits of distinct hashes are distinct blocks of the pool. *)
Lemma leading_valid p l g hs j :
  pool_wf p l → 0 <= g < 2 ^ 32 → NoDup hs → valid_hits p (take j (leading p g hs)).
Proof.
  intros Hst Hg Hnd.
  assert (∀ i b, take j (leading p g hs) !! i = Some b → ∃ h, hs !! i = Some h ∧ hash_of p b = Some (h +:+ be32 g)) as Hl.
  { intros i b [Hi _]%lookup_take_Some. apply leading_lookup in Hi as (h & Hh & Hc). exists h. split; [done|].
    pose proof (cached_head p l (h +:+ be32 g) Hst) as Hhd. unfold cached_block in Hc. by rewrite Hc in Hhd. }
  split.
  - apply NoDup_filter, NoDup_alt. intros i i' b Hi Hi'. destruct (Hl i b Hi) as (h & Hh & Hk), (Hl i' b Hi') as (h' & Hh' & Hk').
    assert (h = h') as <- by (rewrite Hk in Hk'; injection Hk' as Hk'; by apply (key_injective h h' g g)).
    by apply (NoDup_lookup hs i i' h).
  - intros b [i Hi]%list_elem_of_lookup. destruct (Hl i b Hi) as (h & _ & Hk). split; [|by rewrite Hk].
    rewrite hash_of_data in Hk. destruct (pool_data p !! b) as [d|] eqn:Hd; [|done].
    pose proof (dw_hash _ _ _ _ (proj2 Hst) b d _ Hd Hk) as Hb0. unfold HEAD, TAIL in *.
    destruct (proj1 (dw_dom _ _ _ _ (proj2 Hst) b)) as [?|[Hb|Hb]]; [by eexists|done|unfold HEAD, TAIL in Hb; lia..].
Qed.

End full.

(** ** Groups of different layers *)

Section hybrid.
Implicit Types (p : BlockPool) (hs : list string) (eagle : gset Z).

Lemma hit_len_nonneg computed n : hit_len computed = Ok n → 0 <= n.
Proof. destruct computed; [done|]. intros [= <-]. lia. Qed.

Lemma hybrid_pass_nonneg p hs hbs lcm max eagle groups by_group curr verified by_group' curr' verified' :
  (∀ i g, (i, g) ∈ groups → 0 <= spec_block_size g.1) → 0 <= curr →
  hybrid_pass p hs hbs lcm max eagle groups by_group curr verified = Ok (by_group', curr', verified') → 0 <= curr'.
Proof.
  revert by_group curr verified; induction groups as [|[i [spec ids]] groups IH]; intros bg curr ver Hpos Hcurr; cbn [hybrid_pass].
  { by intros [= _ <- _]. }
  assert (0 <= spec_block_size spec) as Hbs by (apply (Hpos i (spec, ids)); left).
  assert (∀ i g, (i, g) ∈ groups → 0 <= spec_block_size g.1) as Hpos' by (intros; eapply Hpos; by right).
  destruct (or_raise _ _) as [gid|]; [|done]. cbn [mbind res_bind]. destruct (py_index _ _) as [cached|]; [|done]. cbn [mbind res_bind].
  destruct (is_full spec), cached as [?|].
  { apply IH; [done|]. pose proof (Z.div_pos curr (spec_block_size spec)).
    destruct (decide (spec_block_size spec = 0)) as [->|]; [by rewrite Z.mul_0_r|nia]. }
  all: destruct (hashes_for hs hbs spec) as [hashes|]; [|done]; cbn [mbind res_bind];
    destruct (sm_find_longest_cache_hit _ _ _ _ _ _ _ _ _) as [hit|]; [|done]; cbn [mbind res_bind];
    destruct (hit_len hit) as [n|] eqn:Hn; [|done]; cbn [mbind res_bind]; apply hit_len_nonneg in Hn; apply IH; [done|nia].
Qed.

Lemma hybrid_loop_ends fuel p hs hbs lcm max eagle groups simple by_group hit verified :
  (∀ i g, (i, g) ∈ groups → 0 <= spec_block_size g.1) → 0 <= hit → (Z.to_nat hit < fuel)%nat →
  match hybrid_loop fuel p hs hbs lcm max eagle groups simple by_group hit verified with
  | Ok None => False
  | Ok (Some (_, n)) => 0 <= n <= hit
  | Err _ => True
  end.
Proof.
  intros Hpos. revert by_group hit verified; induction fuel as [|fuel IH]; intros bg hit ver Hhit Hf; [lia|]. cbn [hybrid_loop].
  destruct (hybrid_pass p hs hbs lcm max eagle groups bg hit ver) as [[[bg' curr] ver']|] eqn:Hp; [|done]. cbn [mbind res_bind].
  pose proof (hybrid_pass_nonneg _ _ _ _ _ _ _ _ _ _ _ _ _ Hpos Hhit Hp) as Hc. destruct (Z.leb_spec hit curr); [lia|]. destruct simple; [lia|].
  specialize (IH bg' curr ver' Hc ltac:(lia)). destruct (hybrid_loop _ _ _ _ _ _ _ _ _ _ _ _) as [[[? n]|]|]; [lia|done|done].
Qed.

(** C21. The search for a hit common to groups of different layers ends: the loop that
    shortens the hit until all groups agree needs no more rounds than there are
    tokens, whatever the layers, their block sizes and the blocks in the cache, and
    the hit is no longer than what was asked for. *)
Theorem hybrid_search_terminates p num_groups hs hbs lcm max eagle groups :
  0 <= max → (∀ g, g ∈ groups → 0 <= spec_block_size g.1) →
  match hybrid_find_longest_cache_hit p num_groups hs hbs lcm max eagle groups with
  | Ok None => False
  | Ok (Some (_, n)) => 0 <= n <= max
  | Err _ => True
  end.
Proof.
  intros Hmax Hpos. unfold hybrid_find_longest_cache_hit. destruct (or_raise _ _) as [first|]; [|done]. cbn [mbind res_bind].
  match goal with |- context [hybrid_loop ?f ?a ?b ?c ?d ?e ?g ?gs ?s ?bg ?h ?v] =>
    pose proof (hybrid_loop_ends f a b c d e g gs s bg h v) as Hl; destruct (hybrid_loop f a b c d e g gs s bg h v) as [[[bg' n]|]|] end;
    [apply Hl|apply Hl|done]; try lia; intros i g Hin; apply Hpos; by apply elem_of_zip_r in Hin.
Qed.

End hybrid.

(** ** Lookups *)

Section lookups.
Context {F E : Type} `{PyFloat F}.
Context (embeds_digest : E → Z → Z → string) (use_int_hashes : bool).

Notation run := (pool_run (F := F) embeds_digest use_int_hashes).

(** C17. The lookup of full attention finds the longest usable prefix: in a reachable
    pool it returns, for the leading hashes of the request, blocks that are cached
    under them; the hit is no longer than asked for and a multiple of the alignment;
    and no longer prefix will do, counting the block that speculative decoding drops
    after the hit. *)
Theorem full_hit_longest tr p hs max g spec eagle a :
  run tr p → 0 <= g < 2 ^ 32 → 0 <= max → 0 < spec_block_size spec → 0 < a →
  let dropped := if eagle : bool then 1%nat else 0%nat in
  let candidates := take (Z.to_nat (max / spec_block_size spec)) hs in
  ∃ hit, full_find_longest_cache_hit p (PlainHashes hs) max [g] spec eagle a 1 1 = Ok [hit] ∧
    lenZ hit * spec_block_size spec <= max ∧ lenZ hit * spec_block_size spec mod a = 0 ∧
    (∀ i b, hit !! i = Some b → ∃ h, hs !! i = Some h ∧ get_cached_block p h [g] = Ok (Some [b])) ∧
    (∀ n, (n + dropped <= length candidates)%nat → (∀ h, h ∈ take (n + dropped) candidates → get_cached_block p h [g] ≠ Ok None) →
      Z.of_nat n * spec_block_size spec mod a = 0 → (n <= length hit)%nat).
Proof.
  intros [[l Hst] _]%pool_run_inv Hg Hmax Hbs Ha dropped candidates.
  destruct (full_find_spec p l hs max g spec eagle a 1 1 Hst Hg Hmax Hbs Ha) as (j & Heq & Hj & Hmod & Hlong).
  change (if 1 <? 1 * 1 then _ else _) with (spec_block_size spec) in *. fold candidates dropped in Heq, Hj, Hlong.
  set (cands := leading p g candidates) in *.
  assert (∀ i b, cands !! i = Some b → ∃ h, candidates !! i = Some h ∧ cached_block p g h = Some b) as Hl by (intros i b; apply leading_lookup).
  assert (length cands <= Z.to_nat (max / spec_block_size spec))%nat as Hlen.
  { pose proof (leading_bound p g candidates) as Hb. unfold candidates in Hb at 2. rewrite length_take in Hb. unfold cands. lia. }
  pose proof (Z.mul_div_le max (spec_block_size spec) Hbs). pose proof (Z.div_pos max (spec_block_size spec) Hmax Hbs).
  assert (length (take j cands) = j) as Hjl by (rewrite length_take; lia).
  exists (take j cands). rewrite Hjl. split_and!; [done|nia|done| |].
  - intros i b [Hi _]%lookup_take_Some. destruct (Hl i b Hi) as (h & [Hh _]%lookup_take_Some & Hc). exists h. split; [done|].
    by rewrite (get_cached_one p l g h Hst Hg), Hc.
  - intros n Hn Hall Ha0. destruct (decide (n <= j)%nat) as [|Hgt]; [done|]. exfalso. apply (Hlong n); [|done]. split; [lia|].
    assert (n + dropped <= length cands)%nat; [|lia]. apply leading_length; [done|]. intros h Hh Hc. apply (Hall h Hh).
    by rewrite (get_cached_one p l g h Hst Hg), Hc.
Qed.

Lemma created_of k m l hit : km_state k m l → blocks_of k (create_kv_cache_blocks [hit]) = [hit].
Proof.
  intros Hks. unfold create_kv_cache_blocks. cbn. rewrite orb_false_r. destruct (Z.eqb_spec (lenZ hit) 0) as [H0|]; [|done]. cbn.
  rewrite (ks_groups _ _ _ Hks). cbn. by rewrite (nil_length_inv hit) by lia.
Qed.

(** The lookup of the coordinator, with one group of full attention. *)
Lemma find_hit k m l hs max :
  km_state k m l → sm_enable_caching m = true → is_full (sm_spec m) = true → NoDup hs → 0 <= max →
  ∃ hit, kc_find_longest_cache_hit (km_coordinator k) hs max = Ok (Some ([hit], lenZ hit * sm_block_size m)) ∧
    valid_hits (km_pool k) hit ∧ lenZ hit * sm_block_size m <= max.
Proof.
  intros Hks Hca Hfull Hnd Hmax. pose proof (ks_kv _ _ _ Hks) as Hkv. pose proof (kv_size _ _ _ Hkv) as Hbs.
  destruct (ks_unitary _ _ _ Hks Hca) as (g & dcp & pcp & Hkind & Hgs & Hspec & _ & Hsz).
  pose proof (full_find_spec (km_pool k) l hs max 0 (sm_spec m)
    (bool_decide (0 ∈ kc_eagle_group_ids (km_coordinator k))) (sm_block_size m) dcp pcp) as Hfind. cbn zeta in Hfind.
  rewrite <- Hsz in Hfind. destruct Hfind as (j & Hfind & Hj & _); try done; [apply (kv_wf _ _ _ Hkv)|].
  set (cand := take (Z.to_nat (max / sm_block_size m)) hs) in *. set (hit := take j (leading (km_pool k) 0 cand)) in *.
  exists hit. split_and!.
  - unfold kc_find_longest_cache_hit. rewrite Hkind, Hgs. cbn [head or_raise mbind res_bind]. rewrite Hspec. unfold sm_find_longest_cache_hit.
    unfold is_full in Hfull. destruct (spec_type_of (sm_spec m)); try done. change (kc_pool (km_coordinator k)) with (km_pool k). by rewrite Hfind.
  - apply (leading_valid _ l); [apply (kv_wf _ _ _ Hkv)|done|]. by apply (sublist_NoDup _ _ Hnd), sublist_take.
  - pose proof (leading_bound (km_pool k) 0 cand) as Hb. unfold cand in Hb at 2. rewrite length_take in Hb.
    assert (length hit <= Z.to_nat (max / sm_block_size m))%nat by (unfold hit; rewrite length_take; lia).
    pose proof (Z.mul_div_le max (sm_block_size m) Hbs). pose proof (Z.div_pos max (sm_block_size m) Hmax Hbs). nia.
Qed.

Lemma lookup_result k m l (r : Request F E) :
  km_state k m l → is_full (sm_spec m) = true → NoDup (rq_block_hashes r) → 0 < num_tokens r →
  ∃ k' blocks n hit, get_computed_blocks r k = Ok (k', Some (blocks, n)) ∧ blocks_of k' blocks = [hit] ∧
    valid_hits (km_pool k') hit ∧ (sm_enable_caching m = false → hit = []) ∧ n = lenZ hit * sm_block_size m ∧
    n <= num_tokens r - 1 ∧ km_max_model_len k' = km_max_model_len k.
Proof.
  intros Hks Hfull Hnd Htok. unfold get_computed_blocks. rewrite st_bind_get.
  destruct (negb (km_enable_caching k) || rq_skip_reading_prefix_cache r) eqn:Hskip.
  { exists k, EmptyBlocks, 0, []. cbn [blocks_of]. rewrite (ks_groups _ _ _ Hks). split_and!; try done; try lia.
    split; [apply NoDup_nil_2|]. intros b Hb. by apply elem_of_nil in Hb. }
  apply orb_false_iff in Hskip as [Hca%negb_false_iff _]. rewrite (ks_caching _ _ _ Hks) in Hca.
  destruct (find_hit k m l (rq_block_hashes r) (num_tokens r - 1) Hks Hca Hfull Hnd ltac:(lia)) as (hit & Hres & Hv & Hle).
  rewrite (st_bind_lift _ _ _ _ Hres). pose proof (created_of k m l hit Hks) as Hof. unfold st_when.
  destruct (km_log_stats k) eqn:Hlog; [|by exists k, (create_kv_cache_blocks [hit]), (lenZ hit * sm_block_size m), hit; split_and!; try done; congruence].
  pose proof (ks_stats _ _ _ Hks Hlog) as Hst. destruct (km_prefix_cache_stats k); [|done]. rewrite st_bind_modify.
  eexists _, (create_kv_cache_blocks [hit]), (lenZ hit * sm_block_size m), hit. split_and!; try done. congruence.
Qed.

(** C16. What the scheduler does for a request of the waiting queue is sound: in a
    reachable state of a manager of full attention, [get_computed_blocks] of a
    request without blocks does not raise, its hit covers whole blocks and leaves at
    least one token to compute, and the blocks it returns may be passed on: every
    call of [allocate_slots] with them, in the state it leaves behind, meets the
    conditions under which allocation is sound. *)
Theorem lookup_admits k m (r : Request F E) :
  km_reach (F := F) embeds_digest use_int_hashes k → kc_managers (km_coordinator k) = [m] → is_full (sm_spec m) = true →
  held m (rq_request_id r) = [] → sm_num_cached_block m !! rq_request_id r = None → rq_num_computed_tokens r = 0 →
  NoDup (rq_block_hashes r) → num_tokens r / sm_block_size m <= lenZ (rq_block_hashes r) →
  0 < num_tokens r <= km_max_model_len k →
  ∃ k' blocks n hit, get_computed_blocks r k = Ok (k', Some (blocks, n)) ∧ 0 <= n < num_tokens r ∧ n = lenZ hit * sm_block_size m ∧
    ∀ nnew nla ext, 0 <= nnew → 0 <= nla → 0 <= ext → 0 < nnew + ext → n + ext <= km_max_model_len k' →
      slot_request k' m r nnew n blocks nla ext hit.
Proof.
  intros (m0 & l & Hks)%reach_state Hm Hfull Hheld Hnc Hcomp Hnd Hhash Htok. rewrite (ks_managers _ _ _ Hks) in Hm. injection Hm as ->.
  pose proof (ks_kv _ _ _ Hks) as Hkv. pose proof (kv_size _ _ _ Hkv) as Hbs.
  destruct (lookup_result k m l r Hks Hfull Hnd ltac:(lia)) as (k' & blocks & n & hit & Heq & Hbl & Hv & Hoff & Hn & Hle & Hmax).
  exists k', blocks, n, hit. split_and!; try done; try nia. intros nnew nla ext ? ? ? ? ?. split; try done; try lia.
  right. split_and!; try done; lia.
Qed.

End lookups.

(** ** External tokens and two groups *)

Section two_groups.
Context {F E : Type} `{PyFloat F}.
Context (embeds_digest : E → Z → Z → string) (use_int_hashes : bool).
Implicit Types (p : BlockPool) (m : SingleTypeKVCacheManager) (l nc : list Z) (rid : string).

Notation run := (pool_run (F := F) embeds_digest use_int_hashes).

(** A manager that is about to adopt cache hits for a request it has not seen, none of
    whose tokens up to [total] are outside the attention window. *)
Definition unseen m rid (total : Z) : Prop :=
  is_cross (sm_spec m) = false ∧ sm_enable_caching m = true ∧ sm_num_cached_block m !! rid = None ∧ held m rid = [] ∧
  get_num_skipped_tokens m total / sm_block_size m <= 0.

(** It takes its hits out of the free list, and then the blocks for the external
    tokens from the head of what is left. *)
Lemma adopt_spec p m l rid nc local ext :
  pool_wf p l → unseen m rid (local + ext) → (∀ b, b ∈ nc → in_pool p b) → 0 < ext →
  let free := filter (fun b => b ∉ nc) l in
  let n := cdiv (local + ext) (sm_block_size m) - lenZ nc in
  0 <= n <= lenZ free →
  ∃ p' m', sm_allocate_new_computed_blocks use_int_hashes rid nc local ext (p, m) = Ok ((p', m'), tt) ∧
    pool_wf p' (drop (Z.to_nat n) free) ∧ same_config p p' ∧ held m' rid = nc ++ take (Z.to_nat n) free.
Proof.
  intros Hst (Hcr & Hca & Hnone & Hheld & Hskip) Hin Hext free n Hn. unfold sm_allocate_new_computed_blocks. rewrite st_bind_self, Hcr.
  unfold base_allocate_new_computed_blocks. rewrite st_bind_self, Hnone, st_bind_req_blocks, Hheld. rewrite st_bind_assert by done.
  destruct (Z.ltb_spec 0 (get_num_skipped_tokens m (local + ext) / sm_block_size m)) as [|_]; [lia|]. rewrite Hca.
  destruct (touch_spec nc p l Hst Hin) as (p1 & Heq1 & Hst1 & Hc1 & _). fold free in Hst1.
  st_step (on_pool_eq _ p (with_blocks rid [] m) p1 tt Heq1).
  destruct (get_new_blocks_cases use_int_hashes p1 free n Hst1) as [[? _]|(_ & p2 & Heq2 & Hst2 & Hc2 & _)]; [lia|lia|].
  assert (∀ A (f : Z → mgr A) p m, (null_block ≫= f) (p, m) = f (bp_null_block p) (p, m)) as Hnull by done. rewrite Hnull.
  replace (Z.to_nat _) with 0%nat by lia. cbn [replicate app]. unfold set_req_blocks. rewrite !st_bind_update.
  unfold st_when. destruct (Z.ltb_spec 0 ext) as [_|]; [|lia]. unfold new_pool_blocks. fold n. 
  match goal with |- context [(p1, ?m1)] => st_step (on_pool_eq _ p1 m1 p2 _ Heq2) end.
  rewrite st_bind_update. unfold record_new_blocks. rewrite st_bind_assoc, st_bind_self. unfold st_when.
  assert (∀ m0, held (m0 <| sm_req_to_blocks ::= insert rid (nc ++ take (Z.to_nat n) free) |>) rid = nc ++ take (Z.to_nat n) free) as Hh.
  { intros m0. unfold held. cbn. by rewrite lookup_insert_eq. }
  destruct (needs_zeroing _); eexists _, _; (split; [reflexivity|]); (split; [done|]); (split; [by etrans|]); apply Hh.
Qed.

(** C33. With two groups of layers, loading external tokens can corrupt the cache: the
    managers allocate one after the other, and the blocks for the external tokens of
    the first group are taken from the free queue before the hits of the second group
    are touched.  Whenever an unreferenced hit [b] of the second group is among the
    blocks at the head of the queue that the first group takes, the allocation
    succeeds and [b] is in the block tables of both groups of the request, which so
    write to the same block. *)
Theorem hybrid_external_alias tr c m1 m2 rid h1 h2 local ext b :
  run tr (kc_pool c) → kc_managers c = [m1; m2] → unseen m1 rid (local + ext) → unseen m2 rid (local + ext) →
  (∀ b, b ∈ h1 ++ h2 → in_pool (kc_pool c) b) → 0 < ext →
  let free1 := filter (fun b => b ∉ h1) (free_list (kc_pool c)) in
  let n1 := cdiv (local + ext) (sm_block_size m1) - lenZ h1 in
  let free2 := filter (fun b => b ∉ h2) (drop (Z.to_nat n1) free1) in
  let n2 := cdiv (local + ext) (sm_block_size m2) - lenZ h2 in
  0 <= n1 <= lenZ free1 → 0 <= n2 <= lenZ free2 → b ∈ h2 → b ∈ take (Z.to_nat n1) free1 →
  ∃ c' m1' m2', kc_allocate_new_computed_blocks use_int_hashes rid [h1; h2] local ext c = Ok (c', tt) ∧
    kc_managers c' = [m1'; m2'] ∧ b ∈ held m1' rid ∧ b ∈ held m2' rid.
Proof.
  intros [[l Hst] _]%pool_run_inv Hms Hu1 Hu2 Hin Hext. rewrite (free_list_spec _ l Hst). intros free1 n1 free2 n2 Hn1 Hn2 Hb2 Hb1.
  destruct (adopt_spec _ m1 l rid h1 local ext Hst Hu1) as (p1 & m1' & Heq1 & Hst1 & Hc1 & Hh1); [|done|done|].
  { intros x Hx. apply Hin, elem_of_app. by left. }
  destruct (adopt_spec p1 m2 _ rid h2 local ext Hst1 Hu2) as (p2 & m2' & Heq2 & _ & _ & Hh2); [|done|done|].
  { intros x Hx. unfold in_pool. destruct Hc1 as (-> & _). apply Hin, elem_of_app. by right. }
  exists (c <| kc_pool := p2 |> <| kc_managers := [m1'; m2'] |>), m1', m2'. split_and!; [|done|rewrite Hh1|rewrite Hh2].
  - unfold kc_allocate_new_computed_blocks, mbind, st_bind, for_managers. rewrite Hms. cbn [each_manager]. unfold run_manager, mbind, st_bind.
    change (py_index [h1; h2] (0 + 1)) with (Ok h2). change (py_index [h1; h2] 0) with (Ok h1).
    cbn -[sm_allocate_new_computed_blocks]. rewrite Heq1. cbn -[sm_allocate_new_computed_blocks]. by rewrite Heq2.
  - apply elem_of_app. by right.
  - apply elem_of_app. by left.
Qed.

End two_groups.

(** ** Witnesses *)

(** The pool holds the block of the first four tokens; five are looked up. *)
Lemma full_hit_longest_witness :
  ∃ hit, full_find_longest_cache_hit ex_p3 (PlainHashes (rq_block_hashes ex_r2)) 4 [0] ex_full false 4 1 1 = Ok [hit] ∧
    (1 <= length hit)%nat.
Proof.
  destruct (full_hit_longest no_digest false _ ex_p3 (rq_block_hashes ex_r2) 4 0 ex_full false 4 ex_run3) as (hit & Heq & _ & _ & _ & Hmax);
    [lia|lia|reflexivity|lia|].
  exists hit. split; [exact Heq|]. apply (Hmax 1%nat); [apply Nat.leb_le; vm_compute; reflexivity| |vm_compute; reflexivity].
  intros h Hh. assert (forallb (fun h => match get_cached_block ex_p3 h [0] with Ok None => false | _ => true end)
    (take (1 + 0) (take (Z.to_nat (4 / spec_block_size ex_full)) (rq_block_hashes ex_r2))) = true) as Hf by (vm_compute; reflexivity).
  rewrite forallb_forall in Hf. apply list_elem_of_In, Hf in Hh. intros Hn. rewrite Hn in Hh. discriminate Hh.
Defined.

(** A second request with the same first block, once the first one is freed. *)
Definition ex_k2 : KVCacheManager := (from_ok (km_free ex_r ex_k1) ltac:(vm_compute; reflexivity)).1.
Definition ex_m2 : SingleTypeKVCacheManager := hd ex_m0 (kc_managers (km_coordinator ex_k2)).

Lemma ex_reach2 : ex_reach ex_k2.
Proof. exact (reach_free no_digest false ex_k1 ex_k2 ex_r ex_reach1 (from_ok_unit _ _)). Qed.

Lemma lookup_admits_witness :
  ∃ k' blocks n hit, get_computed_blocks ex_r2 ex_k2 = Ok (k', Some (blocks, n)) ∧ n = lenZ hit * 4 ∧
    slot_request k' ex_m2 ex_r2 1 n blocks 0 0 hit.
Proof.
  destruct (lookup_admits no_digest false ex_k2 ex_m2 ex_r2 ex_reach2) as (k' & blocks & n & hit & Heq & Hn & Hlen & Hsr).
  - vm_compute. reflexivity.
  - vm_compute. reflexivity.
  - vm_compute. reflexivity.
  - vm_compute. reflexivity.
  - vm_compute. reflexivity.
  - apply (bool_decide_unpack _). vm_compute. exact I.
  - vm_compute. discriminate.
  - vm_compute. split; [reflexivity|discriminate].
  - exists k', blocks, n, hit. split; [exact Heq|]. split; [exact Hlen|]. apply Hsr; [lia..|].
    assert (km_max_model_len k' = 16) as Hk.
    { assert (∀ x, Ok (k', x) = get_computed_blocks ex_r2 ex_k2 → km_max_model_len k' = 16) as Hc by (vm_compute; intros x Hx; injection Hx as -> _; reflexivity).
      exact (Hc _ (eq_sym Heq)). }
    rewrite Hk. assert (num_tokens ex_r2 = 5) as H5 by (vm_compute; reflexivity). rewrite H5 in Hn. lia.
Defined.

(** Two kinds of layers with one block each in the cache. *)
Lemma hybrid_search_terminates_witness :
  match hybrid_find_longest_cache_hit ex_p3 2 (rq_block_hashes ex_r2) 4 4 4 ∅
          [(ex_full, [0]); (mkSpec (SlidingWindowSpec false 8) 4 0, [1])] with
  | Ok (Some (_, n)) => 0 <= n <= 4
  | _ => False
  end.
Proof.
  pose proof (hybrid_search_terminates ex_p3 2 (rq_block_hashes ex_r2) 4 4 4 ∅
    [(ex_full, [0]); (mkSpec (SlidingWindowSpec false 8) 4 0, [1])] ltac:(lia)) as Ht.
  destruct (hybrid_find_longest_cache_hit _ _ _ _ _ _ _ _) as [[[? n]|]|e] eqn:Heq; [| |vm_compute in Heq; discriminate Heq].
  - apply Ht. intros g Hg. apply elem_of_cons in Hg as [->|Hg%list_elem_of_singleton]; [|subst g]; cbn; lia.
  - apply Ht. intros g Hg. apply elem_of_cons in Hg as [->|Hg%list_elem_of_singleton]; [|subst g]; cbn; lia.
Defined.

(** ** Two groups with one cached block each *)

(** A pool of eight blocks: blocks 1 and 2 are cached for the first four tokens, for the
    groups 0 and 1, and freed; the others are taken and freed after them, so the cached
    ones are at the head of the queue. *)
Definition ex_h1 : BlockPool :=
  (from_ok (get_new_blocks false 2 (from_ok (pool_init 9 true 4 false true) ltac:(vm_compute; reflexivity))) ltac:(vm_compute; reflexivity)).1.
Definition ex_h2 : BlockPool := (from_ok (cache_full_blocks no_digest false ex_r [1] 0 1 4 0 None ex_h1) ltac:(vm_compute; reflexivity)).1.
Definition ex_h3 : BlockPool := (from_ok (cache_full_blocks no_digest false ex_r [2] 0 1 4 1 None ex_h2) ltac:(vm_compute; reflexivity)).1.
Definition ex_h4 : BlockPool := (from_ok (free_blocks [1; 2] ex_h3) ltac:(vm_compute; reflexivity)).1.
Definition ex_h5 : BlockPool := (from_ok (get_new_blocks false 6 ex_h4) ltac:(vm_compute; reflexivity)).1.
Definition ex_h6 : BlockPool := (from_ok (free_blocks [3; 4; 5; 6; 7; 8] ex_h5) ltac:(vm_compute; reflexivity)).1.

Lemma ex_freeable p bs :
  bool_decide (NoDup (filter (fun b => b ≠ 0) bs)) = true →
  forallb (fun b => (0 <=? b) && (b <? bp_num_gpu_blocks p) && match ref_of p b with Some n => 1 <=? n | None => false end) bs = true →
  freeable p bs.
Proof.
  intros Hnd%bool_decide_eq_true Hf. rewrite forallb_forall in Hf. split; [done|]. intros b Hb. apply list_elem_of_In, Hf in Hb.
  destruct (ref_of p b) as [n|]; [|by rewrite andb_false_r in Hb]. split; [unfold in_pool; lia|]. intros _. exists n. split; [done|lia].
Qed.

Lemma from_ok_pair {A B} (m : res (A * B)) H : m = Ok ((from_ok m H).1, (from_ok m H).2).
Proof. rewrite <- surjective_pairing. apply from_ok_eq. Qed.

Lemma ex_run_h : ∃ tr, pool_run (F := b64) no_digest false tr ex_h6.
Proof.
  eexists. refine (run_free _ _ _ ex_h5 _ _ _ _ (from_ok_unit _ _)); [|apply ex_freeable; vm_compute; reflexivity].
  refine (run_new _ _ _ ex_h4 6 _ _ _ ltac:(lia) (from_ok_pair _ _)).
  refine (run_free _ _ _ ex_h3 _ _ _ _ (from_ok_unit _ _)); [|apply ex_freeable; vm_compute; reflexivity].
  refine (run_cache _ _ _ ex_h2 ex_r _ _ _ _ _ _ _ _ _ _ _ _ _ (from_ok_pair _ _)); [|apply ex_in_pool; vm_compute; reflexivity|lia..].
  refine (run_cache _ _ _ ex_h1 ex_r _ _ _ _ _ _ _ _ _ _ _ _ _ (from_ok_pair _ _)); [|apply ex_in_pool; vm_compute; reflexivity|lia..].
  refine (run_new _ _ _ _ 2 _ _ _ ltac:(lia) (from_ok_pair _ _)). exact (run_init _ _ 9 true 4 false true _ (from_ok_eq _ _)).
Qed.

Definition ex_window : KVCacheSpec := mkSpec (SlidingWindowSpec false 64) 4 0.
Definition ex_coordinator : KVCacheCoordinator :=
  (km_coordinator (from_ok (kv_cache_manager_init (mkKVConfig 9 [mkGroup ex_full false; mkGroup ex_window false]) 32 4 None true false false
    false 1 1 false) ltac:(vm_compute; reflexivity))) <| kc_pool := ex_h6 |>.
Definition ex_hm (i : nat) : SingleTypeKVCacheManager := default ex_m0 (kc_managers ex_coordinator !! i).

(** Full attention and a sliding window: the lookup of a request with the same first four
    tokens returns the blocks 1 and 2; with four more tokens to load, block 2 is in
    both tables. *)
Lemma hybrid_external_alias_witness :
  kc_find_longest_cache_hit ex_coordinator (rq_block_hashes ex_r2) 4 = Ok (Some ([[1]; [2]], 4)) ∧
  ∃ c' m1' m2', kc_allocate_new_computed_blocks false (rq_request_id ex_r2) [[1]; [2]] 4 4 ex_coordinator = Ok (c', tt) ∧
    kc_managers c' = [m1'; m2'] ∧ 2 ∈ held m1' (rq_request_id ex_r2) ∧ 2 ∈ held m2' (rq_request_id ex_r2).
Proof.
  split; [vm_compute; reflexivity|]. destruct ex_run_h as [tr Htr].
  refine (hybrid_external_alias no_digest false tr ex_coordinator (ex_hm 0) (ex_hm 1) _ [1] [2] 4 4 2 Htr _ _ _ _ _ _ _ _ _).
  - vm_compute. reflexivity.
  - repeat split; vm_compute; done.
  - repeat split; vm_compute; done.
  - apply ex_in_pool. vm_compute. reflexivity.
  - lia.
  - split; vm_compute; discriminate.
  - split; vm_compute; discriminate.
  - left.
  - apply (bool_decide_unpack _). vm_compute. exact I.
Defined.
