(* ===== verification/Scheduling.v ===== *)
(** * Agent scheduling

    [vllm/tokencake/scheduling.py]: the score of a request, the history of an agent
    type, the partition of the blocks between agent types, and the controller that
    decides on admission, growth, order and preemption over the KV cache manager.

    The readings of the clocks are arguments ([now] for [time.time()], [t1], [t2], ...
    for successive [time.monotonic()]).  [log1p] is the function of the C library,
    and [set_iter] the order in which Python iterates over a set of strings; both are
    parameters.  The controller holds the manager and the counters, which its methods
    change in place. *)

From S2P Require Import Prelude PyFloat Metrics Protocol Request BlockHash FreeQueue BlockPool SingleType KVManager.

Definition ADJUSTMENT_WINDOW : Z := 500.
Definition HISTORY_LIMIT : Z := 4096.
Definition PREEMPTION_SCORE_BAND : Z := 3000.

Section scores.
Context {F : Type} `{PyFloat F}.

(** [x + n] for a float and an integer. *)
Definition add_int (x : F) (n : Z) : res F := y ← fint n; Ok (x +@ y).

Definition request_score (md : TokenCakeMetadata F) (arrival_time now : F) : res Z :=
  let depth := md_depth md in
  let max_depth := Z.max (Z.max depth (md_application_max_depth md)) 1 in
  let remaining := md_remaining_depth md in
  ratio ← fdivZ remaining max_depth;
  let remaining_ratio := pymin (flt 1) ratio in
  done_ratio ← fdivZ depth max_depth;
  let progress := pymin (flt 1) done_ratio in
  let elapsed :=
    if flt 0 <@ md_application_started_at_s md
    then pymax (md_application_elapsed_s md) (now -@ md_application_started_at_s md) else md_application_elapsed_s md in
  let wait := pymax (flt 0) (now -@ arrival_time) in
  let similarity := md_similarity md in
  parallel_width ← (if (flt 0 <@ similarity) && (similarity <@ flt 1) then pydiv (flt 1) similarity else Ok (flt 1));
  let age := pymin elapsed (flt 300) *@ (flt 1 +@ lit 3 4 *@ remaining_ratio) in
  let queue := pymin wait (flt 180) *@ (flt 1 +@ lit 1 2 *@ remaining_ratio) in
  let completion := pymin elapsed (flt 240) *@ progress in
  x ← add_int (flt 100 *@ md_importance md) (15 * depth);
  x ← add_int x (45 * md_out_degree md);
  x ← add_int x (10 * md_in_degree md);
  x ← add_int (x +@ flt 20 *@ similarity) (20 * remaining);
  let x := x +@ flt 120 *@ (parallel_width -@ flt 1) +@ flt 6 *@ pymin (md_application_start_offset_s md) (flt 60)
             +@ flt 5 *@ age +@ flt 8 *@ queue +@ flt 5 *@ completion in
  x ← add_int x (180 * Z.b2z (md_critical_path md));
  x ← add_int x (90 * Z.b2z (md_near_completion md));
  x ← add_int x (20 * Z.b2z (negb (bool_decide (md_join_group md = EmptyString))));
  x ← add_int x (4 * (if md_dependency_depth md =? 0 then depth else md_dependency_depth md));
  x ← add_int x (12 * Z.max (md_fanout_width md - 1) 0);
  ftrunc (x -@ flt 8 *@ pymax (md_memory_weight md -@ flt 1) (flt 0)).

Record AgentHistory := mkHistory {
  ah_importance : F;
  ah_deferrals : Z;
  ah_preemptions : Z;
  ah_samples : Z;
  ah_input_tokens : Z;
  ah_output_tokens : Z;
  ah_completed : Z;
  ah_duration : F;
  ah_depth : Z;
  ah_out_degree : Z;
  ah_in_degree : Z;
  ah_elapsed : F;
  ah_remaining : Z;
}.
#[global] Instance AgentHistory_settable : Settable AgentHistory := mk_settable _
  (fun a => mkHistory (ah_importance a) (ah_deferrals a) (ah_preemptions a) (ah_samples a) (ah_input_tokens a)
     (ah_output_tokens a) (ah_completed a) (ah_duration a) (ah_depth a) (ah_out_degree a) (ah_in_degree a) (ah_elapsed a)
     (ah_remaining a)).
Definition new_history : AgentHistory := mkHistory (flt 0) 0 0 0 0 0 0 (flt 0) 0 0 0 (flt 0) 0.

(** [c * n / d] for a float literal and two integers. *)
Definition scaled (c : F) (n d : Z) : res F := n ← fint n; d ← fint d; pydiv (c *@ n) d.

Context (log1p : F → res F).
Definition log1p_int (n : Z) : res F := x ← fint n; log1p x.

Definition history_score (a : AgentHistory) (importance : F) (waiting : Z) (average_wait : F) : res F :=
  u1 ← log1p average_wait;
  u2 ← log1p_int waiting;
  u3 ← log1p_int (ah_deferrals a);
  u4 ← log1p_int (ah_preemptions a);
  let urgency := u1 +@ u2 +@ u3 +@ lit 3 2 *@ u4 in
  tokens ← fdivZ (ah_input_tokens a + ah_output_tokens a) (Z.max 1 (ah_samples a));
  completed ← fint (Z.max 1 (ah_completed a));
  duration ← pydiv (ah_duration a) completed;
  cost ← log1p tokens;
  cost ← (if (flt 0 <@ duration) && (flt 0 <@ tokens) then
            d ← log1p duration;
            rate ← pydiv tokens duration;
            r ← log1p rate;
            Ok (cost +@ (d +@ r))
          else Ok cost);
  let count := Z.max 1 (ah_samples a) in
  g1 ← scaled (lit 7 10) (ah_depth a) count;
  g2 ← scaled (lit 1 2) (ah_out_degree a) count;
  g3 ← scaled (lit 1 4) (ah_in_degree a) count;
  g4 ← scaled (lit 1 5) (ah_remaining a) count;
  c ← fint count;
  e ← pydiv (ah_elapsed a) c;
  let graph := g1 +@ g2 +@ g3 +@ g4 +@ lit 1 10 *@ pymin e (flt 180) in
  Ok (pymax (flt 1) (flt 2 *@ importance +@ urgency +@ lit 1 2 *@ cost +@ graph)).

(** ** The partition of the blocks *)

Record CapacityPlan := mkPlan {
  pl_critical : gset string;
  pl_scores : gmap string F;
  pl_reserved : list (string * Z);
  pl_shared : Z;
}.
Definition empty_plan : CapacityPlan := mkPlan ∅ ∅ [] 0.

Context (set_iter : gset string → list string).

Definition key_error {A} (o : option A) : res A := or_raise KeyError o.

(** Keys in descending order of [(scores[k], importance[k], k)]. *)
Definition ranked (scores importance : gmap string F) (keys : list string) : res (list (F * F * string)) :=
  rows ← mapM (fun k => s ← key_error (scores !! k); i ← key_error (importance !! k); Ok (s, i, k)) keys;
  Ok (py_sorted (fun '(s, i, k) '(s', i', k') => lex (feqb s' s) (s' <@ s) (lex (feqb i' i) (i' <@ i) (String.ltb k' k))) rows).

(** [sum] of floats, added from left to right as CPython does up to 3.11; from 3.12 on it
    also carries a compensation term, which changes the last bits of the quotas only and
    which no theorem depends on. *)
Definition sum_floats (l : list F) : F := foldl (fun acc x => acc +@ x) (flt 0) l.

Definition weight_of (scores : gmap string F) (used : gmap string Z) (score_sum : F) (used_sum : Z) (key : string) : res F :=
  s ← key_error (scores !! key);
  score_share ← pydiv s score_sum;
  memory_share ← (if used_sum =? 0 then Ok (flt 0) else fdivZ (default 0 (used !! key)) used_sum);
  half ← pydiv (memory_share +@ score_share) (flt 2);
  Ok (pymax (pymax score_share half) (lit 1 1000000)).

(** The largest remainders get one more. *)
Definition hand_out (remainder : Z) (rows : list (string * F * Z)) : res (list (string * Z)) :=
  fractions ← mapM (fun '(k, x, n) => y ← fint n; Ok (x -@ y, k)) rows;
  let order := py_sorted (fun '(x, k) '(x', k') => lex (feqb x' x) (x' <@ x) (String.ltb k' k)) fractions in
  let extra := (py_slice order 0 remainder).*2 in
  Ok ((fun '(k, _, n) => (k, n + Z.b2z (bool_decide (k ∈ extra)))) <$> rows).

Definition partition_capacity (scores importance : gmap string F) (used : gmap string Z) (total : Z)
    (reserve_ratio critical_ratio : F) : res CapacityPlan :=
  ordered ← ranked scores importance (map_to_list scores).*1;
  n ← fint (lenZ ordered);
  top ← ftrunc (n *@ critical_ratio);
  let critical : gset string := list_to_set (py_slice ordered 0 (Z.max 1 top)).*2 in
  reserved ← (if bool_decide (critical = ∅) then Ok 0 else t ← fint total; ftrunc (t *@ reserve_ratio));
  critical_scores ← mapM (fun k => key_error (scores !! k)) (set_iter critical);
  let score_sum := sum_floats critical_scores in
  let used_sum := sum_map id used in
  let keys := py_sorted String.ltb (elements critical) in
  weights ← mapM (weight_of scores used score_sum used_sum) keys;
  let weight_sum := sum_floats weights in
  r ← fint reserved;
  rows ← mapM (fun '(k, w) => x ← pydiv (r *@ w) weight_sum; n ← ftrunc x; Ok (k, x, n)) (zip keys weights);
  counts ← hand_out (reserved - sumZ (fun row => row.2) rows) rows;
  Ok (mkPlan critical scores counts (total - reserved)).

End scores.
Arguments AgentHistory F : clear implicits.
Arguments CapacityPlan F : clear implicits.

(** ** The controller *)

Record SchedulingController {F : Type} := mkController {
  ct_settings : SchedulingConfig F;
  ct_manager : KVCacheManager;
  ct_metrics : TokenCakeMetrics;
  ct_num_lookahead_tokens : Z;
  ct_cache_capacity_precheck : bool;
  ct_progress_reservation : bool;
  ct_reclaim_reservation : bool;
  ct_metadata : gmap string (TokenCakeMetadata F);
  ct_scores : gmap string Z;
  ct_agent_scores : gmap string Z;
  ct_history : list (string * AgentHistory F);
  ct_started : gmap string F;
  (** one charge per occupied block; [None] for shared capacity *)
  ct_charges : gmap Z (option string);
  ct_used : gmap (option string) Z;
  ct_plan : CapacityPlan F;
  ct_reserve_ratio : F;
  ct_step : Z;
  ct_waiting_critical : gset string;
  ct_waiting_scores : gmap string Z;
  ct_shared_available : Z;
  ct_reserved_available : list (string * Z);
  ct_accounting_active : bool;
  ct_executed_ranges : gmap string (list (Z * Z));
  ct_admitted : gmap string Z;
  ct_growth_commitments : gmap string Z;
  ct_prefill_limits : gmap string Z;
  ct_prefill_growth : gmap string Z;
  ct_growth_wait_started : gmap string F;
  ct_reclaim_beneficiaries : gset string;
  ct_retry_capacity : gmap string (Z * Z);
  ct_queued_at : gmap string F;
  ct_completion_epoch : Z;
  ct_reservation_deferred : gset string;
  ct_cache_preferred : gset string;
  ct_priority_borrowed : gset string;
}.
Arguments SchedulingController F : clear implicits.
#[global] Instance Controller_settable F : Settable (SchedulingController F) := mk_settable _
  (fun c => mkController F (ct_settings c) (ct_manager c) (ct_metrics c) (ct_num_lookahead_tokens c)
     (ct_cache_capacity_precheck c) (ct_progress_reservation c) (ct_reclaim_reservation c) (ct_metadata c) (ct_scores c)
     (ct_agent_scores c) (ct_history c) (ct_started c) (ct_charges c) (ct_used c) (ct_plan c) (ct_reserve_ratio c)
     (ct_step c) (ct_waiting_critical c) (ct_waiting_scores c) (ct_shared_available c) (ct_reserved_available c)
     (ct_accounting_active c) (ct_executed_ranges c) (ct_admitted c) (ct_growth_commitments c) (ct_prefill_limits c)
     (ct_prefill_growth c) (ct_growth_wait_started c) (ct_reclaim_beneficiaries c) (ct_retry_capacity c) (ct_queued_at c)
     (ct_completion_epoch c) (ct_reservation_deferred c) (ct_cache_preferred c) (ct_priority_borrowed c)).

(** The queues a candidate comes from. *)
Inductive queue_id := WaitingQueue | SkippedQueue.

Section controller.
Context {F E : Type} `{PyFloat F}.
Context (log1p : F → res F) (set_iter : gset string → list string).
Notation controller := (SchedulingController F).
Notation sched := (st controller).
Notation req := (Request F E).

Definition plain_full (s : KVCacheSpec) : bool := match spec_type_of s with FullAttentionSpec FullPlain => true | _ => false end.

Definition controller_init (settings : SchedulingConfig F) (manager : KVCacheManager) (metrics : TokenCakeMetrics)
    (num_lookahead_tokens : Z) : controller :=
  let precheck := (num_lookahead_tokens =? 0) &&
    forallb (fun g => plain_full (grp_spec g)) (kvc_groups (kc_config (km_coordinator manager))) in
  let selective := sc_reserve_generation_tokens settings && precheck in
  mkController F settings manager metrics (if sc_reserve_generation_tokens settings then num_lookahead_tokens else 0) precheck
    (selective && bool_decide (sc_generation_reserve_mode settings = ReserveProgress))
    (selective && bool_decide (sc_generation_reserve_mode settings = ReserveReclaim))
    ∅ ∅ ∅ [] ∅ ∅ ∅ empty_plan (sc_reserve_ratio_min settings) 0 ∅ ∅ 0 [] false ∅ ∅ ∅ ∅ ∅ ∅ ∅ ∅ ∅ 0 ∅ ∅ ∅.

Definition metric (m : Metric) (n : Z) : sched unit := fun c =>
  match metrics_count m n (ct_metrics c) with Ok t => Ok (c <| ct_metrics := t |>, tt) | Err e => Err e end.
Definition on_metrics (f : TokenCakeMetrics → res TokenCakeMetrics) : sched unit := fun c =>
  match f (ct_metrics c) with Ok t => Ok (c <| ct_metrics := t |>, tt) | Err e => Err e end.
Definition on_manager {A} (m : kvm A) : sched A := fun c =>
  match m (ct_manager c) with Ok (k, a) => Ok (c <| ct_manager := k |>, a) | Err e => Err e end.

Definition associate (request_id : string) (md : TokenCakeMetadata F) (t1 : F) : sched unit :=
  st_modify (fun c => c <| ct_metadata ::= insert request_id md |> <| ct_queued_at ::= insert request_id t1 |>).

(** [_history(key)], followed by an update of the entry. *)
Definition with_history (key : string) (f : AgentHistory F → AgentHistory F) : sched unit :=
  st_modify (fun c =>
    let d := if od_has key (ct_history c) then ct_history c else ct_history c ++ [(key, new_history)] in
    let d := od_move_to_end key d in
    c <| ct_history := od_alter f key (drop (length d - Z.to_nat HISTORY_LIMIT) d) |>).

(** The blocks of a request that are not null. *)
Definition block_is_null (p : BlockPool) (b : Z) : bool :=
  match fq_blocks (bp_queue p) !! b with Some blk => kb_is_null blk | None => false end.
Definition real_blocks (p : BlockPool) (groups : list (list Z)) : gset Z :=
  list_to_set (filter (fun b => block_is_null p b = false) (concat groups)).
Definition block_ids (c : controller) (r : req) : gset Z :=
  real_blocks (km_pool (ct_manager c)) (km_get_block_ids (ct_manager c) (rq_request_id r)).

(** [pool.blocks[b].ref_cnt] *)
Definition block_refs (p : BlockPool) (b : Z) : res Z :=
  if (0 <=? b) && (b <? bp_num_gpu_blocks p) then or_raise IndexError (kb_ref_cnt <$> fq_blocks (bp_queue p) !! b)
  else Err IndexError.

Definition free_blocks_of (c : controller) : Z := get_num_free_blocks (km_pool (ct_manager c)).

(** *** Demand *)

Definition admission_tokens (c : controller) (r : req) : Z :=
  let full_tokens := num_tokens r in
  let full_tokens := if sc_reserve_generation_tokens (ct_settings c)
                     then Z.max full_tokens (rq_num_prompt_tokens r + rq_max_tokens r) else full_tokens in
  Z.min full_tokens (km_max_model_len (ct_manager c)).

Definition generation_headroom (c : controller) : Z :=
  match (fun '(rid, growth) => Z.max 0 (growth - default 0 (ct_prefill_growth c !! rid))) <$> map_to_list (ct_growth_commitments c) with
  | [] => 0
  | x :: l => foldl Z.min x l
  end.

Definition uncommitted_blocks (c : controller) : res Z :=
  committed ←
    (if ct_progress_reservation c then Ok (sum_map id (ct_prefill_growth c) + generation_headroom c)
     else if ct_reclaim_reservation c then
       extra ← mapM (fun key =>
         g ← key_error (ct_growth_commitments c !! key);
         p ← key_error (ct_prefill_growth c !! key);
         Ok (Z.max 0 (g - p)))
         (filter (fun key => is_Some (ct_growth_commitments c !! key)) (elements (ct_reclaim_beneficiaries c)));
       Ok (sum_map id (ct_prefill_growth c) + sumZ id extra)
     else Ok (sum_map id (ct_growth_commitments c)));
  Ok (free_blocks_of c - committed).

(** [coordinator.get_num_blocks_to_allocate] *)
Definition num_blocks_to_allocate (rid : string) (tokens : Z) (blocks : KVCacheBlocks) (encoder computed main : Z) (cap : bool) : sched Z :=
  c ← st_get;
  on_manager (on_coordinator (kc_get_num_blocks_to_allocate rid tokens (blocks_of (ct_manager c) blocks) encoder computed main cap)).

Definition remaining_growth (r : req) (input_only : bool) : sched Z :=
  c ← st_get;
  let max_len := km_max_model_len (ct_manager c) in
  let full_tokens := if input_only then Z.min (default (num_tokens r) (ct_prefill_limits c !! rq_request_id r)) max_len
                     else admission_tokens c r in
  if full_tokens <=? rq_num_computed_tokens r then mret 0
  else num_blocks_to_allocate (rq_request_id r) (Z.min (full_tokens + ct_num_lookahead_tokens c) max_len) EmptyBlocks
         (default 0 (ct_admitted c !! rq_request_id r)) (rq_num_computed_tokens r) full_tokens true.

Definition admission_demand (r : req) (computed : Z) (blocks : KVCacheBlocks) (num_encoder_tokens : Z) : sched Z :=
  c ← st_get;
  let max_len := km_max_model_len (ct_manager c) in
  let required tokens := num_blocks_to_allocate (rq_request_id r) (Z.min (tokens + ct_num_lookahead_tokens c) max_len) blocks
                           num_encoder_tokens computed tokens true in
  if ct_reclaim_reservation c then required (Z.min (num_tokens r) max_len)
  else
    full ← required (admission_tokens c r);
    if negb (ct_progress_reservation c) then mret full
    else
      inputs ← required (Z.min (num_tokens r) max_len);
      c ← st_get;
      let headroom := Z.max 0 (full - inputs) in
      let headroom := if bool_decide (ct_growth_commitments c = ∅) then headroom
                      else Z.min (generation_headroom c) headroom - generation_headroom c in
      mret (Z.max 0 (inputs + headroom)).

(** *** Availability *)

(** The reservations cut back by [excess], in the order of [keys]. *)
Definition cut_step (acc : Z * list (string * Z)) (key : string) : Z * list (string * Z) :=
  let '(excess, d) := acc in
  let reduction := Z.min excess (default 0 (od_get key d)) in
  (excess - reduction, od_alter (fun n => n - reduction) key d).
Definition cut_back (excess : Z) (keys : list string) (available : list (string * Z)) : list (string * Z) :=
  (foldl cut_step (excess, available) keys).2.

Definition update_available : sched unit :=
  c ← st_get;
  let used o := default 0 (ct_used c !! o) in
  let shared := Z.max 0 (pl_shared (ct_plan c) - used None) in
  let reserved := (fun '(key, count) => (key, Z.max 0 (count - used (Some key)))) <$> pl_reserved (ct_plan c) in
  uncommitted ← st_lift (uncommitted_blocks c);
  let excess := Z.max 0 (shared + sumZ snd reserved - Z.max 0 uncommitted) in
  let reduction := Z.min excess shared in
  rows ← st_lift (mapM (fun key => s ← key_error (pl_scores (ct_plan c) !! key); Ok (s, key)) reserved.*1);
  let order := (py_sorted (fun a b => a.1 <@ b.1) rows).*2 in
  st_modify (fun c => c <| ct_shared_available := shared - reduction |>
                        <| ct_reserved_available := cut_back (excess - reduction) order reserved |>).

(** [Counter(self.charges.values())] *)
Definition count_owners (charges : gmap Z (option string)) : gmap (option string) Z :=
  foldr (fun o acc => <[o := default 0 (acc !! o) + 1]> acc) ∅ (map_to_list charges).*2.

Definition release : sched unit :=
  c ← st_get;
  if negb (ct_accounting_active c) then mret tt
  else
    kept ← st_lift (mapM (fun '(b, o) => n ← block_refs (km_pool (ct_manager c)) b; Ok (b, o, 0 <? n)) (map_to_list (ct_charges c)));
    let charges : gmap Z (option string) := list_to_map (filter (fun x => x.2 = true) kept).*1 in
    st_modify (fun c => c <| ct_charges := charges |> <| ct_used := count_owners charges |>);;
    update_available.

(** [_record_growth_wait] *)
Definition record_growth_wait (r : req) (allowed : bool) (t1 t2 : F) : sched bool :=
  c ← st_get;
  let rid := rq_request_id r in
  started ←
    (if allowed then
       st_modify (fun c => c <| ct_growth_wait_started ::= delete rid |>);; mret (ct_growth_wait_started c !! rid)
     else
       metric GENERATION_PROGRESS_DEFERRED 1;;
       let started := default t1 (ct_growth_wait_started c !! rid) in
       st_modify (fun c => c <| ct_growth_wait_started ::= insert rid started |>);; mret (Some started));
  (match started, ct_metadata c !! rid with
   | Some s, Some md =>
       st_when (md_critical_path md || bool_decide (md_agent_type md ∈ pl_critical (ct_plan c)))
         (on_metrics (growth_wait (pymax (flt 0) (t2 -@ s))))
   | _, _ => mret tt
   end);;
  mret allowed.

Definition can_grow (r : req) (num_new_tokens : Z) (t1 t2 : F) : sched bool :=
  c ← st_get;
  if negb (ct_progress_reservation c) then mret true
  else
    let rid := rq_request_id r in
    let main_tokens := rq_num_computed_tokens r + num_new_tokens in
    demand ← num_blocks_to_allocate rid main_tokens EmptyBlocks 0 (rq_num_computed_tokens r) main_tokens false;
    if demand =? 0 then record_growth_wait r true t1 t2
    else
      c ← st_get;
      available ← st_lift (uncommitted_blocks c);
      let commitments := map_to_list (ct_growth_commitments c) in
      allowed ←
        (if available <? 0 then
           beneficiary ← st_lift (py_min (fun '(k, g) '(k', g') =>
             let s := - default 0 (ct_scores c !! k) in
             let s' := - default 0 (ct_scores c !! k') in
             lex (g =? g') (g <? g') (lex (s =? s') (s <? s') (String.ltb k k'))) commitments);
           mret (bool_decide (rid = beneficiary.1))
         else
           let inputs := default 0 (ct_prefill_growth c !! rid) in
           let after key n := n - (if bool_decide (key = rid) then demand else 0) in
           rest ← st_lift (py_min Z.ltb ((fun '(key, growth) =>
             Z.max 0 (after key growth) - Z.max 0 (after key (default 0 (ct_prefill_growth c !! key)))) <$> commitments));
           let released := Z.min demand inputs + generation_headroom c - rest in
           mret (demand <=? available + released));
      record_growth_wait r allowed t1 t2.

(** *** The start of a step *)

Definition clear_step (c : controller) : controller :=
  c <| ct_reservation_deferred := ∅ |> <| ct_cache_preferred := ∅ |> <| ct_priority_borrowed := ∅ |> <| ct_waiting_scores := ∅ |>.
Definition clear_accounting (c : controller) : controller :=
  c <| ct_charges := ∅ |> <| ct_used := ∅ |> <| ct_scores := ∅ |> <| ct_agent_scores := ∅ |> <| ct_admitted := ∅ |>
    <| ct_growth_commitments := ∅ |> <| ct_prefill_limits := ∅ |> <| ct_prefill_growth := ∅ |> <| ct_growth_wait_started := ∅ |>
    <| ct_reclaim_beneficiaries := ∅ |> <| ct_retry_capacity := ∅ |> <| ct_accounting_active := false |>.

(** [d.setdefault(k, v)] *)
Definition setdefault {A} (k : string) (v : A) (d : gmap string A) : gmap string A :=
  match d !! k with Some _ => d | None => <[k := v]> d end.

Definition adopt_running (running : list req) (c : controller) : controller :=
  foldl (fun c r => c <| ct_admitted ::= setdefault (rq_request_id r) 0 |>
                      <| ct_prefill_limits ::= setdefault (rq_request_id r) (num_tokens r) |>) c running.

(** [{r.request_id: f(r) for r in requests if ...}] *)
Definition dict_of {A} (keep : req → bool) (f : req → sched A) (requests : list req) : sched (gmap string A) :=
  rows ← mapM (fun r => x ← f r; mret (rq_request_id r, x)) (filter (fun r => keep r = true) requests);
  mret (foldl (fun d '(k, x) => <[k := x]> d) ∅ rows).

(** The highest score of each join group, and the scores after inheritance. *)
Definition join_group_of (md : TokenCakeMetadata F) : option (F * string) :=
  if (flt 0 <@ md_application_started_at_s md) && negb (bool_decide (md_join_group md = EmptyString))
  then Some (md_application_started_at_s md, md_join_group md) else None.
Definition same_group (a b : F * string) : bool := feqb a.1 b.1 && bool_decide (a.2 = b.2).
Definition inherit_scores (metadata : gmap string (TokenCakeMetadata F)) (agent_scores : gmap string Z) : res (gmap string Z) :=
  members ← mapM (fun '(rid, score) => md ← key_error (metadata !! rid); Ok (rid, score, join_group_of md)) (map_to_list agent_scores);
  let highest g := foldr (fun '(_, score, g') acc =>
    match g' with Some g' => if same_group g g' then Z.max score acc else acc | None => acc end) in
  Ok (foldl (fun d '(rid, score, g) =>
        match g with Some g => <[rid := highest g score members]> d | None => d end) agent_scores members).

Record waiting_stats := mkWaiting { ws_counts : gmap string Z; ws_scores : gmap string Z; ws_time : gmap string F }.
Definition waiting_of (c : controller) (now : F) (waiting : list req) : res waiting_stats :=
  foldM (fun w r =>
    match ct_metadata c !! rq_request_id r with
    | Some md =>
        let key := md_agent_type md in
        if bool_decide (key = EmptyString) then Ok w
        else
          score ← key_error (ct_scores c !! rq_request_id r);
          Ok (mkWaiting (<[key := default 0 (ws_counts w !! key) + 1]> (ws_counts w))
                (<[key := Z.max (default score (ws_scores w !! key)) score]> (ws_scores w))
                (<[key := default (flt 0) (ws_time w !! key) +@ pymax (flt 0) (now -@ rq_arrival_time r)]> (ws_time w)))
    | None => Ok w
    end) (mkWaiting ∅ (ct_waiting_scores c) ∅) waiting.

(** The agent types with their importance and blocks in use. *)
Definition agent_types (c : controller) (requests : list req) : gmap string F * gmap string Z :=
  foldl (fun '(importance, used) r =>
    match ct_metadata c !! rq_request_id r with
    | Some md =>
        let key := md_agent_type md in
        if bool_decide (key = EmptyString) then (importance, used)
        else (<[key := pymax (default (flt 0) (importance !! key)) (md_importance md)]> importance,
              <[key := default 0 (used !! key) + Z.of_nat (size (block_ids c r))]> used)
    | None => (importance, used)
    end) (list_to_map (prod_map id ah_importance <$> ct_history c), ∅) requests.

(** A new plan, with the reserve ratio moved towards the load. *)
Definition replan (w : waiting_stats) (requests : list req) : sched unit :=
  c ← st_get;
  let '(importance, used) := agent_types c requests in
  rows ← st_lift (mapM (fun '(key, value) =>
    let n := default 0 (ws_counts w !! key) in
    d ← fint (Z.max 1 n);
    average ← pydiv (default (flt 0) (ws_time w !! key)) d;
    s ← history_score log1p (default new_history (od_get key (ct_history c))) value n average;
    Ok (key, s)) (map_to_list importance));
  let set := ct_settings c in
  let load : F := usage (ct_manager c) in
  let ratio := if sc_gpu_usage_high set <=@ load then ct_reserve_ratio c +@ sc_reserve_adjustment_step set
               else if load <=@ sc_gpu_usage_low set then ct_reserve_ratio c -@ sc_reserve_adjustment_step set
               else ct_reserve_ratio c in
  let ratio := pymin (sc_reserve_ratio_max set) (pymax (sc_reserve_ratio_min set) ratio) in
  plan ← st_lift (partition_capacity set_iter (list_to_map rows) importance used
                    (bp_num_gpu_blocks (km_pool (ct_manager c)) - 1) ratio (sc_critical_ratio set));
  st_modify (fun c => c <| ct_reserve_ratio := ratio |> <| ct_plan := plan |>).

Definition begin_step (waiting running : list req) (now : F) : sched bool :=
  st_modify clear_step;;
  c ← st_get;
  if bool_decide (ct_metadata c = ∅) then st_modify clear_accounting;; mret false
  else
    let requests := waiting ++ running in
    st_modify (adopt_running running);;
    c ← st_get;
    let admitted r := bool_decide (is_Some (ct_admitted c !! rq_request_id r)) in
    growth ← dict_of admitted (fun r => remaining_growth r false) requests;
    st_modify (fun c => c <| ct_growth_commitments := growth |>);;
    st_when (ct_progress_reservation c || ct_reclaim_reservation c)
      (inputs ← dict_of admitted (fun r => remaining_growth r true) requests;
       st_modify (fun c => c <| ct_prefill_growth := inputs |>));;
    scores ← dict_of (fun r => bool_decide (is_Some (ct_metadata c !! rq_request_id r)))
               (fun r => md ← st_lift (key_error (ct_metadata c !! rq_request_id r));
                         st_lift (request_score md (rq_arrival_time r) now)) requests;
    st_modify (fun c => c <| ct_agent_scores := scores |> <| ct_scores := scores |>);;
    st_when (sc_inherit_join_priority (ct_settings c))
      (inherited ← st_lift (inherit_scores (ct_metadata c) scores); st_modify (fun c => c <| ct_scores := inherited |>));;
    st_modify (fun c => c <| ct_step ::= Z.succ |>);;
    st_when (negb (ct_accounting_active c))
      (st_modify (fun c => c <| ct_charges ::= fun d =>
         foldl (fun d r => foldr (fun b d => match d !! b with Some _ => d | None => <[b := None]> d end) d (elements (block_ids c r)))
           d requests |> <| ct_accounting_active := true |>));;
    c ← st_get;
    w ← st_lift (waiting_of c now waiting);
    st_modify (fun c => c <| ct_waiting_scores := ws_scores w |>);;
    st_when (bool_decide (pl_scores (ct_plan c) = ∅) || (ct_step c mod ADJUSTMENT_WINDOW =? 0)) (replan w requests);;
    st_modify (fun c => c <| ct_waiting_critical := pl_critical (ct_plan c) ∩ dom (ws_counts w) |>);;
    release;;
    mret true.

(** *** Admission *)

Definition prepare_running (r : req) : sched unit :=
  c ← st_get;
  let free := free_blocks_of c in
  on_manager (km_remove_skipped_blocks (rq_request_id r) (rq_num_computed_tokens r));;
  c ← st_get;
  st_when (negb (free =? free_blocks_of c)) release.

Definition prefill_budget (c : controller) (running : list req) (native_budget : Z) : Z :=
  let limit := sc_decode_prefill_token_budget (ct_settings c) in
  if negb (limit =? 0) && existsb (fun r => rq_num_prompt_tokens r <=? rq_num_computed_tokens r) running
  then Z.min native_budget limit else native_budget.

Definition cap_prefill (tokens budget : Z) : sched Z :=
  if budget <? tokens then metric PREFILL_CAPPED 1;; mret budget else mret tokens.

(** Whether the reservation of [owner] may be borrowed from. *)
Definition may_borrow (c : controller) (rid : string) (borrow_reserved : bool) (owner : string) : bool :=
  if negb borrow_reserved && bool_decide (owner ∈ ct_waiting_critical c) then
    let margin := sc_priority_borrow_score_margin (ct_settings c) in
    match ct_waiting_scores c !! owner, ct_scores c !! rid with
    | Some owner_score, Some score => negb (margin =? 0) && (margin <=? score - owner_score)
    | _, _ => false
    end
  else true.

(** The loop over the donors, from [remaining] > 0. *)
Fixpoint borrow (c : controller) (rid : string) (borrow_reserved : bool) (donors : list (string * Z)) (remaining : Z)
    (usage : list (option string * Z)) : option (list (option string * Z)) :=
  match donors with
  | [] => None
  | (owner, available) :: donors =>
      if may_borrow c rid borrow_reserved owner then
        let borrowed := Z.min remaining available in
        let usage := usage ++ [(Some owner, borrowed)] in
        if remaining - borrowed =? 0 then Some usage else borrow c rid borrow_reserved donors (remaining - borrowed) usage
      else borrow c rid borrow_reserved donors remaining usage
  end.

(** [_consumption]: which capacity the blocks are charged to; [None] when it is short. *)
Definition consumption (c : controller) (r : req) (demand : Z) (borrow_reserved : bool) : res (option (list (option string * Z))) :=
  let rid := rq_request_id r in
  let shared := Z.min demand (ct_shared_available c) in
  let usage := [(None, shared)] in
  let remaining := demand - shared in
  if remaining =? 0 then Ok (Some usage)
  else
    match ct_metadata c !! rid with
    | None => Ok None
    | Some md =>
        let key := md_agent_type md in
        let critical := bool_decide (key ∈ pl_critical (ct_plan c)) in
        let own := if critical then Z.min remaining (default 0 (od_get key (ct_reserved_available c))) else 0 in
        let usage := if critical then usage ++ [(Some key, own)] else usage in
        let remaining := remaining - own in
        if critical && (remaining =? 0) then Ok (Some usage)
        else
          rows ← mapM (fun '(k, n) => s ← key_error (pl_scores (ct_plan c) !! k); Ok (n, s, k))
                   (filter (fun kn => kn.1 ≠ key) (ct_reserved_available c));
          let donors := py_sorted (fun '(n, s, _) '(n', s', _) => lex (n' =? n) (n' <? n) (s' <@ s)) rows in
          Ok (borrow c rid borrow_reserved ((fun '(n, _, k) => (k, n)) <$> donors) remaining usage)
    end.

Definition capacity_denied (c : controller) : Metric :=
  if sc_reserve_generation_tokens (ct_settings c) then GENERATION_CAPACITY_DENIED else PREFILL_CAPACITY_DENIED.

Definition defer_cache_lookup (r : req) (computed : Z) (blocks : KVCacheBlocks) : sched bool :=
  c ← st_get;
  let rid := rq_request_id r in
  if negb (ct_cache_capacity_precheck c) || bool_decide (ct_metadata c !! rid = None) ||
     bool_decide (is_Some (ct_admitted c !! rid)) || has_encoder_inputs r
  then mret false
  else
    demand ← admission_demand r computed blocks 0;
    c ← st_get;
    available ← st_lift (uncommitted_blocks c);
    if demand <=? available then mret false else metric (capacity_denied c) 1;; mret true.

Definition can_allocate (r : req) (num_new_tokens num_new_computed_tokens : Z) (new_computed_blocks : option KVCacheBlocks)
    (num_lookahead_tokens num_external_computed_tokens num_encoder_tokens : Z) (borrow_reserved : bool) : sched bool :=
  c ← st_get;
  let rid := rq_request_id r in
  if bool_decide (is_Some (ct_admitted c !! rid)) then mret true
  else
    let max_len := km_max_model_len (ct_manager c) in
    let computed := rq_num_computed_tokens r + num_new_computed_tokens + num_external_computed_tokens in
    let main_tokens := Z.min computed max_len + num_new_tokens in
    let blocks := default EmptyBlocks new_computed_blocks in
    on_manager (km_remove_skipped_blocks rid computed);;
    c' ← st_get;
    st_when (negb (free_blocks_of c =? free_blocks_of c')) release;;
    native ← num_blocks_to_allocate rid (Z.min (main_tokens + num_lookahead_tokens) max_len) blocks num_encoder_tokens computed
               main_tokens false;
    full ← admission_demand r computed blocks num_encoder_tokens;
    let demand := Z.max native full in
    c ← st_get;
    available ← st_lift (uncommitted_blocks c);
    if available <? demand then metric (capacity_denied c) 1;; mret false
    else if match ct_retry_capacity c !! rid with
            | Some (capacity, epoch) =>
                negb (bool_decide (ct_admitted c = ∅)) && (epoch =? ct_completion_epoch c) && (available <=? capacity)
            | None => false
            end
    then metric RESUME_DEFERRED 1;; mret false
    else
      usage ← st_lift (consumption c r demand borrow_reserved);
      match usage with
      | None =>
          metric RESERVATION_DENIED 1;;
          st_when (bool_decide (is_Some (ct_metadata c !! rid)))
            (st_modify (fun c => c <| ct_reservation_deferred ::= union {[rid]} |>));;
          mret false
      | Some usage =>
          st_when (negb borrow_reserved &&
              match ct_metadata c !! rid with
              | Some md => existsb (fun '(owner, count) =>
                  match owner with
                  | Some o => negb (count =? 0) && bool_decide (o ∈ ct_waiting_critical c) && negb (bool_decide (o = md_agent_type md))
                  | None => false
                  end) usage
              | None => false
              end)
            (st_modify (fun c => c <| ct_priority_borrowed ::= union {[rid]} |>));;
          mret true
      end.

(** The blocks charged to the owners of [usage], in order. *)
Fixpoint charge (usage : list (option string * Z)) (ids : list Z) : sched unit :=
  match usage with
  | [] => mret tt
  | (owner, count) :: usage =>
      st_modify (fun c => c <| ct_charges ::= fun d => foldl (fun d b => <[b := owner]> d) d (py_slice ids 0 count) |>
                            <| ct_used ::= fun u => <[owner := default 0 (u !! owner) + count]> u |>);;
      (match owner with
       | None => st_modify (fun c => c <| ct_shared_available ::= fun n => Z.max 0 (n - count) |>)
       | Some o =>
           c ← st_get;
           if od_has o (ct_reserved_available c)
           then st_modify (fun c => c <| ct_reserved_available ::= od_alter (fun n => n - count) o |>) else st_raise KeyError
       end);;
      charge usage (py_slice ids count (lenZ ids))
  end.

(** What [commit] records of a request with metadata. *)
Definition record_admission (r : req) (md : TokenCakeMetadata F) (t1 t2 : F) : sched unit :=
  c ← st_get;
  let rid := rq_request_id r in
  st_modify (fun c => c <| ct_queued_at ::= delete rid |>);;
  (match ct_queued_at c !! rid with
   | Some queued_at =>
       st_when (bool_decide (rid ∈ ct_priority_borrowed c))
         (metric PRIORITY_BORROW_ADMITTED 1;; st_modify (fun c => c <| ct_priority_borrowed ::= fun s => s ∖ {[rid]} |>));;
       st_when (default 0 (ct_agent_scores c !! rid) <? default 0 (ct_scores c !! rid)) (metric JOIN_PRIORITY_ADMITTED 1);;
       on_metrics (admission_wait (pymax (flt 0) (t1 -@ queued_at))
                     (md_critical_path md || bool_decide (md_agent_type md ∈ pl_critical (ct_plan c))))
   | None => mret tt
   end);;
  st_when (negb (bool_decide (md_agent_type md = EmptyString)))
    (with_history (md_agent_type md) (fun h =>
       let h := h <| ah_deferrals ::= fun n => Z.max 0 (n - 1) |> <| ah_importance := md_importance md |> in
       if bool_decide (is_Some (ct_started c !! rid)) then h
       else h <| ah_samples ::= Z.succ |> <| ah_input_tokens ::= Z.add (rq_num_prompt_tokens r) |>
              <| ah_depth ::= Z.add (md_depth md) |> <| ah_out_degree ::= Z.add (md_out_degree md) |>
              <| ah_in_degree ::= Z.add (md_in_degree md) |> <| ah_elapsed ::= fun x => x +@ md_application_elapsed_s md |>
              <| ah_remaining ::= Z.add (md_remaining_depth md) |>));;
  st_modify (fun c => c <| ct_started ::= setdefault rid t2 |>).

(** The blocks [commit] charges: those not charged yet. *)
Definition uncharged (c : controller) (r : req) (running : bool) (new_blocks : option KVCacheBlocks) : list Z :=
  let ids := match running, new_blocks with
             | true, Some blocks => real_blocks (km_pool (ct_manager c)) (blocks_of (ct_manager c) blocks)
             | _, _ => block_ids c r
             end in
  py_sorted Z.ltb (elements (ids ∖ dom (ct_charges c))).

Definition commit (r : req) (running : bool) (num_encoder_tokens : Z) (new_blocks : option KVCacheBlocks)
    (borrow_reserved : bool) (t1 t2 : F) : sched unit :=
  c ← st_get;
  let rid := rq_request_id r in
  let ids := uncharged c r running new_blocks in
  usage ← st_lift (consumption c r (lenZ ids) borrow_reserved);
  let usage := match usage with
               | None => if running || bool_decide (is_Some (ct_admitted c !! rid)) then Some [(None, lenZ ids)] else None
               | Some usage => Some usage
               end in
  match usage with
  | None => st_raise AssertionError
  | Some usage =>
      charge usage ids;;
      st_modify (fun c => c <| ct_admitted ::= fun d => <[rid := Z.max (default 0 (d !! rid)) num_encoder_tokens]> d |>
                            <| ct_prefill_limits ::= setdefault rid (num_tokens r) |>);;
      growth ← remaining_growth r false;
      st_modify (fun c => c <| ct_growth_commitments ::= insert rid growth |>);;
      st_when (ct_progress_reservation c || ct_reclaim_reservation c)
        (inputs ← remaining_growth r true; st_modify (fun c => c <| ct_prefill_growth ::= insert rid inputs |>));;
      st_modify (fun c => c <| ct_retry_capacity ::= delete rid |> <| ct_reservation_deferred ::= fun s => s ∖ {[rid]} |>);;
      st_when (borrow_reserved && negb running) (metric WORK_CONSERVING_ADMITTED 1);;
      st_when (negb running && bool_decide (rid ∈ ct_cache_preferred c))
        (metric CACHE_AFFINITY_ADMITTED 1;; st_modify (fun c => c <| ct_cache_preferred ::= fun s => s ∖ {[rid]} |>));;
      update_available;;
      match ct_metadata c !! rid with
      | None => mret tt
      | Some md => record_admission r md t1 t2
      end
  end.

(** *** Deferral, preemption and completion *)

Definition agent_event (r : req) (f : AgentHistory F → AgentHistory F) : sched unit :=
  c ← st_get;
  match ct_metadata c !! rq_request_id r with
  | Some md => st_when (negb (bool_decide (md_agent_type md = EmptyString))) (with_history (md_agent_type md) f)
  | None => mret tt
  end.

Definition defer (r : req) : sched unit :=
  metric DEFERRED 1;; agent_event r (fun h => h <| ah_deferrals ::= Z.succ |>).

(** The entries of an admitted request, dropped when it is preempted or finishes. *)
Definition drop_admitted (rid : string) (c : controller) : controller :=
  c <| ct_admitted ::= delete rid |> <| ct_growth_commitments ::= delete rid |> <| ct_prefill_limits ::= delete rid |>
    <| ct_prefill_growth ::= delete rid |> <| ct_reclaim_beneficiaries ::= fun s => s ∖ {[rid]} |>.

Definition preempt (r : req) (physical : bool) (t1 t2 t3 : F) : sched unit :=
  let rid := rq_request_id r in
  record_growth_wait r true t1 t2;;
  st_modify (drop_admitted rid);;
  release;;
  metric Metrics.PREEMPTED 1;;
  st_when physical
    (metric PHYSICAL_PREEMPTED 1;;
     c ← st_get;
     available ← st_lift (uncommitted_blocks c);
     st_modify (fun c => c <| ct_retry_capacity ::= insert rid (available, ct_completion_epoch c) |>));;
  st_modify (fun c => c <| ct_queued_at ::= insert rid t3 |>);;
  agent_event r (fun h => h <| ah_preemptions ::= Z.succ |>).

Definition finish (r : req) (t1 t2 t3 : F) : sched unit :=
  let rid := rq_request_id r in
  record_growth_wait r true t1 t2;;
  c ← st_get;
  st_modify (drop_admitted rid);;
  st_modify (fun c => c <| ct_retry_capacity ::= delete rid |> <| ct_queued_at ::= delete rid |>);;
  st_when (bool_decide (is_Some (ct_admitted c !! rid))) (st_modify (fun c => c <| ct_completion_epoch ::= Z.succ |>));;
  st_modify (fun c => c <| ct_executed_ranges ::= delete rid |> <| ct_metadata ::= delete rid |> <| ct_started ::= delete rid |>
                        <| ct_scores ::= delete rid |> <| ct_agent_scores ::= delete rid |>);;
  match ct_metadata c !! rid, ct_started c !! rid with
  | Some md, Some started =>
      st_when (negb (bool_decide (md_agent_type md = EmptyString)))
        (with_history (md_agent_type md) (fun h =>
           h <| ah_importance := md_importance md |> <| ah_output_tokens ::= Z.add (num_output_tokens r) |>
             <| ah_completed ::= Z.succ |> <| ah_duration ::= fun x => x +@ pymax (flt 0) (t3 -@ started) |>))
  | _, _ => mret tt
  end.

Definition cache_hits (r : req) (gpu cpu : Z) (blocks : option KVCacheBlocks) : sched unit :=
  metric GPU_HIT_TOKENS gpu;;
  metric CPU_HIT_TOKENS cpu;;
  c ← st_get;
  (match blocks with
   | Some blocks =>
       let matched := elements (real_blocks (km_pool (ct_manager c)) (blocks_of (ct_manager c) blocks)) in
       refs ← st_lift (mapM (block_refs (km_pool (ct_manager c))) matched);
       let shared := lenZ (filter (fun n => 1 < n) refs) in
       metric GPU_SHARED_HIT_BLOCKS shared;;
       metric GPU_EXCLUSIVE_HIT_BLOCKS (lenZ matched - shared)
   | None => mret tt
   end);;
  st_when (negb (rq_num_preemptions r =? 0)) (metric RESUME_GPU_HIT_TOKENS gpu;; metric RESUME_CPU_HIT_TOKENS cpu).

(** *** Executed tokens *)

Definition range_ltb (a b : Z * Z) : bool := lex (a.1 =? b.1) (a.1 <? b.1) (a.2 <? b.2).
Definition overlap (start stop : Z) (ranges : list (Z * Z)) : Z :=
  sumZ (fun '(a, b) => Z.max 0 (Z.min stop b - Z.max start a)) ranges.

(** The loop that merges sorted ranges; the last one comes first in [merged]. *)
Fixpoint merge_ranges (ranges merged : list (Z * Z)) : list (Z * Z) :=
  match ranges with
  | [] => reverse merged
  | (a, b) :: ranges =>
      match merged with
      | (a', b') :: rest => if a <=? b' then merge_ranges ranges ((a', Z.max b' b) :: rest) else merge_ranges ranges ((a, b) :: merged)
      | [] => merge_ranges ranges [(a, b)]
      end
  end.

(** One scheduled request, with the number of its tokens. *)
Definition executed_one (starts : gmap string Z) (returned failed_loads : gset string) (item : string * Z) : sched unit :=
  let '(rid, count) := item in
  c ← st_get;
  if bool_decide (ct_metadata c !! rid = None) || bool_decide (rid ∈ failed_loads) || negb (bool_decide (rid ∈ returned))
  then mret tt
  else
    start ← st_lift (key_error (starts !! rid));
    let stop := start + count in
    let ranges := default [] (ct_executed_ranges c !! rid) in
    metric EXECUTED_TOKENS count;;
    metric RECOMPUTED_TOKENS (overlap start stop ranges);;
    st_modify (fun c => c <| ct_executed_ranges ::= insert rid (merge_ranges (py_sorted range_ltb (ranges ++ [(start, stop)])) []) |>).

(** [cached] and [new]: the positions of the scheduled requests; [scheduled]: their
    token counts; [returned]: the requests of the model output. *)
Definition executed (cached new scheduled : list (string * Z)) (returned failed_loads : gset string) : sched unit :=
  let starts : gmap string Z := foldl (fun d '(k, n) => <[k := n]> d) ∅ (cached ++ new) in
  st_iter (executed_one starts returned failed_loads) scheduled.

(** *** Order *)

Definition order_key (c : controller) (r : req) : res (Z * Z * Z * F * string) :=
  score ← key_error (ct_scores c !! rq_request_id r);
  Ok (- score, - default score (ct_agent_scores c !! rq_request_id r), rq_priority r, rq_arrival_time r, rq_request_id r).
Definition order_ltb (a b : Z * Z * Z * F * string) : bool :=
  let '(s, g, p, t, k) := a in
  let '(s', g', p', t', k') := b in
  lex (s =? s') (s <? s') (lex (g =? g') (g <? g') (lex (p =? p') (p <? p') (lex (feqb t t') (t <@ t') (String.ltb k k')))).

(** [_active_prefix_affinity]; a search that does not end is marked by an error. *)
Definition active_prefix_affinity (r : req) : sched (F * Z) :=
  c ← st_get;
  if negb (rq_num_computed_tokens r =? 0) || rq_skip_reading_prefix_cache r || has_encoder_inputs r then mret (flt 0, 0)
  else
    found ← st_lift (kc_find_longest_cache_hit (km_coordinator (ct_manager c)) (rq_block_hashes r) (num_tokens r - 1));
    match found with
    | None => st_raise RuntimeError
    | Some (blocks, computed) =>
        let p := km_pool (ct_manager c) in
        refs ← st_lift (mapM (block_refs p) (elements (real_blocks p blocks)));
        let shared := lenZ (filter (fun n => 0 < n) refs) in
        if shared =? 0 then mret (flt 0, 0)
        else
          demand ← admission_demand r computed (SomeBlocks blocks) 0;
          if shared <? demand then mret (flt 0, 0)
          else x ← st_lift (fdivZ shared (Z.max 1 (shared + demand))); mret (x, shared)
    end.

Notation candidate := (req * queue_id)%type.

(** The run of candidates whose score is within [band] of the first. *)
Fixpoint band_length (c : controller) (bound : Z) (l : list candidate) : res nat :=
  match l with
  | [] => Ok 0%nat
  | (r, _) :: l =>
      score ← key_error (ct_scores c !! rq_request_id r);
      if bound <=? score then n ← band_length c bound l; Ok (S n) else Ok 0%nat
  end.

(** One band, the best affinity first, with the requests that moved forward. *)
Definition by_affinity (group : list candidate) : sched (list candidate * gset string) :=
  rows ← mapM (fun item : candidate => x ← active_prefix_affinity item.1; mret (x, item)) group;
  let preferred := snd <$> py_sorted (fun '((x, n), _) '((x', n'), _) => lex (feqb x' x) (x' <@ x) (n' <? n)) rows in
  let positions : gmap string nat :=
    foldl (fun d '(i, item) => <[rq_request_id (fst item) := i]> d) ∅ (zip (seq 0 (length group)) group) in
  let moved := filter (fun '(i, item) => (i < default 0 (positions !! rq_request_id (fst item)))%nat)
                 (zip (seq 0 (length preferred)) preferred) in
  mret (preferred, list_to_set ((fun x => rq_request_id (fst (snd x))) <$> moved)).

(** The [while] loop over the bands. *)
Fixpoint order_bands (fuel : nat) (band : Z) (ordered : list candidate) : sched (list candidate) :=
  match fuel, ordered with
  | S fuel, (r, q) :: rest =>
      c ← st_get;
      highest ← st_lift (key_error (ct_scores c !! rq_request_id r));
      n ← st_lift (band_length c (highest - band) rest);
      '(preferred, moved) ← by_affinity ((r, q) :: take n rest);
      st_modify (fun c => c <| ct_cache_preferred ::= union moved |>);;
      l ← order_bands fuel band (drop n rest);
      mret (preferred ++ l)
  | _, _ => mret []
  end.

Definition order_candidates (candidates : list candidate) : sched (list candidate) :=
  c ← st_get;
  rows ← st_lift (mapM (fun item : candidate => k ← order_key c item.1; Ok (k, item)) candidates);
  let ordered := snd <$> py_sorted (fun a b => order_ltb a.1 b.1) rows in
  let band := sc_cache_affinity_score_band (ct_settings c) in
  if (band =? 0) || negb (km_enable_caching (ct_manager c)) then mret ordered
  else
    available ← st_lift (uncommitted_blocks c);
    x ← st_lift (fint available);
    capacity ← st_lift (fint (bp_num_gpu_blocks (km_pool (ct_manager c)) - 1));
    if capacity *@ (flt 1 -@ sc_gpu_usage_high (ct_settings c)) <@ x then mret ordered
    else order_bands (length ordered) band ordered.

(** [heapq.merge] of two iterators in order, ties to the first. *)
Fixpoint merge_requests (l1 : list candidate) : list candidate → list candidate :=
  fix go l2 :=
    match l1, l2 with
    | [], _ => l2
    | _, [] => l1
    | x :: l1', y :: l2' => if rq_ltb y.1 x.1 then y :: go l2' else x :: merge_requests l1' l2
    end.

(** [annotated_prefix]: [waiting] and [skipped] in the order of their queues. *)
Definition annotated_prefix (c : controller) (waiting skipped : list req) (fcfs : bool) : list candidate :=
  let skipped_items := (fun r => (r, SkippedQueue)) <$> skipped in
  let waiting_items := (fun r => (r, WaitingQueue)) <$> waiting in
  let merged := if fcfs then skipped_items ++ waiting_items else merge_requests skipped_items waiting_items in
  (fix go l := match l with
               | [] => []
               | (r, q) :: l => if bool_decide (is_Some (ct_metadata c !! rq_request_id r)) then (r, q) :: go l else []
               end) merged.

(** *** Preemption victims *)

Definition victim_key : Type := bool * F * Z * Z * (Z * Z * F * string).
Definition victim_ltb (a b : victim_key) : bool :=
  let '(n, x, m, l, (s, p, t, k)) := a in
  let '(n', x', m', l', (s', p', t', k')) := b in
  lex (Bool.eqb n n') (negb n && n')
    (lex (feqb x x') (x <@ x') (lex (m =? m') (m <? m') (lex (l =? l') (l <? l')
      (lex (s =? s') (s <? s') (lex (p =? p') (p <? p') (lex (feqb t t') (t <@ t') (String.ltb k k'))))))).

(** A candidate with its score and the blocks that preempting it frees. *)
Definition victim_row : Type := req * Z * Z.

Definition victim_cost (recompute_cost : option (req → Z)) (row : victim_row) : res victim_key :=
  let '(r, score, released) := row in
  let computed := match recompute_cost with Some f => f r | None => rq_num_computed_tokens r end in
  out ← fint (num_output_tokens r);
  limit ← fint (rq_max_tokens r);
  rate ← fdivZ computed (Z.max 1 released);
  Ok (lit 9 10 *@ limit <=@ out, rate, computed, - released,
      (score, - rq_priority r, flt 0 -@ rq_arrival_time r, rq_request_id r)).

Definition victim (r : req) (running : list req) (num_new_tokens num_lookahead_tokens : Z)
    (recompute_cost : option (req → Z)) : sched (option req) :=
  c ← st_get;
  let rid := rq_request_id r in
  st_when (ct_reclaim_reservation c && negb (bool_decide (rid ∈ ct_reclaim_beneficiaries c)))
    (st_modify (fun c => c <| ct_reclaim_beneficiaries ::= union {[rid]} |>);;
     metric RECLAIM_BENEFICIARY 1;;
     update_available);;
  if bool_decide (ct_metadata c !! rid = None) then mret None
  else
    let scored := omap (fun r => s ← ct_scores c !! rq_request_id r; Some (r, s)) running in
    lowest ← st_lift (py_min Z.ltb scored.*2);
    let near := filter (fun rs => rs.2 <= lowest + PREEMPTION_SCORE_BAND) scored in
    let main_tokens := rq_num_computed_tokens r + num_new_tokens in
    demand ← num_blocks_to_allocate rid (Z.min (main_tokens + num_lookahead_tokens) (km_max_model_len (ct_manager c))) EmptyBlocks 0
               (rq_num_computed_tokens r) main_tokens false;
    c ← st_get;
    available ← st_lift (if ct_reclaim_reservation c then uncommitted_blocks c else Ok 0);
    let needed := demand - free_blocks_of c in
    let needed := if ct_reclaim_reservation c then Z.max needed (- available) else needed in
    rows ← st_lift (mapM (fun '(r, s) =>
      refs ← mapM (block_refs (km_pool (ct_manager c))) (elements (block_ids c r));
      Ok (r, s, lenZ (filter (fun n => n = 1) refs))) near);
    let sufficient := filter (fun row : victim_row => rq_oid row.1.1 ≠ rq_oid r ∧ needed <= row.2) rows in
    let positive := filter (fun row : victim_row => 0 < row.2) rows in
    let rows := match sufficient, positive with
                | _ :: _, _ => sufficient
                | [], _ :: _ => positive
                | [], [] => rows
                end in
    keyed ← st_lift (mapM (fun row => k ← victim_cost recompute_cost row; Ok (k, row)) rows);
    best ← st_lift (py_min (fun a b => victim_ltb a.1 b.1) keyed);
    mret (Some best.2.1.1).

End controller.
