(* ===== verification/SchedulingThms.v ===== *)
(** * Agent scheduling: correctness

    The ranges of executed tokens, the order of the candidates, the partition of the
    blocks, the capacity offered to new requests, and that what was admitted can be
    charged. *)

From S2P Require Import Prelude PyFloat Metrics Protocol Request BlockHash FreeQueue BlockPool BlockPoolThms SingleType.
From S2P Require Import KVManager KVManagerThms Scheduling.

(** ** Executed ranges *)

Section ranges.
Implicit Types (l m : list (Z * Z)) (a b x : Z).

(** Disjoint ranges in order, with a gap between them; empty ones are allowed. *)
Fixpoint spaced (lo : option Z) l : Prop :=
  match l with
  | [] => True
  | (a, b) :: l => match lo with Some c => c < a | None => True end ∧ a <= b ∧ spaced (Some b) l
  end.
Definition positions l : gset Z := ⋃ ((fun ab => list_to_set (seqZ ab.1 (ab.2 - ab.1))) <$> l).
Definition range_total l : Z := sumZ (fun ab => ab.2 - ab.1) l.

Lemma elem_of_positions l x : x ∈ positions l ↔ ∃ a b, (a, b) ∈ l ∧ a <= x < b.
Proof.
  unfold positions. rewrite elem_of_union_list. split.
  - intros (X & ([a b] & -> & Hin)%list_elem_of_fmap & Hx). cbn in Hx. apply elem_of_list_to_set, elem_of_seqZ in Hx. exists a, b. split; [done|lia].
  - intros (a & b & Hin & Hx). eexists. split; [by apply list_elem_of_fmap_2|]. cbn. apply elem_of_list_to_set, elem_of_seqZ. lia.
Qed.

Lemma size_seqZ a n : 0 <= n → Z.of_nat (size (list_to_set (seqZ a n) : gset Z)) = n.
Proof. intros Hn. rewrite size_list_to_set by apply NoDup_seqZ. rewrite length_seqZ. lia. Qed.

Lemma positions_union (X Y : gset Z) : X ## Y → size (X ∪ Y) = (size X + size Y)%nat.
Proof. apply size_union. Qed.

Lemma spaced_above lo l a b : spaced (Some lo) l → (a, b) ∈ l → lo < a.
Proof.
  revert lo; induction l as [|[c d] l IH]; intros lo; [by intros _ ?%elem_of_nil|]. cbn. intros (Hc & Hd & Hl) [[= -> ->]|Hin]%elem_of_cons; [done|].
  specialize (IH d Hl Hin). lia.
Qed.

Lemma spaced_weaken lo l : spaced lo l → spaced None l.
Proof. destruct l as [|[a b] l]; [done|]. cbn. tauto. Qed.

Lemma spaced_le lo l a b : spaced lo l → (a, b) ∈ l → a <= b.
Proof.
  revert lo; induction l as [|[c d] l IH]; intros lo; [by intros _ ?%elem_of_nil|]. cbn. intros (_ & Hd & Hl) [[= -> ->]|Hin]%elem_of_cons; [done|].
  by eapply IH.
Qed.

(** The length of spaced ranges is the number of their positions, in any window. *)
Lemma overlap_spec lo l s e :
  spaced lo l → s <= e → overlap s e l = Z.of_nat (size (list_to_set (seqZ s (e - s)) ∩ positions l)).
Proof.
  intros Hl Hse. revert lo Hl; induction l as [|[a b] l IH]; intros lo Hl.
  { unfold positions. cbn. by rewrite intersection_empty_r_L, size_empty. }
  destruct Hl as (_ & Hab & Hl). unfold overlap. cbn [sumZ]. fold (overlap s e l). rewrite (IH (Some b) Hl).
  assert (list_to_set (seqZ s (e - s)) ∩ positions ((a, b) :: l) =
    list_to_set (seqZ (Z.max s a) (Z.min e b - Z.max s a)) ∪ (list_to_set (seqZ s (e - s)) ∩ positions l)) as ->.
  { apply set_eq. intros x. rewrite elem_of_union, !elem_of_intersection, !elem_of_positions, !elem_of_list_to_set, !elem_of_seqZ.
    setoid_rewrite elem_of_cons. split.
    - intros [Hx (a' & b' & [[= -> ->]|Hin] & Hx')]; [left; lia|right; split; [done|eauto]].
    - intros [Hx|[Hx (a' & b' & Hin & Hx')]]; [split; [lia|exists a, b; split; [by left|lia]]|split; [done|exists a', b'; split; [by right|done]]]. }
  rewrite positions_union, Nat2Z.inj_add.
  - f_equal. destruct (Z.le_gt_cases (Z.min e b) (Z.max s a)) as [Hle|Hgt].
    + assert (seqZ (Z.max s a) (Z.min e b - Z.max s a) = []) as -> by (unfold seqZ; by replace (Z.to_nat _) with 0%nat by lia).
      change (list_to_set []) with (∅ : gset Z). rewrite size_empty. lia.
    + rewrite size_seqZ by lia. lia.
  - intros x. rewrite elem_of_intersection, elem_of_positions, !elem_of_list_to_set, !elem_of_seqZ. intros Hx [_ (a' & b' & Hin & Hx')].
    pose proof (spaced_above b l a' b' Hl Hin). lia.
Qed.

Lemma range_total_spec lo l : spaced lo l → range_total l = Z.of_nat (size (positions l)).
Proof.
  revert lo; induction l as [|[a b] l IH]; intros lo Hl; [done|]. destruct Hl as (_ & Hab & Hl).
  unfold range_total. cbn [sumZ]. fold (range_total l). rewrite (IH _ Hl).
  change (positions ((a, b) :: l)) with (list_to_set (seqZ a (b - a)) ∪ positions l). cbn [fst snd].
  rewrite positions_union, Nat2Z.inj_add; [by rewrite size_seqZ by lia|].
  intros x. rewrite elem_of_positions, elem_of_list_to_set, elem_of_seqZ. intros Hx (a' & b' & Hin & Hx').
  pose proof (spaced_above b l a' b' Hl Hin). cbn in *. lia.
Qed.

(** *** Merging *)

(** Non-empty or empty, but never reversed, and in the order of their starts. *)
Definition starts_in_order l : Prop := in_order range_ltb l ∧ ∀ a b, (a, b) ∈ l → a <= b.

#[global] Instance range_weak_order : WeakOrder range_ltb.
Proof.
  unfold range_ltb, lex. split.
  - intros [a b] [c d]; cbn. destruct (Z.eqb_spec a c), (Z.eqb_spec c a); intros; lia.
  - intros [a b] [c d] [e f]; cbn. destruct (Z.eqb_spec a c), (Z.eqb_spec c a), (Z.eqb_spec e c), (Z.eqb_spec e a); intros; lia.
Qed.

(** [merged] is built from its last range. *)
Definition ends_below m a : Prop := match m with (a', _) :: _ => a' <= a | [] => True end.
Fixpoint spaced_rev m : Prop :=
  match m with
  | [] => True
  | (a, b) :: m => a <= b ∧ match m with (_, b') :: _ => b' < a | [] => True end ∧ spaced_rev m
  end.

Lemma spaced_reverse m l lo :
  spaced_rev m → spaced (match m with (_, b) :: _ => Some b | [] => lo end) l → spaced None (reverse m ++ l).
Proof.
  revert l lo; induction m as [|[a b] m IH]; intros l lo Hm Hl; [by apply (spaced_weaken lo)|].
  destruct Hm as (Hab & Hgap & Hm). rewrite reverse_cons, <- app_assoc. cbn. apply (IH _ None Hm).
  destruct m as [|[a' b'] m]; cbn; done.
Qed.

Lemma merge_ranges_spec l m :
  starts_in_order l → spaced_rev m → (∀ a b, (a, b) ∈ l → ends_below m a) →
  spaced None (merge_ranges l m) ∧ positions (merge_ranges l m) = positions l ∪ positions m.
Proof.
  revert m; induction l as [|[a b] l IH]; intros m [Ho Hne] Hm Hb; cbn [merge_ranges].
  { split.
    - rewrite <- (app_nil_r (reverse m)). by apply (spaced_reverse m [] None); [|destruct m as [|[]]].
    - apply set_eq. intros x. rewrite elem_of_union, !elem_of_positions. setoid_rewrite elem_of_reverse. setoid_rewrite elem_of_nil. naive_solver. }
  apply in_order_cons in Ho as [Hfirst Ho].
  assert (∀ a' b', (a', b') ∈ l → a <= a') as Hle.
  { intros a' b' Hin. specialize (Hfirst _ Hin). unfold range_ltb, lex in Hfirst. cbn in Hfirst. destruct (Z.eqb_spec a' a); lia. }
  assert (starts_in_order l) as Hl by (split; [done|]; intros; apply Hne; by right).
  assert (a <= b) as Hab by (apply Hne; left). assert (ends_below m a) as Hma by (apply (Hb a b); left).
  destruct m as [|[a' b'] rest]; [|destruct (Z.leb_spec a b') as [Hov|Hgap]].
  - destruct (IH [(a, b)] Hl) as [Hs Hp]; [done|by intros; eapply Hle|]. split; [done|]. rewrite Hp. unfold positions. cbn. set_solver.
  - cbn in Hma. destruct Hm as (Ha' & Hg & Hr).
    destruct (IH ((a', Z.max b' b) :: rest) Hl) as [Hs Hp]; [split; [lia|done]|intros c d Hin; specialize (Hle c d Hin); cbn; lia|].
    split; [done|]. rewrite Hp. apply set_eq. intros x. rewrite !elem_of_union, !elem_of_positions. setoid_rewrite elem_of_cons. split.
    + intros [(c & d & Hin & Hx)|(c & d & [[= -> ->]|Hin] & Hx)]; [left; eauto| |right; eauto].
      destruct (Z.le_gt_cases b' x); [left; exists a, b|right; exists a', b']; (split; [by left|lia]).
    + intros [(c & d & [[= -> ->]|Hin] & Hx)|(c & d & [[= -> ->]|Hin] & Hx)]; [|left; eauto| |right; eauto].
      all: right; exists a', (Z.max b' b); (split; [by left|lia]).
  - destruct (IH ((a, b) :: (a', b') :: rest) Hl) as [Hs Hp]; [cbn; done|by intros; eapply Hle|]. split; [done|]. rewrite Hp.
    unfold positions. cbn. set_solver.
Qed.

End ranges.

Section executed.
Context {F E : Type} `{PyFloat F}.
Notation controller := (SchedulingController F).
Implicit Types (c : controller) (rid : string).

Definition ranges_of c rid : list (Z * Z) := default [] (ct_executed_ranges c !! rid).
Definition covered c : Z := sum_map range_total (ct_executed_ranges c).
Definition ranges_ok c : Prop := ∀ rid, spaced None (ranges_of c rid).

(** The requests whose tokens are observed. *)
Definition observed c (returned failed_loads : gset string) rid : Prop :=
  is_Some (ct_metadata c !! rid) ∧ rid ∉ failed_loads ∧ rid ∈ returned.

Lemma metric_spec m n c :
  metrics_wf (ct_metrics c) → 0 <= n → ∃ t, metric m n c = Ok (c <| ct_metrics := t |>, tt) ∧ metrics_wf t ∧
    ∀ m', counter t m' = counter (ct_metrics c) m' + if decide (m' = m) then n else 0.
Proof.
  intros Hwf Hn. destruct (metrics_count_spec m n (ct_metrics c) Hwf Hn) as (t & Heq & Hwf' & Hc & _). exists t.
  unfold metric. by rewrite Heq.
Qed.

Lemma merged_spec l s e :
  spaced None l → s <= e → let l' := merge_ranges (py_sorted range_ltb (l ++ [(s, e)])) [] in
  spaced None l' ∧ positions l' = positions l ∪ list_to_set (seqZ s (e - s)) ∧ range_total l' = range_total l + (e - s) - overlap s e l.
Proof.
  intros Hl Hse l'.
  assert (positions (py_sorted range_ltb (l ++ [(s, e)])) = positions l ∪ list_to_set (seqZ s (e - s))) as Hp.
  { apply set_eq. intros x. rewrite elem_of_union, !elem_of_positions, elem_of_list_to_set, elem_of_seqZ.
    setoid_rewrite py_sorted_perm. setoid_rewrite elem_of_app. setoid_rewrite list_elem_of_singleton. split.
    - intros (a & b & [Hin|[= -> ->]] & Hx); [left; eauto|right; lia].
    - intros [(a & b & Hin & Hx)|Hx]; [exists a, b; tauto|exists s, e; split; [by right|lia]]. }
  destruct (merge_ranges_spec (py_sorted range_ltb (l ++ [(s, e)])) []) as [Hs Hm]; [|done|done|].
  { split; [apply (py_sorted_order range_ltb)|]. intros a b. rewrite py_sorted_perm, elem_of_app, list_elem_of_singleton.
    intros [Hin|[= -> ->]]; [|done]. by eapply spaced_le. }
  fold l' in Hs, Hm. split; [done|]. assert (positions l' = positions l ∪ list_to_set (seqZ s (e - s))) as Hpos by (rewrite Hm, Hp; apply union_empty_r_L).
  split; [done|]. rewrite (range_total_spec None l' Hs), (range_total_spec None l Hl), (overlap_spec None l s e Hl Hse), Hpos.
  set (X := list_to_set (seqZ s (e - s)) : gset Z). assert (Z.of_nat (size X) = e - s) as HX by (apply size_seqZ; lia).
  assert (positions l ∪ X = positions l ∪ (X ∖ positions l)) as -> by (apply set_eq; intros x; destruct (decide (x ∈ positions l)); set_solver).
  assert (size X = (size (X ∩ positions l) + size (X ∖ positions l))%nat) as HXs.
  { rewrite <- positions_union by set_solver. f_equal. apply set_eq. intros x. destruct (decide (x ∈ positions l)); set_solver. }
  rewrite positions_union by set_solver. lia.
Qed.

Lemma executed_one_spec (starts : gmap string Z) returned failed rid count c :
  metrics_wf (ct_metrics c) → ranges_ok c → 0 <= count → (observed c returned failed rid → is_Some (starts !! rid)) →
  ∃ c', executed_one starts returned failed (rid, count) c = Ok (c', tt) ∧ metrics_wf (ct_metrics c') ∧ ranges_ok c' ∧
    ct_metadata c' = ct_metadata c ∧
    covered c' - covered c = (counter (ct_metrics c') EXECUTED_TOKENS - counter (ct_metrics c) EXECUTED_TOKENS) -
                             (counter (ct_metrics c') RECOMPUTED_TOKENS - counter (ct_metrics c) RECOMPUTED_TOKENS) ∧
    (∀ rid' x, x ∈ positions (ranges_of c' rid') ↔ x ∈ positions (ranges_of c rid') ∨
       rid' = rid ∧ observed c returned failed rid ∧ ∃ s, starts !! rid = Some s ∧ s <= x < s + count).
Proof.
  intros Hwf Hok Hcount Hstart. unfold executed_one. rewrite st_bind_get.
  assert ((bool_decide (ct_metadata c !! rid = None) || bool_decide (rid ∈ failed) || negb (bool_decide (rid ∈ returned))) = true ∧ ¬ observed c returned failed rid ∨
          (bool_decide (ct_metadata c !! rid = None) || bool_decide (rid ∈ failed) || negb (bool_decide (rid ∈ returned))) = false ∧ observed c returned failed rid) as [[-> Hno]|[-> Hobs]].
  { unfold observed. destruct (ct_metadata c !! rid); repeat case_bool_decide; cbn; naive_solver. }
  { exists c. split_and!; try done; [lia|]. intros rid' x. split; [by left|]. intros [?|(_ & ? & _)]; done. }
  destruct (Hstart Hobs) as [start Hs]. rewrite (st_bind_lift _ start) by by rewrite Hs. fold (ranges_of c rid).
  set (l := ranges_of c rid). set (stop := start + count).
  pose proof (merged_spec l start stop (Hok rid) ltac:(unfold stop; lia)) as (Hsp & Hpos & Htot). cbn zeta in Hsp, Hpos, Htot. set (l' := merge_ranges _ _) in *.
  destruct (metric_spec EXECUTED_TOKENS count c Hwf Hcount) as (t1 & H1 & Hwf1 & Hc1). st_step H1. set (c1 := c <| ct_metrics := t1 |>).
  destruct (metric_spec RECOMPUTED_TOKENS (overlap start stop l) c1 Hwf1) as (t2 & H2 & Hwf2 & Hc2).
  { rewrite (overlap_spec None l) by (apply Hok || (unfold stop; lia)). lia. }
  st_step H2. eexists. split; [done|]. split; [done|].
  assert (∀ rid', ranges_of (c1 <| ct_metrics := t2 |> <| ct_executed_ranges ::= insert rid l' |>) rid' =
                  if decide (rid = rid') then l' else ranges_of c rid') as Hr.
  { intros rid'. unfold ranges_of. cbn. rewrite lookup_insert. by case_decide. }
  split_and!; [|done| |].
  - intros rid'. rewrite Hr. case_decide; [done|apply Hok].
  - assert (covered (c1 <| ct_metrics := t2 |> <| ct_executed_ranges ::= insert rid l' |>) = covered c - range_total l + range_total l') as ->.
    { unfold covered. cbn. unfold l, ranges_of. destruct (ct_executed_ranges c !! rid) as [l0|] eqn:Hl0; cbn.
      - by rewrite (sum_map_insert _ _ rid l0).
      - rewrite sum_map_insert_new by done. change (range_total []) with 0. lia. }
    cbn. rewrite !Hc2. change (ct_metrics c1) with t1. rewrite !Hc1, (decide_True (P := EXECUTED_TOKENS = EXECUTED_TOKENS)),
      (decide_True (P := RECOMPUTED_TOKENS = RECOMPUTED_TOKENS)), !decide_False by done. unfold stop in *. lia.
  - intros rid' x. rewrite Hr. destruct (decide (rid = rid')) as [<-|Hne].
    + rewrite Hpos, elem_of_union, elem_of_list_to_set, elem_of_seqZ. fold l. unfold stop. split.
      * intros [?|?]; [by left|right]. split_and!; try done. exists start. split; [done|lia].
      * intros [?|(_ & _ & s & Hs' & Hx)]; [by left|right]. simplify_eq. lia.
    + split; [by left|]. intros [?|(-> & _)]; done.
Qed.

(** C35. Tokens are counted once per position: in a step of the engine, whatever was
    preempted, resumed or recomputed before, the number of executed tokens minus the
    number of recomputed ones is the number of positions of the requests that had not
    been executed yet; the ranges kept for a request stay disjoint and sorted and
    cover exactly the positions executed so far. *)
Theorem executed_counts_new_positions cached new scheduled returned failed c :
  metrics_wf (ct_metrics c) → ranges_ok c → (∀ rid n, (rid, n) ∈ scheduled → 0 <= n) →
  (∀ rid n, (rid, n) ∈ scheduled → observed c returned failed rid → rid ∈ cached.*1 ++ new.*1) →
  ∃ c', executed cached new scheduled returned failed c = Ok (c', tt) ∧ ranges_ok c' ∧
    covered c' - covered c = (counter (ct_metrics c') EXECUTED_TOKENS - counter (ct_metrics c) EXECUTED_TOKENS) -
                             (counter (ct_metrics c') RECOMPUTED_TOKENS - counter (ct_metrics c) RECOMPUTED_TOKENS) ∧
    (∀ rid x, x ∈ positions (ranges_of c' rid) ↔ x ∈ positions (ranges_of c rid) ∨
       observed c returned failed rid ∧ ∃ n s, (rid, n) ∈ scheduled ∧
         (foldl (fun d '(k, n) => <[k := n]> d) ∅ (cached ++ new) : gmap string Z) !! rid = Some s ∧ s <= x < s + n).
Proof.
  intros Hwf Hok Hn Hst. unfold executed. set (starts := foldl _ _ _).
  assert (∀ rid n, (rid, n) ∈ scheduled → observed c returned failed rid → is_Some (starts !! rid)) as Hstarts.
  { intros rid n Hin Hobs. specialize (Hst rid n Hin Hobs). rewrite <- fmap_app in Hst. unfold starts. clear -Hst.
    revert Hst. generalize (∅ : gmap string Z). induction (cached ++ new) as [|[k v] l IH] using rev_ind; intros d; [by intros ?%elem_of_nil|].
    rewrite fmap_app, elem_of_app, foldl_app. cbn. rewrite lookup_insert. destruct (decide (k = rid)); [by eexists|].
    intros [Hl|[Hl|Hl%elem_of_nil]%elem_of_cons]; [by apply IH|congruence|done]. }
  clearbody starts. clear Hst. revert c Hwf Hok Hstarts; induction scheduled as [|[rid n] sched IH]; intros c Hwf Hok Hstarts.
  { exists c. split_and!; try done; [lia|]. intros rid x. split; [by left|]. intros [?|(_ & n & s & Hin & _)]; [done|by apply elem_of_nil in Hin]. }
  destruct (executed_one_spec starts returned failed rid n c Hwf Hok) as (c1 & H1 & Hwf1 & Hok1 & Hmd & Hcov1 & Hpos1);
    [apply (Hn rid); left|apply (Hstarts rid n); left|].
  assert (∀ rid', observed c1 returned failed rid' ↔ observed c returned failed rid') as Hobs by (intros rid'; unfold observed; by rewrite Hmd).
  destruct (IH ltac:(intros; eapply Hn; by right) c1 Hwf1 Hok1) as (c' & H2 & Hok2 & Hcov2 & Hpos2).
  { intros rid' n' Hin Ho. apply (Hstarts rid' n'); [by right|by apply Hobs]. }
  exists c'. cbn [st_iter]. st_step H1. split_and!; try done; [lia|]. intros rid' x. rewrite Hpos2, Hpos1, Hobs. setoid_rewrite elem_of_cons. split.
  - intros [[?|(-> & Ho & s & Hs & Hx)]|(Ho & n' & s & Hin & Hs & Hx)]; [by left|right|right]; (split; [done|]); [exists n, s|exists n', s]; naive_solver.
  - intros [?|(Ho & n' & s & [[= -> ->]|Hin] & Hs & Hx)]; [by left; left|left; right; eauto|right; split; [done|]; eauto].
Qed.

End executed.

(** ** What an operation leaves alone *)

Section frame.
Context {S A B : Type}.

Definition keeps {C T} (f : S → T) (m : st S C) : Prop := ∀ s s' a, m s = Ok (s', a) → f s' = f s.

End frame.

Section frame_lemmas.
Context {S T : Type} (f : S → T).

Lemma keeps_ret {A} (a : A) : keeps f (mret a : st S A).
Proof. by intros s s' a' [= <- _]. Qed.
Lemma keeps_get : keeps f (st_get : st S S).
Proof. by intros s s' a [= <- _]. Qed.
Lemma keeps_lift {A} (m : res A) : keeps f (st_lift m : st S A).
Proof. intros s s' a. unfold st_lift. destruct m; [by intros [= <- _]|done]. Qed.
Lemma keeps_raise {A} e : keeps f (st_raise e : st S A).
Proof. done. Qed.
Lemma keeps_bind {A B} (m : st S A) (g : A → st S B) : keeps f m → (∀ a, keeps f (g a)) → keeps f (m ≫= g).
Proof. intros Hm Hg s s' b (s1 & a & H1 & H2)%st_bind_Ok. by rewrite (Hg a _ _ _ H2), (Hm _ _ _ H1). Qed.
Lemma keeps_modify g : (∀ s, f (g s) = f s) → keeps f (st_modify g).
Proof. intros Hg s s' a [= <- _]. apply Hg. Qed.
Lemma keeps_when b (m : st S unit) : keeps f m → keeps f (st_when b m).
Proof. intros Hm. destruct b; [done|apply keeps_ret]. Qed.
Lemma keeps_mapM {A B} (g : A → st S B) l : (∀ a, keeps f (g a)) → keeps f (mapM g l).
Proof.
  intros Hg. induction l as [|a l IH]; [apply keeps_ret|]. cbn. apply keeps_bind; [done|]. intros b. apply keeps_bind; [done|].
  intros bs. apply keeps_ret.
Qed.

End frame_lemmas.

(** Invariants of computations. *)
Definition pres {S A} (P : S → Prop) (m : st S A) : Prop := ∀ s s' a, P s → m s = Ok (s', a) → P s'.

Section pres_lemmas.
Context {S : Type} (P : S → Prop).

Lemma pres_ret {A} (a : A) : pres P (mret a : st S A).
Proof. by intros s s' a' Hs [= <- _]. Qed.
Lemma pres_get : pres P (st_get : st S S).
Proof. by intros s s' a Hs [= <- _]. Qed.
Lemma pres_lift {A} (m : res A) : pres P (st_lift m : st S A).
Proof. intros s s' a Hs. unfold st_lift. destruct m; [by intros [= <- _]|done]. Qed.
Lemma pres_raise {A} e : pres P (st_raise e : st S A).
Proof. done. Qed.
Lemma pres_bind {A B} (m : st S A) (g : A → st S B) : pres P m → (∀ a, pres P (g a)) → pres P (m ≫= g).
Proof. intros Hm Hg s s' b Hs (s1 & a & H1 & H2)%st_bind_Ok. eapply Hg; [|done]. by eapply Hm. Qed.
Lemma pres_modify g : (∀ s, P s → P (g s)) → pres P (st_modify g).
Proof. intros Hg s s' a Hs [= <- _]. by apply Hg. Qed.
Lemma pres_when b (m : st S unit) : pres P m → pres P (st_when b m).
Proof. intros Hm. destruct b; [done|apply pres_ret]. Qed.
Lemma pres_mapM {A B} (g : A → st S B) l : (∀ a, pres P (g a)) → pres P (mapM g l).
Proof.
  intros Hg. induction l as [|a l IH]; [apply pres_ret|]. cbn. apply pres_bind; [done|]. intros b. apply pres_bind; [done|].
  intros bs. apply pres_ret.
Qed.
Lemma pres_iter {A} (g : A → st S unit) l : (∀ a, pres P (g a)) → pres P (st_iter g l).
Proof. intros Hg. induction l as [|a l IH]; [apply pres_ret|]. cbn. by apply pres_bind. Qed.

End pres_lemmas.

(** Follows the structure of a program; [leaf] proves the calls. *)
Ltac pres_steps leaf :=
  repeat (first
    [ leaf
    | lazymatch goal with
      | |- pres _ (_ ≫= _) => apply pres_bind; [|intros ?]
      | |- pres _ (st_when _ _) => apply pres_when
      | |- pres _ (mapM _ _) => apply pres_mapM; intros ?
      | |- pres _ (st_iter _ _) => apply pres_iter; intros ?
      | |- pres _ (mret _) => apply pres_ret
      | |- pres _ st_get => apply pres_get
      | |- pres _ (st_lift _) => apply pres_lift
      | |- pres _ (st_raise _) => apply pres_raise
      | |- pres _ (st_modify _) => apply pres_modify; intros ? ?
      | |- pres _ (if ?b then _ else _) => destruct b
      | |- pres _ (match ?x with _ => _ end) => destruct x
      end ]).

Lemma bind_lifted {S A B} (x : res A) (f : A → st S B) s r : (st_lift x ≫= f) s = Ok r → ∃ v, x = Ok v ∧ f v s = Ok r.
Proof. unfold mbind, st_bind, st_lift. destruct x; [eauto|done]. Qed.

Create HintDb keeps discriminated.
#[export] Hint Resolve keeps_ret keeps_get keeps_lift keeps_raise keeps_bind keeps_modify keeps_when keeps_mapM : keeps.

(** ** The order of the candidates *)

Section order.
Context {F E : Type} `{PyFloat F}.
Notation controller := (SchedulingController F).
Notation req := (Request F E).
Notation candidate := (req * queue_id)%type.
Implicit Types (c : controller) (l : list candidate).

Definition score_of c (x : candidate) : Z := default 0 (ct_scores c !! rq_request_id x.1).

Lemma keeps_on_manager {A T} (f : controller → T) (m : kvm A) : (∀ c k, f (c <| ct_manager := k |>) = f c) → keeps f (on_manager m).
Proof. intros Hf c c' a. unfold on_manager. destruct (m (ct_manager c)) as [[k a']|]; [|done]. intros [= <- _]. apply Hf. Qed.

Lemma affinity_keeps (r : req) : keeps ct_scores (active_prefix_affinity r).
Proof.
  unfold active_prefix_affinity, admission_demand, num_blocks_to_allocate.
  repeat (match goal with
          | |- keeps _ (_ ≫= _) => apply keeps_bind; [|intros ?]
          | |- keeps _ (if ?b then _ else _) => destruct b
          | |- keeps _ (match ?x with Some _ => _ | None => _ end) => destruct x
          | |- keeps _ (let '(_, _) := ?x in _) => destruct x
          | |- keeps _ (on_manager _) => by apply keeps_on_manager
          end || eauto with keeps).
Qed.

Lemma mapM_items {S A B : Type} (g : A → st S B) (l : list A) s s' rows :
  mapM (fun a => b ← g a; mret (b, a)) l s = Ok (s', rows) → rows.*2 = l.
Proof.
  revert s s' rows; induction l as [|a l IH]; intros s s' rows; [by intros [= _ <-]|]. cbn.
  intros (s1 & ba & (s2 & b & _ & [= <- <-])%st_bind_Ok & (s3 & rs & Hrs & [= _ <-])%st_bind_Ok)%st_bind_Ok. cbn. f_equal. exact (IH _ _ _ Hrs).
Qed.

Lemma by_affinity_perm l c c' l' moved : by_affinity l c = Ok (c', (l', moved)) → l' ≡ₚ l ∧ ct_scores c' = ct_scores c.
Proof.
  unfold by_affinity. intros (c1 & rows & Hrows & [= <- <- _])%st_bind_Ok. split.
  - rewrite py_sorted_perm. by rewrite (mapM_items (fun item : candidate => active_prefix_affinity item.1) _ _ _ _ Hrows).
  - eapply (keeps_mapM ct_scores); [|exact Hrows]. intros [r q]. cbn. apply keeps_bind; [apply affinity_keeps|eauto with keeps].
Qed.

Lemma band_length_spec c bound l n :
  band_length c bound l = Ok n → (n <= length l)%nat ∧ ∀ x, x ∈ take n l → bound <= score_of c x.
Proof.
  revert n; induction l as [|[r q] l IH]; intros n; cbn; [intros [= <-]; split; [done|by intros ? ?%elem_of_nil]|].
  destruct (ct_scores c !! rq_request_id r) as [s|] eqn:Hs; [|done]. cbn. destruct (Z.leb_spec bound s) as [Hb|Hb].
  - destruct (band_length c bound l) as [m|]; [|done]. intros [= <-]. destruct (IH m eq_refl) as [Hm Hall]. split; [lia|].
    intros x [->|Hx]%elem_of_cons; [unfold score_of; cbn; by rewrite Hs|by apply Hall].
  - intros [= <-]. split; [lia|]. by intros ? ?%elem_of_nil.
Qed.

(** Later candidates exceed the score of earlier ones by at most [band]. *)
Definition bounded c (band : Z) l : Prop :=
  ∀ i j x y, (i < j)%nat → l !! i = Some x → l !! j = Some y → score_of c y <= score_of c x + band.
Definition descending c l : Prop := ∀ i j x y, (i <= j)%nat → l !! i = Some x → l !! j = Some y → score_of c y <= score_of c x.

Lemma bounded_app c band l1 l2 h :
  0 <= band → (∀ x, x ∈ l1 → h - band <= score_of c x <= h) → (∀ x y, x ∈ l1 → y ∈ l2 → score_of c y <= score_of c x) → bounded c band l2 →
  bounded c band (l1 ++ l2).
Proof.
  intros Hband H1 H12 H2 i j x y Hij Hi Hj. apply lookup_app_Some in Hi as [Hi|[Hi1 Hi]], Hj as [Hj|[Hj1 Hj]].
  - apply list_elem_of_lookup_2, H1 in Hi, Hj. lia.
  - pose proof (H12 x y (list_elem_of_lookup_2 _ _ _ Hi) (list_elem_of_lookup_2 _ _ _ Hj)). lia.
  - apply lookup_lt_Some in Hj. lia.
  - apply (H2 (i - length l1)%nat (j - length l1)%nat); [lia|done..].
Qed.

Lemma descending_cons c x l : descending c (x :: l) → (∀ y, y ∈ l → score_of c y <= score_of c x) ∧ descending c l.
Proof.
  intros Hd. split; [intros y [j Hj]%list_elem_of_lookup; apply (Hd 0%nat (S j) x y); [lia|done..]|].
  intros i j a b Hij Hi Hj. apply (Hd (S i) (S j) a b); [lia|done..].
Qed.

Lemma order_bands_spec fuel band l c c' l' :
  0 <= band → (length l <= fuel)%nat → descending c l → order_bands fuel band l c = Ok (c', l') →
  l' ≡ₚ l ∧ bounded c band l'.
Proof.
  intros Hband. revert l c c' l'; induction fuel as [|fuel IH]; intros l c c' l' Hf Hd Heq.
  { destruct l; [|cbn in Hf; lia]. injection Heq as _ <-. split; [done|by intros i j x y]. }
  destruct l as [|[r q] rest]; [injection Heq as _ <-; split; [done|by intros i j x y]|]. cbn [order_bands] in Heq.
  rewrite st_bind_get in Heq. apply bind_lifted in Heq as (h & Hh & Heq).
  destruct (ct_scores c !! rq_request_id r) as [s|] eqn:Hs; [|done]. injection Hh as <-.
  apply bind_lifted in Heq as (n & Hn & Heq).
  apply st_bind_Ok in Heq as (c1 & [pref moved] & Hp & Heq). apply by_affinity_perm in Hp as [Hp Hs1].
  rewrite st_bind_modify in Heq. apply st_bind_Ok in Heq as (c3 & tl & Htl & [= _ <-]).
  apply band_length_spec in Hn as [Hlen Hall]. apply descending_cons in Hd as [Hfirst Hd].
  set (c2 := c1 <| ct_cache_preferred ::= union moved |>) in *.
  assert (∀ x, score_of c2 x = score_of c x) as Hsc by (intros x; unfold score_of; change (ct_scores c2) with (ct_scores c1); by rewrite Hs1).
  assert (score_of c (r, q) = s) as Hrs by (unfold score_of; cbn; by rewrite Hs).
  assert (∀ x y, x ∈ take n rest → y ∈ drop n rest → score_of c y <= score_of c x) as H12.
  { intros x y [i [Hi Hin]%lookup_take_Some]%list_elem_of_lookup [j Hj]%list_elem_of_lookup. rewrite lookup_drop in Hj. apply (Hd i (n + j)%nat); [lia|done..]. }
  destruct (IH (drop n rest) c2 c3 tl) as [Hperm Hb]; [rewrite length_drop; cbn in Hf; lia| |done|].
  { intros i j x y Hij Hi Hj. rewrite !Hsc. rewrite lookup_drop in Hi, Hj. apply (Hd (n + i)%nat (n + j)%nat); [lia|done..]. }
  split; [rewrite Hp, Hperm; by rewrite <- app_comm_cons, take_drop|].
  apply (bounded_app c band pref tl s Hband).
  - intros x. rewrite Hp, elem_of_cons. intros [->|Hx]; [lia|]. split; [by apply Hall|]. rewrite <- Hrs. apply Hfirst. by eapply subseteq_take.
  - intros x y. rewrite Hp, Hperm, elem_of_cons. intros [->|Hx] Hy; [apply Hfirst; by eapply subseteq_drop|by apply H12].
  - intros i j x y Hij Hi Hj. pose proof (Hb i j x y Hij Hi Hj) as Hle. by rewrite !Hsc in Hle.
Qed.

(** The candidates for admission are served in the order of their scores up to
    the configured band: [order_candidates] returns a permutation of the candidates
    in which no request stands before one whose score is larger by more than
    [cache_affinity_score_band], however well its prefix is cached; without the
    band, or with room to spare, the scores descend. *)
Theorem order_candidates_bounded l c c' l' :
  let band := sc_cache_affinity_score_band (ct_settings c) in
  0 <= band → order_candidates l c = Ok (c', l') → l' ≡ₚ l ∧ bounded c band l' ∧ (band = 0 → descending c l').
Proof.
  intros band Hband. unfold order_candidates. rewrite st_bind_get.
  intros (rows & Hrows & Heq)%bind_lifted. fold band in Heq.
  assert (rows.*2 = l ∧ ∀ k x, (k, x) ∈ rows → k.1.1.1.1 = - score_of c x) as [Hitems Hkeys].
  { clear -Hrows. revert rows Hrows; induction l as [|x l IH]; intros rows; cbn; [intros [= <-]; split; [done|by intros ? ? ?%elem_of_nil]|].
    unfold order_key. destruct (ct_scores c !! rq_request_id x.1) as [s|] eqn:Hs; [|done]. cbn. destruct (mapM _ l) as [rs|]; [|done].
    intros [= <-]. destruct (IH rs eq_refl) as [Hi Hk]. cbn. split; [by f_equal|]. intros k y [[= -> ->]|Hin]%elem_of_cons; [|by apply Hk].
    cbn. unfold score_of. by rewrite Hs. }
  set (srt := py_sorted (fun a b => order_ltb a.1 b.1) rows) in *.
  assert (srt.*2 ≡ₚ l) as Hperm by (unfold srt; by rewrite py_sorted_perm, Hitems).
  assert (descending c srt.*2) as Hdesc.
  { intros i j x y Hij Hi Hj. apply list_lookup_fmap_Some in Hi as ([k x'] & -> & Hi), Hj as ([k' y'] & -> & Hj). cbn.
    assert (∀ z, z ∈ srt → z ∈ rows) as Hin by (intros z; unfold srt; by rewrite py_sorted_perm).
    pose proof (Hkeys k x' (Hin _ (list_elem_of_lookup_2 _ _ _ Hi))) as H1. pose proof (Hkeys k' y' (Hin _ (list_elem_of_lookup_2 _ _ _ Hj))) as H2.
    enough (k.1.1.1.1 <= k'.1.1.1.1) by lia.
    apply (py_sorted_by (fun a b : (Z * Z * Z * F * string) * candidate => order_ltb a.1 b.1) (fun z => z.1.1.1.1.1) rows)
      with (i := i) (j := j) (x := (k, x')) (y := (k', y')); try done.
    all: intros [[[[[s1 ?] ?] ?] ?] ?] [[[[[s2 ?] ?] ?] ?] ?]; cbn; unfold lex; destruct (Z.eqb_spec s1 s2); intros; lia. }
  assert (bounded c band srt.*2) as Hbd by (intros i j x y Hij Hi Hj; pose proof (Hdesc i j x y ltac:(lia) Hi Hj); lia).
  destruct ((band =? 0) || _) eqn:Hskip; [injection Heq as _ <-; done|].
  apply orb_false_iff in Hskip as [Hb0%Z.eqb_neq _].
  apply bind_lifted in Heq as (av & _ & Heq).
  apply bind_lifted in Heq as (fx & _ & Heq).
  apply bind_lifted in Heq as (cap & _ & Heq).
  destruct (_ <@ _); [injection Heq as _ <-; done|].
  destruct (order_bands_spec _ band _ c c' l' Hband (le_n _) Hdesc Heq) as [Hp Hb]. split_and!; [by rewrite Hp|done|done].
Qed.

End order.

(** ** Capacity *)

Section capacity.
Implicit Types (d : list (string * Z)) (k : string).

Definition nonneg d : Prop := ∀ k n, (k, n) ∈ d → 0 <= n.

Lemma od_sum_alter f k d :
  sumZ snd (od_alter f k d) = sumZ snd d + match od_get k d with Some n => f n - n | None => 0 end.
Proof.
  induction d as [|[k' n] d IH]; cbn; [done|]. destruct (decide (k' = k)) as [->|Hne]; cbn; [lia|]. rewrite IH. destruct (od_get k d); lia.
Qed.

Lemma nonneg_alter f k d : nonneg d → (∀ n, od_get k d = Some n → 0 <= f n) → nonneg (od_alter f k d).
Proof.
  induction d as [|[k' n] d IH]; cbn; [done|]. intros Hd Hf k0 n0. destruct (decide (k' = k)) as [->|Hne].
  - intros [[= -> ->]|Hin]%elem_of_cons; [by apply Hf|]. apply (Hd k0). by right.
  - intros [[= -> ->]|Hin]%elem_of_cons; [eapply Hd; left|]. revert Hin. apply IH; [|done]. intros k1 n1 Hin. apply (Hd k1). by right.
Qed.

Lemma nonneg_get d k : nonneg d → 0 <= default 0 (od_get k d).
Proof. intros Hd. destruct (od_get k d) as [n|] eqn:E; [|done]. cbn. apply (Hd k). by apply od_get_In. Qed.

Lemma nonneg_sum d : nonneg d → 0 <= sumZ snd d.
Proof.
  intros Hd. induction d as [|[k n] d IH]; [done|]. cbn. assert (0 <= n) by (apply (Hd k); left).
  assert (nonneg d) as Hd' by (intros k' n' Hin; apply (Hd k'); by right). specialize (IH Hd'). lia.
Qed.

Lemma cut_steps_spec ks e d :
  0 <= e → nonneg d → let '(e', d') := foldl cut_step (e, d) ks in
  0 <= e' <= e ∧ nonneg d' ∧ d'.*1 = d.*1 ∧ sumZ snd d' = sumZ snd d - (e - e') ∧
  (∀ k, default 0 (od_get k d') <= default 0 (od_get k d)) ∧ (0 < e' → ∀ k, k ∈ ks → default 0 (od_get k d') = 0).
Proof.
  revert e d; induction ks as [|k ks IH]; intros e d He Hd; cbn [foldl].
  { split_and!; try done; try lia. intros _ k Hk. by apply elem_of_nil in Hk. }
  cbn [cut_step]. set (n := default 0 (od_get k d)). set (r := Z.min e n). pose proof (nonneg_get d k Hd) as Hn. fold n in Hn.
  specialize (IH (e - r) (od_alter (fun n => n - r) k d)). destruct (foldl cut_step (e - r, od_alter (fun n => n - r) k d) ks) as [e' d'].
  destruct IH as (He' & Hd' & Hk & Hs & Hle & Hz).
  { lia. }
  { apply nonneg_alter; [done|]. intros n' Hn'. unfold r, n. rewrite Hn'. cbn. lia. }
  assert (∀ k', default 0 (od_get k' (od_alter (fun n => n - r) k d)) = if decide (k = k') then (if od_get k d then n - r else 0) else default 0 (od_get k' d)) as Hget.
  { intros k'. rewrite od_get_alter. destruct (decide (k = k')) as [<-|Hne]; [|done]. unfold n. by destruct (od_get k d). }
  split_and!; try done; try lia.
  - by rewrite Hk, od_keys_alter.
  - rewrite Hs, od_sum_alter. unfold r, n. destruct (od_get k d); cbn; lia.
  - intros k'. etrans; [apply Hle|]. rewrite Hget. destruct (decide (k = k')) as [<-|]; [|done]. fold n. destruct (od_get k d); lia.
  - intros Hpos k' [->|Hin]%elem_of_cons; [|by apply Hz]. pose proof (Hle k) as Hle'. rewrite Hget, decide_True in Hle' by done.
    pose proof (nonneg_get d' k Hd'). destruct (od_get k d) eqn:Hk0; [|lia]. assert (r = n) by (unfold r in *; lia). lia.
Qed.

Lemma cut_back_spec e ks d :
  0 <= e → nonneg d → od_wf d → (∀ k, k ∈ d.*1 → k ∈ ks) →
  nonneg (cut_back e ks d) ∧ (cut_back e ks d).*1 = d.*1 ∧ sumZ snd (cut_back e ks d) = Z.max 0 (sumZ snd d - e).
Proof.
  intros He Hd Hwf Hks. unfold cut_back. pose proof (cut_steps_spec ks e d He Hd) as Hspec.
  destruct (foldl cut_step (e, d) ks) as [e' d']. destruct Hspec as (He' & Hd' & Hk & Hs & _ & Hz). cbn [snd]. split_and!; try done.
  pose proof (nonneg_sum d' Hd'). destruct (decide (0 < e')) as [Hpos|]; [|lia].
  assert (sumZ snd d' = 0) as H0; [|lia]. specialize (Hz Hpos).
  assert (∀ k n, (k, n) ∈ d' → n = 0) as Hall.
  { intros k n Hin. assert (od_wf d') as Hwf' by (unfold od_wf; by rewrite Hk). pose proof (od_In_get k n d' Hwf' Hin) as Hg.
    specialize (Hz k). rewrite Hg in Hz. apply Hz, Hks. rewrite <- Hk. by apply (list_elem_of_fmap_2' fst _ (k, n)). }
  clear -Hall. induction d' as [|[k n] d' IH]; [done|]. cbn. rewrite (Hall k n) by left. rewrite IH; [done|]. intros k' n' Hin. apply (Hall k'). by right.
Qed.

End capacity.

Section accounting.
Context {F E : Type} `{PyFloat F}.
Notation controller := (SchedulingController F).
Notation req := (Request F E).
Implicit Types (c : controller) (r : req) (rid k : string) (o : option string) (n : Z).

(** What the plan leaves of its shares, and what is offered to new requests. *)
Definition used_by c o : Z := default 0 (ct_used c !! o).
Definition unused_shares c : Z :=
  Z.max 0 (pl_shared (ct_plan c) - used_by c None) +
  sumZ (fun kn => Z.max 0 (kn.2 - used_by c (Some kn.1))) (pl_reserved (ct_plan c)).
Definition offered c : Z := ct_shared_available c + sumZ snd (ct_reserved_available c).

Lemma mapM_keys (f : string → res F) (ks : list string) rows :
  mapM (fun k => s ← f k; Ok (s, k)) ks = Ok rows → rows.*2 = ks.
Proof.
  revert rows; induction ks as [|k ks IH]; intros rows; cbn; [by intros [= <-]|]. destruct (f k) as [s|]; [|done]. cbn.
  destruct (mapM _ ks) as [rs|]; [|done]. intros [= <-]. cbn. by rewrite (IH rs eq_refl).
Qed.

Lemma update_available_spec c c' :
  od_wf (pl_reserved (ct_plan c)) → update_available c = Ok (c', tt) →
  ∃ a d u, c' = c <| ct_shared_available := a |> <| ct_reserved_available := d |> ∧ uncommitted_blocks c = Ok u ∧
    0 <= a ∧ nonneg d ∧ d.*1 = (pl_reserved (ct_plan c)).*1 ∧ a + sumZ snd d = Z.min (unused_shares c) (Z.max 0 u).
Proof.
  intros Hwf. unfold update_available. rewrite st_bind_get. intros (u & Hu & Heq)%bind_lifted. apply bind_lifted in Heq as (rows & Hrows & Heq).
  set (shared := Z.max 0 (pl_shared (ct_plan c) - default 0 (ct_used c !! None))) in *.
  set (reserved := (fun '(key, count) => (key, Z.max 0 (count - default 0 (ct_used c !! Some key)))) <$> pl_reserved (ct_plan c)) in *.
  set (order := (py_sorted _ rows).*2) in *.
  assert (reserved.*1 = (pl_reserved (ct_plan c)).*1) as Hkeys by (unfold reserved; rewrite <- list_fmap_compose; apply list_fmap_ext; by intros ? []).
  assert (nonneg reserved) as Hnn by (intros k n ([k' n'] & [= -> ->] & _)%list_elem_of_fmap; lia).
  set (excess := Z.max 0 (shared + sumZ snd reserved - Z.max 0 u)) in *.
  pose proof (nonneg_sum reserved Hnn) as Hsum. assert (0 <= shared) as Hsh by (unfold shared; lia).
  destruct (cut_back_spec (excess - Z.min excess shared) order reserved) as (Hnn' & Hk' & Hs'); [unfold excess; lia|done| | |].
  { unfold od_wf. by rewrite Hkeys. }
  { intros k Hk. unfold order. rewrite py_sorted_perm. by rewrite (mapM_keys _ _ _ Hrows). }
  injection Heq as <-. exists (shared - Z.min excess shared), (cut_back (excess - Z.min excess shared) order reserved), u.
  split_and!; try done; [lia|by rewrite Hk'|].
  assert (unused_shares c = shared + sumZ snd reserved) as ->.
  { unfold unused_shares, shared, reserved. rewrite sumZ_fmap. unfold used_by. f_equal. apply sumZ_ext. by intros []. }
  rewrite Hs'. unfold excess. lia.
Qed.

(** *** Consumption *)

Definition available_to c o : Z :=
  match o with None => ct_shared_available c | Some k => default 0 (od_get k (ct_reserved_available c)) end.

Definition lendable c rid (borrow_reserved : bool) (donors : list (string * Z)) : Z :=
  sumZ snd (filter (fun kn => may_borrow c rid borrow_reserved kn.1 = true) donors).

(** The capacity a request may use. *)
Definition usable c r (borrow_reserved : bool) : Z :=
  ct_shared_available c +
  match ct_metadata c !! rq_request_id r with
  | None => 0
  | Some md =>
      (if bool_decide (md_agent_type md ∈ pl_critical (ct_plan c)) then available_to c (Some (md_agent_type md)) else 0) +
      lendable c (rq_request_id r) borrow_reserved (filter (fun kn => kn.1 ≠ md_agent_type md) (ct_reserved_available c))
  end.

(** Amounts that are there, with distinct owners. *)
Definition usage_ok c (usage : list (option string * Z)) : Prop :=
  NoDup usage.*1 ∧ ∀ o n, (o, n) ∈ usage → 0 <= n <= available_to c o.

Lemma lendable_nonneg c rid b donors : nonneg donors → 0 <= lendable c rid b donors.
Proof. intros Hd. apply nonneg_sum. intros k n [_ Hin]%list_elem_of_filter. by apply (Hd k). Qed.

Lemma borrow_spec c rid b donors remaining usage :
  nonneg donors → 0 < remaining →
  match borrow c rid b donors remaining usage with
  | Some usage' => remaining <= lendable c rid b donors ∧ ∃ extra, usage' = usage ++ extra ∧ sumZ snd extra = remaining ∧
      (∃ ks, extra.*1 = Some <$> ks ∧ ks `sublist_of` donors.*1) ∧
      (∀ o n, (o, n) ∈ extra → ∃ k a, o = Some k ∧ (k, a) ∈ donors ∧ 0 <= n <= a ∧ may_borrow c rid b k = true)
  | None => lendable c rid b donors < remaining
  end.
Proof.
  revert remaining usage; induction donors as [|[k a] donors IH]; intros remaining usage Hd Hr; cbn [borrow]; [by change (lendable c rid b []) with 0|].
  assert (nonneg donors) as Hd' by (intros k' n Hin; apply (Hd k'); by right). assert (0 <= a) as Ha by (apply (Hd k); left).
  pose proof (lendable_nonneg c rid b donors Hd') as Hln. unfold lendable. rewrite filter_cons. cbn [fst].
  destruct (may_borrow c rid b k) eqn:Hmay; [rewrite decide_True by done|rewrite decide_False by done]; cbn [sumZ snd]; fold (lendable c rid b donors).
  - set (n := Z.min remaining a). destruct (Z.eqb_spec (remaining - n) 0) as [Hz|Hz].
    + split; [lia|]. exists [(Some k, n)]. cbn. split_and!; try done; [lia| |].
      * exists [k]. split; [done|]. constructor. apply sublist_nil_l.
      * intros o n' [[= -> ->]|Hin]%elem_of_cons; [|by apply elem_of_nil in Hin]. exists k, a. split_and!; try done; [left|lia..].
    + specialize (IH (remaining - n) (usage ++ [(Some k, n)]) Hd' ltac:(lia)). destruct (borrow _ _ _ _ _ _) as [usage'|]; [|lia].
      destruct IH as (Hle & extra & -> & Hs & (ks & Hks & Hsub) & Hin). split; [lia|]. exists ((Some k, n) :: extra).
      split_and!; [by rewrite <- app_assoc|cbn; lia| |].
      * exists (k :: ks). cbn. rewrite Hks. split; [done|]. by constructor.
      * intros o n' [[= -> ->]|Hin']%elem_of_cons; [exists k, a; split_and!; try done; [left|lia..]|].
        destruct (Hin o n' Hin') as (k' & a' & ? & ? & ? & ?). exists k', a'. split_and!; try done; [by right|lia..].
  - specialize (IH remaining usage Hd' Hr). destruct (borrow _ _ _ _ _ _) as [usage'|]; [|done].
    destruct IH as (Hle & extra & -> & Hs & (ks & Hks & Hsub) & Hin). split; [done|]. exists extra. split_and!; try done.
    + exists ks. split; [done|]. by constructor.
    + intros o n' Hin'. destruct (Hin o n' Hin') as (k' & a' & ? & ? & ? & ?). exists k', a'. split_and!; try done; [by right|lia..].
Qed.

(** What the tables offered to requests satisfy. *)
Record offer_ok c : Prop := {
  oo_shared : 0 <= ct_shared_available c;
  oo_nonneg : nonneg (ct_reserved_available c);
  oo_keys : od_wf (ct_reserved_available c);
  oo_scores : ∀ k, k ∈ (ct_reserved_available c).*1 → is_Some (pl_scores (ct_plan c) !! k);
  oo_critical : ∀ k, k ∈ pl_critical (ct_plan c) → k ∈ (ct_reserved_available c).*1;
}.

(** The donors in their order of preference. *)
Lemma donors_spec c key :
  offer_ok c → ∃ rows, mapM (fun '(k, n) => s ← key_error (pl_scores (ct_plan c) !! k); Ok (n, s, k))
      (filter (fun kn => kn.1 ≠ key) (ct_reserved_available c)) = Ok rows ∧
    ∀ lt, (fun '(n, _, k) => (k, n)) <$> py_sorted lt rows ≡ₚ filter (fun kn : string * Z => kn.1 ≠ key) (ct_reserved_available c).
Proof.
  intros Hok. set (l := filter _ _).
  assert (∀ k n, (k, n) ∈ l → is_Some (pl_scores (ct_plan c) !! k)) as Hl.
  { intros k n [_ Hin]%list_elem_of_filter. apply (oo_scores _ Hok). by apply (list_elem_of_fmap_2' fst _ (k, n)). }
  clearbody l. assert (∃ rows, mapM (fun '(k, n) => s ← key_error (pl_scores (ct_plan c) !! k); Ok (n, s, k)) l = Ok rows ∧
    (fun '(n, _, k) => (k, n)) <$> rows = l) as (rows & Hr & Heq).
  { induction l as [|[k n] l IH]; [by exists []|]. destruct (Hl k n ltac:(left)) as [s Hs]. destruct IH as (rows & Hr & Heq); [intros; eapply Hl; by right|].
    exists ((n, s, k) :: rows). cbn. rewrite Hs, Hr. cbn. by rewrite Heq. }
  exists rows. split; [done|]. intros lt. by rewrite py_sorted_perm, Heq.
Qed.

Lemma lendable_perm c rid b d d' : d ≡ₚ d' → lendable c rid b d = lendable c rid b d'.
Proof. intros Hp. unfold lendable. apply sumZ_perm. by rewrite Hp. Qed.

Lemma consumption_spec c r d b :
  offer_ok c → 0 <= d → ∃ out, consumption c r d b = Ok out ∧
  match out with
  | Some usage => d <= usable c r b ∧ sumZ snd usage = d ∧ usage_ok c usage ∧
      (∀ k n, (Some k, n) ∈ usage → k ∈ (ct_reserved_available c).*1) ∧
      (∀ k n, (Some k, n) ∈ usage → (md_agent_type <$> ct_metadata c !! rq_request_id r) = Some k ∨ may_borrow c (rq_request_id r) b k = true)
  | None => usable c r b < d
  end.
Proof.
  intros Hok Hd. pose proof (oo_shared _ Hok) as Hsh. pose proof (oo_nonneg _ Hok) as Hnn. unfold consumption, usable.
  set (rid := rq_request_id r). set (s := Z.min d (ct_shared_available c)). destruct (Z.eqb_spec (d - s) 0) as [Hz|Hz].
  { exists (Some [(None, s)]). split; [done|]. split.
    - destruct (ct_metadata c !! rid) as [md|]; [|lia]. pose proof (nonneg_get _ (md_agent_type md) Hnn) as Hown.
      pose proof (lendable_nonneg c rid b (filter (fun kn => kn.1 ≠ md_agent_type md) (ct_reserved_available c))) as Hl.
      assert (nonneg (filter (fun kn => kn.1 ≠ md_agent_type md) (ct_reserved_available c))) as Hnf
        by (intros k n [_ Hin]%list_elem_of_filter; by apply (Hnn k)). specialize (Hl Hnf). cbn [available_to]. case_bool_decide; lia.
    - split; [cbn; lia|]. split; [split; [apply NoDup_singleton|]|]. 
      + intros o n [[= -> ->]|Hin]%elem_of_cons; [cbn; lia|by apply elem_of_nil in Hin].
      + split; intros k n [?|?%elem_of_nil]%elem_of_cons; done. }
  destruct (ct_metadata c !! rid) as [md|] eqn:Hmd; [|exists None; split; [done|lia]].
  set (key := md_agent_type md). set (crit := bool_decide (key ∈ pl_critical (ct_plan c))). cbn [available_to].
  set (a := default 0 (od_get key (ct_reserved_available c))). pose proof (nonneg_get _ key Hnn) as Ha. fold a in Ha.
  set (own := if crit then Z.min (d - s) a else 0). set (pre := if crit then [(None, s)] ++ [(Some key, own)] else [(None, s)]).
  destruct (donors_spec c key Hok) as (rows & Hrows & Hperm).
  set (others := filter (fun kn => kn.1 ≠ key) (ct_reserved_available c)) in *.
  assert (nonneg others) as Hno by (intros k n [_ Hin]%list_elem_of_filter; by apply (Hnn k)).
  pose proof (lendable_nonneg c rid b others Hno) as Hln.
  assert (sumZ snd pre = s + own ∧ NoDup pre.*1 ∧ (∀ o n, (o, n) ∈ pre → 0 <= n <= available_to c o) ∧
    (∀ k n, (Some k, n) ∈ pre → k = key ∧ k ∈ (ct_reserved_available c).*1)) as (Hps & Hpn & Hpa & Hpk).
  { unfold pre, own. destruct crit eqn:Hcrit; cbn; (split; [lia|]).
    - split; [apply NoDup_cons; split; [by intros Hin%list_elem_of_singleton|apply NoDup_singleton]|]. split.
      + intros o n [[= -> ->]|[[= -> ->]|Hin]%elem_of_cons]%elem_of_cons; [cbn; lia|cbn; fold a; lia|by apply elem_of_nil in Hin].
      + intros k n [?|[[= -> ->]|Hin]%elem_of_cons]%elem_of_cons; [done| |by apply elem_of_nil in Hin]. split; [done|].
        apply (oo_critical _ Hok). unfold crit in Hcrit. by apply bool_decide_eq_true in Hcrit.
    - split; [apply NoDup_singleton|]. split; [intros o n [[= -> ->]|Hin]%elem_of_cons; [cbn; lia|by apply elem_of_nil in Hin]|].
      intros k n [?|?%elem_of_nil]%elem_of_cons; done. }
  destruct (crit && (d - s - own =? 0)) eqn:Hfull.
  { apply andb_true_iff in Hfull as [Hcrit Hown%Z.eqb_eq]. exists (Some pre). split; [unfold pre; by rewrite Hcrit|]. rewrite Hcrit.
    split_and!; [unfold own in *; rewrite Hcrit in *; lia|lia|by split|intros k n Hin; apply (Hpk k n Hin)|].
    intros k n Hin. left. cbn. f_equal. symmetry. apply (Hpk k n Hin). }
  assert (0 < d - s - own) as Hrem.
  { apply andb_false_iff in Hfull as [Hcrit|Hown%Z.eqb_neq]; [unfold own; rewrite Hcrit; lia|unfold own in *; destruct crit; lia]. }
  rewrite Hrows. cbn [mbind res_bind]. set (donors := _ <$> py_sorted _ rows).
  assert (donors ≡ₚ others) as Hdp by apply Hperm.
  assert (nonneg donors) as Hdn by (intros k n; rewrite Hdp; apply Hno).
  pose proof (borrow_spec c rid b donors (d - s - own) pre Hdn Hrem) as Hb. rewrite (lendable_perm c rid b donors others Hdp) in Hb.
  eexists. split; [done|]. destruct (borrow c rid b donors (d - s - own) pre) as [usage|].
  - destruct Hb as (Hle & extra & -> & Hes & (ks & Hks & Hsub) & Hin).
    assert (∀ k n, (Some k, n) ∈ extra → ∃ x, (k, x) ∈ ct_reserved_available c ∧ k ≠ key ∧ 0 <= n <= x ∧ may_borrow c rid b k = true) as Hex.
    { intros k n Hin'. destruct (Hin (Some k) n Hin') as (k' & x & [= <-] & Hx & ? & ?). rewrite Hdp in Hx. apply list_elem_of_filter in Hx as [? ?].
      exists x. done. }
    split_and!.
    + unfold own in Hle. destruct crit; lia.
    + rewrite sumZ_app, Hps, Hes. lia.
    + split.
      * rewrite fmap_app, Hks. apply NoDup_app. split_and!; [done| |].
        -- intros o Ho (k & -> & Hk)%list_elem_of_fmap. apply (list_elem_of_fmap fst) in Ho as ([o' n] & Heq & Ho). cbn in Heq. subst o'.
           destruct (Hpk k n Ho) as [-> _]. assert (key ∈ donors.*1) as Hkd by by apply (elem_of_sublist ks).
           apply list_elem_of_fmap in Hkd as ([k' n'] & Heq & Hkd). rewrite Hdp in Hkd. apply list_elem_of_filter in Hkd as [Hne _]. cbn in *. congruence.
        -- apply (NoDup_fmap_2 _). apply (sublist_NoDup _ donors.*1); [|done]. rewrite Hdp. unfold others.
           eapply sublist_NoDup; [apply (oo_keys _ Hok)|]. apply fmap_sublist. apply sublist_filter.
      * intros o n [Hp|He]%elem_of_app; [by apply Hpa|]. destruct (Hin o n He) as (k & x & -> & _). destruct (Hex k n He) as (x' & Hx & _ & Hnx & _).
        cbn. by rewrite (od_In_get k x' _ (oo_keys _ Hok) Hx).
    + intros k n [Hp|He]%elem_of_app; [by apply (Hpk k n)|]. destruct (Hex k n He) as (x & Hx & _). by apply (list_elem_of_fmap_2' fst _ (k, x)).
    + intros k n [Hp|He]%elem_of_app; [left; cbn; f_equal; symmetry; by apply (Hpk k n)|right]. by destruct (Hex k n He) as (x & _ & _ & _ & ?).
  - unfold own in Hb. destruct crit; lia.
Qed.

(** *** Charges *)

(** The number of blocks charged to [o]. *)
Definition charged (d : gmap Z (option string)) o : Z := sum_map (fun o' => if decide (o' = o) then 1 else 0) d.
Definition used_ok c : Prop := ∀ o, used_by c o = charged (ct_charges c) o.

Lemma count_owners_spec d o : default 0 (count_owners d !! o) = charged d o.
Proof.
  unfold count_owners, charged, sum_map. induction (map_to_list d).*2 as [|o' l IH]; cbn; [done|].
  rewrite lookup_insert. destruct (decide (o' = o)) as [->|Hne]; cbn; rewrite IH; lia.
Qed.

Lemma charged_insert d b o' o : d !! b = None → charged (<[b := o']> d) o = charged d o + if decide (o' = o) then 1 else 0.
Proof. intros Hb. unfold charged. rewrite sum_map_insert_new by done. lia. Qed.

Lemma charged_foldl d ids o' o :
  NoDup ids → (∀ b, b ∈ ids → d !! b = None) →
  charged (foldl (fun d b => <[b := o']> d) d ids) o = charged d o + if decide (o' = o) then lenZ ids else 0.
Proof.
  revert d; induction ids as [|b ids IH]; intros d Hnd Hd; cbn [foldl]; [case_decide; cbn; lia|]. apply NoDup_cons in Hnd as [Hb Hnd].
  rewrite IH; [|done|].
  - rewrite charged_insert by (apply Hd; left). case_decide; cbn [length]; lia.
  - intros b' Hb'. rewrite lookup_insert_ne by (intros <-; done). apply Hd. by right.
Qed.

Lemma foldl_insert_dom (d : gmap Z (option string)) ids o : dom (foldl (fun d b => <[b := o]> d) d ids) = dom d ∪ list_to_set ids.
Proof.
  revert d; induction ids as [|b ids IH]; intros d; cbn [foldl list_to_set foldr]; [set_solver|]. rewrite IH, dom_insert_L. set_solver.
Qed.

Lemma charge_spec usage ids c :
  NoDup ids → (∀ b, b ∈ ids → ct_charges c !! b = None) → (∀ o n, (o, n) ∈ usage → 0 <= n) → sumZ snd usage = lenZ ids →
  (∀ k n, (Some k, n) ∈ usage → k ∈ (ct_reserved_available c).*1) → used_ok c →
  ∃ c', charge usage ids c = Ok (c', tt) ∧ used_ok c' ∧ dom (ct_charges c') = dom (ct_charges c) ∪ list_to_set ids ∧
    ct_plan c' = ct_plan c ∧ ct_manager c' = ct_manager c ∧ ct_metadata c' = ct_metadata c ∧ ct_metrics c' = ct_metrics c.
Proof.
  revert ids c; induction usage as [|[o n] usage IH]; intros ids c Hnd Hnew Hn Hsum Hkeys Hok.
  { destruct ids; [|cbn in Hsum; lia]. exists c. split_and!; try done. set_solver. }
  cbn [sumZ] in Hsum. cbn [snd] in Hsum. assert (0 <= n) as Hn0 by (apply (Hn o); left).
  assert (0 <= sumZ snd usage) as Hus by (apply sumZ_nonneg; intros [o' n'] Hin; apply (Hn o'); by right).
  cbn [charge]. rewrite st_bind_modify. set (now := py_slice ids 0 n). set (later := py_slice ids n (lenZ ids)).
  assert (now = take (Z.to_nat n) ids) as Hnow by (unfold now; rewrite py_slice_nonneg, Z.sub_0_r by lia; by rewrite drop_0).
  assert (later = drop (Z.to_nat n) ids) as Hlater by (unfold later; rewrite py_slice_nonneg by lia; apply take_ge; rewrite length_drop; lia).
  set (c1 := c <| ct_charges ::= _ |> <| ct_used ::= _ |>).
  assert (ids = now ++ later) as Hids by (rewrite Hnow, Hlater; symmetry; apply take_drop). rewrite Hids in Hnd. apply NoDup_app in Hnd as (Hnd1 & Hdis & Hnd2).
  assert (∀ b, b ∈ now → ct_charges c !! b = None) as Hnew1 by (intros b Hb; apply Hnew; rewrite Hids; apply elem_of_app; by left).
  assert (used_ok c1) as Hok1.
  { intros o'. unfold used_by, c1. cbn. rewrite (charged_foldl _ now o o' Hnd1 Hnew1). rewrite lookup_insert. specialize (Hok o'). unfold used_by in Hok.
    assert (lenZ now = n) as -> by (rewrite Hnow, length_take; lia). destruct (decide (o = o')) as [<-|]; cbn; lia. }
  assert (dom (ct_charges c1) = dom (ct_charges c) ∪ list_to_set now) as Hdom1 by apply foldl_insert_dom.
  assert (∃ c2, (match o with
       | None => st_modify (fun c => c <| ct_shared_available ::= fun m => Z.max 0 (m - n) |>)
       | Some k => c ← st_get; if od_has k (ct_reserved_available c)
           then st_modify (fun c => c <| ct_reserved_available ::= od_alter (fun m => m - n) k |>) else st_raise KeyError end) c1 = Ok (c2, tt) ∧
     ct_charges c2 = ct_charges c1 ∧ ct_used c2 = ct_used c1 ∧ (ct_reserved_available c2).*1 = (ct_reserved_available c).*1 ∧
     ct_plan c2 = ct_plan c ∧ ct_manager c2 = ct_manager c ∧ ct_metadata c2 = ct_metadata c ∧ ct_metrics c2 = ct_metrics c)
    as (c2 & Heq2 & Hch2 & Hu2 & Hk2 & Hp2 & Hm2 & Hmd2 & Hmt2).
  { destruct o as [k|]; [|by eexists]. rewrite st_bind_get. assert (od_has k (ct_reserved_available c1) = true) as -> by (apply od_has_true, (Hkeys k n); left).
    eexists. split; [done|]. split_and!; try done. cbn. apply od_keys_alter. }
  st_step Heq2. destruct (IH later c2 Hnd2) as (c' & Heq' & Hok' & Hdom' & Hp' & Hm' & Hmd' & Hmt').
  - intros b Hb. apply not_elem_of_dom. rewrite Hch2, Hdom1. intros [Hc|Hc%elem_of_list_to_set]%elem_of_union; [|by apply (Hdis b)].
    apply elem_of_dom in Hc as [? Hc]. rewrite (Hnew b) in Hc; [done|]. rewrite Hids. apply elem_of_app. by right.
  - intros o' n' Hin. apply (Hn o'). by right.
  - rewrite Hlater, length_drop. lia.
  - intros k n' Hin. rewrite Hk2. apply (Hkeys k n'). by right.
  - intros o'. unfold used_by. rewrite Hu2, Hch2. apply Hok1.
  - exists c'. split_and!; try congruence. rewrite Hdom', Hch2, Hdom1, Hids, list_to_set_app_L. set_solver.
Qed.

(** *** The invariant *)

Record plan_ok (pl : CapacityPlan F) : Prop := {
  po_keys : od_wf (pl_reserved pl);
  po_scores : ∀ k, k ∈ (pl_reserved pl).*1 → is_Some (pl_scores pl !! k);
  po_critical : ∀ k, k ∈ pl_critical pl ↔ k ∈ (pl_reserved pl).*1;
}.

Record ctl_wf c : Prop := {
  cw_plan : plan_ok (ct_plan c);
  cw_shared : 0 <= ct_shared_available c;
  cw_reserved : nonneg (ct_reserved_available c);
  cw_keys : (ct_reserved_available c).*1 = (pl_reserved (ct_plan c)).*1;
  cw_used : used_ok c;
}.

Lemma ctl_offer c : ctl_wf c → offer_ok c.
Proof.
  intros [[Hk Hs Hc] ? ? Hkeys _]. split; try done; unfold od_wf; rewrite ?Hkeys; try done. intros k. apply Hc.
Qed.

(** What the invariant depends on. *)
Definition core c := (ct_plan c, ct_shared_available c, ct_reserved_available c, ct_charges c, ct_used c).
Lemma ctl_core c c' : core c' = core c → ctl_wf c → ctl_wf c'.
Proof.
  unfold core. intros [= Hp Hs Hr Hc Hu] []. split; rewrite ?Hp, ?Hs, ?Hr; try done.
  intros o. specialize (cw_used0 o). unfold used_by in *. by rewrite Hc, Hu.
Qed.

Lemma pres_core {A} (m : st controller A) : keeps core m → pres ctl_wf m.
Proof. intros Hm c c' a Hwf Heq. by apply (ctl_core c); [apply (Hm _ _ _ Heq)|]. Qed.

(** The capacity offered is what the shares leave, up to the free blocks not promised to admitted requests. *)
Definition settled c : Prop := ∃ u, uncommitted_blocks c = Ok u ∧ offered c = Z.min (unused_shares c) (Z.max 0 u).

Lemma update_wf c c' : plan_ok (ct_plan c) → used_ok c → update_available c = Ok (c', tt) → ctl_wf c' ∧ settled c'.
Proof.
  intros Hp Hu Heq. destruct (update_available_spec c c' (po_keys _ Hp) Heq) as (a & d & u & -> & Hun & Ha & Hd & Hk & Hsum).
  split; [by split|]. by exists u.
Qed.

Lemma release_wf c c' : plan_ok (ct_plan c) → ct_accounting_active c = true → release c = Ok (c', tt) → ctl_wf c' ∧ settled c'.
Proof.
  intros Hp Hact. unfold release. rewrite st_bind_get, Hact. cbn [negb]. intros (kept & _ & Heq)%bind_lifted. rewrite st_bind_modify in Heq.
  apply (update_wf _ c') in Heq; [done|done|]. intros o. apply count_owners_spec.
Qed.

Lemma pres_release : pres ctl_wf (release : st controller unit).
Proof.
  intros c c' [] Hwf Heq. destruct (ct_accounting_active c) eqn:Hact; [by apply (release_wf c c' (cw_plan _ Hwf) Hact Heq)|].
  unfold release in Heq. rewrite st_bind_get, Hact in Heq. cbn [negb] in Heq. by injection Heq as <-.
Qed.

Lemma pres_update : pres ctl_wf (update_available : st controller unit).
Proof. intros c c' [] Hwf Heq. by apply (update_wf c c' (cw_plan _ Hwf) (cw_used _ Hwf)). Qed.

Lemma keeps_metric {T} (f : controller → T) m n : (∀ c t, f (c <| ct_metrics := t |>) = f c) → keeps f (metric m n).
Proof. intros Hf c c' a. unfold metric. destruct (metrics_count m n (ct_metrics c)); [|done]. intros [= <- _]. apply Hf. Qed.
Lemma keeps_on_metrics {T} (f : controller → T) g : (∀ c t, f (c <| ct_metrics := t |>) = f c) → keeps f (on_metrics g).
Proof. intros Hf c c' a. unfold on_metrics. destruct (g (ct_metrics c)); [|done]. intros [= <- _]. apply Hf. Qed.

End accounting.

(** The calls that leave the accounting alone. *)
Ltac core_leaf :=
  idtac; lazymatch goal with
  | |- pres ctl_wf (metric _ _) => by apply pres_core, keeps_metric
  | |- pres ctl_wf (on_metrics _) => by apply pres_core, keeps_on_metrics
  | |- pres ctl_wf (on_manager _) => by apply pres_core, keeps_on_manager
  | |- pres ctl_wf (st_modify _) => apply pres_core, keeps_modify; intros ?; reflexivity
  | |- pres ctl_wf release => apply pres_release
  | |- pres ctl_wf update_available => apply pres_update
  end.

Ltac core_keeps :=
  repeat (first
    [ by apply keeps_metric | by apply keeps_on_metrics | by apply keeps_on_manager
    | lazymatch goal with
      | |- keeps _ (_ ≫= _) => apply keeps_bind; [|intros ?]
      | |- keeps _ (st_when _ _) => apply keeps_when
      | |- keeps _ (mret _) => apply keeps_ret
      | |- keeps _ st_get => apply keeps_get
      | |- keeps _ (st_lift _) => apply keeps_lift
      | |- keeps _ (st_raise _) => apply keeps_raise
      | |- keeps _ (st_modify _) => apply keeps_modify; intros ?; reflexivity
      | |- keeps _ (if ?b then _ else _) => destruct b
      | |- keeps _ (match ?x with _ => _ end) => destruct x
      end ]).

Section operations.
Context {F E : Type} `{PyFloat F}.
Context (log1p : F → res F) (set_iter : gset string → list string).
Notation controller := (SchedulingController F).
Notation sched := (st controller).
Notation req := (Request F E).
Implicit Types (c : controller) (r : req).

Lemma pres_num_blocks rid tokens blocks enc comp main cap : pres ctl_wf (num_blocks_to_allocate rid tokens blocks enc comp main cap : sched Z).
Proof. unfold num_blocks_to_allocate. pres_steps core_leaf. Qed.
Lemma pres_remaining r b : pres ctl_wf (remaining_growth r b).
Proof. unfold remaining_growth. pres_steps ltac:(core_leaf || apply pres_num_blocks). Qed.
Lemma pres_demand r n blocks enc : pres ctl_wf (admission_demand r n blocks enc).
Proof. unfold admission_demand. pres_steps ltac:(core_leaf || apply pres_num_blocks). Qed.
Lemma pres_growth_wait r b t1 t2 : pres ctl_wf (record_growth_wait r b t1 t2).
Proof. unfold record_growth_wait. pres_steps core_leaf. Qed.

Ltac op_leaf :=
  idtac; first [ core_leaf | apply pres_num_blocks | apply pres_remaining | apply pres_demand | apply pres_growth_wait ].

Lemma pres_can_grow r n t1 t2 : pres ctl_wf (can_grow r n t1 t2).
Proof. unfold can_grow. pres_steps op_leaf. Qed.
Lemma pres_prepare r : pres ctl_wf (prepare_running r).
Proof. unfold prepare_running. pres_steps op_leaf. Qed.
Lemma pres_cap a b : pres ctl_wf (cap_prefill a b : sched Z).
Proof. unfold cap_prefill. pres_steps op_leaf. Qed.
Lemma pres_defer_lookup r n blocks : pres ctl_wf (defer_cache_lookup r n blocks).
Proof. unfold defer_cache_lookup. pres_steps op_leaf. Qed.
Lemma pres_can_allocate r a b blocks d e f g : pres ctl_wf (can_allocate r a b blocks d e f g).
Proof. unfold can_allocate. pres_steps op_leaf. Qed.
Lemma pres_history k f : pres ctl_wf (with_history k f : sched unit).
Proof. unfold with_history. pres_steps op_leaf. Qed.
Lemma pres_agent_event r f : pres ctl_wf (agent_event r f).
Proof. unfold agent_event. pres_steps ltac:(op_leaf || apply pres_history). Qed.
Lemma pres_defer r : pres ctl_wf (defer r).
Proof. unfold defer. pres_steps ltac:(op_leaf || apply pres_agent_event). Qed.
Lemma pres_preempt r b t1 t2 t3 : pres ctl_wf (preempt r b t1 t2 t3).
Proof. unfold preempt. pres_steps ltac:(op_leaf || apply pres_agent_event). Qed.
Lemma pres_finish r t1 t2 t3 : pres ctl_wf (finish r t1 t2 t3).
Proof. unfold finish. pres_steps ltac:(op_leaf || apply pres_history). Qed.
Lemma pres_cache_hits r a b blocks : pres ctl_wf (cache_hits r a b blocks).
Proof. unfold cache_hits. pres_steps op_leaf. Qed.
Lemma pres_executed a b d e f : pres ctl_wf (executed a b d e f : sched unit).
Proof. unfold executed, executed_one. pres_steps op_leaf. Qed.
Lemma pres_affinity r : pres ctl_wf (active_prefix_affinity r).
Proof. unfold active_prefix_affinity. pres_steps op_leaf. Qed.
Lemma pres_bands fuel band (l : list (req * queue_id)) : pres ctl_wf (order_bands fuel band l).
Proof.
  revert l; induction fuel as [|fuel IH]; intros l; cbn [order_bands]; [apply pres_ret|]. destruct l as [|[r q] rest]; [apply pres_ret|].
  unfold by_affinity. pres_steps ltac:(op_leaf || apply pres_affinity || apply IH).
Qed.
Lemma pres_order (l : list (req * queue_id)) : pres ctl_wf (order_candidates l).
Proof. unfold order_candidates. pres_steps ltac:(op_leaf || apply pres_bands). Qed.
Lemma pres_victim r running a b f : pres ctl_wf (victim r running a b f).
Proof. unfold victim. pres_steps op_leaf. Qed.

(** *** Commit *)

(** What holds between charging the blocks and offering the rest. *)
Definition half_wf c : Prop := plan_ok (ct_plan c) ∧ used_ok c.
Lemma pres_half {A} (m : sched A) : keeps core m → pres half_wf m.
Proof.
  intros Hm c c' a [Hp Hu] Heq. pose proof (Hm _ _ _ Heq) as [= Hpl _ _ Hc Hus]. split; [by rewrite Hpl|].
  intros o. specialize (Hu o). unfold used_by in *. by rewrite Hc, Hus.
Qed.

Lemma keeps_remaining r b : keeps core (remaining_growth r b).
Proof. unfold remaining_growth, num_blocks_to_allocate. core_keeps. Qed.

Lemma keeps_admission r md t1 t2 : keeps (fun c => (core c, uncommitted_blocks c)) (record_admission r md t1 t2).
Proof. unfold record_admission, with_history. core_keeps. Qed.

Lemma uncharged_spec c r running blocks :
  NoDup (uncharged c r running blocks) ∧ ∀ b, b ∈ uncharged c r running blocks → ct_charges c !! b = None.
Proof.
  unfold uncharged. set (ids := match running, blocks with true, Some _ => _ | _, _ => _ end). split.
  - rewrite py_sorted_perm. apply NoDup_elements.
  - intros b. rewrite py_sorted_perm. intros [_ Hb]%elem_of_elements%elem_of_difference. by apply not_elem_of_dom.
Qed.

Lemma commit_wf c r running enc blocks b t1 t2 c' :
  ctl_wf c → commit r running enc blocks b t1 t2 c = Ok (c', tt) → ctl_wf c' ∧ settled c'.
Proof.
  intros Hwf. unfold commit. rewrite st_bind_get. cbn zeta. destruct (uncharged_spec c r running blocks) as [Hnd Hnew].
  set (ids := uncharged c r running blocks) in *. destruct (consumption_spec c r (lenZ ids) b (ctl_offer c Hwf) ltac:(lia)) as (out & Hout & Hcase).
  rewrite (st_bind_lift _ _ _ _ Hout).
  match goal with |- context [match ?u with Some _ => _ | None => st_raise AssertionError end] => assert (∀ usage, u = Some usage →
    (∀ o n, (o, n) ∈ usage → 0 <= n) ∧ sumZ snd usage = lenZ ids ∧ ∀ k n, (Some k, n) ∈ usage → k ∈ (ct_reserved_available c).*1) as Hu;
    [|destruct u as [usage|]; [|done]] end.
  { destruct out as [usage|].
    - intros usage' [= <-]. destruct Hcase as (_ & Hsum & [_ Ha] & Hk & _). split_and!; try done. intros o n Hin. by apply (Ha o).
    - destruct (running || _); [|done]. intros usage' [= <-]. split_and!; [|cbn; lia|].
      + intros o n [[= -> ->]|Hin]%elem_of_cons; [lia|by apply elem_of_nil in Hin].
      + intros k n [?|?%elem_of_nil]%elem_of_cons; done. }
  destruct (Hu usage eq_refl) as (Hn & Hsum & Hk). destruct (charge_spec usage ids c Hnd Hnew Hn Hsum Hk (cw_used _ Hwf)) as (c1 & Hch & Hu1 & _ & Hp1 & _).
  st_step Hch. assert (half_wf c1) as Hh by (split; [rewrite Hp1; apply (cw_plan _ Hwf)|done]). clear -Hh. intros Heq.
  rewrite st_bind_modify in Heq. set (c2 := c1 <| ct_admitted ::= _ |> <| ct_prefill_limits ::= _ |>) in Heq. assert (half_wf c2) as Hh2 by exact Hh. clearbody c2.
  apply st_bind_Ok in Heq as (c3 & g & H3 & Heq). apply (pres_half _ (keeps_remaining r false) _ _ _ Hh2) in H3. rewrite st_bind_modify in Heq.
  set (c4 := c3 <| ct_growth_commitments ::= _ |>) in Heq. assert (half_wf c4) as Hh4 by exact H3. clearbody c4.
  apply st_bind_Ok in Heq as (c5 & [] & H5 & Heq).
  assert (half_wf c5) as Hh5.
  { revert H5. apply pres_half; [|done]. apply keeps_when, keeps_bind; [apply keeps_remaining|]. intros inputs. core_keeps. }
  rewrite st_bind_modify in Heq. set (c6 := c5 <| ct_retry_capacity ::= _ |> <| ct_reservation_deferred ::= _ |>) in Heq.
  assert (half_wf c6) as Hh6 by exact Hh5. clearbody c6.
  apply st_bind_Ok in Heq as (c7 & [] & H7 & Heq). assert (half_wf c7) as Hh7 by (revert H7; apply pres_half; [core_keeps|done]).
  apply st_bind_Ok in Heq as (c8 & [] & H8 & Heq). assert (half_wf c8) as [Hp8 Hu8] by (revert H8; apply pres_half; [core_keeps|done]).
  apply st_bind_Ok in Heq as (c9 & [] & H9 & Heq). destruct (update_wf c8 c9 Hp8 Hu8 H9) as [Hwf9 (u & Hu9 & Hoff)].
  destruct (ct_metadata c !! rq_request_id r) as [md|]; [|injection Heq as <-; by split; [|exists u]].
  apply keeps_admission in Heq. pose proof (f_equal fst Heq) as Hcore. pose proof (f_equal snd Heq) as Hun. cbn [fst snd] in Hcore, Hun.
  split; [by apply (ctl_core c9)|]. exists u. rewrite Hun. split; [done|].
  injection Hcore as Hpl Hsh Hre Hcg Hus. unfold offered, unused_shares, used_by in *. by rewrite Hsh, Hre, Hpl, Hus.
Qed.

End operations.

(** ** The capacity plan *)

Section plan.
Context `{PyFloat F}.
Context (log1p : F → res F) (set_iter : gset string → list string).

Lemma hand_out_keys rem (rows : list (string * F * Z)) counts : hand_out rem rows = Ok counts → counts.*1 = (fun row => row.1.1) <$> rows.
Proof.
  unfold hand_out. destruct (mapM _ rows); [|done]. intros [= <-]. rewrite <- list_fmap_compose.
  apply list_fmap_ext. by intros _ [[? ?] ?] _.
Qed.

Lemma partition_keys scores importance used total rr cr pl :
  partition_capacity set_iter scores importance used total rr cr = Ok pl →
  (pl_reserved pl).*1 = py_sorted String.ltb (elements (pl_critical pl)) ∧ pl_scores pl = scores ∧
  ∀ k, k ∈ pl_critical pl → is_Some (scores !! k).
Proof.
  unfold partition_capacity. intros (ordered & _ & Hp)%bind_Ok. apply bind_Ok in Hp as (n & _ & Hp). apply bind_Ok in Hp as (top & _ & Hp).
  cbn zeta in Hp. set (critical := list_to_set _) in Hp. apply bind_Ok in Hp as (reserved & _ & Hp). apply bind_Ok in Hp as (cs & _ & Hp).
  apply bind_Ok in Hp as (weights & Hw & Hp). apply bind_Ok in Hp as (r & _ & Hp). apply bind_Ok in Hp as (rows & Hrows & Hp).
  apply bind_Ok in Hp as (counts & Hc & [= <-]). cbn. split_and!; [|done|].
  - apply (mapM_fmap _ (fun row => row.1.1) fst) in Hrows; [|by intros [k w] b (x & _ & (m & _ & [= <-])%bind_Ok)%bind_Ok].
    rewrite (hand_out_keys _ _ _ Hc), Hrows. apply fst_zip. by rewrite (mapM_length _ _ _ Hw).
  - intros k Hk. destruct (mapM_lookup _ _ _ k Hw) as [w Hk']; [by rewrite py_sorted_perm, elem_of_elements|].
    unfold weight_of in Hk'. destruct (scores !! k); [by eexists|done].
Qed.

Lemma partition_ok scores importance used total rr cr pl :
  partition_capacity set_iter scores importance used total rr cr = Ok pl → plan_ok pl.
Proof.
  intros (Hk & Hs & Hc)%partition_keys. split.
  - unfold od_wf. rewrite Hk, py_sorted_perm. apply NoDup_elements.
  - intros k. rewrite Hk, py_sorted_perm, elem_of_elements, Hs. apply Hc.
  - intros k. by rewrite Hk, py_sorted_perm, elem_of_elements.
Qed.

(** *** The start of a step *)

Notation controller := (SchedulingController F).
Notation sched := (st controller).
Context {E : Type}.
Notation req := (Request F E).

Definition planned (c : controller) : Prop := plan_ok (ct_plan c).
(** The plan and whether charges are kept: what the first half of a step leaves alone. *)
Definition frame (c : controller) := (ct_plan c, ct_accounting_active c).

Lemma keeps_dict {A} (keep : req → bool) (f : req → sched A) l : (∀ r, keeps frame (f r)) → keeps frame (dict_of keep f l).
Proof.
  intros Hf. apply keeps_bind; [|intros rows; apply keeps_ret]. apply keeps_mapM. intros r. apply keeps_bind; [apply Hf|intros x; apply keeps_ret].
Qed.
Lemma frame_remaining (r : req) b : keeps frame (remaining_growth r b).
Proof. unfold remaining_growth, num_blocks_to_allocate. core_keeps. Qed.

Lemma replan_planned w (requests : list req) : pres planned (replan log1p set_iter w requests).
Proof.
  intros c c' [] Hp. unfold replan. rewrite st_bind_get. destruct (agent_types c requests) as [importance used].
  intros (rows & _ & Heq)%bind_lifted. cbn zeta in Heq. apply bind_lifted in Heq as (pl & Hpl & Heq). injection Heq as <-. by apply partition_ok in Hpl.
Qed.

Lemma replan_active w (requests : list req) : keeps ct_accounting_active (replan log1p set_iter w requests).
Proof. unfold replan. apply keeps_bind; [apply keeps_get|intros c]. destruct (agent_types c requests). core_keeps. Qed.

Lemma adopt_frame (running : list req) (c : controller) : frame (adopt_running running c) = frame c.
Proof. unfold adopt_running. revert c; induction running as [|r l IH]; intros c; cbn; [done|by rewrite IH]. Qed.

Lemma keeps_release : keeps ct_accounting_active (release : sched unit).
Proof. unfold release, update_available. core_keeps. Qed.

(** A step that finds associated requests ends in [release]; one that finds none drops the accounting. *)
Lemma begin_step_wf waiting (running : list req) now c c' b :
  ctl_wf c → begin_step log1p set_iter waiting running now c = Ok (c', b) →
  ctl_wf c' ∧ ct_accounting_active c' = b ∧ (b = true → settled c').
Proof.
  intros Hwf. unfold begin_step. rewrite st_bind_modify, st_bind_get. destruct (bool_decide _).
  { rewrite st_bind_modify. intros [= <- <-]. destruct Hwf. split_and!; [|done|done]. by split. }
  rewrite st_bind_modify, st_bind_get. pose proof (adopt_frame running (clear_step c)) as Hf0.
  set (c0 := adopt_running running (clear_step c)) in *. assert (planned c0) as Hp0 by (unfold planned; rewrite (f_equal fst Hf0 : ct_plan c0 = _); apply Hwf).
  clearbody c0. clear Hf0 Hwf. intros (c1 & growth & H1 & Heq)%st_bind_Ok.
  apply (keeps_dict _ _ _ (fun r => frame_remaining r false)) in H1. rewrite st_bind_modify in Heq.
  apply st_bind_Ok in Heq as (c2 & [] & H2 & Heq). assert (frame c2 = frame (c1 <| ct_growth_commitments := growth |>)) as Hf2.
  { revert H2. apply keeps_when, keeps_bind; [apply keeps_dict; intros r; apply frame_remaining|intros ?; by apply keeps_modify]. }
  apply st_bind_Ok in Heq as (c3 & scores & H3 & Heq). assert (frame c3 = frame c2) as Hf3.
  { revert H3. apply keeps_dict. intros r. core_keeps. }
  rewrite st_bind_modify in Heq. apply st_bind_Ok in Heq as (c4 & [] & H4 & Heq). assert (frame c4 = frame (c3 <| ct_agent_scores := scores |> <| ct_scores := scores |>)) as Hf4.
  { revert H4. apply keeps_when. core_keeps. }
  rewrite st_bind_modify in Heq. assert (frame c4 = frame c0) as Hf by exact (eq_trans Hf4 (eq_trans Hf3 (eq_trans Hf2 H1))). clear -Hp0 Hf Heq.
  apply st_bind_Ok in Heq as (c5 & [] & H5 & Heq). injection Hf as Hpl Hact.
  assert (ct_plan c5 = ct_plan c0 ∧ ct_accounting_active c5 = true) as [Hpl5 Hact5].
  { destruct (ct_accounting_active c0) eqn:Hc0; cbn in H5; injection H5 as <-; by split. }
  rewrite st_bind_get in Heq. apply bind_lifted in Heq as (w & _ & Heq). rewrite st_bind_modify in Heq.
  apply st_bind_Ok in Heq as (c6 & [] & H6 & Heq).
  assert (planned c6) as Hp6. { revert H6. apply pres_when; [apply replan_planned|]. unfold planned. cbn. by rewrite Hpl5. }
  assert (ct_accounting_active c6 = true) as Hact6. { rewrite <- Hact5. change (ct_accounting_active c5) with (ct_accounting_active (c5 <| ct_waiting_scores := ws_scores w |>)). revert H6. apply (keeps_when ct_accounting_active), replan_active. }
  rewrite st_bind_modify in Heq. apply st_bind_Ok in Heq as (c7 & [] & H7 & Heq). injection Heq as <- <-.
  pose proof (keeps_release _ _ _ H7) as Hact7. apply release_wf in H7 as [Hwf7 Hs7]; [|done..].
  split_and!; [done| |done]. by rewrite Hact7.
Qed.

End plan.
