(* ===== verification/CapacityThms.v ===== *)
(** * Agent scheduling: capacity over a history

    The states of the controller the scheduler can drive it to, what holds in all of
    them, and that a request admitted by [can_allocate] can be allocated and charged. *)

From S2P Require Import Prelude PyFloat Metrics Protocol Request BlockHash FreeQueue BlockPool BlockPoolThms SingleType.
From S2P Require Import KVManager KVManagerThms Scheduling SchedulingThms.

Section history.
Context {F E : Type} `{PyFloat F}.
Context (log1p : F → res F) (set_iter : gset string → list string).
Notation controller := (SchedulingController F).
Notation sched := (st controller).
Notation req := (Request F E).
Implicit Types (c : controller) (r : req).

(** What the scheduler calls. *)
Inductive ctl_call : ∀ {A : Type}, sched A → Prop :=
  | call_associate rid md t : ctl_call (associate rid md t)
  | call_begin waiting (running : list req) now : ctl_call (begin_step log1p set_iter waiting running now)
  | call_grow r n t1 t2 : ctl_call (can_grow r n t1 t2)
  | call_prepare r : ctl_call (prepare_running r)
  | call_cap a b : ctl_call (cap_prefill a b)
  | call_lookup r n blocks : ctl_call (defer_cache_lookup r n blocks)
  | call_allocate r nnew nnc blocks nla ext enc b : ctl_call (can_allocate r nnew nnc blocks nla ext enc b)
  | call_commit r running enc blocks b t1 t2 : ctl_call (commit r running enc blocks b t1 t2)
  | call_defer r : ctl_call (defer r)
  | call_preempt r b t1 t2 t3 : ctl_call (preempt r b t1 t2 t3)
  | call_finish r t1 t2 t3 : ctl_call (finish r t1 t2 t3)
  | call_release : ctl_call release
  | call_hits r a b blocks : ctl_call (cache_hits r a b blocks)
  | call_executed cached new scheduled returned failed : ctl_call (executed cached new scheduled returned failed)
  | call_order (l : list (req * queue_id)) : ctl_call (order_candidates l)
  | call_victim r running a b f : ctl_call (victim r running a b f).

(** The cache manager is shared with the scheduler, which changes it between the calls. *)
Inductive ctl_reach : controller → Prop :=
  | ctl_new settings k t n : ctl_reach (controller_init settings k t n)
  | ctl_manager c k : ctl_reach c → ctl_reach (c <| ct_manager := k |>)
  | ctl_step A (m : sched A) c c' a : ctl_reach c → ctl_call m → m c = Ok (c', a) → ctl_reach c'.

Lemma call_wf A (m : sched A) : ctl_call m → pres ctl_wf m.
Proof.
  destruct 1; eauto using pres_can_grow, pres_prepare, pres_cap, pres_defer_lookup, pres_can_allocate, pres_defer, pres_preempt,
    pres_finish, pres_release, pres_cache_hits, pres_executed, pres_order, pres_victim.
  - apply pres_core, keeps_modify. by intros ?.
  - intros c c' a Hwf Heq. by apply (begin_step_wf _ _ _ _ _ _ _ _ Hwf Heq).
  - intros c c' [] Hwf Heq. by apply (commit_wf _ _ _ _ _ _ _ _ _ Hwf Heq).
Qed.

Lemma init_wf settings k t n : ctl_wf (controller_init settings k t n : controller).
Proof. split; try done; [|intros ? ? ?%elem_of_nil; done]. split; [apply NoDup_nil_2|by intros ? ?%elem_of_nil|]. intros k'. cbn. set_solver. Qed.

Lemma reach_wf c : ctl_reach c → ctl_wf c.
Proof.
  induction 1 as [settings k t n|c k _ IH|A m c c' a _ IH Hm Heq]; [apply init_wf|by destruct IH|].
  by apply (call_wf _ _ Hm c c' a).
Qed.

(** C8. In every state the scheduler can drive the controller to, the counter of used
    blocks of each owner is the number of blocks charged to it, no availability is
    negative, and the reservations are those of the critical agents of the plan. *)
Theorem controller_accounting c :
  ctl_reach c →
  (∀ o, used_by c o = charged (ct_charges c) o) ∧ 0 <= ct_shared_available c ∧
  (∀ k n, (k, n) ∈ ct_reserved_available c → 0 <= n) ∧ NoDup (ct_reserved_available c).*1 ∧
  (∀ k, k ∈ (ct_reserved_available c).*1 ↔ k ∈ pl_critical (ct_plan c)).
Proof.
  intros [[Hk _ Hc] Hs Hr Hkeys Hu]%reach_wf. split_and!; try done; [by rewrite Hkeys|]. intros k. by rewrite Hkeys, Hc.
Qed.

(** The calls that end in [_update_available]. *)
Inductive recomputes c c' : Prop :=
  | after_begin waiting (running : list req) now : begin_step log1p set_iter waiting running now c = Ok (c', true) → recomputes c c'
  | after_commit r running enc blocks b t1 t2 : commit r running enc blocks b t1 t2 c = Ok (c', tt) → recomputes c c'
  | after_release : ct_accounting_active c = true → release c = Ok (c', tt) → recomputes c c'.

(** After a step has begun, after a commit and after a release, what is offered to
    new requests, the shared blocks and all reservations together, is exactly the
    smaller of what the shares of the plan leave and of the free blocks that are not
    promised to admitted requests. *)
Theorem capacity_offered c c' :
  ctl_reach c → recomputes c c' →
  ∃ u, uncommitted_blocks c' = Ok u ∧ offered c' = Z.min (unused_shares c') (Z.max 0 u).
Proof.
  intros Hwf%reach_wf [waiting running now Heq|r running enc blocks b t1 t2 Heq|Hact Heq].
  - by apply (begin_step_wf _ _ _ _ _ _ _ _ Hwf Heq).
  - by apply (commit_wf _ _ _ _ _ _ _ _ _ Hwf Heq).
  - by apply (release_wf _ _ (cw_plan _ Hwf) Hact Heq).
Qed.

(** [_consumption] is exact: it never raises, it finds the capacity for [d] blocks
    if and only if the shared blocks, the reservation of the request's own critical
    agent and the reservations it may borrow from hold [d] together, the amounts it
    names add up to [d], each owner is named once for no more than it has, and an
    owner other than the request's agent is one it may borrow from. *)
Theorem consumption_exact c r d b :
  ctl_reach c → 0 <= d →
  ∃ out, consumption c r d b = Ok out ∧ (is_Some out ↔ d <= usable c r b) ∧
    ∀ usage, out = Some usage → sumZ snd usage = d ∧ NoDup usage.*1 ∧
      (∀ o n, (o, n) ∈ usage → 0 <= n <= available_to c o) ∧
      (∀ k n, (Some k, n) ∈ usage →
         (md_agent_type <$> ct_metadata c !! rq_request_id r) = Some k ∨ may_borrow c (rq_request_id r) b k = true).
Proof.
  intros Hwf%reach_wf Hd. destruct (consumption_spec c r d b (ctl_offer _ Hwf) Hd) as (out & Heq & Hcase). exists out. split; [done|].
  destruct out as [usage|].
  - destruct Hcase as (Hle & Hsum & [Hnd Hav] & _ & Hwho). split; [by split|]. by intros ? [= <-].
  - split; [|done]. split; [by intros []|lia].
Qed.

End history.

(** ** Admission *)

Section admission.
Context {F E : Type} `{PyFloat F}.
Context (embeds_digest : E → Z → Z → string) (use_int_hashes : bool).
Notation controller := (SchedulingController F).
Notation sched := (st controller).
Notation req := (Request F E).
Implicit Types (c : controller) (r : req) (m : SingleTypeKVCacheManager) (l nc : list Z).

Lemma num_blocks_same c m l rid nt blocks nc enc tct ntm cap :
  km_state (ct_manager c) m l → blocks_of (ct_manager c) blocks = [nc] → (∀ b, b ∈ nc → in_pool (km_pool (ct_manager c)) b) →
  (is_Some (sm_num_cached_block m !! rid) → nc = []) →
  num_blocks_to_allocate rid nt blocks enc tct ntm cap c = Ok (c, demand m l rid nt nc tct cap).
Proof.
  intros Hks Hb Hin Hca. unfold num_blocks_to_allocate. rewrite st_bind_get, Hb. unfold on_manager.
  rewrite (km_demand _ m l rid nt nc enc tct ntm cap Hks Hin Hca). by destruct c.
Qed.

Lemma demand_same_state c m l r blocks nc tct enc :
  km_state (ct_manager c) m l → blocks_of (ct_manager c) blocks = [nc] → (∀ b, b ∈ nc → in_pool (km_pool (ct_manager c)) b) →
  (is_Some (sm_num_cached_block m !! rq_request_id r) → nc = []) →
  pres (fun s => s = c) (admission_demand r tct blocks enc).
Proof.
  intros Hks Hb Hin Hca. unfold admission_demand.
  assert (∀ nt ntm, pres (fun s => s = c) (num_blocks_to_allocate (rq_request_id r) nt blocks enc tct ntm true)) as Hnb.
  { intros nt ntm s s' a -> Heq. rewrite (num_blocks_same c m l _ _ _ nc) in Heq by done. by injection Heq as <-. }
  pres_steps ltac:(idtac; apply Hnb).
Qed.

(** The blocks a request got from the free ones are as many as those that are gone. *)
Lemma taken_bound k m l k' m' l' rid (taken : list Z) :
  km_state k m l → km_state k' m' l' → same_config (km_pool k) (km_pool k') → held m rid = [] →
  (∀ rid', rid' ≠ rid → held m' rid' = held m rid') → NoDup taken →
  (∀ b, b ∈ taken → b ∈ held m' rid ∧ b ∈ l) → lenZ taken + lenZ l' <= lenZ l.
Proof.
  intros Hks Hks' (Hn & _) Hnone Hoth Hnd Htaken.
  assert (∀ b, b ∈ l' → b ∈ l) as Hsub.
  { intros b Hb. pose proof (free_range _ _ _ _ Hks' Hb) as Hr. apply (km_free_iff k m l b Hks); [lia|]. intros rid'.
    destruct (decide (rid' = rid)) as [->|Hne]; [rewrite Hnone; apply not_elem_of_nil|]. rewrite <- Hoth by done. by apply (km_free_iff k' m' l'). }
  assert (taken ++ l' ⊆+ l) as Hlen%submseteq_length; [|rewrite length_app in Hlen; lia].
  apply NoDup_submseteq.
  - apply NoDup_app. split_and!; [done| |apply (free_length _ l' (kv_wf _ _ _ (ks_kv _ _ _ Hks')))].
    intros b Hb Hb'. destruct (Htaken b Hb) as [Hh _]. pose proof (free_range _ _ _ _ Hks' Hb') as Hr.
    by apply (proj1 (km_free_iff k' m' l' b Hks' Hr) Hb' rid).
  - intros b [Hb|Hb]%elem_of_app; [by apply Htaken|by apply Hsub].
Qed.

Lemma held_blocks k m l rid : km_state k m l → concat (km_get_block_ids k rid) = held m rid.
Proof.
  intros Hks. unfold km_get_block_ids, km_get_blocks, kc_get_blocks, create_kv_cache_blocks. rewrite (ks_managers _ _ _ Hks). cbn.
  fold (held m rid). rewrite orb_false_r. destruct (Z.eqb_spec (lenZ (held m rid)) 0) as [Hz|Hz]; cbn; [|by rewrite app_nil_r].
  destruct (held m rid); [|done]. by induction (km_num_kv_cache_groups k).
Qed.

Lemma real_block k m l b : km_state k m l → in_pool (km_pool k) b → block_is_null (km_pool k) b = false → b ≠ 0.
Proof.
  intros Hks Hb Hnull ->. pose proof (proj2 (kv_wf _ _ _ (ks_kv _ _ _ Hks))) as Hd. unfold block_is_null in Hnull.
  destruct (proj2 (dw_dom _ _ _ _ Hd 0)) as [d Hd0]; [left; unfold in_pool in Hb; lia|]. pose proof (dw_null _ _ _ _ Hd 0 d Hd0) as Hn.
  apply pool_data_block in Hd0 as (blk & Hblk & ->). rewrite Hblk in Hnull. rewrite bool_decide_true in Hn by done. cbn in Hn. congruence.
Qed.

(** The blocks [commit] has to charge for a request that had none. *)
Lemma uncharged_bound c m l k' m' l' r :
  km_state (ct_manager c) m l → km_state k' m' l' → same_config (km_pool (ct_manager c)) (km_pool k') →
  held m (rq_request_id r) = [] → (∀ rid', rid' ≠ rq_request_id r → held m' rid' = held m rid') →
  (∀ rid b, b ∈ held m rid → b ≠ 0 → is_Some (ct_charges c !! b)) →
  lenZ (uncharged (c <| ct_manager := k' |>) r false None) + lenZ l' <= lenZ l.
Proof.
  intros Hks Hks' Hc Hnone Hoth Hch. pose proof Hc as (Hn & _). set (c' := c <| ct_manager := k' |>).
  destruct (uncharged_spec c' r false None) as [Hnd Hnew].
  apply (taken_bound (ct_manager c) m l k' m' l' (rq_request_id r)); try done. intros b Hb. pose proof (Hnew b Hb) as Hfresh.
  unfold uncharged in Hb. rewrite py_sorted_perm in Hb. apply elem_of_elements, elem_of_difference in Hb as [Hb _].
  unfold block_ids, real_blocks in Hb. apply elem_of_list_to_set, list_elem_of_filter in Hb as [Hnull Hb].
  change (ct_manager c') with k' in Hnull, Hb. rewrite (held_blocks k' m' l') in Hb by done.
  destruct (kv_held _ _ _ (rq_request_id r) (ks_kv _ _ _ Hks')) as [Hin _]. specialize (Hin b Hb). pose proof (real_block k' m' l' b Hks' Hin Hnull) as Hb0.
  split; [done|]. apply (km_free_iff _ m l b Hks); [unfold in_pool in Hin; lia|]. intros rid Hrid. destruct (Hch rid b Hrid Hb0) as [o Ho].
  change (ct_charges c') with (ct_charges c) in Hfresh. congruence.
Qed.

(** What [can_allocate] checked when it admits a request that holds no block. *)
Lemma can_allocate_spec c m l r nnew nnc ncb nla ext nc enc b c' :
  let rid := rq_request_id r in
  let total := rq_num_computed_tokens r + nnc + ext in
  km_state (ct_manager c) m l → slot_request (ct_manager c) m r nnew nnc (default EmptyBlocks ncb) nla ext nc → held m rid = [] →
  ct_admitted c !! rid = None → can_allocate r nnew nnc ncb nla ext enc b c = Ok (c', true) →
  ∃ k1 m1 l1 d u usage pb, c' = c <| ct_manager := k1 |> <| ct_priority_borrowed := pb |> ∧
    km_state k1 m1 l1 ∧ slot_request k1 m1 r nnew nnc (default EmptyBlocks ncb) nla ext nc ∧ (∀ rid', held m1 rid' = held m rid') ∧
    demand m1 l1 rid (slots_needed k1 r nnew nnc nla ext) nc total false <= d ∧
    uncommitted_blocks (c <| ct_manager := k1 |>) = Ok u ∧ d <= u ∧ consumption (c <| ct_manager := k1 |>) r d b = Ok (Some usage).
Proof.
  intros rid total Hks Hsr Hnone Hadm. unfold can_allocate. rewrite st_bind_get. fold rid. rewrite bool_decide_false by by rewrite Hadm; intros [].
  fold total. pose proof (sr_computed _ _ _ _ _ _ _ _ _ Hsr) as Hcomp. fold total in Hcomp.
  destruct (km_skip (ct_manager c) m l rid total Hks) as (k1 & m1 & l1 & bs1 & Heq1 & Hks1 & Hk1 & Hc1 & Hm1 & [Hb1 Ho1] & Hlen1 & Hca1 & _ & Hh1).
  pose proof (sr_skip _ _ _ _ _ _ _ _ _ _ _ _ Hsr Hk1 Hc1 Hm1 (conj Hb1 Ho1) Hlen1 Hca1 Hh1) as Hsr1.
  rewrite Hnone in Hlen1. apply nil_length_inv in Hlen1 as ->.
  assert (∀ rid', held m1 rid' = held m rid') as Hheld.
  { intros rid'. destruct (decide (rid' = rid)) as [->|Hne]; [by rewrite Hb1, Hnone|by apply Ho1]. }
  pose proof (free_same _ _ _ _ _ _ Hks Hks1 Hc1 Hheld) as Hl1. set (c1 := c <| ct_manager := k1 |>).
  assert (on_manager (km_remove_skipped_blocks rid total) c = Ok (c1, tt)) as Hrm by (unfold on_manager, km_remove_skipped_blocks; by rewrite Heq1).
  st_step Hrm. rewrite st_bind_get.
  assert (free_blocks_of c =? free_blocks_of c1 = true) as ->.
  { apply Z.eqb_eq. unfold free_blocks_of. change (ct_manager c1) with k1.
    rewrite (num_free_wf _ l (kv_wf _ _ _ (ks_kv _ _ _ Hks))), (num_free_wf _ l1 (kv_wf _ _ _ (ks_kv _ _ _ Hks1))). by rewrite Hl1. }
  cbn [negb st_when]. rewrite (st_bind_eq _ (mret tt) c1 c1 tt) by done.
  pose proof (sr_pool _ _ l1 _ _ _ _ _ _ _ Hsr1) as (_ & Hin1 & Hres1). pose proof (sr_hits _ _ _ _ _ _ _ _ _ Hsr1) as Hhits1.
  st_step (num_blocks_same c1 m1 l1 rid (Z.min (Z.min total (km_max_model_len (ct_manager c)) + nnew + nla) (km_max_model_len (ct_manager c)))
    _ nc enc total (Z.min total (km_max_model_len (ct_manager c)) + nnew) false Hks1 Hhits1 Hin1 Hres1).
  intros (c2 & full & Hfull & Heq)%st_bind_Ok. pose proof (demand_same_state c1 m1 l1 r _ nc total enc Hks1 Hhits1 Hin1 Hres1 _ _ _ eq_refl Hfull) as ->.
  rewrite st_bind_get in Heq. apply bind_lifted in Heq as (u & Hu & Heq). set (d := Z.max _ full) in Heq.
  destruct (Z.ltb_spec u d) as [Hlt|Hle]. { by apply st_bind_Ok in Heq as (? & [] & _ & [=]). }
  match type of Heq with (if ?x then _ else _) _ = _ => destruct x end. { by apply st_bind_Ok in Heq as (? & [] & _ & [=]). }
  apply bind_lifted in Heq as ([usage|] & Hus & Heq).
  2: { apply st_bind_Ok in Heq as (? & [] & _ & Heq). by apply st_bind_Ok in Heq as (? & [] & _ & [=]). }
  match type of Heq with (st_when ?x _ ≫= _) _ = _ => assert (∃ pb, c' = c1 <| ct_priority_borrowed := pb |>) as [pb ->] end.
  { apply st_bind_Ok in Heq as (c3 & [] & H3 & [= <-]). unfold st_when in H3. destruct (_ && _); injection H3 as <-; [by eexists|].
    exists (ct_priority_borrowed c1). by destruct c1. }
  exists k1, m1, l1, d, u, usage, pb. split_and!; try done. unfold d, slots_needed.
  assert (km_max_model_len k1 = km_max_model_len (ct_manager c)) as -> by by rewrite Hk1.
  fold total. rewrite (Z.min_l total) by done. apply Z.le_max_l.
Qed.

Lemma usable_same c k pb r b : usable (c <| ct_manager := k |> <| ct_priority_borrowed := pb |>) r b = usable c r b.
Proof. done. Qed.

Definition growing (d : gmap string Z) : Prop := ∀ rid g, d !! rid = Some g → 0 <= g.

Lemma growing_sum d : growing d → 0 <= sum_map id d.
Proof. intros Hd. apply sumZ_nonneg. intros g ([rid g'] & -> & Hin%elem_of_map_to_list)%list_elem_of_fmap. by apply (Hd rid). Qed.

Lemma headroom_nonneg c : 0 <= generation_headroom c.
Proof.
  unfold generation_headroom. set (l := _ <$> map_to_list _).
  assert (∀ x, x ∈ l → 0 <= x) as Hl by (intros x ([rid g] & -> & _)%list_elem_of_fmap; lia).
  clearbody l. destruct l as [|x l]; [done|]. assert (0 <= x) as Hx by (apply Hl; left).
  assert (∀ y, y ∈ l → 0 <= y) as Hl' by (intros y Hy; apply Hl; by right). clear Hl.
  revert x Hx; induction l as [|y l IH]; intros x Hx; cbn; [done|]. apply IH; [intros z Hz; apply Hl'; by right|].
  pose proof (Hl' y ltac:(left)). lia.
Qed.

Lemma uncommitted_free c u :
  growing (ct_growth_commitments c) → growing (ct_prefill_growth c) → uncommitted_blocks c = Ok u → u <= free_blocks_of c.
Proof.
  intros Hg%growing_sum Hp%growing_sum. pose proof (headroom_nonneg c). unfold uncommitted_blocks.
  intros (n & Hn & [= <-])%bind_Ok. enough (0 <= n) by lia.
  destruct (ct_progress_reservation c); [injection Hn as <-; lia|]. destruct (ct_reclaim_reservation c); [|by injection Hn as <-].
  apply bind_Ok in Hn as (extra & Hex & [= <-]). enough (0 <= sumZ id extra) by lia. apply sumZ_nonneg. intros x Hx.
  apply (mapM_elem _ _ _ x Hex) in Hx as (key & _ & Hk). apply bind_Ok in Hk as (g & _ & Hk). apply bind_Ok in Hk as (p & _ & [= <-]). unfold id. lia.
Qed.

Context (log1p : F → res F) (set_iter : gset string → list string).

(** C7. A request that [can_allocate] admits is not refused afterwards, as long as every
    block in use is charged: [allocate_slots] does not raise, it returns blocks (unless
    the whole prompt must fit at once), and the blocks [commit] finds uncharged are
    covered by the capacity that was checked, so that its assertion
    "Native allocation exceeded admitted capacity" holds. *)
Theorem admission_sound c m r nnew nnc ncb nla ext nc delay enc must b c1 :
  let rid := rq_request_id r in
  ctl_reach (E := E) log1p set_iter c → km_reach embeds_digest use_int_hashes (F := F) (ct_manager c) →
  kc_managers (km_coordinator (ct_manager c)) = [m] →
  slot_request (ct_manager c) m r nnew nnc (default EmptyBlocks ncb) nla ext nc → held m rid = [] → ct_admitted c !! rid = None →
  (∀ rid b, b ∈ held m rid → b ≠ 0 → is_Some (ct_charges c !! b)) →
  can_allocate r nnew nnc ncb nla ext enc b c = Ok (c1, true) →
  ∃ k2 r2 out, allocate_slots embeds_digest use_int_hashes r nnew nnc ncb nla ext delay enc must (ct_manager c1) = Ok (k2, (r2, out)) ∧
    (must = false → growing (ct_growth_commitments c) → growing (ct_prefill_growth c) → out ≠ None) ∧
    (out ≠ None → let c2 := c1 <| ct_manager := k2 |> in
       ∃ usage, consumption c2 r (lenZ (uncharged c2 r false None)) b = Ok (Some usage)).
Proof.
  intros rid Hreach (m0 & l & Hks)%reach_state Hm Hsr Hnone Hadm Hch Hcan. rewrite (ks_managers _ _ _ Hks) in Hm. injection Hm as ->.
  destruct (can_allocate_spec c m l r nnew nnc ncb nla ext nc enc b c1 Hks Hsr Hnone Hadm Hcan)
    as (k1 & m1 & l1 & d & u & usage & pb & -> & Hks1 & Hsr1 & Hheld & Hd & Hu & Hdu & Hus).
  destruct (allocate_slots_spec embeds_digest use_int_hashes k1 m1 l1 r nnew nnc ncb nla ext nc delay enc must Hks1 Hsr1)
    as (k2 & m2 & l2 & r2 & out & Heq & _ & Hks2 & Hc2 & Hm2 & Hoth & _ & Hout).
  exists k2, r2, out. split; [exact Heq|]. fold rid in Hd, Hoth, Hout. rewrite Hheld, Hnone in Hout. split.
  - intros -> Hg Hp ->. destruct Hout as (_ & _ & _ & Hshort). specialize (Hshort eq_refl eq_refl).
    set (c1 := c <| ct_manager := k1 |>) in *. pose proof (uncommitted_free c1 u Hg Hp Hu) as Hfree. unfold free_blocks_of in Hfree. cbn in Hfree.
    rewrite (num_free_wf _ l1 (kv_wf _ _ _ (ks_kv _ _ _ Hks1))) in Hfree. lia.
  - intros Hsome. destruct out as [blocks|]; [|done]. destruct Hout as (_ & _ & Hleft & _). specialize (Hleft eq_refl).
    set (c1 := c <| ct_manager := k1 |>) in *. set (c2 := c <| ct_manager := k1 |> <| ct_priority_borrowed := pb |> <| ct_manager := k2 |>).
    cbn zeta. pose proof (reach_wf _ _ _ Hreach) as Hwf. pose proof (ctl_offer _ Hwf) as Hoff.
    pose proof (uncharged_bound c1 m1 l1 k2 m2 l2 r Hks1 Hks2 Hc2 ltac:(by rewrite Hheld) Hoth ltac:(intros rid' x; rewrite Hheld; apply Hch)) as Hub.
    destruct (consumption_spec c1 r d b) as (o1 & Ho1 & Hspec1); [by destruct Hoff|lia|]. rewrite Hus in Ho1. injection Ho1 as <-.
    destruct Hspec1 as [Hfit _].
    destruct (consumption_spec c2 r (lenZ (uncharged c2 r false None)) b) as (o2 & Ho2 & Hspec2); [by destruct Hoff|lia|].
    destruct o2 as [usage2|]; [by exists usage2|]. exfalso.
    change (usable c2 r b) with (usable c1 r b) in Hspec2. change (uncharged c2 r false None) with (uncharged (c1 <| ct_manager := k2 |>) r false None) in Hspec2. lia.
Qed.

End admission.

(** ** A small engine: five blocks of four tokens, two requests with the same prompt *)

Definition eng_hash (x : string * list Z * option (list extra_key)) : string := x.1.1 +:+ ".".
Definition eng_request (rid : string) (toks : list Z) : res (Request b64 unit) :=
  request_init no_len (Some (request_block_hasher no_digest eng_hash "none" 4)) 1 rid 0 0 (Some ex_sampling) None (flt 0)
    (Some toks) None (Some []) None None false false.
Definition eng_q : Request b64 unit := from_ok (eng_request "q" (seqZ 10 12)) ltac:(vm_compute; reflexivity).
Definition eng_w : Request b64 unit := from_ok (eng_request "w" (seqZ 10 13)) ltac:(vm_compute; reflexivity).
Definition eng_config : res (SchedulingConfig b64) := validate_scheduling [].
Definition eng_settings : SchedulingConfig b64 := from_ok eng_config ltac:(vm_compute; reflexivity).
Definition eng_extra : res (TokenCakeMetadata b64) := metadata_validate ex_metadata_json.
Definition eng_md : TokenCakeMetadata b64 := from_ok eng_extra ltac:(vm_compute; reflexivity).
Definition eng_log1p (x : b64) : res b64 := Ok x.
Definition eng_elements (s : gset string) : list string := elements s.

(** [eng_q] holds blocks 1 to 3, all cached, and [eng_w] hits them. *)
Definition eng_alloc := from_ok (allocate_slots no_digest false eng_q 12 0 None 0 0 false 0 true ex_k0) ltac:(vm_compute; reflexivity).
Definition eng_lookup := from_ok (get_computed_blocks eng_w eng_alloc.1) ltac:(vm_compute; reflexivity).
Definition eng_k : KVCacheManager := eng_lookup.1.
Definition eng_m : SingleTypeKVCacheManager := hd ex_m0 (kc_managers (km_coordinator eng_k)).
Definition eng_hits : KVCacheBlocks := SomeBlocks [[1; 2; 3]].

(** The controller when [eng_w] has arrived, and the step that finds it waiting. *)
Definition eng_c0 : SchedulingController b64 :=
  (from_ok (associate "w" eng_md (flt 0) (controller_init eng_settings eng_k metrics_init 0)) ltac:(vm_compute; reflexivity)).1.
Definition eng_begin (running : list (Request b64 unit)) : res (SchedulingController b64 * bool) :=
  begin_step eng_log1p eng_elements [eng_w] running (flt 1) eng_c0.
(** with [eng_q] running, and with [eng_q] finished but not freed yet *)
Definition eng_c1 := from_ok (eng_begin [eng_q]) ltac:(vm_compute; reflexivity).
Definition eng_c2 := from_ok (eng_begin []) ltac:(vm_compute; reflexivity).

Notation eng_reach := (ctl_reach (E := unit) eng_log1p eng_elements).

Lemma eng_km_reach : ex_reach eng_k.
Proof.
  assert (ex_reach eng_alloc.1) as Hr.
  { refine (reach_alloc no_digest false ex_k0 _ ex_m0 eng_q 12 0 None 0 0 [] false 0 true eng_alloc.2 ex_reach0 _ _ _).
    - vm_compute. reflexivity.
    - split; [reflexivity|left|lia|vm_compute; discriminate..|]; [|intros _; vm_compute; discriminate]. repeat split; vm_compute; discriminate.
    - rewrite <- surjective_pairing. exact (from_ok_eq _ _). }
  refine (reach_lookup no_digest false _ _ eng_w eng_lookup.2 Hr _). unfold eng_k. rewrite <- surjective_pairing. exact (from_ok_eq _ _).
Qed.

Lemma eng_reach0 : eng_reach eng_c0.
Proof. refine (ctl_step _ _ _ (associate "w" eng_md (flt 0)) _ _ tt (ctl_new _ _ _ _ _ _) (call_associate _ _ _ _ _) _). exact (from_ok_unit _ _). Qed.

Lemma eng_reach1 : eng_reach eng_c1.1.
Proof.
  refine (ctl_step _ _ _ (begin_step eng_log1p eng_elements [eng_w] [eng_q] (flt 1)) _ _ eng_c1.2 eng_reach0 (call_begin _ _ _ _ _) _).
  rewrite <- surjective_pairing. exact (from_ok_eq _ _).
Qed.
Lemma eng_reach2 : eng_reach eng_c2.1.
Proof.
  refine (ctl_step _ _ _ (begin_step eng_log1p eng_elements [eng_w] [] (flt 1)) _ _ eng_c2.2 eng_reach0 (call_begin _ _ _ _ _) _).
  rewrite <- surjective_pairing. exact (from_ok_eq _ _).
Qed.

Lemma controller_accounting_witness : used_by eng_c1.1 None = 3 ∧ charged (ct_charges eng_c1.1) None = 3.
Proof.
  destruct (controller_accounting eng_log1p eng_elements eng_c1.1 eng_reach1) as (Hu & _).
  assert (used_by eng_c1.1 None = 3) as Hused by (vm_compute; reflexivity). split; [exact Hused|]. rewrite <- Hu. exact Hused.
Defined.

Lemma capacity_offered_witness : offered eng_c1.1 = 1 ∧ ∃ u, uncommitted_blocks eng_c1.1 = Ok u ∧ offered eng_c1.1 = Z.min (unused_shares eng_c1.1) (Z.max 0 u).
Proof.
  split; [vm_compute; reflexivity|]. apply (capacity_offered eng_log1p eng_elements eng_c0 eng_c1.1 eng_reach0).
  apply (after_begin _ _ _ _ [eng_w] [eng_q] (flt 1)).
  assert (eng_c1.2 = true) as <- by (vm_compute; reflexivity). rewrite <- surjective_pairing. exact (from_ok_eq _ _).
Defined.

Lemma consumption_exact_witness :
  ∃ out, consumption eng_c1.1 eng_w 2 false = Ok out ∧ ¬ is_Some out ∧ usable eng_c1.1 eng_w false = 1.
Proof.
  destruct (consumption_exact eng_log1p eng_elements eng_c1.1 eng_w 2 false eng_reach1 ltac:(lia)) as (out & Heq & Hiff & _).
  assert (usable eng_c1.1 eng_w false = 1) as Hus by (vm_compute; reflexivity).
  exists out. split; [exact Heq|]. split; [rewrite Hiff, Hus; lia|exact Hus].
Defined.

Lemma eng_slots : slot_request eng_k eng_m eng_w 1 12 eng_hits 0 0 [1; 2; 3].
Proof.
  split; [reflexivity|right|lia|vm_compute; discriminate..|intros _; vm_compute; discriminate].
  split_and!; [vm_compute; reflexivity..| | |vm_compute; reflexivity|lia].
  - split; [refine (bool_decide_eq_true_1 _ _); vm_compute; reflexivity|]. intros b Hb.
    assert (b = 1 ∨ b = 2 ∨ b = 3) as [->|[->| ->]] by set_solver; (split; [split; vm_compute; congruence|intros _; vm_compute; discriminate]).
  - intros Hc. exfalso. revert Hc. vm_compute. discriminate.
Qed.

Lemma eng_blocks : sm_req_to_blocks eng_m = {["q" := [1; 2; 3]]}.
Proof. vm_compute. reflexivity. Qed.
Lemma only_holder (rid rid' : string) (bs : list Z) b : b ∈ default [] (({[rid := bs]} : gmap string (list Z)) !! rid') → b ∈ bs.
Proof. destruct (decide (rid' = rid)) as [->|Hne]; [by rewrite lookup_singleton_eq|]. rewrite lookup_singleton_ne by done. by intros ?%elem_of_nil. Qed.
Lemma eng_charged rid b : b ∈ held eng_m rid → b ≠ 0 → is_Some (ct_charges eng_c1.1 !! b).
Proof.
  unfold held. rewrite eng_blocks. intros Hb%only_holder _.
  assert (b = 1 ∨ b = 2 ∨ b = 3) as [->|[->| ->]] by set_solver; vm_compute; eexists; reflexivity.
Qed.
Lemma eng_manager1 : ct_manager eng_c1.1 = eng_k.
Proof. vm_compute. reflexivity. Qed.
Lemma eng_manager2 : ct_manager eng_c2.1 = eng_k.
Proof. vm_compute. reflexivity. Qed.
Definition eng_admit1 := from_ok (can_allocate eng_w 1 12 (Some eng_hits) 0 0 0 false eng_c1.1) ltac:(vm_compute; reflexivity).

Lemma growing_one : growing {["q" := 1]}.
Proof. intros rid g [_ <-]%lookup_singleton_Some. lia. Qed.
Lemma growing_none : growing ∅.
Proof. intros rid g Hg. by rewrite lookup_empty in Hg. Qed.

Lemma admission_sound_witness :
  ∃ k2 r2 out, allocate_slots no_digest false eng_w 1 12 (Some eng_hits) 0 0 false 0 false (ct_manager eng_admit1.1) = Ok (k2, (r2, out)) ∧ out ≠ None ∧
    ∃ usage, consumption (eng_admit1.1 <| ct_manager := k2 |>) eng_w (lenZ (uncharged (eng_admit1.1 <| ct_manager := k2 |>) eng_w false None)) false
             = Ok (Some usage).
Proof.
  destruct (admission_sound no_digest false eng_log1p eng_elements eng_c1.1 eng_m eng_w 1 12 (Some eng_hits) 0 0 [1; 2; 3] false 0 false false
    eng_admit1.1 eng_reach1) as (k2 & r2 & out & Heq & Hsome & Hus).
  - rewrite eng_manager1. exact eng_km_reach.
  - vm_compute. reflexivity.
  - rewrite eng_manager1. exact eng_slots.
  - vm_compute. reflexivity.
  - vm_compute. reflexivity.
  - exact eng_charged.
  - assert (eng_admit1.2 = true) as <- by (vm_compute; reflexivity). rewrite <- surjective_pairing. exact (from_ok_eq _ _).
  - assert (out ≠ None) as Hout.
    { apply Hsome; [reflexivity| |].
      - assert (ct_growth_commitments eng_c1.1 = {["q" := 1]}) as -> by (vm_compute; reflexivity). exact growing_one.
      - assert (ct_prefill_growth eng_c1.1 = ∅) as -> by (vm_compute; reflexivity). exact growing_none. }
    exists k2, r2, out. split; [exact Heq|]. split; [exact Hout|]. exact (Hus Hout).
Defined.

(** C34. The hypothesis of [admission_sound] matters: a step that starts the accounting
    charges the blocks of the waiting and running requests only, so the blocks of a
    finished request whose release is delayed are not charged.  A request that hits
    them is admitted for its missing blocks, allocated, and then fails the assertion of
    [commit], which counts the hits as well. *)
Theorem delayed_free_breaks_commit :
  ∃ (c c1 : SchedulingController b64) (k2 : KVCacheManager) (r2 : Request b64 unit) (blocks : KVCacheBlocks),
    eng_reach c ∧ ex_reach (ct_manager c) ∧
    can_allocate eng_w 1 12 (Some eng_hits) 0 0 0 false c = Ok (c1, true) ∧
    allocate_slots no_digest false eng_w 1 12 (Some eng_hits) 0 0 false 0 true (ct_manager c1) = Ok (k2, (r2, Some blocks)) ∧
    commit r2 false 0 None false (flt 1) (flt 1) (c1 <| ct_manager := k2 |>) = Err AssertionError.
Proof.
  set (a := from_ok (can_allocate eng_w 1 12 (Some eng_hits) 0 0 0 false eng_c2.1) ltac:(vm_compute; reflexivity)).
  set (s := from_ok (allocate_slots no_digest false eng_w 1 12 (Some eng_hits) 0 0 false 0 true (ct_manager a.1)) ltac:(vm_compute; reflexivity)).
  exists eng_c2.1, a.1, s.1, s.2.1, (default EmptyBlocks s.2.2). split_and!.
  - exact eng_reach2.
  - rewrite eng_manager2. exact eng_km_reach.
  - assert (a.2 = true) as <- by (vm_compute; reflexivity). rewrite <- surjective_pairing. exact (from_ok_eq _ _).
  - assert (Some (default EmptyBlocks s.2.2) = s.2.2) as -> by (vm_compute; reflexivity). rewrite <- !surjective_pairing. exact (from_ok_eq _ _).
  - vm_compute. reflexivity.
Qed.

(** ** Executed tokens and the order of the candidates *)

Lemma executed_counts_new_positions_witness :
  ∃ c', executed [("w", 3)] [] [("w", 5)] {["w"]} ∅ eng_c0 = Ok (c', tt) ∧ covered c' = 5.
Proof.
  destruct (executed_counts_new_positions [("w", 3)] [] [("w", 5)] {["w"]} ∅ eng_c0) as (c' & Heq & _ & Hcov & _).
  - exact metrics_init_wf.
  - intros rid. exact I.
  - intros rid n Hin. apply list_elem_of_singleton in Hin. injection Hin as _ ->. lia.
  - intros rid n Hin _. apply list_elem_of_singleton in Hin. injection Hin as -> _. apply list_elem_of_singleton. reflexivity.
  - exists c'. split; [exact Heq|].
    assert (match executed [("w", 3)] [] [("w", 5)] {["w"]} ∅ eng_c0 with
            | Ok (c, _) => (counter (ct_metrics c) EXECUTED_TOKENS, counter (ct_metrics c) RECOMPUTED_TOKENS) = (5, 0)
            | Err _ => False
            end) as Hc by (vm_compute; reflexivity).
    rewrite Heq in Hc. apply pair_equal_spec in Hc as [H1 H2]. rewrite H1, H2 in Hcov.
    change (covered eng_c0) with 0 in Hcov. change (counter (ct_metrics eng_c0) EXECUTED_TOKENS) with 0 in Hcov.
    change (counter (ct_metrics eng_c0) RECOMPUTED_TOKENS) with 0 in Hcov. lia.
Defined.

(** The better cached request goes first, though its score is lower by 400. *)
Definition eng_v : Request b64 unit := from_ok (eng_request "v" (seqZ 50 5)) ltac:(vm_compute; reflexivity).
Definition eng_scored : SchedulingController b64 := eng_c1.1 <| ct_scores := {["w" := 300; "v" := 700]} |>.
Definition eng_ordered : res (SchedulingController b64 * list (Request b64 unit * queue_id)) :=
  order_candidates [(eng_v, WaitingQueue); (eng_w, SkippedQueue)] eng_scored.
Definition eng_order := from_ok eng_ordered ltac:(vm_compute; reflexivity).

Lemma order_candidates_bounded_witness :
  (rq_request_id ∘ fst <$> eng_order.2) = ["w"; "v"] ∧ bounded eng_scored 500 eng_order.2.
Proof.
  split; [vm_compute; reflexivity|].
  assert (sc_cache_affinity_score_band (ct_settings eng_scored) = 500) as Hb by (vm_compute; reflexivity).
  destruct (order_candidates_bounded [(eng_v, WaitingQueue); (eng_w, SkippedQueue)] eng_scored eng_order.1 eng_order.2) as (_ & Hbound & _).
  - rewrite Hb. lia.
  - rewrite <- surjective_pairing. exact (from_ok_eq _ _).
  - rewrite Hb in Hbound. exact Hbound.
Defined.
