(* ===== verification/RequestQueue.v ===== *)
(** * Request queues

    Models vllm/v1/core/sched/request_queue.py: the first-come-first-served queue, a
    deque, and the priority queue, a list kept in heap order by [heapq] of the standard
    library, whose algorithms are written out.  A queue holds references to request
    objects, so its elements are of a type with decidable identity and the comparison
    [__lt__]; the theorems relate every operation to the list of the requests in the
    order in which they are served. *)

From Stdlib Require Import QArith.
From S2P Require Import Prelude PyFloat Protocol Request.
#[local] Open Scope Z_scope.

(** ** [heapq] *)

Section heapq.
Context {A : Type} (lt : A → A → bool).
Implicit Types (h : list A) (x y z : A) (i j p s : nat).

Definition parent i : nat := (i - 1) / 2.

(** [_siftdown(heap, startpos, pos)] with [newitem] taken out: the loop moves the parents
    that are larger down and puts the item where it stops. *)
Fixpoint siftdown (fuel : nat) h s p x : list A :=
  match fuel with
  | O => <[p := x]> h
  | S fuel =>
      if (s <? p)%nat then
        match h !! parent p with
        | Some y => if lt x y then siftdown fuel (<[p := y]> h) s (parent p) x else <[p := x]> h
        | None => <[p := x]> h
        end
      else <[p := x]> h
  end.

(** The loop of [_siftup]: the hole at [p] moves to a leaf along the smaller children. *)
Fixpoint sink (fuel : nat) h p : list A * nat :=
  match fuel with
  | O => (h, p)
  | S fuel =>
      let c := (2 * p + 1)%nat in
      match h !! c with
      | None => (h, p)
      | Some l =>
          match h !! S c with
          | Some r => if lt l r then sink fuel (<[p := l]> h) c else sink fuel (<[p := r]> h) (S c)
          | None => sink fuel (<[p := l]> h) c
          end
      end
  end.
Definition siftup h p : list A :=
  match h !! p with
  | Some x => let '(h', p') := sink (length h) h p in siftdown (S p') h' p p' x
  | None => h
  end.

Definition heappush h x : list A := siftdown (S (length h)) (h ++ [x]) 0 (length h) x.
Definition heappop h : res (A * list A) :=
  match last h with
  | None => Err IndexError
  | Some x =>
      match take (length h - 1) h with
      | [] => Ok (x, [])
      | y :: h' => Ok (y, siftup (x :: h') 0)
      end
  end.
Definition heapify h : list A := foldr (fun i h => siftup h i) h (seq 0 (length h / 2)).

(** *** The elements stay the same *)

Lemma insert_perm h i x y : h !! i = Some y → <[i := x]> h ≡ₚ x :: delete i h.
Proof.
  intros Hi. rewrite delete_take_drop, <- (take_drop_middle h i y Hi) at 1.
  rewrite insert_app_r_alt by (rewrite length_take; lia).
  rewrite length_take_le by (apply lookup_lt_Some in Hi; lia). rewrite Nat.sub_diag. cbn. by rewrite Permutation_middle.
Qed.

Lemma delete_perm h i y : h !! i = Some y → h ≡ₚ y :: delete i h.
Proof. intros Hi. rewrite <- (insert_perm h i y y Hi). by rewrite list_insert_id. Qed.

(** Moving an element into the hole leaves the others as they are. *)
Lemma hole_move h i j y : i ≠ j → (i < length h)%nat → h !! j = Some y → delete j (<[i := y]> h) ≡ₚ delete i h.
Proof.
  intros Hne Hi Hj. destruct (lookup_lt_is_Some_2 h i Hi) as [z Hz].
  assert (<[i := y]> h !! j = Some y) as Hj' by by rewrite list_lookup_insert_ne.
  apply (Permutation_cons_inv (a := y)). rewrite <- (delete_perm _ j y Hj'). rewrite (insert_perm h i y z Hz).
  done.
Qed.

Lemma siftdown_perm fuel h s p x : (p < length h)%nat → siftdown fuel h s p x ≡ₚ x :: delete p h.
Proof.
  revert h p; induction fuel as [|fuel IH]; intros h p Hp; destruct (lookup_lt_is_Some_2 h p Hp) as [z Hz]; cbn [siftdown];
    [by apply (insert_perm h p x z)|].
  destruct (Nat.ltb_spec s p) as [Hs|Hs]; [|by apply (insert_perm h p x z)].
  destruct (h !! parent p) as [y|] eqn:Hy; [|by apply (insert_perm h p x z)].
  destruct (lt x y); [|by apply (insert_perm h p x z)].
  assert (parent p < p)%nat as Hlt by (unfold parent; assert ((p - 1) / 2 <= p - 1)%nat by (apply Nat.Div0.div_le_upper_bound; lia); lia).
  rewrite IH by (rewrite length_insert; lia). apply Permutation_cons; [done|]. apply hole_move; [lia|done..].
Qed.

Lemma sink_perm fuel h p h' p' :
  (p < length h)%nat → sink fuel h p = (h', p') → (p' < length h')%nat ∧ length h' = length h ∧ delete p' h' ≡ₚ delete p h.
Proof.
  revert h p; induction fuel as [|fuel IH]; intros h p Hp; cbn [sink]; [by intros [= <- <-]|].
  assert (∀ j y, p ≠ j → h !! j = Some y → sink fuel (<[p := y]> h) j = (h', p') →
    (p' < length h')%nat ∧ length h' = length h ∧ delete p' h' ≡ₚ delete p h) as Hmove.
  { intros j y Hne Hj Heq. apply IH in Heq as (H1 & H2 & H3); [|rewrite length_insert; by eapply lookup_lt_Some].
    rewrite length_insert in H2. split_and!; try done. rewrite H3. by apply hole_move. }
  set (c := (2 * p + 1)%nat). destruct (h !! c) as [l|] eqn:Hc; [|by intros [= <- <-]].
  destruct (h !! S c) as [r|] eqn:Hr; [|apply Hmove; [lia|done]]. destruct (lt l r); apply Hmove; try done; lia.
Qed.

Lemma siftup_perm h p : siftup h p ≡ₚ h.
Proof.
  unfold siftup. destruct (h !! p) as [x|] eqn:Hx; [|done]. destruct (sink (length h) h p) as [h' p'] eqn:Hs.
  apply sink_perm in Hs as (H1 & H2 & H3); [|by eapply lookup_lt_Some]. rewrite siftdown_perm, H3 by done. symmetry. by apply delete_perm.
Qed.

Lemma heapify_perm h : heapify h ≡ₚ h.
Proof. unfold heapify. induction (seq 0 (length h / 2)) as [|i l IH]; cbn; [done|]. by rewrite siftup_perm. Qed.

Lemma heappush_perm h x : heappush h x ≡ₚ x :: h.
Proof.
  unfold heappush. rewrite siftdown_perm by (rewrite length_app; cbn; lia). apply Permutation_cons; [done|].
  rewrite delete_take_drop, take_app_length, drop_ge by (rewrite length_app; cbn; lia). by rewrite app_nil_r.
Qed.

(** *** Heap order *)

(** No element from position [s] on has a smaller child. *)
Definition heap_from s h : Prop :=
  ∀ i x y, (0 < i)%nat → (s <= parent i)%nat → h !! parent i = Some x → h !! i = Some y → lt y x = false.

(** The same apart from the hole at [p], whose children may take its place. *)
Record holed s p h : Prop := {
  ho_rest : ∀ i x y, (0 < i)%nat → (s <= parent i)%nat → i ≠ p → parent i ≠ p →
    h !! parent i = Some x → h !! i = Some y → lt y x = false;
  ho_over : ∀ i x y, (0 < i)%nat → parent i = p → (0 < p)%nat → (s <= parent p)%nat →
    h !! parent p = Some x → h !! i = Some y → lt y x = false;
}.

Inductive below s : nat → Prop :=
  | below_self : below s s
  | below_left p : below s p → below s (2 * p + 1)
  | below_right p : below s p → below s (2 * p + 2).

Lemma parent_left p : parent (2 * p + 1) = p.
Proof. unfold parent. replace (2 * p + 1 - 1)%nat with (p * 2)%nat by lia. by apply Nat.div_mul. Qed.
Lemma parent_right p : parent (2 * p + 2) = p.
Proof. unfold parent. replace (2 * p + 2 - 1)%nat with (1 + p * 2)%nat by lia. rewrite Nat.div_add by lia. done. Qed.
Lemma parent_cases i : (0 < i)%nat → i = (2 * parent i + 1)%nat ∨ i = (2 * parent i + 2)%nat.
Proof. intros Hi. unfold parent. pose proof (Nat.div_mod_eq (i - 1) 2). pose proof (Nat.mod_upper_bound (i - 1) 2). lia. Qed.
Lemma parent_lt i : (0 < i)%nat → (parent i < i)%nat.
Proof. intros Hi. destruct (parent_cases i Hi); lia. Qed.

Lemma below_le s p : below s p → (s <= p)%nat.
Proof. induction 1; lia. Qed.
Lemma below_parent s p : below s p → (s < p)%nat → below s (parent p).
Proof. destruct 1 as [|p Hb|p Hb]; [lia|by rewrite parent_left|by rewrite parent_right]. Qed.
Lemma below_root p : below 0 p.
Proof.
  induction (lt_wf p) as [p _ IH]. destruct (decide (p = 0%nat)) as [->|Hp]; [constructor|].
  pose proof (IH (parent p) (parent_lt p ltac:(lia))) as Hb. destruct (parent_cases p ltac:(lia)) as [-> | ->]; by constructor.
Qed.

Context `{!WeakOrder lt}.

(** The item fits into the hole. *)
Lemma fill_hole s p h x :
  holed s p h → (p < length h)%nat → (∀ i y, (0 < i)%nat → parent i = p → h !! i = Some y → lt y x = false) →
  (∀ y, (0 < p)%nat → (s <= parent p)%nat → h !! parent p = Some y → lt x y = false) → heap_from s (<[p := x]> h).
Proof.
  intros [Hrest _] Hp Hch Hpar i a b Hi Hs Ha Hb. pose proof (parent_lt i Hi) as Hlt. destruct (decide (i = p)) as [->|Hne].
  - rewrite list_lookup_insert_eq in Hb by done. injection Hb as <-. rewrite list_lookup_insert_ne in Ha by lia. by apply Hpar.
  - rewrite list_lookup_insert_ne in Hb by done. destruct (decide (parent i = p)) as [Heq|Hne'].
    + rewrite Heq, list_lookup_insert_eq in Ha by done. injection Ha as <-. by apply (Hch i).
    + rewrite list_lookup_insert_ne in Ha by done. by apply (Hrest i).
Qed.

Lemma siftdown_heap fuel h s p x :
  holed s p h → below s p → (p < length h)%nat → (∀ i y, (0 < i)%nat → parent i = p → h !! i = Some y → lt y x = false) →
  (p < fuel)%nat → heap_from s (siftdown fuel h s p x).
Proof.
  revert h p; induction fuel as [|fuel IH]; intros h p Hh Hb Hp Hch Hf; [lia|]. cbn [siftdown].
  destruct (Nat.ltb_spec s p) as [Hs|Hs].
  2: { apply fill_hole; try done. intros y Hp0 Hsp. pose proof (parent_lt p Hp0). lia. }
  set (q := parent p). assert (q < p)%nat as Hq by (apply parent_lt; lia).
  pose proof (below_parent s p Hb Hs) as Hbq. fold q in Hbq. pose proof (below_le s q Hbq) as Hsq.
  destruct (h !! q) as [y|] eqn:Hy; [|apply lookup_ge_None in Hy; lia]. destruct (lt x y) eqn:Hxy.
  2: { apply fill_hole; try done. intros y' _ _ Hy'. fold q in Hy'. by rewrite Hy in Hy'; injection Hy' as <-. }
  destruct Hh as [Hrest Hover]. apply IH; try done; [|rewrite length_insert; lia| |lia].
  - split.
    + intros i a b Hi Hsi Hne Hne' Ha Hb'. destruct (decide (i = p)) as [->|Hip]; [done|]. rewrite list_lookup_insert_ne in Hb' by done.
      destruct (decide (parent i = p)) as [Heq|Hpp].
      * rewrite Heq, list_lookup_insert_eq in Ha by done. injection Ha as <-. by apply (Hover i); [| |lia|..].
      * rewrite list_lookup_insert_ne in Ha by done. by apply (Hrest i).
    + intros i a b Hi Heq Hq0 Hsq' Ha Hb'. pose proof (parent_lt q Hq0). rewrite list_lookup_insert_ne in Ha by lia.
      assert (lt y a = false) as Hya by (apply (Hrest q); try done; lia).
      destruct (decide (i = p)) as [->|Hip]; [rewrite list_lookup_insert_eq in Hb' by done; by injection Hb' as <-|].
      rewrite list_lookup_insert_ne in Hb' by done. apply (wo_trans lt a y b); [done|]. apply (Hrest i); try done; [lia|lia|by rewrite Heq].
  - intros i b Hi Heq Hb'. destruct (decide (i = p)) as [->|Hip].
    + rewrite list_lookup_insert_eq in Hb' by done. injection Hb' as <-. by apply wo_asym.
    + rewrite list_lookup_insert_ne in Hb' by done. apply (wo_trans lt x y b); [by apply wo_asym|].
      apply (Hrest i); try done; [lia|lia|by rewrite Heq].
Qed.

(** The smaller child moves into the hole. *)
Lemma holed_down s p h c l :
  holed s p h → (s <= p)%nat → (p < length h)%nat → (0 < c)%nat → parent c = p → h !! c = Some l →
  (∀ i y, (0 < i)%nat → parent i = p → h !! i = Some y → lt y l = false) → holed s c (<[p := l]> h).
Proof.
  intros [Hrest Hover] Hsp Hp Hc0 Hpc Hl Hmin. pose proof (parent_lt c Hc0) as Hlt. rewrite Hpc in Hlt. split.
  - intros i a b Hi Hsi Hne Hne' Ha Hb. destruct (decide (i = p)) as [->|Hip].
    + rewrite list_lookup_insert_eq in Hb by done. injection Hb as <-. pose proof (parent_lt p Hi).
      rewrite list_lookup_insert_ne in Ha by lia. by apply (Hover c).
    + rewrite list_lookup_insert_ne in Hb by done. destruct (decide (parent i = p)) as [Heq|Hpp].
      * rewrite Heq, list_lookup_insert_eq in Ha by done. injection Ha as <-. by apply (Hmin i).
      * rewrite list_lookup_insert_ne in Ha by done. by apply (Hrest i).
  - intros i a b Hi Heq _ _ Ha Hb. rewrite Hpc, list_lookup_insert_eq in Ha by done. injection Ha as <-.
    pose proof (parent_lt i Hi). rewrite list_lookup_insert_ne in Hb by lia. apply (Hrest i); try done; [lia|lia|lia|by rewrite Heq].
Qed.

Lemma sink_hole fuel h s p h' p' :
  holed s p h → below s p → (p < length h)%nat → (length h <= fuel + p)%nat → sink fuel h p = (h', p') →
  holed s p' h' ∧ below s p' ∧ h' !! (2 * p' + 1)%nat = None.
Proof.
  revert h p; induction fuel as [|fuel IH]; intros h p Hh Hb Hp Hf; cbn [sink]; [lia|].
  pose proof (below_le s p Hb) as Hsp.
  assert (∀ c l, (0 < c)%nat → parent c = p → below s c → h !! c = Some l →
    (∀ i y, (0 < i)%nat → parent i = p → h !! i = Some y → lt y l = false) → sink fuel (<[p := l]> h) c = (h', p') →
    holed s p' h' ∧ below s p' ∧ h' !! (2 * p' + 1)%nat = None) as Hmove.
  { intros c l Hc0 Hpc Hbc Hl Hmin Heq. pose proof (parent_lt c Hc0).
    apply IH in Heq; try done; [by apply holed_down|rewrite length_insert; by eapply lookup_lt_Some|rewrite length_insert; lia]. }
  replace (S (2 * p + 1))%nat with (2 * p + 2)%nat by lia.
  assert (∀ i y, (0 < i)%nat → parent i = p → h !! i = Some y → i = (2 * p + 1)%nat ∨ i = (2 * p + 2)%nat) as Hkids
    by (intros i y Hi <- _; by apply parent_cases).
  assert (∀ x, lt x x = false) as Hirr by (intros x; destruct (lt x x) eqn:Hx; [by pose proof (wo_asym lt _ _ Hx); congruence|done]).
  destruct (h !! (2 * p + 1)%nat) as [l|] eqn:Hl; [|intros [= <- <-]; by split_and!].
  destruct (h !! (2 * p + 2)%nat) as [r|] eqn:Hr; [destruct (lt l r) eqn:Hlr|].
  - apply (Hmove _ l); [lia|apply parent_left|by constructor|done|]. intros i y Hi Hpi Hy.
    destruct (Hkids i y Hi Hpi Hy) as [-> | ->]; simplify_eq; [done|by apply wo_asym].
  - apply (Hmove _ r); [lia|apply parent_right|by constructor|done|]. intros i y Hi Hpi Hy.
    destruct (Hkids i y Hi Hpi Hy) as [-> | ->]; by simplify_eq.
  - apply (Hmove _ l); [lia|apply parent_left|by constructor|done|]. intros i y Hi Hpi Hy.
    destruct (Hkids i y Hi Hpi Hy) as [-> | ->]; by simplify_eq.
Qed.

Lemma siftup_heap h s : heap_from (S s) h → heap_from s (siftup h s).
Proof.
  intros Hh. unfold siftup. destruct (h !! s) as [x|] eqn:Hx.
  2: { intros i a b Hi Hs Ha Hb. destruct (decide (parent i = s)) as [Heq|Hne]; [congruence|]. apply (Hh i); try done. lia. }
  pose proof (lookup_lt_Some _ _ _ Hx) as Hlen. destruct (sink (length h) h s) as [h' p'] eqn:Hsink.
  destruct (sink_perm _ _ _ _ _ Hlen Hsink) as (Hp' & _ & _).
  apply (sink_hole _ h s) in Hsink as (Hh' & Hb & Hnone); [|split|constructor|done|lia].
  - apply siftdown_heap; try done; [|lia]. intros i y Hi Hpi Hy. apply lookup_ge_None in Hnone. apply lookup_lt_Some in Hy.
    destruct (parent_cases i Hi); subst; lia.
  - intros i a b Hi Hs Hne Hne' Ha Hb. apply (Hh i); try done. lia.
  - intros i a b Hi Hpi Hs0 Hs. pose proof (parent_lt s Hs0). lia.
Qed.

Lemma heapify_heap h : heap_from 0 (heapify h).
Proof.
  unfold heapify. set (n := (length h / 2)%nat).
  assert (∀ k, (k <= n)%nat → heap_from (n - k) (foldr (fun i h => siftup h i) h (seq (n - k) k))) as Hall.
  { induction k as [|k IH]; intros Hk; cbn [seq foldr].
    - intros i a b Hi Hs _ Hb. apply lookup_lt_Some in Hb. pose proof (parent_cases i Hi). pose proof (Nat.div_mod_eq (length h) 2).
      pose proof (Nat.mod_upper_bound (length h) 2). unfold n in *. lia.
    - apply siftup_heap. specialize (IH ltac:(lia)). replace (S (n - S k)) with (n - k)%nat by lia. done. }
  specialize (Hall n (le_n n)). by rewrite Nat.sub_diag in Hall.
Qed.

Lemma heappush_heap h x : heap_from 0 h → heap_from 0 (heappush h x).
Proof.
  intros Hh. unfold heappush. assert (∀ i, (length h < i)%nat → (h ++ [x]) !! i = None) as Hend
    by (intros i Hi; apply lookup_ge_None; rewrite length_app; cbn; lia).
  apply siftdown_heap; [split|apply below_root|rewrite length_app; cbn; lia| |lia].
  - intros i a b Hi _ Hne Hne' Ha Hb. pose proof (parent_lt i Hi). assert (i < length h)%nat as Hlt.
    { destruct (Nat.lt_trichotomy i (length h)) as [?|[?|Hgt]]; [done..|]. by rewrite Hend in Hb. }
    rewrite lookup_app_l in Ha, Hb by lia. by apply (Hh i); [|lia|..].
  - intros i a b Hi Hpi _ _ _ Hb. pose proof (parent_lt i Hi). rewrite Hend in Hb by lia. done.
  - intros i y Hi Hpi Hy. pose proof (parent_lt i Hi). rewrite Hend in Hy by lia. done.
Qed.

Lemma heap_root h x : heap_from 0 h → h !! 0%nat = Some x → ∀ z, z ∈ h → lt z x = false.
Proof.
  intros Hh Hx z [i Hi]%list_elem_of_lookup. revert z Hi. induction (lt_wf i) as [i _ IH]. intros z Hz.
  destruct (decide (i = 0%nat)) as [->|Hne].
  - rewrite Hx in Hz. injection Hz as ->. destruct (lt z z) eqn:Hzz; [by pose proof (wo_asym lt _ _ Hzz); congruence|done].
  - pose proof (parent_lt i ltac:(lia)) as Hlt. destruct (lookup_lt_is_Some_2 h (parent i)) as [y Hy]; [apply lookup_lt_Some in Hz; lia|].
    apply (wo_trans lt x y z); [by apply (IH (parent i))|]. by apply (Hh i); [lia|lia|..].
Qed.

(** [heappop] takes out a smallest element. *)
Lemma heappop_spec h :
  heap_from 0 h → match h with
  | [] => heappop h = Err IndexError
  | x :: _ => ∃ h', heappop h = Ok (x, h') ∧ h ≡ₚ x :: h' ∧ heap_from 0 h' ∧ ∀ z, z ∈ h → lt z x = false
  end.
Proof.
  intros Hh. destruct h as [|x h1] eqn:Eh; [done|]. rewrite <- Eh in *. assert (h !! 0%nat = Some x) as Hx by by rewrite Eh.
  pose proof (heap_root h x Hh Hx) as Hmin. unfold heappop.
  destruct (last h) as [y|] eqn:Hl; [|by apply last_None in Hl; subst]. apply last_Some in Hl as [h2 Hl].
  assert (take (length h - 1) h = h2) as -> by (rewrite Hl, length_app; cbn; rewrite Nat.add_sub; apply take_app_length).
  destruct h2 as [|x' h2].
  - rewrite Hl in Hx. injection Hx as ->. exists []. split_and!; [done|by rewrite Hl|by intros i|done].
  - assert (x' = x) as -> by (rewrite Hl in Hx; by injection Hx). exists (siftup (y :: h2) 0). split_and!; try done.
    + rewrite siftup_perm, Hl. cbn. by rewrite (Permutation_app_comm h2 [y]).
    + apply siftup_heap. intros i a b Hi Hs Ha Hb. apply (Hh i); try done; [lia|..]; rewrite Hl, lookup_app_l;
        try (apply lookup_lt_Some in Ha, Hb; cbn in *; lia); (destruct (parent i) eqn:?; [lia|]; done) || (destruct i; [lia|]; done).
Qed.

End heapq.

(** ** The queues *)

Inductive SchedulingPolicy := FCFS | PRIORITY.

Section queue.
Context {A : Type} `{EqDecision A} (lt : A → A → bool).
Implicit Types (l h : list A) (x y : A).

Inductive RequestQueue :=
  | FCFSRequestQueue (requests : list A)
  | PriorityRequestQueue (heap : list A).

Definition create_request_queue (policy : SchedulingPolicy) : RequestQueue :=
  match policy with PRIORITY => PriorityRequestQueue [] | FCFS => FCFSRequestQueue [] end.

(** [list.remove] and [deque.remove] *)
Fixpoint py_remove x l : res (list A) :=
  match l with
  | [] => Err ValueError
  | y :: l => if decide (x = y) then Ok l else l ← py_remove x l; Ok (y :: l)
  end.

(** [PriorityRequestQueue.__iter__]: the copy of the heap popped until it is empty. *)
Fixpoint pop_all (fuel : nat) h : list A :=
  match fuel with
  | O => []
  | S fuel => match heappop lt h with Ok (x, h) => x :: pop_all fuel h | Err _ => [] end
  end.
Definition queue_iter (q : RequestQueue) : list A :=
  match q with FCFSRequestQueue l => l | PriorityRequestQueue h => pop_all (length h) h end.

Definition add_request x (q : RequestQueue) : RequestQueue :=
  match q with FCFSRequestQueue l => FCFSRequestQueue (l ++ [x]) | PriorityRequestQueue h => PriorityRequestQueue (heappush lt h x) end.
Definition pop_request (q : RequestQueue) : res (A * RequestQueue) :=
  match q with
  | FCFSRequestQueue [] => Err IndexError
  | FCFSRequestQueue (x :: l) => Ok (x, FCFSRequestQueue l)
  | PriorityRequestQueue [] => Err IndexError
  | PriorityRequestQueue h => '(x, h) ← heappop lt h; Ok (x, PriorityRequestQueue h)
  end.
Definition peek_request (q : RequestQueue) : res A :=
  match q with
  | FCFSRequestQueue l => match l with [] => Err IndexError | x :: _ => Ok x end
  | PriorityRequestQueue h => match h with [] => Err IndexError | x :: _ => Ok x end
  end.
Definition prepend_request x (q : RequestQueue) : RequestQueue :=
  match q with FCFSRequestQueue l => FCFSRequestQueue (x :: l) | PriorityRequestQueue _ => add_request x q end.
Definition prepend_requests (requests q : RequestQueue) : RequestQueue :=
  match q with
  | FCFSRequestQueue l => FCFSRequestQueue (reverse (queue_iter requests) ++ l)
  | PriorityRequestQueue _ => foldl (fun q x => add_request x q) q (queue_iter requests)
  end.
Definition remove_request x (q : RequestQueue) : res RequestQueue :=
  match q with
  | FCFSRequestQueue l => l ← py_remove x l; Ok (FCFSRequestQueue l)
  | PriorityRequestQueue h => h ← py_remove x h; Ok (PriorityRequestQueue (heapify lt h))
  end.
Definition remove_requests (requests : list A) (q : RequestQueue) : RequestQueue :=
  match q with
  | FCFSRequestQueue l => FCFSRequestQueue (filter (fun x => x ∉ requests) l)
  | PriorityRequestQueue h => PriorityRequestQueue (heapify lt (filter (fun x => x ∉ requests) h))
  end.
Definition queue_len (q : RequestQueue) : Z :=
  match q with FCFSRequestQueue l => lenZ l | PriorityRequestQueue h => lenZ h end.
Definition queue_bool (q : RequestQueue) : bool := 0 <? queue_len q.

(** *** The order of service *)

(** Requests are ordered: of two, one comes first. *)
Class TotalOrder : Prop := {
  to_weak :: WeakOrder lt;
  to_total : ∀ x y, lt x y = false → lt y x = false → x = y;
}.

Definition queue_ok (q : RequestQueue) : Prop :=
  match q with FCFSRequestQueue _ => True | PriorityRequestQueue h => heap_from lt 0 h end.
Definition policy_of (q : RequestQueue) : SchedulingPolicy := match q with FCFSRequestQueue _ => FCFS | PriorityRequestQueue _ => PRIORITY end.

Context `{!TotalOrder}.

Lemma in_order_sublist l l' : l' `sublist_of` l → in_order lt l → in_order lt l'.
Proof.
  induction 1 as [|x l1 l2 Hs IH|x l1 l2 Hs IH]; intros Ho; [done|..]; apply in_order_cons in Ho as [Hx Ho].
  - apply in_order_cons. split; [|by apply IH]. intros y Hy. apply Hx. by eapply elem_of_sublist.
  - by apply IH.
Qed.

Lemma in_order_unique l l' : in_order lt l → in_order lt l' → l ≡ₚ l' → l = l'.
Proof.
  revert l'; induction l as [|x l IH]; intros l' Ho Ho' Hp; [by apply Permutation_nil_l in Hp|].
  destruct l' as [|y l']; [by apply Permutation_nil_r in Hp|]. apply in_order_cons in Ho as [Hx Ho], Ho' as [Hy Ho'].
  assert (x = y) as <-.
  { assert (x ∈ y :: l') as Hx' by (rewrite <- Hp; left). assert (y ∈ x :: l) as Hy' by (rewrite Hp; left).
    apply elem_of_cons in Hx' as [?|Hx'], Hy' as [?|Hy']; [done..|]. apply to_total; [by apply Hy|by apply Hx]. }
  f_equal. apply IH; try done. by apply Permutation_cons_inv in Hp.
Qed.

Lemma py_sorted_unique l l' : in_order lt l → l ≡ₚ l' → l = py_sorted lt l'.
Proof. intros Ho Hp. apply in_order_unique; [done|apply (py_sorted_order lt)|]. by rewrite py_sorted_perm. Qed.

(** Iterating over the heap gives the sorted list. *)
Lemma pop_all_sorted fuel h : heap_from lt 0 h → (length h <= fuel)%nat → pop_all fuel h = py_sorted lt h.
Proof.
  revert h; induction fuel as [|fuel IH]; intros h Hh Hf; [destruct h; [done|cbn in Hf; lia]|]. cbn [pop_all].
  pose proof (heappop_spec lt h Hh) as Hpop. destruct h as [|x h1]; [by rewrite Hpop|]. destruct Hpop as (h' & -> & Hp & Hh' & Hmin).
  rewrite IH; [|done|apply Permutation_length in Hp; cbn in *; lia].
  apply py_sorted_unique; [|by rewrite py_sorted_perm, Hp]. apply in_order_cons. split; [|apply (py_sorted_order lt)].
  intros y. rewrite py_sorted_perm. intros Hy. apply Hmin. rewrite Hp. by right.
Qed.

Lemma queue_iter_heap h : heap_from lt 0 h → queue_iter (PriorityRequestQueue h) = py_sorted lt h.
Proof. intros Hh. by apply pop_all_sorted. Qed.

Lemma py_remove_spec x l :
  match py_remove x l with Ok l' => l ≡ₚ x :: l' ∧ l' `sublist_of` l | Err e => e = ValueError ∧ x ∉ l end.
Proof.
  induction l as [|y l IH]; cbn [py_remove]; [by split; [|apply not_elem_of_nil]|]. destruct (decide (x = y)) as [<-|Hne].
  - split; [done|]. by apply sublist_cons.
  - destruct (py_remove x l) as [l'|e]; cbn [mbind res_bind]; destruct IH as [Hp Hs].
    + split; [by rewrite Hp, Permutation_swap|by constructor].
    + split; [done|]. by apply not_elem_of_cons.
Qed.

(** *** The operations on the list of the requests in order of service *)

Inductive queue_op :=
  | QAdd x
  | QPop
  | QPeek
  | QPrepend x
  | QPrependAll (requests : RequestQueue)
  | QRemove x
  | QRemoveAll (requests : list A).

Definition queue_exec (op : queue_op) (q : RequestQueue) : res (option A * RequestQueue) :=
  match op with
  | QAdd x => Ok (None, add_request x q)
  | QPop => '(x, q) ← pop_request q; Ok (Some x, q)
  | QPeek => x ← peek_request q; Ok (Some x, q)
  | QPrepend x => Ok (None, prepend_request x q)
  | QPrependAll requests => Ok (None, prepend_requests requests q)
  | QRemove x => q ← remove_request x q; Ok (None, q)
  | QRemoveAll requests => Ok (None, remove_requests requests q)
  end.

Definition list_exec (policy : SchedulingPolicy) (op : queue_op) l : res (option A * list A) :=
  let insert x l := match policy with FCFS => x :: l | PRIORITY => sort_insert lt x l end in
  match op with
  | QAdd x => Ok (None, match policy with FCFS => l ++ [x] | PRIORITY => sort_insert lt x l end)
  | QPop => match l with [] => Err IndexError | x :: l => Ok (Some x, l) end
  | QPeek => match l with [] => Err IndexError | x :: _ => Ok (Some x, l) end
  | QPrepend x => Ok (None, insert x l)
  | QPrependAll requests => Ok (None, foldl (fun l x => insert x l) l (queue_iter requests))
  | QRemove x => l ← py_remove x l; Ok (None, l)
  | QRemoveAll requests => Ok (None, filter (fun x => x ∉ requests) l)
  end.

(** Both results, with the state of the queue read in order of service. *)
Definition same_outcome (policy : SchedulingPolicy) (a : res (option A * RequestQueue)) (b : res (option A * list A)) : Prop :=
  match a, b with
  | Ok (x, q), Ok (y, l) => x = y ∧ queue_ok q ∧ policy_of q = policy ∧ queue_iter q = l
  | Err e, Err e' => e = e'
  | _, _ => False
  end.

Lemma add_heap x h : heap_from lt 0 h → py_sorted lt (heappush lt h x) = sort_insert lt x (py_sorted lt h).
Proof.
  intros Hh. symmetry. apply py_sorted_unique; [apply (sort_insert_order lt), (py_sorted_order lt)|].
  by rewrite sort_insert_perm, heappush_perm, py_sorted_perm.
Qed.

Lemma add_all_heap xs h :
  heap_from lt 0 h → ∃ h', foldl (fun q x => add_request x q) (PriorityRequestQueue h) xs = PriorityRequestQueue h' ∧
    heap_from lt 0 h' ∧ py_sorted lt h' = foldl (fun l x => sort_insert lt x l) (py_sorted lt h) xs.
Proof.
  revert h; induction xs as [|x xs IH]; intros h Hh; cbn [foldl]; [by exists h|]. rewrite <- add_heap by done.
  apply IH. by apply (heappush_heap lt).
Qed.

Lemma foldl_cons (xs l : list A) : foldl (fun l x => x :: l) l xs = reverse xs ++ l.
Proof. revert l; induction xs as [|x xs IH]; intros l; cbn [foldl]; [done|]. by rewrite IH, reverse_cons, <- app_assoc. Qed.

Lemma queue_exec_refines op q : queue_ok q → same_outcome (policy_of q) (queue_exec op q) (list_exec (policy_of q) op (queue_iter q)).
Proof.
  destruct q as [l|h]; intros Hq; [|rewrite (queue_iter_heap h Hq); cbn in Hq].
  - destruct op as [x| | |x|qs|x|xs]; cbn -[py_remove]; try done; try (by destruct l).
    + split_and!; try done. symmetry. apply foldl_cons.
    + by destruct (py_remove x l).
  - assert (∀ h', heap_from lt 0 h' → same_outcome PRIORITY (Ok (None, PriorityRequestQueue h')) (Ok (None, py_sorted lt h'))) as Hok
      by (intros h' Hh'; split_and!; try done; by apply queue_iter_heap).
    destruct op as [x| | |x|qs|x|xs]; cbn -[py_remove].
    + rewrite <- add_heap by done. apply Hok. by apply (heappush_heap lt).
    + pose proof (heappop_spec lt h Hq) as Hpop. destruct h as [|y h1]; [done|]. destruct Hpop as (h' & Heq & Hp & Hh' & Hmin).
      rewrite Heq. cbn [mbind res_bind]. assert (py_sorted lt (y :: h1) = y :: py_sorted lt h') as ->; [|by split_and!; [..|apply queue_iter_heap]].
      symmetry. apply py_sorted_unique; [|by rewrite py_sorted_perm, Hp]. apply in_order_cons. split; [|apply (py_sorted_order lt)].
      intros z. rewrite py_sorted_perm. intros Hz. apply Hmin. rewrite Hp. by right.
    + destruct h as [|y h1]; [done|]. pose proof (heap_root lt (y :: h1) y Hq eq_refl) as Hmin.
      destruct (py_sorted lt (y :: h1)) as [|z s] eqn:Hs.
      { pose proof (py_sorted_perm lt (y :: h1)) as Hp. rewrite Hs in Hp. by apply Permutation_nil_l in Hp. }
      assert (z = y) as ->; [|split_and!; try done; by rewrite queue_iter_heap].
      pose proof (py_sorted_order lt (y :: h1)) as Ho. rewrite Hs in Ho. apply in_order_cons in Ho as [Hz _].
      assert (y ∈ z :: s) as Hy by (rewrite <- Hs, py_sorted_perm; left). apply elem_of_cons in Hy as [->|Hy]; [done|].
      apply to_total; [apply Hmin; rewrite <- (py_sorted_perm lt), Hs; left|by apply Hz].
    + rewrite <- add_heap by done. apply Hok. by apply (heappush_heap lt).
    + destruct (add_all_heap (queue_iter qs) h Hq) as (h' & -> & Hh' & <-). by apply Hok.
    + pose proof (py_remove_spec x h) as H1. pose proof (py_remove_spec x (py_sorted lt h)) as H2.
      destruct (py_remove x h) as [h'|e], (py_remove x (py_sorted lt h)) as [l'|e']; cbn [mbind res_bind].
      * destruct H1 as [H1 _], H2 as [H2 Hs]. assert (l' = py_sorted lt (heapify lt h')) as ->; [|apply Hok, (heapify_heap lt)].
        apply py_sorted_unique; [by eapply in_order_sublist, (py_sorted_order lt)|]. rewrite heapify_perm.
        apply (Permutation_cons_inv (a := x)). by rewrite <- H1, <- H2, py_sorted_perm.
      * destruct H1 as [H1 _], H2 as [_ H2]. apply H2. rewrite py_sorted_perm, H1. left.
      * destruct H1 as [_ H1], H2 as [H2 _]. apply H1. rewrite <- (py_sorted_perm lt), H2. left.
      * destruct H1 as [-> _], H2 as [-> _]. done.
    + assert (filter (fun x => x ∉ xs) (py_sorted lt h) = py_sorted lt (heapify lt (filter (fun x => x ∉ xs) h))) as ->;
        [|apply Hok, (heapify_heap lt)].
      apply py_sorted_unique; [eapply in_order_sublist; [apply sublist_filter|apply (py_sorted_order lt)]|]. by rewrite heapify_perm, py_sorted_perm.
Qed.

(** What the calls of a history return, an exception leaving the queue as it is. *)
Fixpoint queue_trace (ops : list queue_op) (q : RequestQueue) : list (res (option A)) :=
  match ops with
  | [] => []
  | op :: ops => match queue_exec op q with Ok (x, q) => Ok x :: queue_trace ops q | Err e => Err e :: queue_trace ops q end
  end.
Fixpoint list_trace (policy : SchedulingPolicy) (ops : list queue_op) l : list (res (option A)) :=
  match ops with
  | [] => []
  | op :: ops =>
      match list_exec policy op l with Ok (x, l) => Ok x :: list_trace policy ops l | Err e => Err e :: list_trace policy ops l end
  end.

Lemma queue_trace_refines ops q : queue_ok q → queue_trace ops q = list_trace (policy_of q) ops (queue_iter q).
Proof.
  revert q; induction ops as [|op ops IH]; intros q Hq; [done|]. cbn [queue_trace list_trace].
  pose proof (queue_exec_refines op q Hq) as Ho. unfold same_outcome in Ho.
  destruct (queue_exec op q) as [[x q']|e], (list_exec _ op _) as [[y l]|e']; try done.
  - destruct Ho as (-> & Hq' & <- & <-). by rewrite IH.
  - subst. by rewrite IH.
Qed.

End queue.
Arguments RequestQueue A : clear implicits.

(** ** The order of requests *)

Section requests.
Context {A : Type} `{EqDecision A} {E : Type} (rnd : Q → Q).
#[local] Instance F_queue : PyFloat Q := rounded rnd.
Context (obj : A → Request Q E).

Definition request_lt (a b : A) : bool := rq_ltb (obj a) (obj b).

(** The object a reference stands for has an identity of its own. *)
Definition identified : Prop := ∀ a b, rq_oid (obj a) = rq_oid (obj b) → a = b.

Lemma q_ltb x y : (x <@ y = false) ↔ (y <= x)%Q.
Proof. cbn. by rewrite negb_false_iff, Qle_bool_iff. Qed.
Lemma weak_Q : WeakOrder (fun x y : Q => x <@ y).
Proof.
  split.
  - intros x y Hxy. apply q_ltb. apply not_false_iff_true in Hxy. rewrite q_ltb in Hxy. apply Qlt_le_weak. by apply Qnot_le_lt.
  - intros x y z. rewrite !q_ltb. intros. by apply (Qle_trans x y z).
Qed.
Lemma ties_Q : ties (fun x y : Q => x <@ y) feqb.
Proof.
  intros x y. rewrite !q_ltb. cbn. rewrite Qeq_bool_iff. split; [intros Heq; split; rewrite Heq; apply Qle_refl|].
  intros [? ?]. by apply Qle_antisym.
Qed.

(** [Request.__lt__] as a comparison of tuples. *)
Lemma rq_ltb_lex (a b : Request Q E) :
  rq_ltb a b = lex (rq_priority a =? rq_priority b) (rq_priority a <? rq_priority b)
    (lex (feqb (rq_arrival_time a) (rq_arrival_time b)) (rq_arrival_time a <@ rq_arrival_time b)
      (lex (bool_decide (rq_request_id a = rq_request_id b)) (String.ltb (rq_request_id a) (rq_request_id b)) (rq_oid a <? rq_oid b))).
Proof. unfold rq_ltb, lex. repeat (destruct (_ =? _) || destruct (feqb _ _) || destruct (bool_decide _)); done. Qed.

Lemma request_order : identified → TotalOrder request_lt.
Proof.
  intros Hid. assert (WeakOrder (fun a b : Request Q E => rq_ltb a b)) as Hw.
  { assert (∀ lt lt' : Request Q E → Request Q E → bool, (∀ a b, lt a b = lt' a b) → WeakOrder lt' → WeakOrder lt) as Hext.
    { intros lt lt' Heq Hw. split; intros *; rewrite !Heq; [apply wo_asym, _|apply wo_trans, _]. }
    apply (Hext _ _ rq_ltb_lex). apply weak_lex; [apply (weak_map rq_priority), weak_Z|intros x y; apply ties_Z|].
    apply weak_lex; [apply (weak_map rq_arrival_time), weak_Q|intros x y; apply ties_Q|].
    apply weak_lex; [apply (weak_map rq_request_id), weak_string|intros x y; apply ties_string|]. apply (weak_map rq_oid), weak_Z. }
  split; [by apply (weak_map obj)|]. intros x y. unfold request_lt. rewrite !rq_ltb_lex. unfold lex.
  rewrite (Z.eqb_sym (rq_priority (obj y))). destruct (Z.eqb_spec (rq_priority (obj x)) (rq_priority (obj y))) as [_|Hne]; [|rewrite !Z.ltb_ge; lia].
  destruct (feqb (rq_arrival_time (obj x)) _) eqn:E1.
  - assert (feqb (rq_arrival_time (obj y)) (rq_arrival_time (obj x)) = true) as -> by (apply ties_Q; apply ties_Q in E1; tauto).
    destruct (decide (rq_request_id (obj x) = rq_request_id (obj y))) as [Heq|Hne].
    + rewrite !bool_decide_true by done. rewrite !Z.ltb_ge. intros. apply Hid. lia.
    + rewrite !bool_decide_false by done. intros. exfalso. by apply Hne, string_ltb_total.
  - destruct (feqb (rq_arrival_time (obj y)) _) eqn:E2; [apply ties_Q in E2; assert (feqb (rq_arrival_time (obj x)) (rq_arrival_time (obj y)) = true) by (apply ties_Q; tauto); congruence|].
    intros H1 H2. assert (feqb (rq_arrival_time (obj x)) (rq_arrival_time (obj y)) = true) by (by apply ties_Q). congruence.
Qed.

(** C13. A queue of requests behaves as the list of its requests in the order of
    service: whatever calls are made, starting from the queue that
    [create_request_queue] makes for the policy, they return (or raise) what the same
    calls return on that list, first come first served, or sorted by priority, arrival
    time, identifier and identity; the heap is never observable. *)
Theorem queue_refines_list policy ops :
  identified → queue_trace request_lt ops (create_request_queue policy) = list_trace request_lt policy ops [].
Proof.
  intros Ht%request_order. assert (queue_ok request_lt (create_request_queue policy)) as Hok by (by destruct policy).
  rewrite (queue_trace_refines request_lt ops _ Hok). by destruct policy.
Qed.

(** Iterating over a queue yields each request once, in an order in which no
    request precedes a smaller one under the priority policy; popping yields the same
    requests in the same order. *)
Theorem queue_iter_pops policy q :
  identified → queue_ok request_lt q → policy_of q = policy →
  (policy = PRIORITY → in_order request_lt (queue_iter request_lt q)) ∧ queue_len q = lenZ (queue_iter request_lt q) ∧
  ∀ x q', pop_request request_lt q = Ok (x, q') → queue_iter request_lt q = x :: queue_iter request_lt q'.
Proof.
  intros Ht%request_order Hok Hp. split_and!.
  - intros ->. destruct q as [l|h]; [done|]. rewrite queue_iter_heap by done. apply (py_sorted_order request_lt).
  - destruct q as [l|h]; [done|]. cbn [queue_len]. rewrite queue_iter_heap by done. by rewrite py_sorted_perm.
  - intros x q' Hpop. pose proof (queue_exec_refines request_lt QPop q Hok) as Ho. cbn [queue_exec] in Ho. rewrite Hpop in Ho. cbn [mbind res_bind list_exec] in Ho.
    destruct (queue_iter request_lt q) as [|y l]; [done|]. by destruct Ho as ([= ->] & _ & _ & ->).
Qed.

End requests.

(** ** Witness: three requests, the second with the best priority *)

Definition exq_sampling : SamplingParams Q := mkSamplingParams Q (Some 4) 0 None [] None None None None.
Definition exq_base : Request Q unit :=
  from_ok (request_init (F := Q) (E := unit) (fun _ => 0) None 0 "r" 0 0 (Some exq_sampling) None 0%Q (Some [1; 2]) None None None None false false)
    ltac:(vm_compute; reflexivity).
Definition exq_obj (id : Z) : Request Q unit :=
  exq_base <| rq_oid := id |> <| rq_priority := if id =? 2 then -1 else 0 |> <| rq_arrival_time := inject_Z id |>.

Lemma queue_refines_list_witness :
  queue_trace (request_lt (fun x => x) exq_obj) [QAdd 3; QAdd 1; QAdd 2; QPop; QRemove 3; QRemove 3; QPop; QPop] (create_request_queue PRIORITY) =
  [Ok None; Ok None; Ok None; Ok (Some 2); Ok None; Err ValueError; Ok (Some 1); Err IndexError].
Proof.
  rewrite (queue_refines_list (fun x => x) exq_obj PRIORITY).
  - vm_compute. reflexivity.
  - intros a b Hab. exact Hab.
Defined.
