(* ===== verification/EncoderCache.v ===== *)
(** * The encoder cache

    Models vllm/v1/core/encoder_cache_manager.py, with the two methods of the scheduler
    that drive it: [_try_schedule_encoder_inputs] and [_free_encoder_inputs].  The
    manager of multi-modal models shares the outputs of equal inputs, keeps those that
    no request references and evicts them, the oldest first, when room is needed; the
    manager of encoder-decoder models only counts.

    The order in which a set of integers is iterated over is a parameter. *)

From S2P Require Import Prelude PyFloat Protocol Request.

Record EncoderCacheManager := mkEncoderCache {
  ec_cache_size : Z;
  ec_num_free_slots : Z;
  ec_num_freeable_slots : Z;
  ec_cached : gmap string (gset string);
  ec_freeable : list (string * Z);
  ec_freed : list string;
}.
#[global] Instance encoder_cache_settable : Settable EncoderCacheManager :=
  { rebuild m := mkEncoderCache (ec_cache_size m) (ec_num_free_slots m) (ec_num_freeable_slots m) (ec_cached m) (ec_freeable m) (ec_freed m) }.

Record EncoderDecoderCacheManager := mkEncoderDecoder {
  ed_cache_size : Z;
  ed_num_free_slots : Z;
  ed_allocated : list string;
  ed_to_free : list string;
}.
#[global] Instance encoder_decoder_settable : Settable EncoderDecoderCacheManager :=
  { rebuild m := mkEncoderDecoder (ed_cache_size m) (ed_num_free_slots m) (ed_allocated m) (ed_to_free m) }.

Definition encoder_cache_init (cache_size : Z) : EncoderCacheManager := mkEncoderCache cache_size cache_size cache_size ∅ [] [].
Definition encoder_decoder_init (cache_size : Z) : EncoderDecoderCacheManager := mkEncoderDecoder cache_size cache_size [] [].

Section manager.
Context {F E : Type} `{PyFloat F}.
Context (set_iter : gset Z → list Z).
Notation req := (Request F E).
Implicit Types (r : req) (i n : Z).

Definition identifier_of r i : res string := f ← py_index (rq_mm_features r) i; Ok (mm_identifier f).

(** ** [EncoderCacheManager] *)

Definition ec_reset (m : EncoderCacheManager) : EncoderCacheManager := encoder_cache_init (ec_cache_size m).

Definition ec_check_and_update_cache r i : st EncoderCacheManager bool :=
  mm_hash ← st_lift (identifier_of r i);
  m ← st_get;
  match ec_cached m !! mm_hash with
  | None => mret false
  | Some refs =>
      (if bool_decide (refs = ∅) then
         n ← st_lift (or_raise KeyError (od_get mm_hash (ec_freeable m)));
         st_modify (fun m => m <| ec_freeable ::= od_del mm_hash |> <| ec_num_freeable_slots ::= fun k => k - n |>)
       else mret tt);;
      st_modify (fun m => m <| ec_cached ::= alter (union {[rq_request_id r]}) mm_hash |>);;
      mret true
  end.

(** The eviction loop: the oldest entries go until [num_embeds] slots are free. *)
Fixpoint ec_evict (num_embeds : Z) (freeable : list (string * Z)) : st EncoderCacheManager unit :=
  m ← st_get;
  if ec_num_free_slots m <? num_embeds then
    match freeable with
    | [] => st_raise KeyError
    | (mm_hash, n) :: freeable =>
        st_modify (fun m => m <| ec_freeable := freeable |>);;
        _ ← st_lift (or_raise KeyError (ec_cached m !! mm_hash));
        st_modify (fun m => m <| ec_cached ::= delete mm_hash |> <| ec_freed ::= fun l => l ++ [mm_hash] |>
                              <| ec_num_free_slots ::= Z.add n |>);;
        ec_evict num_embeds freeable
    end
  else mret tt.

Definition ec_can_allocate r i (encoder_compute_budget num_embeds_to_schedule : Z) : st EncoderCacheManager bool :=
  n ← st_lift (get_num_encoder_embeds r i);
  if encoder_compute_budget <? n then mret false
  else
    let num_embeds := n + num_embeds_to_schedule in
    m ← st_get;
    if num_embeds <=? ec_num_free_slots m then mret true
    else if ec_num_freeable_slots m <? num_embeds then mret false
    else ec_evict num_embeds (ec_freeable m);; mret true.

Definition ec_allocate r i : st EncoderCacheManager unit :=
  mm_hash ← st_lift (identifier_of r i);
  st_modify (fun m => m <| ec_cached ::= fun d => match d !! mm_hash with Some _ => d | None => <[mm_hash := ∅]> d end |>);;
  n ← st_lift (get_num_encoder_embeds r i);
  m ← st_get;
  st_assert (n <=? ec_num_free_slots m);;
  st_assert (n <=? ec_num_freeable_slots m);;
  st_modify (fun m => m <| ec_cached ::= alter (union {[rq_request_id r]}) mm_hash |>
                        <| ec_num_free_slots ::= fun k => k - n |> <| ec_num_freeable_slots ::= fun k => k - n |>).

Definition ec_get_cached_input_ids r (m : EncoderCacheManager) : gset Z :=
  list_to_set ((fun '(i, _) => Z.of_nat i) <$> filter (fun '(_, f) => is_Some (ec_cached m !! mm_identifier f))
                 (imap pair (rq_mm_features r))).

Definition ec_free_encoder_input r i : st EncoderCacheManager unit :=
  mm_hash ← st_lift (identifier_of r i);
  m ← st_get;
  let refs := default ∅ (ec_cached m !! mm_hash) in
  if bool_decide (refs = ∅) then mret tt
  else
    let refs := refs ∖ {[rq_request_id r]} in
    st_modify (fun m => m <| ec_cached ::= insert mm_hash refs |>);;
    if bool_decide (refs = ∅) then
      n ← st_lift (get_num_encoder_embeds r i);
      st_modify (fun m => m <| ec_freeable ::= od_set mm_hash n |> <| ec_num_freeable_slots ::= Z.add n |>)
    else mret tt.

Definition ec_free r : st EncoderCacheManager unit :=
  m ← st_get;
  st_iter (ec_free_encoder_input r) (set_iter (ec_get_cached_input_ids r m)).

Definition ec_get_freed_mm_hashes : st EncoderCacheManager (list string) :=
  m ← st_get;
  st_modify (fun m => m <| ec_freed := [] |>);;
  mret (ec_freed m).

(** ** [EncoderDecoderCacheManager] *)

Definition ed_reset (m : EncoderDecoderCacheManager) : EncoderDecoderCacheManager := encoder_decoder_init (ed_cache_size m).

Definition ed_can_allocate r i (encoder_compute_budget num_embeds_to_schedule : Z) : st EncoderDecoderCacheManager bool :=
  n ← st_lift (get_num_encoder_embeds r i);
  if encoder_compute_budget <? n then mret false
  else m ← st_get; mret (n + num_embeds_to_schedule <=? ed_num_free_slots m).

Definition ed_allocate r i : st EncoderDecoderCacheManager unit :=
  n ← st_lift (get_num_encoder_embeds r i);
  st_modify (fun m => m <| ed_num_free_slots ::= fun k => k - n |>);;
  mm_hash ← st_lift (identifier_of r i);
  st_modify (fun m => m <| ed_allocated ::= fun l => l ++ [mm_hash] |>).

Definition ed_free_encoder_input r i : st EncoderDecoderCacheManager unit :=
  n ← st_lift (get_num_encoder_embeds r i);
  st_modify (fun m => m <| ed_num_free_slots ::= Z.add n |>).

Definition ed_free r : st EncoderDecoderCacheManager unit :=
  st_iter (ed_free_encoder_input r) (seqZ 0 (num_encoder_inputs r)).

Definition ed_get_cached_input_ids r : gset Z := list_to_set (seqZ 0 (num_encoder_inputs r)).

Definition ed_get_freed_mm_hashes : st EncoderDecoderCacheManager (list string) :=
  m ← st_get;
  st_modify (fun m => m <| ed_to_free := ed_allocated m |> <| ed_allocated := [] |>);;
  mret (ed_to_free m).

(** ** The manager of the scheduler *)

Inductive encoder_manager :=
  | CacheManager (m : EncoderCacheManager)
  | DecoderManager (m : EncoderDecoderCacheManager).

Definition is_encoder_decoder (e : encoder_manager) : bool := match e with DecoderManager _ => true | CacheManager _ => false end.

(** [m] run on the manager of either class. *)
Definition on_encoder {A} (m : st EncoderCacheManager A) (m' : st EncoderDecoderCacheManager A) : st encoder_manager A := fun e =>
  match e with
  | CacheManager c => match m c with Ok (c, a) => Ok (CacheManager c, a) | Err x => Err x end
  | DecoderManager d => match m' d with Ok (d, a) => Ok (DecoderManager d, a) | Err x => Err x end
  end.

Definition en_check_and_update_cache r i : st encoder_manager bool := on_encoder (ec_check_and_update_cache r i) (mret false).
Definition en_can_allocate r i budget scheduled : st encoder_manager bool :=
  on_encoder (ec_can_allocate r i budget scheduled) (ed_can_allocate r i budget scheduled).
Definition en_allocate r i : st encoder_manager unit := on_encoder (ec_allocate r i) (ed_allocate r i).
Definition en_free_encoder_input r i : st encoder_manager unit := on_encoder (ec_free_encoder_input r i) (ed_free_encoder_input r i).
Definition en_free r : st encoder_manager unit := on_encoder (ec_free r) (ed_free r).
Definition en_get_cached_input_ids r (e : encoder_manager) : gset Z :=
  match e with CacheManager m => ec_get_cached_input_ids r m | DecoderManager _ => ed_get_cached_input_ids r end.
Definition en_get_freed_mm_hashes : st encoder_manager (list string) := on_encoder ec_get_freed_mm_hashes ed_get_freed_mm_hashes.
Definition en_reset : st encoder_manager unit := on_encoder (st_modify ec_reset) (st_modify ed_reset).

(** ** [Scheduler._try_schedule_encoder_inputs] *)

(** What the loop carries: the inputs to schedule, those to load, their hashes, their
    embeddings, the tokens and the budget. *)
Record encoder_plan := mkEncoderPlan {
  ep_inputs : list Z;
  ep_external : list Z;
  ep_hashes : gset string;
  ep_embeds : Z;
  ep_new_tokens : Z;
  ep_budget : Z;
}.

Section try_schedule.
Context (disable_chunked_mm_input : bool) (has_cache_item : option (string → bool)).
Context (r : req) (num_computed_tokens shift_computed_tokens : Z).

Definition loads_item (h : string) : bool := match has_cache_item with Some f => f h | None => false end.

Fixpoint encoder_loop (i : Z) (features : list MultiModalFeatureSpec) (p : encoder_plan) : st encoder_manager encoder_plan :=
  match features with
  | [] => mret p
  | f :: features =>
      e ← st_get;
      let start_pos := pl_offset (mm_position f) in
      let num_encoder_tokens := pl_length (mm_position f) in
      let num_encoder_embeds := get_num_embeds (mm_position f) in
      let new_tokens := ep_new_tokens p in
      if num_computed_tokens + new_tokens + shift_computed_tokens <=? start_pos then mret p
      else if is_encoder_decoder e && (0 <? num_computed_tokens) then st_assert (start_pos =? 0);; encoder_loop (i + 1) features p
      else if start_pos + num_encoder_tokens <=? num_computed_tokens then encoder_loop (i + 1) features p
      else if negb (is_encoder_decoder e) && bool_decide (mm_identifier f ∈ ep_hashes p) then encoder_loop (i + 1) features p
      else
        hit ← (if is_encoder_decoder e then mret false else en_check_and_update_cache r i);
        if hit : bool then encoder_loop (i + 1) features p
        else if disable_chunked_mm_input && (num_computed_tokens <? start_pos) &&
                (num_computed_tokens + new_tokens <? start_pos + num_encoder_tokens)
        then mret (mkEncoderPlan (ep_inputs p) (ep_external p) (ep_hashes p) (ep_embeds p)
                     (Z.max 0 (start_pos - (num_computed_tokens + shift_computed_tokens))) (ep_budget p))
        else
          ok ← en_can_allocate r i (ep_budget p) (ep_embeds p);
          if negb ok then
            mret (mkEncoderPlan (ep_inputs p) (ep_external p) (ep_hashes p) (ep_embeds p)
                    (if num_computed_tokens + shift_computed_tokens <? start_pos
                     then start_pos - (num_computed_tokens + shift_computed_tokens) else 0) (ep_budget p))
          else
            let start_idx := Z.max 0 (num_computed_tokens - start_pos) in
            let end_idx := Z.min num_encoder_tokens (num_computed_tokens + new_tokens - start_pos) in
            '(s, t) ← st_lift (get_embeds_indices_in_range (mm_position f) start_idx end_idx);
            if t - s =? 0 then encoder_loop (i + 1) features p
            else if loads_item (mm_identifier f) then
              encoder_loop (i + 1) features
                (mkEncoderPlan (ep_inputs p) (ep_external p ++ [i]) ({[mm_identifier f]} ∪ ep_hashes p)
                   (ep_embeds p + num_encoder_embeds) new_tokens (ep_budget p))
            else
              encoder_loop (i + 1) features
                (mkEncoderPlan (ep_inputs p ++ [i]) (ep_external p) ({[mm_identifier f]} ∪ ep_hashes p)
                   (ep_embeds p + num_encoder_embeds) new_tokens (ep_budget p - num_encoder_embeds))
  end.

(** The inputs to schedule, the number of tokens, the budget and the inputs to load. *)
Definition try_schedule_encoder_inputs (num_new_tokens encoder_compute_budget : Z) : st encoder_manager (list Z * Z * Z * list Z) :=
  if (num_new_tokens =? 0) || negb (has_encoder_inputs r) then mret ([], num_new_tokens, encoder_compute_budget, [])
  else
    p ← encoder_loop 0 (rq_mm_features r) (mkEncoderPlan [] [] ∅ 0 num_new_tokens encoder_compute_budget);
    mret (ep_inputs p, ep_new_tokens p, ep_budget p, ep_external p).

End try_schedule.

(** ** [Scheduler._free_encoder_inputs] *)

Definition free_encoder_inputs r : st encoder_manager unit :=
  e ← st_get;
  st_iter (fun i =>
    f ← st_lift (py_index (rq_mm_features r) i);
    st_when ((is_encoder_decoder e && (0 <? rq_num_computed_tokens r)) ||
             (pl_offset (mm_position f) + pl_length (mm_position f) <=? rq_num_computed_tokens r))
      (en_free_encoder_input r i)) (set_iter (en_get_cached_input_ids r e)).

End manager.

(** ** [compute_mm_encoder_budget] *)

Definition compute_mm_encoder_budget (disable_chunked_mm_input : bool) (max_num_batched_tokens max_num_encoder_input_tokens encoder_cache_size : Z)
    (mm_max_toks_per_item : list (string * Z)) : res (Z * Z) :=
  match mm_max_toks_per_item.*2 with
  | [] => Ok (0, 0)
  | n :: l =>
      let max_tokens_per_mm_item := foldl Z.max n l in
      if disable_chunked_mm_input && (max_num_batched_tokens <? max_tokens_per_mm_item) then Err ValueError
      else Ok (Z.max max_num_encoder_input_tokens max_tokens_per_mm_item, Z.max encoder_cache_size max_tokens_per_mm_item)
  end.

(** ** The worker's side

    The part of [GPUModelRunner._gather_mm_embeddings] that decides which encoder
    outputs are looked up, each with an assertion that it is there, for a request of
    which [num_scheduled_tokens] are computed. *)
Fixpoint gathered_hashes (num_computed_tokens num_scheduled_tokens : Z) (features : list MultiModalFeatureSpec) : res (list string) :=
  match features with
  | [] => Ok []
  | f :: features =>
      let start_pos := pl_offset (mm_position f) in
      let num_encoder_tokens := pl_length (mm_position f) in
      if num_computed_tokens + num_scheduled_tokens <=? start_pos then Ok []
      else if start_pos + num_encoder_tokens <=? num_computed_tokens then gathered_hashes num_computed_tokens num_scheduled_tokens features
      else
        let start_idx := Z.max (num_computed_tokens - start_pos) 0 in
        let end_idx := Z.min (num_computed_tokens - start_pos + num_scheduled_tokens) num_encoder_tokens in
        passert (start_idx <? end_idx);;
        '(s, t) ← get_embeds_indices_in_range (mm_position f) start_idx end_idx;
        rest ← gathered_hashes num_computed_tokens num_scheduled_tokens features;
        Ok (if s =? t then rest else mm_identifier f :: rest)
  end.
