(* ===== verification/EncoderCacheThms.v ===== *)
(** * The encoder cache: correctness

    The accounting of the cache in every reachable state, the outcome of its
    operations, and that the encoder outputs the worker looks up are there. *)

From Stdlib Require Import QArith.
From S2P Require Import Prelude PyFloat Protocol Request EncoderCache.
Open Scope Z_scope.

(** ** The embeddings in a range of placeholder tokens *)

Record placeholder_ok (p : PlaceholderRange) : Prop := {
  ph_length : 0 < pl_length p;
  ph_mask : ∀ mask, pl_is_embed p = Some mask → lenZ mask = pl_length p;
}.

(** The embeddings among the first [a] placeholder tokens. *)
Definition embeds_before (p : PlaceholderRange) (a : Z) : Z :=
  match pl_is_embed p with None => a | Some mask => sumZ Z.b2z (take (Z.to_nat a) mask) end.

Lemma cumsum_lookup acc mask k : (k < length mask)%nat → cumsum_from acc mask !! k = Some (acc + sumZ Z.b2z (take (S k) mask)).
Proof.
  revert acc k; induction mask as [|b mask IH]; intros acc k Hk; cbn in *; [lia|]. destruct k as [|k]; cbn; [rewrite take_0; cbn; f_equal; lia|].
  rewrite IH by lia. f_equal. lia.
Qed.

Lemma cumsum_index mask a :
  0 <= a <= lenZ mask → (if 0 <? a then py_index (cumsum_from 0 mask) (a - 1) else Ok 0) = Ok (sumZ Z.b2z (take (Z.to_nat a) mask)).
Proof.
  intros Ha. destruct (Z.ltb_spec 0 a) as [Hpos|Hz]; [|by replace a with 0 by lia].
  replace (a - 1) with (Z.of_nat (Z.to_nat (a - 1))) by lia. rewrite py_index_nonneg. rewrite cumsum_lookup by lia.
  cbn [or_raise]. by replace (S (Z.to_nat (a - 1))) with (Z.to_nat a) by lia.
Qed.

Lemma embeds_in_range p a b : placeholder_ok p → 0 <= a → 0 <= b → a <= pl_length p → b <= pl_length p →
  get_embeds_indices_in_range p a b = Ok (embeds_before p a, embeds_before p b).
Proof.
  intros [Hlen Hm] Ha Hb Hal Hbl. unfold get_embeds_indices_in_range, embeds_cumsum, embeds_before.
  destruct (pl_is_embed p) as [mask|]; [|done]. specialize (Hm mask eq_refl). cbn. by rewrite !cumsum_index by lia.
Qed.

Lemma embeds_before_mono p a b : 0 <= a <= b → embeds_before p a <= embeds_before p b.
Proof.
  intros Hab. unfold embeds_before. destruct (pl_is_embed p) as [mask|]; [|lia].
  replace (Z.to_nat b) with (Z.to_nat a + Z.to_nat (b - a))%nat by lia. rewrite <- take_take_drop, sumZ_app.
  enough (0 <= sumZ Z.b2z (take (Z.to_nat (b - a)) (drop (Z.to_nat a) mask))) by lia. apply sumZ_nonneg. intros [] _; cbn; lia.
Qed.

(** A loop whose iterations each establish a fact that the others keep. *)
Lemma st_iter_each {S A} (f : A → st S unit) (P : S → Prop) (Q : A → S → Prop) l s :
  P s → (∀ a s, a ∈ l → P s → ∃ s', f a s = Ok (s', tt) ∧ P s' ∧ Q a s' ∧ ∀ b, Q b s → Q b s') →
  ∃ s', st_iter f l s = Ok (s', tt) ∧ P s' ∧ ∀ a, a ∈ l → Q a s'.
Proof.
  intros Hs Hf. enough (∃ s', st_iter f l s = Ok (s', tt) ∧ P s' ∧ (∀ a, a ∈ l → Q a s') ∧ ∀ b, Q b s → Q b s') as (s' & ? & ? & ? & _) by eauto.
  revert s Hs; induction l as [|a l IH]; intros s Hs; [exists s; split_and!; try done; by intros a ?%elem_of_nil|].
  destruct (Hf a s) as (s1 & H1 & Hs1 & Hq & Hk); [left|done|].
  destruct (IH) with s1 as (s2 & H2 & Hs2 & Hq2 & Hk2); [intros; apply Hf; [by right|done]|done|].
  exists s2. split_and!; [cbn; by rewrite (st_bind_eq _ _ _ _ _ H1)|done| |auto]. intros b [->|Hb]%elem_of_cons; auto.
Qed.

Lemma st_iter_app {S A} (f : A → st S unit) l1 l2 s : st_iter f (l1 ++ l2) s = (st_iter f l1 ≫= fun _ => st_iter f l2) s.
Proof.
  revert s; induction l1 as [|a l1 IH]; intros s; cbn; [done|]. rewrite st_bind_assoc. unfold mbind, st_bind. destruct (f a s) as [[s' u]|]; [apply IH|done].
Qed.

Lemma sumZ_seqZ {A} (f : Z → Z) (g : A → Z) l : (∀ j x, l !! j = Some x → f (Z.of_nat j) = g x) → sumZ f (seqZ 0 (lenZ l)) = sumZ g l.
Proof.
  induction l as [|x l IH] using rev_ind; intros Hf; [done|]. rewrite length_app, Nat2Z.inj_add, seqZ_app, !sumZ_app by lia.
  rewrite IH by (intros j y Hy; apply Hf; by apply lookup_app_l_Some). cbn. rewrite <- (Hf (length l) x); [do 2 f_equal; lia|].
  by apply list_lookup_middle.
Qed.

Section cache.
Context {F E : Type} `{PyFloat F}.
Notation req := (Request F E).
(** The number of embeddings of an input, which its hash determines, and the size of
    the cache. *)
Context (size : string → Z) (capacity : Z).
Implicit Types (r : req) (m : EncoderCacheManager) (h rid : string) (X : gset string).

Definition sized r : Prop :=
  ∀ j f, rq_mm_features r !! j = Some f → get_num_embeds (mm_position f) = size (mm_identifier f) ∧ 0 <= size (mm_identifier f).

(** ** Sums over the entries *)

Definition occupied X : Z := sumZ size (elements X).

Lemma occupied_insert X h : h ∉ X → occupied ({[h]} ∪ X) = size h + occupied X.
Proof. intros Hh. unfold occupied. by rewrite (sumZ_perm _ _ _ (elements_union_singleton X h Hh)). Qed.

Lemma occupied_delete X h : h ∈ X → occupied X = size h + occupied (X ∖ {[h]}).
Proof. intros Hh. rewrite <- occupied_insert by set_solver. f_equal. apply set_eq. intros x. destruct (decide (x = h)); set_solver. Qed.

Lemma occupied_empty : occupied ∅ = 0.
Proof. unfold occupied. by rewrite elements_empty. Qed.

(** ** The invariant *)

Definition refs_of m h : gset string := default ∅ (ec_cached m !! h).

Record ec_wf m : Prop := {
  ew_keys : od_wf (ec_freeable m);
  ew_unref : ∀ h, h ∈ (ec_freeable m).*1 ↔ ec_cached m !! h = Some ∅;
  ew_size : ∀ h n, (h, n) ∈ ec_freeable m → n = size h;
  ew_nonneg : ∀ h, h ∈ dom (ec_cached m) → 0 <= size h;
  ew_free : ec_num_free_slots m + occupied (dom (ec_cached m)) = capacity;
  ew_capacity : ec_cache_size m = capacity;
  ew_freeable : ec_num_freeable_slots m = ec_num_free_slots m + sumZ snd (ec_freeable m);
  ew_slots : 0 <= ec_num_free_slots m;
}.

(** What the search for room may change: references are only added, entries without
    references may go. *)
Record settles m m' : Prop := {
  se_refs : ∀ h rid, rid ∈ refs_of m h → rid ∈ refs_of m' h;
  se_free : ec_num_free_slots m <= ec_num_free_slots m';
  se_dom : dom (ec_cached m') ⊆ dom (ec_cached m);
}.
#[global] Instance settles_refl : Reflexive settles.
Proof. intros m. by split. Qed.
#[global] Instance settles_trans : Transitive settles.
Proof. intros m1 m2 m3 [] []. split; [auto|lia|set_solver]. Qed.

Lemma freeable_nonneg m : ec_wf m → ∀ h n, (h, n) ∈ ec_freeable m → 0 <= n.
Proof.
  intros Hwf h n Hin. rewrite (ew_size _ Hwf h n Hin). apply (ew_nonneg _ Hwf). apply elem_of_dom. exists ∅.
  apply (ew_unref _ Hwf). by apply (list_elem_of_fmap_2' fst _ (h, n)).
Qed.

Lemma freeable_bound m : ec_wf m → ec_num_free_slots m <= ec_num_freeable_slots m.
Proof.
  intros Hwf. rewrite (ew_freeable _ Hwf). enough (0 <= sumZ snd (ec_freeable m)) by lia.
  apply sumZ_nonneg. intros [h n] Hin. by apply (freeable_nonneg m Hwf h).
Qed.

Lemma feature_at r (j : nat) f :
  rq_mm_features r !! j = Some f → identifier_of r (Z.of_nat j) = Ok (mm_identifier f) ∧
    get_num_encoder_embeds r (Z.of_nat j) = Ok (get_num_embeds (mm_position f)).
Proof.
  intros Hf. unfold identifier_of, get_num_encoder_embeds. rewrite py_index_nonneg, Hf. split; [done|].
  assert (Z.of_nat j <? lenZ (rq_mm_features r) = true) as -> by (apply Z.ltb_lt; apply lookup_lt_Some in Hf; lia). done.
Qed.

Lemma init_ec_wf : 0 <= capacity → ec_wf (encoder_cache_init capacity).
Proof.
  intros Hn. split; try done.
  - apply NoDup_nil_2.
  - intros h. cbn. split; [by intros ?%elem_of_nil|by rewrite lookup_empty].
  - by intros ? ? ?%elem_of_nil.
  - cbn. rewrite dom_empty_L, occupied_empty. lia.
  - cbn. lia.
Qed.

(** ** The operations *)

Lemma od_del_sum h n (d : list (string * Z)) : od_get h d = Some n → sumZ snd d = n + sumZ snd (od_del h d).
Proof.
  induction d as [|[h' n'] d IH]; cbn; [done|]. destruct (decide (h' = h)); [by intros [= ->]|]. intros Hg. cbn. rewrite (IH Hg). lia.
Qed.

Lemma add_ref_nonempty rid X : {[rid]} ∪ X ≠ ∅.
Proof. set_solver. Qed.

Lemma refs_alter m h h' rid : refs_of (m <| ec_cached ::= alter (union {[rid]}) h |>) h' =
  if decide (h = h') then match ec_cached m !! h with Some refs => {[rid]} ∪ refs | None => ∅ end else refs_of m h'.
Proof.
  unfold refs_of. cbn. destruct (decide (h = h')) as [<-|Hne]; [rewrite lookup_alter_eq; by destruct (ec_cached m !! h)|by rewrite lookup_alter_ne].
Qed.

Lemma check_spec r m (j : nat) f :
  ec_wf m → rq_mm_features r !! j = Some f →
  ∃ m' b, ec_check_and_update_cache r (Z.of_nat j) m = Ok (m', b) ∧ ec_wf m' ∧ settles m m' ∧ dom (ec_cached m') = dom (ec_cached m) ∧
    (b = true ↔ mm_identifier f ∈ dom (ec_cached m)) ∧ (b = true → rq_request_id r ∈ refs_of m' (mm_identifier f)).
Proof.
  intros Hwf Hf. destruct (feature_at r j f Hf) as [Hid _]. set (h := mm_identifier f) in *. set (rid := rq_request_id r).
  unfold ec_check_and_update_cache. rewrite (st_bind_lift _ _ _ _ Hid), st_bind_get.
  destruct (ec_cached m !! h) as [refs|] eqn:Hh; [|exists m, false; split_and!; try done; rewrite elem_of_dom, Hh; split; [done|by intros []]].
  assert (∀ m1, ec_wf (m1 <| ec_cached ::= alter (union {[rid]}) h |>) → ec_cached m1 = ec_cached m → ec_num_free_slots m1 = ec_num_free_slots m →
    ∃ m' b, (st_modify (fun m => m <| ec_cached ::= alter (union {[rid]}) h |>) ≫= fun _ => mret true) m1 = Ok (m', b) ∧ ec_wf m' ∧ settles m m' ∧
      dom (ec_cached m') = dom (ec_cached m) ∧ (b = true ↔ h ∈ dom (ec_cached m)) ∧ (b = true → rid ∈ refs_of m' h)) as Hadd.
  { intros m1 Hwf1 Hc Hn. rewrite st_bind_modify. eexists _, true. split; [done|]. split; [done|].
    assert (dom (ec_cached (m1 <| ec_cached ::= alter (union {[rid]}) h |>)) = dom (ec_cached m)) as Hd by (cbn; by rewrite dom_alter_L, Hc).
    split_and!; [split|done| |].
    - intros h' q Hq. rewrite refs_alter, Hc. unfold refs_of in *. rewrite Hc. case_decide; [|done]. subst h'. rewrite Hh in Hq |- *. set_solver.
    - cbn. by rewrite Hn.
    - by rewrite Hd.
    - rewrite elem_of_dom, Hh. by split.
    - intros _. rewrite refs_alter, Hc, decide_True, Hh by done. set_solver. }
  destruct (decide (refs = ∅)) as [->|Hne].
  - rewrite bool_decide_true by done. assert (h ∈ (ec_freeable m).*1) as Hin by by apply (ew_unref _ Hwf).
    destruct (od_get h (ec_freeable m)) as [n|] eqn:Hg; [|by apply od_get_None in Hg]. rewrite st_bind_assoc, (st_bind_lift (or_raise KeyError (Some n)) n) by done.
    rewrite st_bind_modify.
    apply Hadd; [|done|done]. destruct Hwf. split; cbn; try done.
    + by apply od_wf_del.
    + intros h'. rewrite elem_of_od_keys_del by done. rewrite ew_unref0. destruct (decide (h = h')) as [<-|Hne].
      * rewrite lookup_alter_eq, Hh. cbn. split; [naive_solver|]. intros He. by apply (inj Some), add_ref_nonempty in He.
      * rewrite lookup_alter_ne by done. naive_solver.
    + intros h' n' Hin'. apply ew_size0. by eapply elem_of_sublist, od_del_sublist.
    + intros h'. rewrite dom_alter_L. apply ew_nonneg0.
    + by rewrite dom_alter_L.
    + rewrite ew_freeable0, (od_del_sum h n _ Hg). lia.
  - rewrite bool_decide_false by done. rewrite (st_bind_eq _ (mret tt) m m tt) by done. apply Hadd; [|done|done]. destruct Hwf. split; cbn; try done.
    + intros h'. rewrite ew_unref0. destruct (decide (h = h')) as [<-|Hne']; [|by rewrite lookup_alter_ne].
      rewrite lookup_alter_eq, Hh. cbn. split; intros He; apply (inj Some) in He; [done|by apply add_ref_nonempty in He].
    + intros h'. rewrite dom_alter_L. apply ew_nonneg0.
    + by rewrite dom_alter_L.
Qed.

(** The entry at the head of [freeable] goes. *)
Definition evicted m h n (rest : list (string * Z)) : EncoderCacheManager :=
  m <| ec_freeable := rest |> <| ec_cached ::= delete h |> <| ec_freed ::= fun l => l ++ [h] |> <| ec_num_free_slots ::= Z.add n |>.

Lemma evicted_wf m h n rest :
  ec_wf m → ec_freeable m = (h, n) :: rest → ec_wf (evicted m h n rest) ∧ settles m (evicted m h n rest) ∧
    ec_num_freeable_slots (evicted m h n rest) = ec_num_freeable_slots m ∧ ec_cached m !! h = Some ∅ ∧ 0 <= n.
Proof.
  intros Hwf Hfr. pose proof (freeable_nonneg m Hwf h n ltac:(rewrite Hfr; left)) as Hn. destruct Hwf. rewrite Hfr in *.
  assert (ec_cached m !! h = Some ∅) as Hh by (apply ew_unref0; left). unfold od_wf in ew_keys0. cbn in ew_keys0. apply NoDup_cons in ew_keys0 as [Hni Hnd].
  assert (h ∈ dom (ec_cached m)) as Hdom by (apply elem_of_dom; by exists ∅). assert (n = size h) as Hsz by (apply ew_size0; left).
  assert (settles m (evicted m h n rest)) as Hs.
  { split; cbn; [|lia|rewrite dom_delete_L; set_solver]. intros h' rid. unfold refs_of. cbn.
    destruct (decide (h = h')) as [<-|Hne]; [rewrite Hh; cbn; set_solver|by rewrite lookup_delete_ne]. }
  split_and!; try done. split; cbn; try done.
  - intros h'. destruct (decide (h = h')) as [<-|Hne]; [rewrite lookup_delete_eq; split; done|]. rewrite lookup_delete_ne by done. rewrite <- ew_unref0.
    cbn. rewrite elem_of_cons. naive_solver.
  - intros h' n' Hin. apply ew_size0. by right.
  - intros h'. rewrite dom_delete_L. intros Hin. apply ew_nonneg0. set_solver.
  - rewrite dom_delete_L. rewrite (occupied_delete _ h Hdom) in ew_free0. lia.
  - rewrite ew_freeable0. cbn. lia.
  - lia.
Qed.

Lemma evict_spec num m :
  ec_wf m → num <= ec_num_freeable_slots m →
  ∃ m', ec_evict num (ec_freeable m) m = Ok (m', tt) ∧ ec_wf m' ∧ settles m m' ∧ num <= ec_num_free_slots m' ∧
    ec_num_freeable_slots m' = ec_num_freeable_slots m.
Proof.
  remember (ec_freeable m) as l eqn:Hl. revert m Hl; induction l as [|[h n] l IH]; intros m Hl Hwf Hnum; cbn [ec_evict]; rewrite st_bind_get.
  - destruct (Z.ltb_spec (ec_num_free_slots m) num) as [Hlt|Hge]; [|by exists m].
    exfalso. pose proof (ew_freeable _ Hwf) as Hf. rewrite <- Hl in Hf. cbn in Hf. lia.
  - destruct (Z.ltb_spec (ec_num_free_slots m) num) as [Hlt|Hge]; [|by exists m].
    destruct (evicted_wf m h n l Hwf (eq_sym Hl)) as (Hwf1 & Hs1 & Hf1 & Hh & Hn). rewrite st_bind_modify, Hh, (st_bind_lift _ ∅), st_bind_modify by done.
    destruct (IH (evicted m h n l)) as (m' & Heq & Hwf' & Hs' & Hnum' & Hf'); [done|done|by rewrite Hf1|].
    exists m'. split_and!; try done; by etrans.
Qed.

Lemma can_allocate_enc_spec r m (j : nat) f budget scheduled :
  ec_wf m → sized r → rq_mm_features r !! j = Some f →
  ∃ m' b, ec_can_allocate r (Z.of_nat j) budget scheduled m = Ok (m', b) ∧ ec_wf m' ∧ settles m m' ∧
    ec_num_freeable_slots m' = ec_num_freeable_slots m ∧
    (b = true ↔ size (mm_identifier f) <= budget ∧ size (mm_identifier f) + scheduled <= ec_num_freeable_slots m) ∧
    (b = true → size (mm_identifier f) + scheduled <= ec_num_free_slots m').
Proof.
  intros Hwf Hsz Hf. destruct (feature_at r j f Hf) as [_ Hn]. destruct (Hsz j f Hf) as [Heq _]. rewrite Heq in Hn.
  set (n := size (mm_identifier f)) in *. unfold ec_can_allocate. rewrite (st_bind_lift _ _ _ _ Hn). pose proof (freeable_bound m Hwf) as Hb.
  destruct (Z.ltb_spec budget n) as [Hlt|Hge]; [exists m, false; split_and!; try done; lia|].
  rewrite st_bind_get. destruct (Z.leb_spec (n + scheduled) (ec_num_free_slots m)) as [Hle|Hgt].
  { exists m, true. split_and!; try done; lia. }
  destruct (Z.ltb_spec (ec_num_freeable_slots m) (n + scheduled)) as [Hlt|Hle]; [exists m, false; split_and!; try done; lia|].
  destruct (evict_spec (n + scheduled) m Hwf Hle) as (m' & He & Hwf' & Hs & Hfree & Hfr). st_step He.
  exists m', true. split_and!; try done; lia.
Qed.

Lemma allocate_spec r m (j : nat) f :
  ec_wf m → sized r → rq_mm_features r !! j = Some f → mm_identifier f ∉ dom (ec_cached m) → size (mm_identifier f) <= ec_num_free_slots m →
  ∃ m', ec_allocate r (Z.of_nat j) m = Ok (m', tt) ∧ ec_wf m' ∧ ec_num_free_slots m' = ec_num_free_slots m - size (mm_identifier f) ∧
    dom (ec_cached m') = {[mm_identifier f]} ∪ dom (ec_cached m) ∧
    ∀ h, refs_of m' h = if decide (h = mm_identifier f) then {[rq_request_id r]} else refs_of m h.
Proof.
  intros Hwf Hsz Hf Hno Hfit. destruct (feature_at r j f Hf) as [Hid Hn]. destruct (Hsz j f Hf) as [Heq Hpos]. rewrite Heq in Hn.
  pose proof (freeable_bound m Hwf) as Hb. set (h := mm_identifier f) in *. set (rid := rq_request_id r).
  unfold ec_allocate. rewrite (st_bind_lift _ _ _ _ Hid), st_bind_modify, (st_bind_lift _ _ _ _ Hn), st_bind_get. cbn [ec_num_free_slots ec_num_freeable_slots].
  pose proof (proj1 (not_elem_of_dom _ _) Hno) as Hh.
  rewrite st_bind_assert by (apply Z.leb_le; cbn; lia). rewrite st_bind_assert by (apply Z.leb_le; cbn; lia).
  eexists. split; [done|]. set (m' := update_field _ _).
  assert (ec_cached m' = <[h := {[rid]}]> (ec_cached m)) as Hc.
  { unfold m'. cbn. rewrite Hh. rewrite alter_insert_eq. f_equal. apply union_empty_r_L. }
  assert (dom (ec_cached m') = {[h]} ∪ dom (ec_cached m)) as Hd by by rewrite Hc, dom_insert_L.
  split_and!; [|done|done|].
  - destruct Hwf. split; try done.
    + intros h'. change (ec_freeable m') with (ec_freeable m). rewrite Hc, ew_unref0. destruct (decide (h = h')) as [<-|Hne]; [|by rewrite lookup_insert_ne].
      rewrite lookup_insert_eq, Hh. split; [done|]. intros He. apply (inj Some) in He. set_solver.
    + intros h'. rewrite Hd, elem_of_union, elem_of_singleton. intros [->|?]; [done|by apply ew_nonneg0].
    + rewrite Hd, occupied_insert by done. cbn. lia.
    + cbn. lia.
    + cbn. lia.
  - intros h'. unfold refs_of. rewrite Hc. destruct (decide (h' = h)) as [->|Hne]; [by rewrite lookup_insert_eq|by rewrite lookup_insert_ne].
Qed.

(** What releasing references of [rid] may change. *)
Record releases rid m m' : Prop := {
  rl_dom : dom (ec_cached m') = dom (ec_cached m);
  rl_free : ec_num_free_slots m' = ec_num_free_slots m;
  rl_others : ∀ h q, q ≠ rid → q ∈ refs_of m' h ↔ q ∈ refs_of m h;
  rl_own : ∀ h, rid ∈ refs_of m' h → rid ∈ refs_of m h;
}.
#[global] Instance releases_refl rid : Reflexive (releases rid).
Proof. intros m. by split. Qed.
#[global] Instance releases_trans rid : Transitive (releases rid).
Proof. intros m1 m2 m3 [] []. split; [congruence|congruence| |auto]. intros h q Hq. rewrite rl_others1, rl_others0; done. Qed.

Lemma refs_insert m h h' refs : refs_of (m <| ec_cached ::= insert h refs |>) h' = if decide (h = h') then refs else refs_of m h'.
Proof. unfold refs_of. cbn. case_decide as Hc; [subst; by rewrite lookup_insert_eq|by rewrite lookup_insert_ne]. Qed.

Lemma od_set_new_sum h n (d : list (string * Z)) : h ∉ d.*1 → sumZ snd (od_set h n d) = sumZ snd d + n.
Proof. intros Hh. rewrite od_keys_set_new, sumZ_app by done. cbn. lia. Qed.

Lemma free_input_spec r m (j : nat) f :
  ec_wf m → sized r → rq_mm_features r !! j = Some f →
  ∃ m', ec_free_encoder_input r (Z.of_nat j) m = Ok (m', tt) ∧ ec_wf m' ∧ releases (rq_request_id r) m m' ∧
    rq_request_id r ∉ refs_of m' (mm_identifier f).
Proof.
  intros Hwf Hsz Hf. destruct (feature_at r j f Hf) as [Hid Hn]. destruct (Hsz j f Hf) as [Heq Hpos]. rewrite Heq in Hn.
  set (h := mm_identifier f) in *. set (rid := rq_request_id r). unfold ec_free_encoder_input. rewrite (st_bind_lift _ _ _ _ Hid), st_bind_get.
  fold (refs_of m h). destruct (decide (refs_of m h = ∅)) as [He|Hne].
  { rewrite bool_decide_true by done. exists m. split_and!; try done. rewrite He. set_solver. }
  rewrite bool_decide_false, st_bind_modify by done. set (refs := refs_of m h ∖ {[rid]}).
  assert (∃ old, ec_cached m !! h = Some old ∧ old ≠ ∅) as (old & Hh & Hold).
  { unfold refs_of in Hne. destruct (ec_cached m !! h) as [old|] eqn:Hh; [|done]. by exists old. }
  assert (h ∉ (ec_freeable m).*1) as Hnf by (rewrite (ew_unref _ Hwf), Hh; by intros [= ->]).
  assert (∀ m', ec_cached m' = <[h := refs]> (ec_cached m) → ec_num_free_slots m' = ec_num_free_slots m →
    releases rid m m' ∧ rid ∉ refs_of m' h ∧ dom (ec_cached m') = dom (ec_cached m)) as Hrel.
  { intros m' Hc Hfree. assert (dom (ec_cached m') = dom (ec_cached m)) as Hd by (rewrite Hc; apply dom_insert_lookup_L; by exists old).
    assert (∀ h', refs_of m' h' = if decide (h = h') then refs else refs_of m h') as Hr by (intros h'; rewrite <- refs_insert; unfold refs_of; by rewrite Hc).
    split_and!; [|rewrite Hr, decide_True by done; set_solver|done]. split; [done|done|intros h' q Hq|intros h']; rewrite Hr; case_decide; subst; set_solver. }
  destruct (decide (refs = ∅)) as [He|He].
  - rewrite bool_decide_true by done. rewrite (st_bind_lift _ _ _ _ Hn). eexists. split; [done|]. set (m' := update_field _ _).
    destruct (Hrel m' eq_refl eq_refl) as (Hr & Hown & Hd). split; [|done]. destruct Hwf. split; try done.
    + by apply od_wf_set.
    + intros h'. change (h' ∈ (od_set h (size h) (ec_freeable m)).*1 ↔ <[h := refs]> (ec_cached m) !! h' = Some ∅).
      rewrite elem_of_od_keys_set, ew_unref0, He. destruct (decide (h = h')) as [<-|Hne']; [rewrite lookup_insert_eq; naive_solver|].
      rewrite lookup_insert_ne by done. naive_solver.
    + intros h' n'. cbn. rewrite od_keys_set_new, elem_of_app, list_elem_of_singleton by done. intros [Hin|[= -> ->]]; [by apply ew_size0|done].
    + intros h'. rewrite Hd. apply ew_nonneg0.
    + by rewrite Hd.
    + cbn. rewrite od_set_new_sum by done. lia.
  - rewrite bool_decide_false by done. eexists. split; [done|]. set (m' := update_field _ _).
    destruct (Hrel m' eq_refl eq_refl) as (Hr & Hown & Hd). split; [|done]. destruct Hwf. split; try done.
    + intros h'. change (h' ∈ (ec_freeable m).*1 ↔ <[h := refs]> (ec_cached m) !! h' = Some ∅).
      rewrite ew_unref0. destruct (decide (h = h')) as [<-|Hne']; [|by rewrite lookup_insert_ne]. rewrite lookup_insert_eq, Hh. split; congruence.
    + intros h'. rewrite Hd. apply ew_nonneg0.
    + by rewrite Hd.
Qed.

(** ** The operations of the scheduler's manager *)

Lemma on_cache_eq {A} (f : st EncoderCacheManager A) g m m' a : f m = Ok (m', a) → on_encoder f g (CacheManager m) = Ok (CacheManager m', a).
Proof. unfold on_encoder. by intros ->. Qed.

Definition feature_ids r (fs : list (nat * MultiModalFeatureSpec)) : Prop := ∀ j f, (j, f) ∈ fs → rq_mm_features r !! j = Some f.
Definition ids (fs : list (nat * MultiModalFeatureSpec)) : list Z := (fun x => Z.of_nat x.1) <$> fs.
Definition hashes (fs : list (nat * MultiModalFeatureSpec)) : list string := (fun x => mm_identifier x.2) <$> fs.

Lemma occupied_nonneg X : (∀ h, h ∈ X → 0 <= size h) → 0 <= occupied X.
Proof. intros HX. apply sumZ_nonneg. intros h. rewrite elem_of_elements. apply HX. Qed.

(** The inputs of a plan are allocated. *)
Lemma allocate_all r m fs :
  ec_wf m → sized r → feature_ids r fs → NoDup (hashes fs) → (∀ h, h ∈ hashes fs → h ∉ dom (ec_cached m)) →
  sumZ size (hashes fs) <= ec_num_free_slots m →
  ∃ m', st_iter (en_allocate r) (ids fs) (CacheManager m) = Ok (CacheManager m', tt) ∧ ec_wf m' ∧
    (∀ h, h ∈ hashes fs → rq_request_id r ∈ refs_of m' h) ∧ (∀ h q, q ∈ refs_of m h → q ∈ refs_of m' h) ∧
    dom (ec_cached m') = list_to_set (hashes fs) ∪ dom (ec_cached m) ∧ ec_num_free_slots m' = ec_num_free_slots m - sumZ size (hashes fs).
Proof.
  intros Hwf Hsz. revert m Hwf; induction fs as [|[j f] fs IH]; intros m Hwf Hfs Hnd Hno Hfit.
  { exists m. split_and!; try done; [by intros h ?%elem_of_nil|cbn; by rewrite (left_id_L ∅ (∪))|cbn; lia]. }
  cbn [hashes fmap list_fmap sumZ snd] in *. apply NoDup_cons in Hnd as [Hni Hnd].
  assert (rq_mm_features r !! j = Some f) as Hf by (apply Hfs; left).
  assert (feature_ids r fs) as Hfs' by (intros j' f' Hin; apply Hfs; by right).
  assert (0 <= sumZ size (hashes fs)) as Hpos.
  { apply sumZ_nonneg. intros h ((j' & f') & -> & Hin)%list_elem_of_fmap. by apply (Hsz j' f'), Hfs'. }
  cbn [sumZ sum_map] in Hfit. fold (hashes fs) in *.
  destruct (allocate_spec r m j f Hwf Hsz Hf) as (m1 & He & Hwf1 & Hfree & Hd & Hr); [apply Hno; left|cbn in Hfit; lia|].
  destruct (IH m1 Hwf1 Hfs' Hnd) as (m' & He' & Hwf' & Hown & Hkeep & Hdom & Hslots).
  { intros h Hh. rewrite Hd, elem_of_union, elem_of_singleton. intros [->|Hin]; [done|]. apply (Hno h); [by right|done]. }
  { rewrite Hfree. cbn in Hfit. lia. }
  exists m'. split_and!; [|done| | | |].
  - cbn. rewrite (st_bind_eq _ (en_allocate r (Z.of_nat j)) _ _ _ (on_cache_eq _ _ _ _ _ He)). apply He'.
  - intros h [->|Hh]%elem_of_cons; [|by apply Hown]. apply Hkeep. rewrite Hr, decide_True by done. set_solver.
  - intros h q Hq. apply Hkeep. rewrite Hr. case_decide as Hc; [|done]. subst h.
    unfold refs_of in Hq. rewrite (proj1 (not_elem_of_dom (ec_cached m) _)) in Hq; [set_solver|apply Hno; left].
  - rewrite Hdom, Hd. cbn. set_solver.
  - rewrite Hslots, Hfree. cbn. lia.
Qed.

(** ** The plan of a step *)

Definition placed r : Prop := ∀ j f, rq_mm_features r !! j = Some f → placeholder_ok (mm_position f).

Section plan.
Context (disable_chunked_mm_input : bool) (has_cache_item : option (string → bool)).
Context (r : req) (c sh : Z) (Hsz : sized r) (Hpl : placed r) (Hsh : 0 <= sh <= 1).
Implicit Types (p : encoder_plan) (n : Z) (f : MultiModalFeatureSpec).

Definition embeds_of (i : Z) : Z := match get_num_encoder_embeds r i with Ok n => n | Err _ => 0 end.

(** The inputs of the plan are features of the request with distinct hashes; they are
    not cached, there is room for them, and the budget pays for those to compute. *)
Record plan_ok (budget : Z) m p : Prop := {
  po_items : ∃ fs, feature_ids r fs ∧ NoDup (hashes fs) ∧ ep_inputs p ++ ep_external p ≡ₚ ids fs ∧ ep_hashes p = list_to_set (hashes fs);
  po_embeds : ep_embeds p = occupied (ep_hashes p);
  po_fits : ep_embeds p <= ec_num_free_slots m;
  po_new : ∀ h, h ∈ ep_hashes p → h ∉ dom (ec_cached m);
  po_budget : 0 <= ep_budget p;
  po_spent : ep_budget p + sumZ embeds_of (ep_inputs p) = budget;
}.

Lemma plan_settles budget m m' p : plan_ok budget m p → settles m m' → plan_ok budget m' p.
Proof. intros [] []. split; try done; [lia|]. intros h Hh ?%se_dom0. by apply (po_new0 h). Qed.

Lemma plan_tokens budget m p n : plan_ok budget m p →
  plan_ok budget m (mkEncoderPlan (ep_inputs p) (ep_external p) (ep_hashes p) (ep_embeds p) n (ep_budget p)).
Proof. by intros []. Qed.

(** A feature joins the plan, to compute or to load. *)
Definition joined p (k : nat) f (load : bool) : encoder_plan :=
  mkEncoderPlan (if load then ep_inputs p else ep_inputs p ++ [Z.of_nat k]) (if load then ep_external p ++ [Z.of_nat k] else ep_external p)
    ({[mm_identifier f]} ∪ ep_hashes p) (ep_embeds p + get_num_embeds (mm_position f)) (ep_new_tokens p)
    (if load then ep_budget p else ep_budget p - get_num_embeds (mm_position f)).

Lemma plan_joined budget m p k f load :
  plan_ok budget m p → rq_mm_features r !! k = Some f → mm_identifier f ∉ ep_hashes p → mm_identifier f ∉ dom (ec_cached m) →
  size (mm_identifier f) <= ep_budget p → size (mm_identifier f) + ep_embeds p <= ec_num_free_slots m → plan_ok budget m (joined p k f load).
Proof.
  intros [(fs & Hfs & Hnd & Hperm & Hset) Hem Hfit Hnew Hb Hsp] Hf Hni Hnc Hbud Hroom. destruct (Hsz k f Hf) as [Heq Hpos].
  split; cbn [joined ep_inputs ep_external ep_hashes ep_embeds ep_new_tokens ep_budget].
  - exists ((k, f) :: fs). split_and!.
    + intros j' f' [[= -> ->]|Hin]%elem_of_cons; [done|by apply Hfs].
    + apply NoDup_cons. split; [|done]. by rewrite Hset, elem_of_list_to_set in Hni.
    + cbn [ids fmap list_fmap fst]. rewrite <- Hperm. destruct load; [rewrite app_assoc; symmetry; apply Permutation_cons_append|].
      rewrite <- app_assoc. symmetry. apply Permutation_middle.
    + by rewrite Hset.
  - rewrite occupied_insert by done. lia.
  - lia.
  - intros h. rewrite elem_of_union, elem_of_singleton. intros [->|Hh]; [done|by apply Hnew].
  - destruct load; lia.
  - destruct load; [done|]. rewrite sumZ_app. cbn. unfold embeds_of at 2. rewrite (proj2 (feature_at r k f Hf)). lia.
Qed.

(** The worker looks the output of [f] up when [n] tokens are computed. *)
Definition needs f n : Prop :=
  let start := pl_offset (mm_position f) in let len := pl_length (mm_position f) in
  start < c + n ∧ c < start + len ∧
  embeds_before (mm_position f) (Z.max (c - start) 0) ≠ embeds_before (mm_position f) (Z.min (c - start + n) len).

Definition covered l n m p : Prop :=
  ∃ g, gathered_hashes c n l = Ok g ∧ ∀ h, h ∈ g → h ∈ ep_hashes p ∨ rq_request_id r ∈ refs_of m h.

Lemma covered_cons f l n m p :
  placeholder_ok (mm_position f) → 0 < n → covered l n m p → (needs f n → mm_identifier f ∈ ep_hashes p ∨ rq_request_id r ∈ refs_of m (mm_identifier f)) →
  covered (f :: l) n m p.
Proof.
  intros Hph Hn (g & Hg & Hall) Hf. pose proof (ph_length _ Hph) as Hlen. unfold covered. cbn [gathered_hashes].
  destruct (Z.leb_spec (c + n) (pl_offset (mm_position f))) as [Hle|Hgt]; [exists []; split; [done|by intros h ?%elem_of_nil]|].
  destruct (Z.leb_spec (pl_offset (mm_position f) + pl_length (mm_position f)) c) as [Hle|Hgt']; [by exists g|].
  rewrite (proj2 (Z.ltb_lt _ _)) by lia. cbn [passert mbind res_bind]. rewrite embeds_in_range by (done || lia). rewrite Hg. cbn [mbind res_bind].
  destruct (Z.eqb_spec (embeds_before (mm_position f) (Z.max (c - pl_offset (mm_position f)) 0))
    (embeds_before (mm_position f) (Z.min (c - pl_offset (mm_position f) + n) (pl_length (mm_position f))))) as [He|He]; [by exists g|].
  exists (mm_identifier f :: g). split; [done|]. intros h [->|Hh]%elem_of_cons; [|by apply Hall]. by apply Hf.
Qed.

Lemma needs_mono f n n' : n <= n' → 0 < n → placeholder_ok (mm_position f) → needs f n → needs f n'.
Proof.
  intros Hn Hpos [Hlen _] (Hs & Hc & Hne). split_and!; [lia|done|]. intros He. apply Hne.
  apply Z.le_antisymm; [apply embeds_before_mono; lia|]. rewrite He. apply embeds_before_mono. lia.
Qed.

Record planned budget n l m p (out : encoder_manager * encoder_plan) m' p' : Prop := {
  pn_out : out = (CacheManager m', p');
  pn_wf : ec_wf m';
  pn_settles : settles m m';
  pn_plan : plan_ok budget m' p';
  pn_hashes : ep_hashes p ⊆ ep_hashes p';
  pn_tokens : 0 <= ep_new_tokens p' <= n;
  pn_covered : 0 < ep_new_tokens p' → covered l (ep_new_tokens p') m' p';
}.

(** The loop goes on, after a feature that is available or not needed. *)
Lemma planned_skip budget n f l m p m1 p1 out m' p' :
  planned budget n l m1 p1 out m' p' → placeholder_ok (mm_position f) → settles m m1 → ep_hashes p ⊆ ep_hashes p1 →
  (mm_identifier f ∈ ep_hashes p1 ∨ rq_request_id r ∈ refs_of m1 (mm_identifier f) ∨ ¬ needs f n) →
  planned budget n (f :: l) m p out m' p'.
Proof.
  intros [] Hph Hs Hh Hav. split; try done; [by etrans|set_solver|]. intros Hpos. apply covered_cons; [done|done|by apply pn_covered0|].
  intros Hneed. destruct Hav as [Hin|[Hin|Hno]]; [left; set_solver|right; by apply (se_refs _ _ pn_settles0)|].
  destruct Hno. apply (needs_mono f (ep_new_tokens p')); done || lia.
Qed.

(** The loop stops, with the tokens before the feature. *)
Lemma planned_stop budget n f l m p m1 n' :
  ec_wf m1 → settles m m1 → plan_ok budget m1 p → 0 <= n' <= n → (0 < n' → c + n' <= pl_offset (mm_position f)) →
  let p' := mkEncoderPlan (ep_inputs p) (ep_external p) (ep_hashes p) (ep_embeds p) n' (ep_budget p) in
  planned budget n (f :: l) m p (CacheManager m1, p') m1 p'.
Proof.
  intros Hwf Hs Hp Hn Hcov p'. split; try done; [by apply plan_tokens|]. intros Hpos. exists []. cbn [p' ep_new_tokens gathered_hashes] in *.
  rewrite (proj2 (Z.leb_le _ _)) by auto. split; [done|]. by intros h ?%elem_of_nil.
Qed.

Lemma encoder_loop_spec budget n l k p m :
  ec_wf m → drop k (rq_mm_features r) = l → plan_ok budget m p → ep_new_tokens p = n → 0 < n →
  ∃ out m' p', encoder_loop disable_chunked_mm_input has_cache_item r c sh (Z.of_nat k) l p (CacheManager m) = Ok out ∧ planned budget n l m p out m' p'.
Proof.
  revert k p m; induction l as [|f l IH]; intros k p m Hwf Hl Hp Hn Hpos.
  { eexists _, m, p. split; [done|]. split; try done; [lia|]. intros _. exists []. split; [done|]. by intros h ?%elem_of_nil. }
  assert (rq_mm_features r !! k = Some f) as Hf by by rewrite <- (Nat.add_0_r k), <- lookup_drop, Hl.
  assert (drop (S k) (rq_mm_features r) = l) as Hl' by (by rewrite <- Nat.add_1_r, <- drop_drop, Hl).
  pose proof (Hpl k f Hf) as Hph. pose proof (ph_length _ Hph) as Hlen. destruct (Hsz k f Hf) as [Hnum Hnn].
  assert (∀ m1 p1, ec_wf m1 → settles m m1 → plan_ok budget m1 p1 → ep_hashes p ⊆ ep_hashes p1 → ep_new_tokens p1 = n →
    (mm_identifier f ∈ ep_hashes p1 ∨ rq_request_id r ∈ refs_of m1 (mm_identifier f) ∨ ¬ needs f n) →
    ∃ out m' p', encoder_loop disable_chunked_mm_input has_cache_item r c sh (Z.of_nat k + 1) l p1 (CacheManager m1) = Ok out ∧
      planned budget n (f :: l) m p out m' p') as Hnext.
  { intros m1 p1 Hwf1 Hs1 Hp1 Hh Hn1 Hav. destruct (IH (S k) p1 m1 Hwf1 Hl' Hp1 Hn1 Hpos) as (out & m' & p' & He & Hpn).
    exists out, m', p'. split; [by rewrite <- He; f_equal; lia|]. by apply (planned_skip budget n f l m p m1 p1). }
  cbn [encoder_loop]. rewrite st_bind_get. cbn [is_encoder_decoder andb negb]. rewrite Hn. set (start := pl_offset (mm_position f)).
  destruct (Z.leb_spec (c + n + sh) start) as [Hle|Hlt].
  { eexists _, m, p. split; [done|]. pose proof (planned_stop budget n f l m p m n Hwf (reflexivity m) Hp) as Hst.
    destruct p as [? ? ? ? n0 ?]. cbn in Hn. subst n0. apply Hst; [lia|]. fold start. lia. }
  destruct (Z.leb_spec (start + pl_length (mm_position f)) c) as [Hle|Hgt]; [apply Hnext; try done; right; right; intros (? & ? & ?); lia|].
  destruct (decide (mm_identifier f ∈ ep_hashes p)) as [Hin|Hni]; [rewrite bool_decide_true by done; apply Hnext; auto; done|].
  rewrite bool_decide_false by done.
  destruct (check_spec r m k f Hwf Hf) as (m1 & hit & Hck & Hwf1 & Hs1 & Hd1 & Hiff & Hown).
  rewrite (st_bind_eq _ (en_check_and_update_cache r (Z.of_nat k)) _ _ _ (on_cache_eq _ _ _ _ _ Hck)). pose proof (plan_settles _ _ _ _ Hp Hs1) as Hp1.
  destruct hit; [apply Hnext; auto; done|]. assert (mm_identifier f ∉ dom (ec_cached m1)) as Hnc by (rewrite Hd1; intros ?%Hiff; done).
  destruct (_ && _ && _) eqn:Hchunk.
  { eexists _, m1, _. split; [done|]. apply planned_stop; [done|done|done|lia|]. fold start. lia. }
  destruct (can_allocate_enc_spec r m1 k f (ep_budget p) (ep_embeds p) Hwf1 Hsz Hf) as (m2 & ok & Hca & Hwf2 & Hs2 & _ & Hiff2 & Hroom).
  rewrite (st_bind_eq _ (en_can_allocate r (Z.of_nat k) (ep_budget p) (ep_embeds p)) _ _ _ (on_cache_eq _ _ _ _ _ Hca)).
  pose proof (plan_settles _ _ _ _ Hp1 Hs2) as Hp2. assert (settles m m2) as Hs by by etrans. destruct ok; cbn [negb].
  2: { eexists _, m2, _. split; [done|]. apply planned_stop; [done|done|done|destruct (Z.ltb_spec (c + sh) start); lia|].
    fold start. destruct (Z.ltb_spec (c + sh) start); lia. }
  pose proof (embeds_in_range (mm_position f) (Z.max 0 (c - start)) (Z.min (pl_length (mm_position f)) (c + n - start)) Hph) as Hr.
  rewrite (st_bind_lift _ _ _ _ (Hr ltac:(lia) ltac:(lia) ltac:(lia) ltac:(lia))). clear Hr.
  match goal with |- context [if ?b then _ else _] => destruct b eqn:Hz end.
  { apply Hnext; try done. right; right. intros (Ha & Hb & Hne). apply Hne. fold start in Hne |- *. rewrite Z.max_comm, Z.min_comm.
    replace (c - start + n) with (c + n - start) by lia. lia. }
  assert (∀ load, plan_ok budget m2 (joined p k f load)) as Hj.
  { intros load. destruct (proj1 Hiff2 eq_refl). specialize (Hroom eq_refl). apply plan_joined; try done. intros ?%(se_dom _ _ Hs2). done. }
  subst n. destruct (loads_item has_cache_item (mm_identifier f)); [apply (Hnext m2 (joined p k f true))|apply (Hnext m2 (joined p k f false))]; try done;
    cbn; set_solver.
Qed.

End plan.

(** The plan is carried out, the inputs to compute before those to load. *)
Lemma plan_allocates r m budget p :
  ec_wf m → sized r → plan_ok r budget m p →
  ∃ m1 m', st_iter (en_allocate r) (ep_inputs p) (CacheManager m) = Ok (CacheManager m1, tt) ∧
    st_iter (en_allocate r) (ep_external p) (CacheManager m1) = Ok (CacheManager m', tt) ∧ ec_wf m1 ∧ ec_wf m' ∧
    (∀ h, h ∈ ep_hashes p → rq_request_id r ∈ refs_of m' h) ∧ (∀ h q, q ∈ refs_of m h → q ∈ refs_of m' h).
Proof.
  intros Hwf Hsz [(fs & Hfs & Hnd & Hperm & Hset) Hemb Hfit Hnew Hbud Hspent].
  destruct (Permutation_map_inv _ _ Hperm) as (fs' & Hids & Hperm').
  assert (hashes fs ≡ₚ hashes fs') as Hph by by apply fmap_Permutation.
  assert (occupied (ep_hashes p) = sumZ size (hashes fs')) as Hocc by (rewrite Hset; rewrite <- (sumZ_perm _ _ _ Hph); apply sumZ_perm; by apply elements_list_to_set).
  assert (∃ fs1 fs2, fs' = fs1 ++ fs2 ∧ ep_inputs p = ids fs1 ∧ ep_external p = ids fs2) as (fs1 & fs2 & -> & Hi1 & Hi2).
  { symmetry in Hids. apply map_eq_app in Hids as (fs1 & fs2 & -> & H1' & H2'). by exists fs1, fs2. }
  assert (hashes (fs1 ++ fs2) = hashes fs1 ++ hashes fs2) as Happ by apply fmap_app. rewrite Happ in Hocc, Hph. rewrite sumZ_app in Hocc. rewrite Hph in Hnd. apply NoDup_app in Hnd as (Hnd1 & Hdis & Hnd2).
  assert (∀ l, l ⊆ fs1 ++ fs2 → feature_ids r l) as Hsub by (intros l Hl j f Hin; apply Hfs; rewrite Hperm'; by apply Hl).
  assert (∀ h, h ∈ hashes fs1 ++ hashes fs2 → h ∉ dom (ec_cached m)) as Hno by (intros h; rewrite <- Hph; intros Hin; apply Hnew; by rewrite Hset, elem_of_list_to_set).
  assert (0 <= sumZ size (hashes fs2)) as Hpos2.
  { apply sumZ_nonneg. intros h ((j' & f') & -> & Hin)%list_elem_of_fmap. apply (Hsz j' f'), (Hsub fs2); [set_solver|done]. }
  destruct (allocate_all r m fs1 Hwf Hsz) as (m1 & He1 & Hwf1 & Hown1 & Hkeep1 & Hd1 & Hf1); [apply Hsub; set_solver|done|intros; apply Hno; set_solver|lia|].
  destruct (allocate_all r m1 fs2 Hwf1 Hsz) as (m2 & He2 & Hwf2 & Hown2 & Hkeep2 & _); [apply Hsub; set_solver|done| |lia|].
  { intros h Hh. rewrite Hd1, elem_of_union, elem_of_list_to_set. intros [Hin|Hin]; [by apply (Hdis h)|]. apply (Hno h); [set_solver|done]. }
  exists m1, m2. rewrite Hi1, Hi2. split_and!; try done; [|by intros; apply Hkeep2, Hkeep1]. intros h. rewrite Hset, elem_of_list_to_set, Hph, elem_of_app.
  intros [Hh|Hh]; [by apply Hkeep2, Hown1|by apply Hown2].
Qed.

Lemma plan_spent r budget m p : sized r → plan_ok r budget m p → 0 <= ep_budget p ∧ ep_budget p <= budget.
Proof.
  intros Hsz [(fs & Hfs & _ & Hperm & _) _ _ _ Hbud Hspent]. enough (0 <= sumZ (embeds_of r) (ep_inputs p)) by lia. apply sumZ_nonneg. intros i Hi.
  assert (i ∈ ids fs) as ((j & f) & -> & Hin)%list_elem_of_fmap by (rewrite <- Hperm; apply elem_of_app; by left).
  specialize (Hfs j f Hin). unfold embeds_of. cbn. rewrite (proj2 (feature_at r j f Hfs)). destruct (Hsz j f Hfs). lia.
Qed.

(** ** Sequences of the scheduler's calls *)

Section calls.
Context (set_iter : gset Z → list Z) (Hiter : ∀ ns, set_iter ns ≡ₚ elements ns).
Context (disable_chunked_mm_input : bool) (has_cache_item : option (string → bool)).

Lemma cached_input_ids r m i :
  i ∈ ec_get_cached_input_ids r m ↔ ∃ j f, i = Z.of_nat j ∧ rq_mm_features r !! j = Some f ∧ mm_identifier f ∈ dom (ec_cached m).
Proof.
  unfold ec_get_cached_input_ids. rewrite elem_of_list_to_set, list_elem_of_fmap. split.
  - intros ([j f] & -> & [Hc (j' & f' & [= <- <-] & Hf)%elem_of_lookup_imap_1]%list_elem_of_filter). exists j, f. by rewrite elem_of_dom.
  - intros (j & f & -> & Hf & Hd). exists (j, f). split; [done|]. apply list_elem_of_filter. split; [by apply elem_of_dom|].
    apply elem_of_lookup_imap. eauto.
Qed.

Lemma ec_free_spec r m :
  ec_wf m → sized r → ∃ m', en_free set_iter r (CacheManager m) = Ok (CacheManager m', tt) ∧ ec_wf m' ∧ releases (rq_request_id r) m m' ∧
    ∀ j f, rq_mm_features r !! j = Some f → rq_request_id r ∉ refs_of m' (mm_identifier f).
Proof.
  intros Hwf Hsz. set (rid := rq_request_id r). set (Q := fun i m' => ∀ j f, i = Z.of_nat j → rq_mm_features r !! j = Some f → rid ∉ refs_of m' (mm_identifier f)).
  destruct (st_iter_each (ec_free_encoder_input r) (fun m' => ec_wf m' ∧ releases rid m m') Q (set_iter (ec_get_cached_input_ids r m)) m)
    as (m' & He & [Hwf' Hr] & Hall); [done| |].
  - intros i m1. rewrite Hiter, elem_of_elements, cached_input_ids. intros (j & f & -> & Hf & _) [Hwf1 Hr1].
    destruct (free_input_spec r m1 j f Hwf1 Hsz Hf) as (m2 & He2 & Hwf2 & Hr2 & Hno). exists m2. split_and!; [done|done|by etrans| |].
    + intros j' f' ->%(inj Z.of_nat) Hf'. by rewrite Hf' in Hf; simplify_eq.
    + intros i' HQ j' f' -> Hf' ?%(rl_own _ _ _ Hr2). by apply (HQ j' f').
  - exists m'. split_and!; [by apply on_cache_eq; unfold ec_free; rewrite st_bind_get|done|done|]. intros j f Hf Hin.
    apply (Hall (Z.of_nat j)) with j f; [|done|done|done]. rewrite Hiter, elem_of_elements, cached_input_ids. exists j, f. split_and!; [done|done|].
    rewrite <- (rl_dom _ _ _ Hr). unfold refs_of in Hin. apply elem_of_dom. destruct (ec_cached m' !! mm_identifier f); [done|set_solver].
Qed.

Lemma free_inputs_spec r m :
  ec_wf m → sized r → ∃ m', free_encoder_inputs set_iter r (CacheManager m) = Ok (CacheManager m', tt) ∧ ec_wf m' ∧ releases (rq_request_id r) m m'.
Proof.
  intros Hwf Hsz. unfold free_encoder_inputs. rewrite st_bind_get. cbn [en_get_cached_input_ids is_encoder_decoder andb orb].
  destruct (st_iter_invariant (fun i => f ← st_lift (py_index (rq_mm_features r) i);
    st_when (pl_offset (mm_position f) + pl_length (mm_position f) <=? rq_num_computed_tokens r) (en_free_encoder_input r i))
    (fun e => ∃ m', e = CacheManager m' ∧ ec_wf m' ∧ releases (rq_request_id r) m m') (set_iter (ec_get_cached_input_ids r m)) (CacheManager m))
    as (e & He & m' & -> & Hwf' & Hr); [by exists m| |by exists m'].
  intros i e. rewrite Hiter, elem_of_elements, cached_input_ids. intros (j & f & -> & Hf & _) (m1 & -> & Hwf1 & Hr1).
  rewrite py_index_nonneg, Hf, (st_bind_lift _ f) by done. destruct (_ <=? _); [|exists (CacheManager m1); split; [done|by exists m1]].
  destruct (free_input_spec r m1 j f Hwf1 Hsz Hf) as (m2 & He2 & Hwf2 & Hr2 & _). exists (CacheManager m2).
  split; [by apply on_cache_eq|]. exists m2. split_and!; [done|done|by etrans].
Qed.

(** What [schedule] does with the inputs of a running request: they are planned, the
    allocation of its blocks may preempt others, they are allocated. *)
Definition encoder_step r (c sh n budget : Z) (preempted : list req) : st encoder_manager (Z * Z) :=
  '(inputs, n', budget', external) ← try_schedule_encoder_inputs disable_chunked_mm_input has_cache_item r c sh n budget;
  if n' =? 0 then mret (0, budget)
  else
    st_iter (en_free set_iter) preempted;;
    st_iter (en_allocate r) inputs;;
    st_iter (en_allocate r) external;;
    mret (n', budget').

Lemma free_all_spec rid (l : list req) m :
  ec_wf m → (∀ q, q ∈ l → sized q ∧ rq_request_id q ≠ rid) →
  ∃ m', st_iter (en_free set_iter) l (CacheManager m) = Ok (CacheManager m', tt) ∧ ec_wf m' ∧ dom (ec_cached m') = dom (ec_cached m) ∧
    ec_num_free_slots m' = ec_num_free_slots m ∧ ∀ h, rid ∈ refs_of m h → rid ∈ refs_of m' h.
Proof.
  revert m; induction l as [|q l IH]; intros m Hwf Hl; [by exists m|].
  destruct (Hl q) as [Hsz Hne]; [left|]. destruct (ec_free_spec q m Hwf Hsz) as (m1 & He & Hwf1 & [Hd Hf Ho _] & _).
  destruct (IH m1 Hwf1) as (m' & He' & Hwf' & Hd' & Hf' & Hk); [intros; apply Hl; by right|].
  exists m'. split_and!; [cbn; by rewrite (st_bind_eq _ _ _ _ _ He)|done|congruence|congruence|]. intros h Hh. apply Hk. by apply Ho.
Qed.

Lemma try_schedule_spec r m (c sh n budget : Z) :
  ec_wf m → sized r → placed r → 0 <= sh <= 1 → 0 <= n → 0 <= budget →
  ∃ m' inputs n' budget' external hs, let p := mkEncoderPlan inputs external hs (occupied hs) n' budget' in
    try_schedule_encoder_inputs disable_chunked_mm_input has_cache_item r c sh n budget (CacheManager m) = Ok (CacheManager m', (inputs, n', budget', external)) ∧
    ec_wf m' ∧ settles m m' ∧ plan_ok r budget m' p ∧ 0 <= n' <= n ∧ (0 < n' → covered r c (rq_mm_features r) n' m' p).
Proof.
  intros Hwf Hsz Hpl Hsh Hn Hb. unfold try_schedule_encoder_inputs.
  assert (∀ n', plan_ok r budget m (mkEncoderPlan [] [] ∅ 0 n' budget)) as Hp.
  { pose proof (ew_slots _ Hwf). split; cbn; try done; [|lia]. exists []. split_and!; try done; [by intros ? ? ?%elem_of_nil|apply NoDup_nil_2]. }
  destruct (Z.eqb_spec n 0) as [->|Hne].
  { exists m, [], 0, budget, [], ∅. rewrite occupied_empty. by split_and!. }
  cbn [orb]. destruct (has_encoder_inputs r) eqn:Henc.
  2: { assert (rq_mm_features r = []) as Hnil by (unfold has_encoder_inputs, num_encoder_inputs in Henc; destruct (rq_mm_features r); [done|discriminate]).
       exists m, [], n, budget, [], ∅. rewrite occupied_empty, Hnil. split_and!; try done. intros _. exists []. split; [done|].
       by intros h ?%elem_of_nil. }
  destruct (encoder_loop_spec disable_chunked_mm_input has_cache_item r c sh Hsz Hpl Hsh budget n (rq_mm_features r) 0
    (mkEncoderPlan [] [] ∅ 0 n budget) m Hwf) as (out & m' & p' & He & [-> Hwf' Hs Hp' _ Ht Hc]); [done|done|done|lia|].
  cbn [negb]. st_step He. exists m', (ep_inputs p'), (ep_new_tokens p'), (ep_budget p'), (ep_external p'), (ep_hashes p').
  rewrite <- (po_embeds _ _ _ _ Hp'). by destruct p'.
Qed.

Lemma encoder_step_spec r m (c sh n budget : Z) preempted :
  ec_wf m → sized r → placed r → 0 <= sh <= 1 → 0 <= n → 0 <= budget → (∀ q, q ∈ preempted → sized q ∧ rq_request_id q ≠ rq_request_id r) →
  ∃ m' n' budget', encoder_step r c sh n budget preempted (CacheManager m) = Ok (CacheManager m', (n', budget')) ∧ ec_wf m' ∧
    0 <= n' <= n ∧ 0 <= budget' <= budget ∧
    (0 < n' → ∃ g, gathered_hashes c n' (rq_mm_features r) = Ok g ∧ ∀ h, h ∈ g → rq_request_id r ∈ refs_of m' h).
Proof.
  intros Hwf Hsz Hpl Hsh Hn Hb Hpre. unfold encoder_step.
  destruct (try_schedule_spec r m c sh n budget Hwf Hsz Hpl Hsh Hn Hb) as (m1 & ins & n' & b' & ext & hs & He & Hwf1 & Hs & Hp & Hn' & Hcov). st_step He.
  destruct (Z.eqb_spec n' 0) as [->|Hne]; [exists m1, 0, budget; split_and!; done || lia|].
  destruct (free_all_spec (rq_request_id r) preempted m1 Hwf1 Hpre) as (m2 & He2 & Hwf2 & Hd2 & Hf2 & Hk2). st_step He2.
  assert (plan_ok r budget m2 (mkEncoderPlan ins ext hs (occupied hs) n' b')) as Hp2 by (destruct Hp; split; cbn in *; try done; [lia|by rewrite Hd2]).
  destruct (plan_allocates r m2 budget _ Hwf2 Hsz Hp2) as (m3 & m4 & He3 & He4 & _ & Hwf4 & Hown & Hkeep). cbn [ep_inputs ep_external ep_hashes] in *.
  st_step He3. st_step He4. exists m4, n', b'. destruct (plan_spent r budget m2 _ Hsz Hp2). cbn [ep_budget] in *. split_and!; try (done || lia).
  intros Hpos. destruct (Hcov Hpos) as (g & Hg & Hall). exists g. split; [done|]. intros h [Hh|Hh]%Hall; [by apply Hown|by apply Hkeep, Hk2].
Qed.

(** The calls of the scheduler; [EcTry] is a plan that the allocation of blocks
    defeated, [EcPlan] one that is left as it is, when the capacity of the agent is
    spent. *)
Inductive ec_call :=
  | EcStep (r : req) (c sh n budget : Z) (preempted : list req)
  | EcTry (r : req) (c sh n budget : Z)
  | EcPlan (r : req) (c sh n budget : Z)
  | EcFreeInputs (r : req)
  | EcFree (r : req)
  | EcFreed
  | EcReset.

Definition ec_exec (x : ec_call) : st encoder_manager unit :=
  match x with
  | EcStep r c sh n budget preempted => _ ← encoder_step r c sh n budget preempted; mret tt
  | EcTry r c sh n budget => _ ← try_schedule_encoder_inputs disable_chunked_mm_input has_cache_item r c sh n budget; en_free set_iter r
  | EcPlan r c sh n budget => _ ← try_schedule_encoder_inputs disable_chunked_mm_input has_cache_item r c sh n budget; mret tt
  | EcFreeInputs r => free_encoder_inputs set_iter r
  | EcFree r => en_free set_iter r
  | EcFreed => _ ← en_get_freed_mm_hashes; mret tt
  | EcReset => en_reset
  end.

Definition request_ok r : Prop := sized r ∧ placed r.

Definition call_ok (x : ec_call) : Prop :=
  match x with
  | EcStep r c sh n budget preempted => request_ok r ∧ 0 <= sh <= 1 ∧ 0 <= n ∧ 0 <= budget ∧
      ∀ q, q ∈ preempted → request_ok q ∧ rq_request_id q ≠ rq_request_id r
  | EcTry r c sh n budget | EcPlan r c sh n budget => request_ok r ∧ 0 <= sh <= 1 ∧ 0 <= n ∧ 0 <= budget
  | EcFreeInputs r | EcFree r => request_ok r
  | EcFreed | EcReset => True
  end.

Lemma exec_wf x m : ec_wf m → call_ok x → ∃ m', ec_exec x (CacheManager m) = Ok (CacheManager m', tt) ∧ ec_wf m'.
Proof.
  intros Hwf Hx. destruct x as [r c sh n b pre|r c sh n b|r c sh n b|r|r| |]; cbn [ec_exec call_ok] in *.
  - destruct Hx as ([Hsz Hpl] & Hsh & Hn & Hb & Hpre).
    destruct (encoder_step_spec r m c sh n b pre) as (m' & n' & b' & He & Hwf' & _); try done; [intros q Hq; by destruct (Hpre q Hq) as [[] ?]|].
    exists m'. split; [by st_step He|done].
  - destruct Hx as ([Hsz Hpl] & Hsh & Hn & Hb).
    destruct (try_schedule_spec r m c sh n b) as (m1 & ins & n' & b' & ext & hs & He & Hwf1 & _); try done.
    destruct (ec_free_spec r m1 Hwf1 Hsz) as (m' & He' & Hwf' & _). exists m'. split; [by st_step He|done].
  - destruct Hx as ([Hsz Hpl] & Hsh & Hn & Hb).
    destruct (try_schedule_spec r m c sh n b) as (m1 & ins & n' & b' & ext & hs & He & Hwf1 & _); try done. exists m1. split; [by st_step He|done].
  - destruct Hx as [Hsz Hpl]. destruct (free_inputs_spec r m Hwf Hsz) as (m' & He & Hwf' & _). by exists m'.
  - destruct Hx as [Hsz Hpl]. destruct (ec_free_spec r m Hwf Hsz) as (m' & He & Hwf' & _). by exists m'.
  - eexists. split; [done|]. by destruct Hwf.
  - eexists. split; [done|]. unfold ec_reset. rewrite (ew_capacity _ Hwf). apply init_ec_wf.
    pose proof (ew_slots _ Hwf). pose proof (ew_free _ Hwf). enough (0 <= occupied (dom (ec_cached m))) by lia. apply occupied_nonneg, (ew_nonneg _ Hwf).
Qed.

Lemma execs_wf (l : list ec_call) m : ec_wf m → (∀ x, x ∈ l → call_ok x) → ∃ m', st_iter ec_exec l (CacheManager m) = Ok (CacheManager m', tt) ∧ ec_wf m'.
Proof.
  intros Hwf Hl. destruct (st_iter_invariant ec_exec (fun e => ∃ m', e = CacheManager m' ∧ ec_wf m') l (CacheManager m)) as (e & He & m' & -> & Hwf').
  - by exists m.
  - intros x e Hx (m1 & -> & Hwf1). destruct (exec_wf x m1 Hwf1 (Hl x Hx)) as (m2 & He2 & Hwf2). eauto.
  - by exists m'.
Qed.

End calls.

End cache.

(** ** Properties *)

Section properties.
Context {F E : Type} `{PyFloat F}.
Notation req := (Request F E).
Context (size : string → Z) (set_iter : gset Z → list Z) (Hiter : ∀ ns, set_iter ns ≡ₚ elements ns).
Implicit Types (r : req).

(** C18. Whatever the scheduler calls, the encoder cache never raises, its assertions and
    the pops of its eviction loop included; the free slots and the sizes of the cached
    outputs add up to the capacity, and the freeable slots are the free ones and those
    of the outputs that no request references. *)
Theorem encoder_accounting chunked connector (calls : list (ec_call (F:=F) (E:=E))) capacity :
  0 <= capacity → (∀ x, x ∈ calls → call_ok size x) →
  ∃ m, st_iter (ec_exec set_iter chunked connector) calls (CacheManager (encoder_cache_init capacity)) = Ok (CacheManager m, tt) ∧
    ec_num_free_slots m + sumZ size (elements (dom (ec_cached m))) = capacity ∧ 0 <= ec_num_free_slots m ∧
    ec_num_freeable_slots m = ec_num_free_slots m + sumZ snd (ec_freeable m) ∧
    ∀ h, h ∈ (ec_freeable m).*1 ↔ ec_cached m !! h = Some ∅.
Proof.
  intros Hc Hx. destruct (execs_wf size capacity set_iter Hiter chunked connector calls _ (init_ec_wf size capacity Hc) Hx) as (m & He & Hwf).
  exists m. split_and!; [done|apply Hwf|apply Hwf|apply Hwf|apply Hwf].
Qed.

(** C10. The encoder outputs that the model looks up are recorded: after any calls,
    scheduling the inputs of a request for [n] tokens, with or without the shift of one
    position for a drafter, takes at most [n] tokens and the budget, and every output
    that [_gather_mm_embeddings] asserts to be cached when the model runs the scheduled
    tokens is in the scheduler's record of the encoder cache, with the request among
    its references, so that no later eviction of the step removes it.  The record is
    that of the scheduler, not the memory of the worker; the lookup that the drafter
    does one position further is not covered, see [eagle_boundary_miss]. *)
Theorem encoder_outputs_present chunked connector (calls : list (ec_call (F:=F) (E:=E))) capacity r c shift n budget preempted :
  0 <= capacity → (∀ x, x ∈ calls → call_ok size x) → call_ok size (EcStep r c shift n budget preempted) →
  ∃ e m n' budget', st_iter (ec_exec set_iter chunked connector) calls (CacheManager (encoder_cache_init capacity)) = Ok (e, tt) ∧
    encoder_step set_iter chunked connector r c shift n budget preempted e = Ok (CacheManager m, (n', budget')) ∧
    0 <= n' <= n ∧ 0 <= budget' <= budget ∧
    (0 < n' → ∃ g, gathered_hashes c n' (rq_mm_features r) = Ok g ∧ ∀ h, h ∈ g → rq_request_id r ∈ default ∅ (ec_cached m !! h)).
Proof.
  intros Hc Hx ([Hsz Hpl] & Hsh & Hn & Hb & Hpre).
  destruct (execs_wf size capacity set_iter Hiter chunked connector calls _ (init_ec_wf size capacity Hc) Hx) as (m0 & He & Hwf).
  destruct (encoder_step_spec size capacity set_iter Hiter chunked connector r m0 c shift n budget preempted) as (m & n' & b' & He' & _ & Hn' & Hb' & Hg);
    try done; [intros q Hq; by destruct (Hpre q Hq) as [[] ?]|]. exists (CacheManager m0), m, n', b'. split_and!; try done; lia.
Qed.

(** C36. With a shift of one position, for the drafter, a chunk that ends where an input
    starts takes no output of that input, although the worker looks it up: the input
    is not cached after the step, and the lookup, at the shifted position, asserts that
    it is. *)
Theorem eagle_boundary_miss chunked connector m r f c budget preempted capacity :
  ec_wf size capacity m → sized size r → rq_mm_features r = [f] → pl_is_embed (mm_position f) = None →
  0 <= c → c < pl_offset (mm_position f) → 0 < pl_length (mm_position f) → chunked = false → mm_identifier f ∉ dom (ec_cached m) →
  pl_length (mm_position f) <= budget → pl_length (mm_position f) <= ec_num_free_slots m →
  let n := pl_offset (mm_position f) - c in
  encoder_step set_iter chunked connector r c 1 n budget preempted (CacheManager m) =
    (st_iter (en_free set_iter) preempted ≫= fun _ => mret (n, budget)) (CacheManager m) ∧
  gathered_hashes (c + 1) n (rq_mm_features r) = Ok [mm_identifier f].
Proof.
  clear Hiter. intros Hwf Hsz Hfs Hmask Hc Hlt Hlen -> Hno Hb Hroom n.
  assert (rq_mm_features r !! 0%nat = Some f) as Hf by by rewrite Hfs. destruct (Hsz 0%nat f Hf) as [Heq Hpos].
  assert (get_num_embeds (mm_position f) = pl_length (mm_position f)) as Hnum by (unfold get_num_embeds, embeds_cumsum; by rewrite Hmask).
  destruct (feature_at r 0 f Hf) as [Hid Hne]. cbn in Hid, Hne. split.
  - set (p := mkEncoderPlan [] [] ∅ 0 n budget).
    assert (encoder_loop false connector r c 1 0 (rq_mm_features r) p (CacheManager m) = Ok (CacheManager m, p)) as Hloop.
    { rewrite Hfs. cbn [encoder_loop]. rewrite st_bind_get. cbn [is_encoder_decoder andb negb p ep_new_tokens ep_hashes ep_budget ep_embeds].
      rewrite (proj2 (Z.leb_gt _ _)), (proj2 (Z.leb_gt _ _)) by lia. rewrite bool_decide_false by set_solver.
      assert (en_check_and_update_cache r 0 (CacheManager m) = Ok (CacheManager m, false)) as Hck.
      { apply on_cache_eq. unfold ec_check_and_update_cache. by rewrite (st_bind_lift _ _ _ _ Hid), st_bind_get, (proj1 (not_elem_of_dom _ _) Hno). }
      st_step Hck. assert (en_can_allocate r 0 budget 0 (CacheManager m) = Ok (CacheManager m, true)) as Hca.
      { apply on_cache_eq. unfold ec_can_allocate. rewrite (st_bind_lift _ _ _ _ Hne), Hnum, (proj2 (Z.ltb_ge _ _)), st_bind_get by lia.
        by rewrite Z.add_0_r, (proj2 (Z.leb_le _ _)). }
      st_step Hca. cbn [negb]. unfold get_embeds_indices_in_range, embeds_cumsum. rewrite Hmask. cbn [fmap option_fmap option_map].
      rewrite (st_bind_lift _ (0, 0)) by (do 2 f_equal; lia). done. }
    unfold encoder_step, try_schedule_encoder_inputs, has_encoder_inputs, num_encoder_inputs. rewrite (proj2 (Z.eqb_neq n 0)) by lia.
    replace (0 <? lenZ (rq_mm_features r)) with true by by rewrite Hfs. cbn [negb orb].
    rewrite (st_bind_eq _ _ _ (CacheManager m) ([], n, budget, [])) by by st_step Hloop. by rewrite (proj2 (Z.eqb_neq n 0)) by lia.
  - rewrite Hfs. cbn [gathered_hashes]. rewrite (proj2 (Z.leb_gt _ _)), (proj2 (Z.leb_gt _ _)) by lia.
    rewrite (proj2 (Z.ltb_lt _ _)) by lia. cbn [passert mbind res_bind]. unfold get_embeds_indices_in_range, embeds_cumsum. rewrite Hmask.
    cbn [fmap option_fmap option_map mbind res_bind]. by rewrite (proj2 (Z.eqb_neq _ _)) by lia.
Qed.

Lemma ed_free_inputs r d :
  0 < rq_num_computed_tokens r →
  ∃ d', free_encoder_inputs set_iter r (DecoderManager d) = Ok (DecoderManager d', tt) ∧
    ed_num_free_slots d' = ed_num_free_slots d + sumZ (get_num_embeds ∘ mm_position) (rq_mm_features r).
Proof.
  intros Hc. unfold free_encoder_inputs. rewrite st_bind_get. cbn [is_encoder_decoder andb en_get_cached_input_ids].
  rewrite (proj2 (Z.ltb_lt _ _)) by done. cbn [orb st_when].
  assert (set_iter (ed_get_cached_input_ids r) ≡ₚ seqZ 0 (lenZ (rq_mm_features r))) as Hl.
  { rewrite Hiter. unfold ed_get_cached_input_ids. rewrite elements_list_to_set by apply NoDup_seqZ. done. }
  assert (sumZ (embeds_of r) (seqZ 0 (lenZ (rq_mm_features r))) = sumZ (get_num_embeds ∘ mm_position) (rq_mm_features r)) as <-.
  { apply sumZ_seqZ. intros j f Hf. unfold embeds_of. by rewrite (proj2 (feature_at r j f Hf)). }
  rewrite <- (sumZ_perm _ _ _ Hl). assert (∀ i, i ∈ set_iter (ed_get_cached_input_ids r) → ∃ j f, i = Z.of_nat j ∧ rq_mm_features r !! j = Some f) as Hin.
  { intros i. rewrite Hl, elem_of_seqZ. intros Hi. destruct (lookup_lt_is_Some_2 (rq_mm_features r) (Z.to_nat i)) as [f Hf]; [lia|].
    exists (Z.to_nat i), f. split; [lia|done]. }
  clear Hl. revert d; induction (set_iter (ed_get_cached_input_ids r)) as [|i l IH]; intros d; [exists d; split; [done|cbn; lia]|].
  destruct (Hin i) as (j & f & -> & Hf); [left|]. destruct (feature_at r j f Hf) as [_ Hn].
  destruct (IH ltac:(intros; apply Hin; by right) (d <| ed_num_free_slots ::= Z.add (get_num_embeds (mm_position f)) |>)) as (d' & He & Hd).
  exists d'. split; [|rewrite Hd; cbn [sumZ]; unfold embeds_of at 2; rewrite Hn; cbn; lia]. cbn [st_iter].
  rewrite st_bind_assoc, py_index_nonneg, Hf, (st_bind_lift _ f) by done.
  rewrite (st_bind_eq _ _ _ (DecoderManager (d <| ed_num_free_slots ::= Z.add (get_num_embeds (mm_position f)) |>)) tt); [done|].
  unfold en_free_encoder_input, on_encoder, ed_free_encoder_input. by rewrite (st_bind_lift _ _ _ _ Hn).
Qed.

(** C37. The count of free slots of encoder-decoder models has no bound: once a request
    has computed a token, each further step of it returns all its inputs to the count
    again, whatever was allocated. *)
Theorem encoder_decoder_slots_leak r d k :
  0 < rq_num_computed_tokens r →
  ∃ d', st_iter (fun _ => free_encoder_inputs set_iter r) (seq 0 k) (DecoderManager d) = Ok (DecoderManager d', tt) ∧
    ed_num_free_slots d' = ed_num_free_slots d + Z.of_nat k * sumZ (get_num_embeds ∘ mm_position) (rq_mm_features r).
Proof.
  intros Hc. revert d; generalize 0%nat; induction k as [|k IH]; intros j d; [exists d; split; [done|lia]|].
  destruct (ed_free_inputs r d Hc) as (d1 & He & Hd). destruct (IH (S j) d1) as (d' & He' & Hd'). exists d'.
  split; [cbn [seq st_iter]; by st_step He|]. rewrite Hd', Hd. lia.
Qed.

End properties.

(** ** Witnesses: a request with an image of two embeddings at position four, and one
    with a masked audio input *)

Definition exe_sampling : SamplingParams Q := mkSamplingParams Q (Some 4) 0 None [] None None None None.
Definition exe_request (rid : string) (mm : list MultiModalFeatureSpec) : res (Request Q unit) :=
  request_init (fun _ => 0) None 0 rid 0 0 (Some exe_sampling) None 0%Q (Some (seqZ 0 8)) None (Some mm) None None false false.
Definition exe_image : MultiModalFeatureSpec := mkFeature "img" (mkPlaceholder 4 2 None).
Definition exe_audio : MultiModalFeatureSpec := mkFeature "aud" (mkPlaceholder 1 3 (Some [true; false; true])).
Definition exe_r : Request Q unit := from_ok (exe_request "r" [exe_image]) ltac:(vm_compute; reflexivity).
Definition exe_q : Request Q unit := from_ok (exe_request "q" [exe_audio; exe_image]) ltac:(vm_compute; reflexivity).
Definition exe_size (h : string) : Z := 2.
Definition exe_calls : list (ec_call (F:=Q) (E:=unit)) :=
  [EcStep exe_q 0 0 6 4 []; EcFreeInputs (exe_q <| rq_num_computed_tokens := 6 |>); EcFreed; EcTry exe_r 0 1 8 4; EcFree exe_q].

Lemma exe_r_features : rq_mm_features exe_r = [exe_image].
Proof. vm_compute. reflexivity. Qed.

Lemma exe_q_features : rq_mm_features exe_q = [exe_audio; exe_image].
Proof. vm_compute. reflexivity. Qed.

Lemma exe_image_ok : placeholder_ok (mm_position exe_image).
Proof. by split. Qed.

Lemma exe_audio_ok : placeholder_ok (mm_position exe_audio).
Proof. split; [done|]. by intros mask [= <-]. Qed.

Lemma exe_r_ok : request_ok exe_size exe_r.
Proof.
  split; intros [|j] f; rewrite exe_r_features; cbn [lookup list_lookup]; try done; intros [= <-]; [done|apply exe_image_ok].
Qed.

Lemma exe_q_ok : request_ok exe_size exe_q.
Proof.
  split; intros [|[|j]] f; rewrite exe_q_features; cbn [lookup list_lookup]; try done; intros [= <-];
    [done|done|apply exe_audio_ok|apply exe_image_ok].
Qed.

Lemma exe_calls_ok x : x ∈ exe_calls → call_ok exe_size x.
Proof.
  pose proof exe_q_ok as Hq. pose proof exe_r_ok as Hr. intros Hx. unfold exe_calls in Hx.
  repeat (apply elem_of_cons in Hx as [->|Hx]); [..|by apply elem_of_nil in Hx]; cbn [call_ok].
  - split; [exact Hq|]. split_and!; try lia. by intros q ?%elem_of_nil.
  - exact Hq.
  - done.
  - split; [exact Hr|]. lia.
  - exact Hq.
Qed.

Lemma encoder_accounting_witness :
  ∃ m, st_iter (ec_exec (elements (C := gset Z)) false None) exe_calls (CacheManager (encoder_cache_init 6)) = Ok (CacheManager m, tt) ∧
    ec_num_free_slots m + sumZ exe_size (elements (dom (ec_cached m))) = 6.
Proof.
  destruct (encoder_accounting exe_size elements (fun ns => reflexivity (elements ns)) false None exe_calls 6) as (m & He & Hsum & _).
  - lia.
  - exact exe_calls_ok.
  - exists m. split; [exact He|exact Hsum].
Defined.

Lemma encoder_outputs_present_witness :
  ∃ e m n' budget', st_iter (ec_exec (elements (C := gset Z)) false None) exe_calls (CacheManager (encoder_cache_init 6)) = Ok (e, tt) ∧
    encoder_step elements false None exe_r 2 1 4 2 [exe_q] e = Ok (CacheManager m, (n', budget')) ∧ n' <= 4 ∧
    (0 < n' → ∃ g, gathered_hashes 2 n' (rq_mm_features exe_r) = Ok g ∧ ∀ h, h ∈ g → rq_request_id exe_r ∈ default ∅ (ec_cached m !! h)).
Proof.
  destruct (encoder_outputs_present exe_size elements (fun ns => reflexivity (elements ns)) false None exe_calls 6 exe_r 2 1 4 2 [exe_q])
    as (e & m & n' & b' & He & Hs & Hn & _ & Hg).
  - lia.
  - exact exe_calls_ok.
  - split_and!; try lia; [exact exe_r_ok|]. intros q Hq. apply list_elem_of_singleton in Hq as ->.
    split; [exact exe_q_ok|]. vm_compute. discriminate.
  - exists e, m, n', b'. split_and!; [exact He|exact Hs|lia|exact Hg].
Defined.

Lemma eagle_boundary_miss_witness :
  encoder_step elements false None exe_r 0 1 4 2 [] (CacheManager (encoder_cache_init 6)) = Ok (CacheManager (encoder_cache_init 6), (4, 2)) ∧
  gathered_hashes 1 4 (rq_mm_features exe_r) = Ok ["img"].
Proof.
  assert (ec_wf exe_size 6 (encoder_cache_init 6)) as Hwf by by apply init_ec_wf.
  destruct (eagle_boundary_miss exe_size elements false None (encoder_cache_init 6) exe_r exe_image 0 2 [] 6 Hwf (proj1 exe_r_ok) exe_r_features eq_refl
    ltac:(lia) eq_refl eq_refl eq_refl ltac:(set_solver) ltac:(discriminate) ltac:(discriminate)) as [Hs Hg].
  split; [exact Hs|exact Hg].
Defined.

Lemma encoder_decoder_slots_leak_witness :
  ∃ d', st_iter (fun _ => free_encoder_inputs elements (exe_r <| rq_num_computed_tokens := 1 |>)) (seq 0 5) (DecoderManager (encoder_decoder_init 2)) =
      Ok (DecoderManager d', tt) ∧ ed_num_free_slots d' = 12.
Proof.
  destruct (encoder_decoder_slots_leak elements (fun ns => reflexivity (elements ns)) (exe_r <| rq_num_computed_tokens := 1 |>) (encoder_decoder_init 2) 5)
    as (d' & He & Hd).
  - cbn. lia.
  - exists d'. split; [exact He|]. rewrite Hd. vm_compute. reflexivity.
Defined.
