(* ===== verification/Scheduler.v ===== *)
(** * The scheduler

    [v1/core/sched/scheduler.py] and [v1/core/sched/async_scheduler.py]: the queues of
    requests, a step of scheduling, the update with the output of the model, and the
    addition, preemption and end of requests; with the records of
    [v1/core/sched/output.py] that go to the workers.

    Requests are objects in a heap, under their identity; the dictionary of requests,
    the queues and the list of running requests hold references.  The scheduler, the
    controller of agent scheduling and the registry of lifecycles share the KV cache
    manager and the counters: they are kept in the scheduler, and passed in and out.

    Parameters: the readings of the clocks, the iteration order of sets, [log1p], the
    hash functions, the KV connector and the grammars of structured output, which are
    interfaces with implementations outside. *)

From S2P Require Import Prelude PyFloat Metrics Protocol CachePolicy OffloadManager Lifecycle Request BlockHash FreeQueue BlockPool SingleType KVManager.
From S2P Require Import Scheduling RequestQueue EncoderCache.

(** [PauseState] *)
Inductive PauseState := UNPAUSED | PAUSED_NEW | PAUSED_ALL.
#[global] Instance PauseState_eq_dec : EqDecision PauseState.
Proof. solve_decision. Defined.
#[global] Instance SchedulingPolicy_eq_dec : EqDecision SchedulingPolicy.
Proof. solve_decision. Defined.

(** The settings that the scheduler reads; [cf_async] for the class [AsyncScheduler],
    [cf_offload] for a connector of class [TokenCakeConnector]. *)
Record SchedulerConfig := mkSchedulerConfig {
  cf_policy : SchedulingPolicy;
  cf_max_num_running_reqs : Z;
  cf_max_num_scheduled_tokens : Z;
  cf_max_model_len : Z;
  cf_long_prefill_token_threshold : Z;
  cf_enable_chunked_prefill : bool;
  cf_disable_chunked_mm_input : bool;
  cf_max_loras : option Z;
  cf_use_eagle : bool;
  cf_num_spec_tokens : Z;
  cf_num_lookahead_tokens : Z;
  cf_block_size : Z;
  cf_reserve_full_isl : bool;
  cf_mamba_align : bool;
  cf_needs_kv_cache_zeroing : bool;
  cf_use_pp : bool;
  cf_use_v2_model_runner : bool;
  cf_async : bool;
  cf_max_num_encoder_input_tokens : Z;
  cf_recompute_kv_load_failures : bool;
  cf_supports_hma : bool;
  cf_offload : bool;
}.

(** ** The output of a step *)

Record NewRequestData {F E : Type} := mkNewRequest {
  nd_req_id : string;
  nd_prompt_token_ids : option (list Z);
  nd_mm_features : list MultiModalFeatureSpec;
  nd_sampling_params : option (SamplingParams F);
  nd_pooling_params : option PoolingParams;
  nd_block_ids : list (list Z);
  nd_num_computed_tokens : Z;
  nd_lora_request : option LoRARequest;
  nd_prompt_embeds : option E;
  nd_prefill_token_ids : option (list Z);
}.
Arguments NewRequestData F E : clear implicits.

Definition new_request_data {F E} (r : Request F E) (block_ids : list (list Z)) (prefill_token_ids : option (list Z)) : NewRequestData F E :=
  mkNewRequest F E (rq_request_id r) (rq_prompt_token_ids r) (rq_mm_features r) (rq_sampling_params r) (rq_pooling_params r) block_ids
    (rq_num_computed_tokens r) (rq_lora_request r) (rq_prompt_embeds r) prefill_token_ids.

Record CachedRequestData := mkCachedRequests {
  cd_req_ids : list string;
  cd_resumed_req_ids : gset string;
  cd_new_token_ids : list (list Z);
  cd_all_token_ids : list (string * list Z);
  cd_new_block_ids : list (option (list (list Z)));
  cd_num_computed_tokens : list Z;
  cd_num_output_tokens : list Z;
}.
#[global] Instance CachedRequestData_settable : Settable CachedRequestData := mk_settable _
  (fun d => mkCachedRequests (cd_req_ids d) (cd_resumed_req_ids d) (cd_new_token_ids d) (cd_all_token_ids d) (cd_new_block_ids d)
     (cd_num_computed_tokens d) (cd_num_output_tokens d)).
Definition empty_cached_data : CachedRequestData := mkCachedRequests [] ∅ [] [] [] [] [].

Record SchedulerOutput {F E : Type} := mkSchedulerOutput {
  so_scheduled_new_reqs : list (NewRequestData F E);
  so_scheduled_cached_reqs : CachedRequestData;
  so_num_scheduled_tokens : list (string * Z);
  so_total_num_scheduled_tokens : Z;
  so_scheduled_spec_decode_tokens : list (string * list Z);
  so_scheduled_encoder_inputs : list (string * list Z);
  so_num_common_prefix_blocks : list Z;
  so_preempted_req_ids : gset string;
  so_finished_req_ids : gset string;
  so_free_encoder_mm_hashes : list string;
  so_new_block_ids_to_zero : option (list Z);
  so_has_structured_output_requests : bool;
  so_pending_structured_output_tokens : bool;
  so_num_invalid_spec_tokens : option (list (string * Z));
}.
Arguments SchedulerOutput F E : clear implicits.
#[global] Instance SchedulerOutput_settable F E : Settable (SchedulerOutput F E) := mk_settable _
  (fun o => mkSchedulerOutput F E (so_scheduled_new_reqs o) (so_scheduled_cached_reqs o) (so_num_scheduled_tokens o)
     (so_total_num_scheduled_tokens o) (so_scheduled_spec_decode_tokens o) (so_scheduled_encoder_inputs o) (so_num_common_prefix_blocks o)
     (so_preempted_req_ids o) (so_finished_req_ids o) (so_free_encoder_mm_hashes o) (so_new_block_ids_to_zero o)
     (so_has_structured_output_requests o) (so_pending_structured_output_tokens o) (so_num_invalid_spec_tokens o)).

(** ** What the model returns *)

Record KVConnectorOutput := mkConnectorOutput {
  ko_finished_sending : list string;
  ko_finished_recving : list string;
  ko_invalid_block_ids : gset Z;
}.

(** [mo_pooler_output] says of each position whether there is an output. *)
Record ModelRunnerOutput := mkModelOutput {
  mo_req_id_to_index : gmap string Z;
  mo_sampled_token_ids : list (list Z);
  mo_pooler_output : list bool;
  mo_kv_connector_output : option KVConnectorOutput;
}.

Record EngineCoreOutput := mkEngineOutput {
  eo_request_id : string;
  eo_new_token_ids : list Z;
  eo_finish_reason : option FinishReason;
  eo_pooling_output : bool;
  eo_stop_reason : option (Z + string);
  eo_prefill_stats : option PrefillStats;
}.

(** ** The interfaces *)

(** [KVConnectorBase_V1] on the side of the scheduler; [has_unpublished],
    [has_pending_work] and [estimate_recompute_tokens] are those of the offloading
    scheduler of [TokenCakeConnector]. *)
Class KVConnector (F E C : Type) := {
  cn_on_new_request : Request F E → C → C;
  cn_get_num_new_matched_tokens : Request F E → Z → C → res (C * (option Z * bool));
  cn_update_state_after_alloc : Request F E → list (list Z) → Z → C → res C;
  cn_build_connector_meta : SchedulerOutput F E → C → res C;
  cn_update_connector_output : KVConnectorOutput → C → res C;
  (** whether the release of the blocks is delayed, and the parameters returned *)
  cn_request_finished : Request F E → list (list Z) → C → res (C * (bool * option (json F)));
  cn_reset_cache : C → C * option bool;
  cn_has_unpublished : C → bool;
  cn_has_pending_work : C → bool;
  cn_estimate_recompute_tokens : Request F E → C → Z;
}.

(** The grammars of the requests: [should_advance], [accept_tokens] and
    [validate_tokens]. *)
Class StructuredOutput (F E G : Type) := {
  so_should_advance : Request F E → G → bool;
  so_accept_tokens : string → list Z → G → G * bool;
  so_validate_tokens : string → list Z → G → list Z;
}.

(** ** The state *)

Record Scheduler {F E P C G : Type} := mkScheduler {
  sd_config : SchedulerConfig;
  sd_heap : gmap Z (Request F E);
  sd_requests : list (string * Z);
  sd_waiting : RequestQueue Z;
  sd_skipped_waiting : RequestQueue Z;
  sd_running : list Z;
  sd_finished_req_ids : gset string;
  sd_finished_req_ids_dict : option (list (Z * gset string));
  sd_prev_step_scheduled_req_ids : gset string;
  sd_num_waiting_for_streaming_input : Z;
  sd_finished_recving_kv_req_ids : gset string;
  sd_failed_recving_kv_req_ids : gset string;
  sd_encoder_cache_manager : encoder_manager;
  sd_kv_cache_manager : KVCacheManager;
  sd_lifecycles : option (LifecycleRegistry F P);
  sd_scheduling : option (SchedulingController F);
  sd_connector : option C;
  sd_grammars : G;
  sd_pause_state : PauseState;
  (** readings of the clocks taken so far *)
  sd_ticks : nat;
}.
Arguments Scheduler F E P C G : clear implicits.
#[global] Instance Scheduler_settable F E P C G : Settable (Scheduler F E P C G) := mk_settable _
  (fun s => mkScheduler F E P C G (sd_config s) (sd_heap s) (sd_requests s) (sd_waiting s) (sd_skipped_waiting s) (sd_running s)
     (sd_finished_req_ids s) (sd_finished_req_ids_dict s) (sd_prev_step_scheduled_req_ids s) (sd_num_waiting_for_streaming_input s)
     (sd_finished_recving_kv_req_ids s) (sd_failed_recving_kv_req_ids s) (sd_encoder_cache_manager s) (sd_kv_cache_manager s)
     (sd_lifecycles s) (sd_scheduling s) (sd_connector s) (sd_grammars s) (sd_pause_state s) (sd_ticks s)).

Section scheduler.
Context {F E P C G : Type} `{PyFloat F} `{CachePolicy P} `{KVConnector F E C} `{StructuredOutput F E G}.
Context (embeds_digest : E → Z → Z → string) (use_int_hashes : bool).
Context (block_hasher : option (Request F E → res (Request F E * list string))).
Context (log1p : F → res F) (iter_strings : gset string → list string) (iter_ints : gset Z → list Z).
Context (offload_config : OffloadConfig F) (clock : nat → F).
(** [ec_connector.has_cache_item], when there is an encoder-cache connector *)
Context (has_cache_item : option (string → bool)).
Notation scheduler := (Scheduler F E P C G).
Notation sm := (st scheduler).
Notation req := (Request F E).
Implicit Types (x y : Z) (rid : string).

(** [Scheduler.__init__], from the settings and the components it creates. *)
Definition scheduler_init (config : SchedulerConfig) (kv : KVCacheManager) (encoder : encoder_manager) (connector : option C)
    (lifecycles : option (LifecycleRegistry F P)) (scheduling : option (SchedulingController F)) (grammars : G)
    (include_finished_set : bool) : scheduler :=
  mkScheduler F E P C G config ∅ [] (create_request_queue (cf_policy config)) (create_request_queue (cf_policy config)) [] ∅
    (if include_finished_set then Some [] else None) ∅ 0 ∅ ∅ encoder kv lifecycles scheduling connector grammars UNPAUSED 0.

(** ** Access to the state *)

(** The object behind a reference; there are no dangling references. *)
Definition get_req x : sm req := s ← st_get; st_lift (or_raise RuntimeError (sd_heap s !! x)).
Definition set_req x (f : req → req) : sm unit := st_modify (fun s => s <| sd_heap ::= alter f x |>).
Definition req_of (s : scheduler) rid : option req := x ← od_get rid (sd_requests s); sd_heap s !! x.
Definition get_reqs (l : list Z) : sm (list req) := mapM get_req l.

(** [__lt__] of the objects. *)
Definition heap_lt (h : gmap Z req) (x y : Z) : bool := match h !! x, h !! y with Some a, Some b => rq_ltb a b | _, _ => false end.

(** A reading of a clock. *)
Definition tick : sm F := fun s => Ok (s <| sd_ticks ::= S |>, clock (sd_ticks s)).

Definition on_kv {A} (m : kvm A) : sm A := fun s =>
  match m (sd_kv_cache_manager s) with Ok (k, a) => Ok (s <| sd_kv_cache_manager := k |>, a) | Err e => Err e end.
Definition on_enc {A} (m : st encoder_manager A) : sm A := fun s =>
  match m (sd_encoder_cache_manager s) with Ok (e, a) => Ok (s <| sd_encoder_cache_manager := e |>, a) | Err e => Err e end.

(** A method of the registry; it is called where there is one. *)
Definition on_lifecycles {A} (m : st (LifecycleRegistry F P) A) : sm A := fun s =>
  match sd_lifecycles s with
  | None => Err AttributeError
  | Some g => match m g with Ok (g, a) => Ok (s <| sd_lifecycles := Some g |>, a) | Err e => Err e end
  end.

(** A method of the controller, which shares the manager of the scheduler and the
    counters of the registry. *)
Definition on_scheduling {A} (m : st (SchedulingController F) A) : sm A := fun s =>
  match sd_scheduling s with
  | None => Err AttributeError
  | Some c =>
      let c := c <| ct_manager := sd_kv_cache_manager s |> in
      let c := match sd_lifecycles s with Some g => c <| ct_metrics := lr_metrics g |> | None => c end in
      match m c with
      | Ok (c, a) =>
          Ok (s <| sd_scheduling := Some c |> <| sd_kv_cache_manager := ct_manager c |>
                <| sd_lifecycles ::= fmap (M := option) (fun g => g <| lr_metrics := ct_metrics c |>) |>, a)
      | Err e => Err e
      end
  end.

Definition on_connector {A} (m : C → res (C * A)) : sm A := fun s =>
  match sd_connector s with
  | None => Err AttributeError
  | Some c => match m c with Ok (c, a) => Ok (s <| sd_connector := Some c |>, a) | Err e => Err e end
  end.
Definition with_connector (m : C → res C) : sm unit :=
  s ← st_get;
  match sd_connector s with None => mret tt | Some _ => on_connector (fun c => c ← m c; Ok (c, tt)) end.

Definition has_scheduling (s : scheduler) : bool := bool_decide (is_Some (sd_scheduling s)).
(** [request_id in tokencake.metadata] *)
Definition annotated (s : scheduler) rid : bool :=
  match sd_scheduling s with Some c => bool_decide (is_Some (ct_metadata c !! rid)) | None => false end.

(** The queues, under the order of the objects of the heap. *)
Definition get_queue (q : queue_id) (s : scheduler) : RequestQueue Z :=
  match q with WaitingQueue => sd_waiting s | SkippedQueue => sd_skipped_waiting s end.
Definition on_queue (q : queue_id) (f : (Z → Z → bool) → RequestQueue Z → res (RequestQueue Z)) : sm unit := fun s =>
  match f (heap_lt (sd_heap s)) (get_queue q s) with
  | Ok l => Ok (match q with WaitingQueue => s <| sd_waiting := l |> | SkippedQueue => s <| sd_skipped_waiting := l |> end, tt)
  | Err e => Err e
  end.
Definition enqueue (q : queue_id) x : sm unit := on_queue q (fun lt l => Ok (add_request lt x l)).
Definition dequeue (q : queue_id) x : sm unit := on_queue q (fun lt l => remove_request lt x l).
Definition pop_head (q : queue_id) : sm unit := on_queue q (fun lt l => '(_, l) ← pop_request lt l; Ok l).
Definition queued (q : queue_id) (s : scheduler) : list Z := queue_iter (heap_lt (sd_heap s)) (get_queue q s).

(** ** Statuses and queues *)

Definition is_blocked_waiting_status (s : RequestStatus) : bool :=
  match s with
  | WAITING_FOR_STRUCTURED_OUTPUT_GRAMMAR | WAITING_FOR_REMOTE_KVS | WAITING_FOR_STREAMING_REQ => true
  | _ => false
  end.

Definition enqueue_waiting_request x : sm unit :=
  r ← get_req x;
  if is_blocked_waiting_status (rq_status r) then enqueue SkippedQueue x else enqueue WaitingQueue x.

Definition select_waiting_queue_for_scheduling (s : scheduler) : res (option queue_id) :=
  let w := sd_waiting s in
  let k := sd_skipped_waiting s in
  match cf_policy (sd_config s) with
  | FCFS => Ok (if queue_bool k then Some SkippedQueue else if queue_bool w then Some WaitingQueue else None)
  | PRIORITY =>
      if queue_bool w && queue_bool k then
        waiting_req ← peek_request w;
        skipped_req ← peek_request k;
        Ok (Some (if heap_lt (sd_heap s) waiting_req skipped_req then WaitingQueue else SkippedQueue))
      else Ok (if queue_bool w then Some WaitingQueue else if queue_bool k then Some SkippedQueue else None)
  end.

(** ** Preemption *)

Definition preempt_request x (physical : bool) : sm unit :=
  r ← get_req x;
  st_assert (bool_decide (rq_status r = RUNNING));;
  on_kv (km_free r);;
  s ← st_get;
  st_when (has_scheduling s)
    (t1 ← tick; t2 ← tick; t3 ← tick; on_scheduling (preempt r physical t1 t2 t3));;
  on_enc (en_free iter_ints r);;
  set_req x (fun r => r <| rq_status := Request.PREEMPTED |> <| rq_num_computed_tokens := 0 |> <| rq_spec_token_ids := [] |>
                        <| rq_num_preemptions ::= Z.succ |>);;
  on_queue WaitingQueue (fun lt l => Ok (prepend_request lt x l)).

(** ** The end of requests *)

(** [_connector_finished] *)
Definition connector_finished (r : req) : sm (bool * option (json F)) :=
  s ← st_get;
  match sd_connector s with
  | None => mret (false, None)
  | Some _ =>
      on_kv (km_remove_skipped_blocks (rq_request_id r) (rq_num_computed_tokens r));;
      s ← st_get;
      let block_ids := km_get_block_ids (sd_kv_cache_manager s) (rq_request_id r) in
      st_when (negb (cf_supports_hma (sd_config s))) (st_assert (lenZ block_ids =? 1));;
      on_connector (cn_request_finished r block_ids)
  end.

Definition free_blocks_of_request (r : req) : sm unit :=
  st_assert (is_finished r);;
  on_kv (km_free r);;
  s ← st_get;
  st_when (has_scheduling s) (on_scheduling Scheduling.release);;
  s ← st_get;
  st_when (negb (od_has (rq_request_id r) (sd_requests s))) (st_raise KeyError);;
  st_modify (fun s => s <| sd_requests ::= od_del (rq_request_id r) |>).

(** The cause that the registry is told. *)
Definition generation_cause_of (s : RequestStatus) : GenerationCause :=
  match s with FINISHED_ABORTED => GenAborted | FINISHED_ERROR | FINISHED_IGNORED => GenError | _ => GenCompleted end.

(** [(params.extra_args or {}).get("tokencake")["lifecycle_id"]] *)
Definition lifecycle_of (r : req) : res (option string) :=
  match (p ← rq_sampling_params r; args ← sp_extra_args p; od_get "tokencake" args) with
  | Some (JDict d) => match od_get "lifecycle_id" d with Some (JStr x) => Ok (Some x) | _ => Err KeyError end
  | Some JNull | None => Ok None
  | Some _ => Err TypeError
  end.

Definition free_request (x : Z) (delay_free_blocks : bool) : sm (option (json F)) :=
  r ← get_req x;
  st_assert (is_finished r);;
  s ← st_get;
  st_when (has_scheduling s) (t1 ← tick; t2 ← tick; t3 ← tick; on_scheduling (finish r t1 t2 t3));;
  st_when (bool_decide (is_Some (sd_lifecycles s)) && negb (cf_offload (sd_config s)))
    (lifecycle ← st_lift (lifecycle_of r);
     match lifecycle with
     | None => mret tt
     | Some l => on_lifecycles (generation_finished offload_config clock l (generation_cause_of (rq_status r)) None)
     end);;
  '(connector_delay, params) ← connector_finished r;
  on_enc (en_free iter_ints r);;
  st_modify (fun s => s <| sd_finished_req_ids ::= union {[rq_request_id r]} |>
    <| sd_finished_req_ids_dict ::= fmap (M := option) (fun d =>
         od_set (rq_client_index r) ({[rq_request_id r]} ∪ default ∅ (od_get (rq_client_index r) d)) d) |>);;
  st_when (negb (delay_free_blocks || connector_delay)) (free_blocks_of_request r);;
  mret params.

(** The requests named by the caller of [finish_requests]. *)
Inductive finish_arg := FinishOne (rid : string) | FinishSet (rids : gset string) | FinishAll.

(** The first pass: the valid requests, the running ones and those in the queues. *)
Fixpoint collect_finished (s : scheduler) (rids : list string) (valid running waiting : list Z) (streaming : Z) : list Z * list Z * list Z * Z :=
  match rids with
  | [] => (valid, running, waiting, streaming)
  | rid :: rids =>
      match req_of s rid with
      | None => collect_finished s rids valid running waiting streaming
      | Some r =>
          if is_finished r then collect_finished s rids valid running waiting streaming
          else if bool_decide (rq_status r = RUNNING)
          then collect_finished s rids (valid ++ [rq_oid r]) (running ++ [rq_oid r]) waiting streaming
          else collect_finished s rids (valid ++ [rq_oid r]) running (waiting ++ [rq_oid r])
                 (streaming + Z.b2z (bool_decide (rq_status r = WAITING_FOR_STREAMING_REQ)))
      end
  end.

(** The second pass for one request. *)
Definition finish_one (finished_status : RequestStatus) x : sm unit :=
  r ← get_req x;
  let rid := rq_request_id r in
  s ← st_get;
  let remote := bool_decide (rq_status r = WAITING_FOR_REMOTE_KVS) in
  let delay_free_blocks := remote && negb (bool_decide (rid ∈ sd_finished_recving_kv_req_ids s)) in
  st_when remote
    (st_modify (fun s => s <| sd_finished_recving_kv_req_ids ::= fun l => l ∖ {[rid]} |> <| sd_failed_recving_kv_req_ids ::= fun l => l ∖ {[rid]} |>));;
  set_req x (fun r => r <| rq_status := finished_status |>);;
  _ ← free_request x delay_free_blocks;
  mret tt.

Definition finish_requests (arg : finish_arg) (finished_status : RequestStatus) : sm (list (string * Z)) :=
  st_assert (status_is_finished finished_status);;
  s ← st_get;
  let rids := match arg with FinishOne rid => [rid] | FinishSet rids => iter_strings rids | FinishAll => (sd_requests s).*1 end in
  let '(valid, running, waiting, streaming) := collect_finished s rids [] [] [] 0 in
  st_modify (fun s => s <| sd_num_waiting_for_streaming_input ::= fun n => n - streaming |>
                        <| sd_running ::= fun l => remove_all l (list_to_set running) |>);;
  st_when (negb (bool_decide (waiting = [])))
    (on_queue WaitingQueue (fun lt l => Ok (remove_requests lt waiting l));;
     on_queue SkippedQueue (fun lt l => Ok (remove_requests lt waiting l)));;
  st_iter (finish_one finished_status) valid;;
  reqs ← get_reqs valid;
  mret ((fun r => (rq_request_id r, rq_client_index r)) <$> reqs).

(** ** Sessions of streaming input *)

(** The placeholders of the new input, moved behind the tokens of the session. *)
Definition shift_feature (base : Z) (f : MultiModalFeatureSpec) : MultiModalFeatureSpec :=
  mkFeature (mm_identifier f)
    (mkPlaceholder (pl_offset (mm_position f) + base) (pl_length (mm_position f)) (pl_is_embed (mm_position f))).

(** The request after the update, before its status changes. *)
Definition extend_session (r : req) (u : StreamingUpdate F) : res req :=
  let num_computed_tokens := rq_num_computed_tokens r in
  let kept := py_slice (rq_all_token_ids r) (rq_num_prompt_tokens r) num_computed_tokens in
  let all := py_slice (rq_all_token_ids r) 0 num_computed_tokens in
  prompt ← or_raise AssertionError (rq_prompt_token_ids r);
  let input := default [] (su_prompt_token_ids u) in
  let prompt := prompt ++ kept ++ input in
  r ← update_block_hashes block_hasher
        (r <| rq_all_token_ids := all ++ input |> <| rq_output_token_ids := [] |> <| rq_prompt_token_ids := Some prompt |>
           <| rq_mm_features ::= fun l => l ++ (shift_feature (lenZ all) <$> su_mm_features u) |>);
  Ok (r <| rq_num_prompt_tokens := lenZ prompt |> <| rq_arrival_time := su_arrival_time u |> <| rq_sampling_params := su_sampling_params u |>).

Definition update_request_as_session x (u : StreamingUpdate F) : sm unit :=
  r ← get_req x;
  r' ← st_lift (extend_session r u);
  st_when (bool_decide (rq_status r = WAITING_FOR_STREAMING_REQ))
    (st_modify (fun s => s <| sd_num_waiting_for_streaming_input ::= Z.pred |>));;
  set_req x (fun _ => r' <| rq_status := WAITING |>).

(** Whether the request is finished, not waiting for more input. *)
Definition handle_stopped_request x : sm bool :=
  r ← get_req x;
  if negb (rq_resumable r) then mret true
  else
    match rq_streaming_queue r with
    | Some (None :: queue) => set_req x (fun r => r <| rq_streaming_queue := Some queue |>);; mret true
    | Some (Some u :: queue) =>
        set_req x (fun r => r <| rq_streaming_queue := Some queue |>);;
        update_request_as_session x u;;
        enqueue_waiting_request x;;
        mret false
    | _ =>
        set_req x (fun r => r <| rq_status := WAITING_FOR_STREAMING_REQ |>);;
        st_modify (fun s => s <| sd_num_waiting_for_streaming_input ::= Z.succ |>);;
        enqueue_waiting_request x;;
        mret false
    end.

(** ** New requests *)

Definition scheduler_add_request (r : req) : sm unit :=
  let x := rq_oid r in
  let rid := rq_request_id r in
  st_modify (fun s => s <| sd_heap ::= insert x r |>);;
  s ← st_get;
  match sd_lifecycles s, rq_sampling_params r with
  | Some _, Some p =>
      metadata ← st_lift (metadata_from_extra_args (sp_extra_args p));
      match metadata with
      | Some md =>
          done ← on_lifecycles (Lifecycle.associate clock rid md);
          st_lift done;;
          st_when (has_scheduling s) (t1 ← tick; on_scheduling (Scheduling.associate rid md t1))
      | None => mret tt
      end
  | _, _ => mret tt
  end;;
  s ← st_get;
  match od_get rid (sd_requests s) with
  | Some y =>
      existing ← get_req y;
      let update := update_from_request r in
      if negb (bool_decide (rq_status existing = WAITING_FOR_STREAMING_REQ)) then
        queue ← st_lift (or_raise AssertionError (rq_streaming_queue existing));
        set_req y (fun e => e <| rq_streaming_queue := Some (queue ++ [update]) |>)
      else
        match update with
        | Some u => update_request_as_session y u
        | None => _ ← finish_requests (FinishOne rid) FINISHED_ABORTED; mret tt
        end
  | None =>
      st_when (rq_resumable r) (set_req x (fun r => r <| rq_streaming_queue := Some [] |>));;
      enqueue_waiting_request x;;
      st_modify (fun s => s <| sd_requests ::= od_set rid x |>);;
      r ← get_req x;
      with_connector (fun c => Ok (cn_on_new_request r c))
  end.

(** ** Transfers of the connector *)

Definition set_remove rid (l : gset string) : res (gset string) := if bool_decide (rid ∈ l) then Ok (l ∖ {[rid]}) else Err KeyError.

Definition update_waiting_for_remote_kv x : sm unit :=
  s ← st_get;
  st_assert (bool_decide (is_Some (sd_connector s)));;
  r ← get_req x;
  let rid := rq_request_id r in
  (if bool_decide (rid ∈ sd_failed_recving_kv_req_ids s) then
     (if negb (rq_num_computed_tokens r =? 0) then
        r' ← on_kv (km_cache_blocks embeds_digest use_int_hashes r (rq_num_computed_tokens r)); set_req x (fun _ => r')
      else
        on_kv (km_free r);;
        st_when (has_scheduling s) (on_scheduling Scheduling.release));;
     st_modify (fun s => s <| sd_failed_recving_kv_req_ids ::= fun l => l ∖ {[rid]} |>)
   else
     r' ← on_kv (km_cache_blocks embeds_digest use_int_hashes r (rq_num_computed_tokens r));
     set_req x (fun _ => if rq_num_computed_tokens r' =? num_tokens r' then r' <| rq_num_computed_tokens := num_tokens r' - 1 |> else r'));;
  s ← st_get;
  l ← st_lift (set_remove rid (sd_finished_recving_kv_req_ids s));
  st_modify (fun s => s <| sd_finished_recving_kv_req_ids := l |>).

Definition try_promote_blocked_waiting_request x : sm bool :=
  r ← get_req x;
  s ← st_get;
  match rq_status r with
  | WAITING_FOR_REMOTE_KVS =>
      if negb (bool_decide (rq_request_id r ∈ sd_finished_recving_kv_req_ids s)) then mret false
      else
        update_waiting_for_remote_kv x;;
        set_req x (fun r => r <| rq_status := if rq_num_preemptions r =? 0 then WAITING else Request.PREEMPTED |>);;
        mret true
  | WAITING_FOR_STRUCTURED_OUTPUT_GRAMMAR =>
      if negb (rq_use_structured_output r && rq_grammar r) then mret false
      else set_req x (fun r => r <| rq_status := WAITING |>);; mret true
  | WAITING_FOR_STREAMING_REQ =>
      st_assert (match rq_streaming_queue r with Some (_ :: _) => false | _ => true end);;
      mret false
  | _ => st_raise AssertionError
  end.

Definition update_from_kv_xfer_finished (out : KVConnectorOutput) : sm unit :=
  with_connector (cn_update_connector_output out);;
  st_iter (fun rid =>
    s ← st_get;
    r ← st_lift (or_raise AssertionError (req_of s rid));
    if bool_decide (rq_status r = WAITING_FOR_REMOTE_KVS)
    then st_modify (fun s => s <| sd_finished_recving_kv_req_ids ::= union {[rid]} |>)
    else st_assert (is_finished r);; free_blocks_of_request r) (ko_finished_recving out);;
  st_iter (fun rid =>
    s ← st_get;
    r ← st_lift (or_raise AssertionError (req_of s rid));
    free_blocks_of_request r) (ko_finished_sending out).

(** What the scan of invalid blocks carries. *)
Record invalid_scan := mkScan {
  iv_affected : gset string;
  iv_tokens : Z;
  iv_evict : gset Z;
  iv_marked : gset Z;
}.
#[local] Instance invalid_scan_settable : Settable invalid_scan := mk_settable _
  (fun v => mkScan (iv_affected v) (iv_tokens v) (iv_evict v) (iv_marked v)).

(** The loop over the blocks of one request: whether it is affected, and the tokens that
    stay computed when it is the first to recompute one of them. *)
Fixpoint scan_blocks (block_size computed : Z) (invalid : gset Z) (evict_blocks : bool) (blocks : list Z) (rest : list (Z * Z))
    (affected : bool) (cut : option Z) (v : invalid_scan) : bool * option Z * invalid_scan :=
  match rest with
  | [] => (affected, cut, v)
  | (idx, b) :: rest =>
      if negb (bool_decide (b ∈ invalid)) then scan_blocks block_size computed invalid evict_blocks blocks rest affected cut v
      else if bool_decide (b ∈ iv_marked v) then scan_blocks block_size computed invalid evict_blocks blocks rest true cut v
      else
        let v := v <| iv_marked ::= union {[b]} |> in
        match cut with
        | Some _ => scan_blocks block_size computed invalid evict_blocks blocks rest true cut v
        | None =>
            let kept := idx * block_size in
            let v := v <| iv_tokens ::= Z.add (computed - kept) |> in
            let v := if evict_blocks then v <| iv_evict ::= union (list_to_set (drop (Z.to_nat idx) blocks)) |> else v in
            scan_blocks block_size computed invalid evict_blocks blocks rest true (Some kept) v
        end
  end.

Definition scan_request (invalid : gset Z) (scheduled : list (string * Z)) (evict_blocks : bool) x (v : invalid_scan) : sm invalid_scan :=
  r ← get_req x;
  s ← st_get;
  let rid := rq_request_id r in
  match km_get_block_ids (sd_kv_cache_manager s) rid with
  | [blocks] =>
      let computed := rq_num_computed_tokens r - default 0 (od_get rid scheduled) in
      let block_size := cf_block_size (sd_config s) in
      st_when (block_size =? 0) (st_raise ZeroDivisionError);;
      let count := (computed + block_size - 1) / block_size in
      let '(affected, cut, v) := scan_blocks block_size computed invalid evict_blocks blocks (zip (seqZ 0 count) blocks) false None v in
      if negb affected then mret v
      else
        match cut with
        | Some kept => set_req x (fun r => r <| rq_num_computed_tokens := kept |>);; mret (v <| iv_affected ::= union {[rid]} |>)
        | None =>
            set_req x (fun r => r <| rq_num_computed_tokens := computed |>);;
            mret (v <| iv_tokens ::= Z.add (rq_num_computed_tokens r - computed) |> <| iv_affected ::= union {[rid]} |>)
        end
  | _ => st_raise ValueError
  end.

Definition update_requests_with_invalid_blocks (requests : list Z) (invalid : gset Z) (scheduled : list (string * Z)) (evict_blocks : bool)
    : sm (gset string * Z * gset Z) :=
  v ← (fix go l v := match l with [] => mret v | x :: l => v ← scan_request invalid scheduled evict_blocks x v; go l v end)
        requests (mkScan ∅ 0 ∅ ∅);
  mret (iv_affected v, iv_tokens v, iv_evict v).

Definition handle_invalid_blocks (invalid : gset Z) (scheduled : list (string * Z)) : sm (gset string) :=
  s ← st_get;
  let loading := filter (fun x => rq_status <$> sd_heap s !! x = Some WAITING_FOR_REMOTE_KVS) (queued SkippedQueue s) in
  '(async_failed, _, _) ← update_requests_with_invalid_blocks loading invalid scheduled false;
  s ← st_get;
  '(sync_failed, _, evict) ← update_requests_with_invalid_blocks (sd_running s) invalid scheduled true;
  if bool_decide (async_failed = ∅) && bool_decide (sync_failed = ∅) then mret ∅
  else
    let recompute := cf_recompute_kv_load_failures (sd_config s) in
    st_when (negb (bool_decide (evict = ∅)) && negb recompute) (on_kv (km_evict_blocks use_int_hashes evict));;
    if negb recompute then mret (async_failed ∪ sync_failed)
    else
      st_modify (fun s => s <| sd_failed_recving_kv_req_ids ::= union async_failed |>);;
      mret sync_failed.

(** ** A step *)

(** The local variables of [schedule]; [sp_tokencake] says that the controller takes
    part in the step. *)
Record Step := mkStep {
  sp_tokencake : bool;
  sp_token_budget : Z;
  sp_prefill_budget : Z;
  sp_encoder_compute_budget : Z;
  sp_req_index : Z;
  sp_scheduled_running_reqs : list Z;
  sp_scheduled_new_reqs : list Z;
  sp_scheduled_resumed_reqs : list Z;
  sp_preempted_reqs : list Z;
  sp_req_to_new_blocks : list (string * KVCacheBlocks);
  sp_num_scheduled_tokens : list (string * Z);
  sp_scheduled_prefill_tokens : list (string * Z);
  sp_scheduled_spec_decode_tokens : list (string * list Z);
  sp_scheduled_encoder_inputs : list (string * list Z);
  sp_scheduled_loras : gset Z;
  sp_step_skipped_waiting : RequestQueue Z;
  sp_reservation_deferred : list Z;
  sp_borrow_reserved : bool;
  sp_agent_order : option (list (Z * queue_id));
}.
#[global] Instance Step_settable : Settable Step := mk_settable _
  (fun t => mkStep (sp_tokencake t) (sp_token_budget t) (sp_prefill_budget t) (sp_encoder_compute_budget t) (sp_req_index t)
     (sp_scheduled_running_reqs t) (sp_scheduled_new_reqs t) (sp_scheduled_resumed_reqs t) (sp_preempted_reqs t) (sp_req_to_new_blocks t)
     (sp_num_scheduled_tokens t) (sp_scheduled_prefill_tokens t) (sp_scheduled_spec_decode_tokens t) (sp_scheduled_encoder_inputs t)
     (sp_scheduled_loras t) (sp_step_skipped_waiting t) (sp_reservation_deferred t) (sp_borrow_reserved t) (sp_agent_order t)).

Notation run := (st (scheduler * Step)).
Definition self {A} (m : sm A) : run A := fun st =>
  match m st.1 with Ok (s, a) => Ok ((s, st.2), a) | Err e => Err e end.
Definition get_self : run scheduler := fun st => Ok (st, st.1).
Definition get_step : run Step := fun st => Ok (st, st.2).
Definition set_step (f : Step → Step) : run unit := st_modify (fun st => (st.1, f st.2)).

(** [offload.evaluate_pending(self, new_step=True)] *)
Context (evaluate_pending : sm unit).

(** [_mamba_block_aligned_split] *)
Definition mamba_block_aligned_split (cfg : SchedulerConfig) (r : req) (num_new_tokens num_new_local_computed_tokens num_external_computed_tokens : Z) : res Z :=
  passert (num_external_computed_tokens =? 0);;
  let num_computed_tokens := rq_num_computed_tokens r + num_new_local_computed_tokens + num_external_computed_tokens in
  if num_computed_tokens <? Z.max (rq_num_prompt_tokens r) (num_tokens r - 1) then
    let block_size := cf_block_size cfg in
    (if block_size =? 0 then Err ZeroDivisionError else Ok tt);;
    let last_cache_position := num_tokens r - num_tokens r mod block_size in
    let last_cache_position := if cf_use_eagle cfg then Z.max (last_cache_position - block_size) 0 else last_cache_position in
    let after := num_computed_tokens + num_new_tokens in
    Ok (if after <? last_cache_position then num_new_tokens / block_size * block_size
        else if (num_computed_tokens <? last_cache_position) && (last_cache_position <? after) then last_cache_position - num_computed_tokens
        else num_new_tokens)
  else Ok num_new_tokens.

(** [try_schedule_encoder_inputs], for a request with inputs. *)
Definition plan_encoder (r : req) (num_computed_tokens num_new_tokens : Z) : run (option (list Z) * Z * Z * list Z) :=
  s ← get_self;
  t ← get_step;
  if has_encoder_inputs r then
    '(inputs, n, budget, external) ← self (on_enc (try_schedule_encoder_inputs (cf_disable_chunked_mm_input (sd_config s)) has_cache_item r
       num_computed_tokens (if cf_use_eagle (sd_config s) then 1 else 0) num_new_tokens (sp_encoder_compute_budget t)));
    mret (Some inputs, n, budget, external)
  else mret (None, num_new_tokens, sp_encoder_compute_budget t, []).

(** The encoder cache of the inputs scheduled for the request. *)
Definition allocate_encoder (r : req) (inputs : option (list Z)) (budget : Z) (external : list Z) : run unit :=
  (match inputs with
   | Some (i :: l) =>
       set_step (fun t => t <| sp_scheduled_encoder_inputs ::= od_set (rq_request_id r) (i :: l) |>);;
       st_iter (fun i => self (on_enc (en_allocate r i))) (i :: l);;
       set_step (fun t => t <| sp_encoder_compute_budget := budget |>)
   | _ => mret tt
   end);;
  st_iter (fun i => self (on_enc (en_allocate r i))) external.

(** *** Running requests *)

(** [max(running, key=lambda r: (r.priority, r.arrival_time))] *)
Definition worst_request (l : list req) : option req :=
  match l with
  | [] => None
  | r :: l => Some (foldl (fun best r => if lex (rq_priority best =? rq_priority r) (rq_priority best <? rq_priority r)
                                              (rq_arrival_time best <@ rq_arrival_time r) then r else best) r l)
  end.

(** [list.index] *)
Fixpoint py_list_index (x : Z) (l : list Z) : res Z :=
  match l with [] => Err ValueError | y :: l => if decide (x = y) then Ok 0 else i ← py_list_index x l; Ok (i + 1) end.

(** [d.pop(k)] *)
Definition od_pop {A} rid (d : list (string * A)) : res (A * list (string * A)) :=
  v ← or_raise KeyError (od_get rid d); Ok (v, od_del rid d).

(** The request that was scheduled in this step gives back what it got. *)
Definition unschedule (r : req) (agent : bool) (new_encoder_compute_budget : Z) : run Z :=
  let rid := rq_request_id r in
  t ← get_step;
  l ← st_lift (py_remove (rq_oid r) (sp_scheduled_running_reqs t));
  '(tokens, d) ← st_lift (od_pop rid (sp_num_scheduled_tokens t));
  '(_, blocks) ← st_lift (od_pop rid (sp_req_to_new_blocks t));
  set_step (fun t => t <| sp_scheduled_running_reqs := l |> <| sp_num_scheduled_tokens := d |> <| sp_token_budget ::= Z.add tokens |>
    <| sp_prefill_budget ::= Z.add (default 0 (od_get rid (sp_scheduled_prefill_tokens t))) |>
    <| sp_scheduled_prefill_tokens ::= od_del rid |> <| sp_req_to_new_blocks := blocks |>
    <| sp_scheduled_spec_decode_tokens ::= od_del rid |> <| sp_scheduled_encoder_inputs ::= od_del rid |>
    <| sp_req_index ::= Z.pred |>);;
  match od_get rid (sp_scheduled_encoder_inputs t) with
  | Some (i :: inputs) =>
      embeds ← st_lift (mapM (get_num_encoder_embeds r) (i :: inputs));
      set_step (fun t => t <| sp_encoder_compute_budget ::= Z.add (sumZ id embeds) |>);;
      mret (if agent then new_encoder_compute_budget + sumZ id embeds else new_encoder_compute_budget)
  | _ => mret new_encoder_compute_budget
  end.

(** A victim is chosen, and leaves the running requests. *)
Definition take_victim (r : req) (num_new_tokens new_encoder_compute_budget : Z) : run (Z * Z) :=
  t ← get_step;
  s ← get_self;
  running ← self (get_reqs (sd_running s));
  agent_victim ←
    (if sp_tokencake t then
       self (on_scheduling (victim r running num_new_tokens (cf_num_lookahead_tokens (sd_config s))
         (match sd_connector s with
          | Some c => if cf_offload (sd_config s) then Some (fun q => cn_estimate_recompute_tokens q c) else None
          | None => None
          end)))
     else mret None);
  match agent_victim, cf_policy (sd_config s) with
  | None, FCFS =>
      y ← st_lift (or_raise IndexError (last (sd_running s)));
      self (st_modify (fun s => s <| sd_running ::= fun l => take (length l - 1) l |>));;
      mret (y, new_encoder_compute_budget)
  | _, _ =>
      q ← st_lift (or_raise ValueError (match agent_victim with Some q => Some q | None => worst_request running end));
      let y := rq_oid q in
      let agent := bool_decide (is_Some agent_victim) in
      victim_index ← st_lift (if agent then py_list_index y (sd_running s) else Ok (-1));
      l ← st_lift (py_remove y (sd_running s));
      self (st_modify (fun s => s <| sd_running := l |>));;
      if bool_decide (y ∈ sp_scheduled_running_reqs t) then b ← unschedule q agent new_encoder_compute_budget; mret (y, b)
      else
        st_when (agent && (victim_index <? sp_req_index t)) (set_step (fun t => t <| sp_req_index ::= Z.pred |>));;
        mret (y, new_encoder_compute_budget)
  end.

(** The [while True] loop around [allocate_slots]. *)
Fixpoint allocate_loop (fuel : nat) x (num_new_tokens new_encoder_compute_budget : Z) : run (option KVCacheBlocks * Z) :=
  match fuel with
  | O => st_raise OutOfFuel
  | S fuel =>
      r ← self (get_req x);
      s ← get_self;
      t ← get_step;
      '(r', new_blocks) ← self (on_kv (allocate_slots embeds_digest use_int_hashes r num_new_tokens 0 None
                                  (cf_num_lookahead_tokens (sd_config s)) 0 false 0 false));
      self (set_req x (fun _ => r'));;
      match new_blocks with
      | Some blocks =>
          st_when (sp_tokencake t)
            (t1 ← self tick; t2 ← self tick; self (on_scheduling (commit r' true 0 (Some blocks) false t1 t2)));;
          mret (Some blocks, new_encoder_compute_budget)
      | None =>
          '(y, budget) ← take_victim r' num_new_tokens new_encoder_compute_budget;
          self (preempt_request y true);;
          set_step (fun t => t <| sp_preempted_reqs ::= fun l => l ++ [y] |>);;
          if decide (y = x) then mret (None, budget) else allocate_loop fuel x num_new_tokens budget
      end
  end.

(** The tokens asked for by a running request, before the encoder inputs. *)
Definition running_tokens (s : scheduler) (t : Step) (r : req) : Z :=
  let n := num_tokens_with_spec r + rq_num_output_placeholders r - rq_num_computed_tokens r in
  let threshold := cf_long_prefill_token_threshold (sd_config s) in
  Z.min (if (0 <? threshold) && (threshold <? n) then threshold else n) (sp_token_budget t).

(** Whether the budget of prefill tokens applies. *)
Definition limits_prefill (s : scheduler) (t : Step) (r : req) (num_new_tokens : Z) : bool :=
  sp_tokencake t && annotated s (rq_request_id r) && (1 <? num_new_tokens) && cf_enable_chunked_prefill (sd_config s) &&
  negb (has_encoder_inputs r) && negb (cf_mamba_align (sd_config s)).

(** What is left to do when the blocks of the running request are allocated. *)
Definition record_running x (limited : bool) (num_new_tokens : Z) (blocks : KVCacheBlocks) (inputs : option (list Z)) (budget : Z)
    (external : list Z) : run unit :=
  r ← self (get_req x);
  let rid := rq_request_id r in
  set_step (fun t => t <| sp_scheduled_running_reqs ::= fun l => l ++ [x] |> <| sp_req_to_new_blocks ::= od_set rid blocks |>
    <| sp_num_scheduled_tokens ::= od_set rid num_new_tokens |> <| sp_token_budget ::= fun b => b - num_new_tokens |>
    <| sp_req_index ::= Z.succ |>);;
  st_when limited
    (set_step (fun t => t <| sp_scheduled_prefill_tokens ::= od_set rid num_new_tokens |> <| sp_prefill_budget ::= fun b => b - num_new_tokens |>));;
  st_when (negb (bool_decide (rq_spec_token_ids r = [])))
    (let n := num_new_tokens + rq_num_computed_tokens r - num_tokens r - rq_num_output_placeholders r in
     st_when (0 <? n)
       (set_step (fun t => t <| sp_scheduled_spec_decode_tokens ::= od_set rid (py_slice (rq_spec_token_ids r) 0 n) |>));;
     self (set_req x (fun r => r <| rq_spec_token_ids := [] |>)));;
  allocate_encoder r inputs budget external.

(** One iteration over the running requests; [false] for [break]. *)
Definition running_step : run bool :=
  s ← get_self;
  t ← get_step;
  x ← st_lift (py_index (sd_running s) (sp_req_index t));
  r ← self (get_req x);
  let next := set_step (fun t => t <| sp_req_index ::= Z.succ |>) in
  if (0 <? rq_num_output_placeholders r) &&
     (rq_num_prompt_tokens r + rq_max_tokens r <=? rq_num_computed_tokens r + 2 - rq_num_output_placeholders r)
  then next;; mret true
  else
    let n := running_tokens s t r in
    let limited := (rq_num_computed_tokens r <? rq_num_prompt_tokens r) && limits_prefill s t r n in
    n ← (if limited then self (on_scheduling (cap_prefill n (sp_prefill_budget t))) else mret n);
    let n := Z.min n (cf_max_model_len (sd_config s) - 1 - rq_num_computed_tokens r) in
    '(inputs, n, budget, external) ← plan_encoder r (rq_num_computed_tokens r) n;
    n ← st_lift (if cf_mamba_align (sd_config s) then mamba_block_aligned_split (sd_config s) r n 0 0 else Ok n);
    if n =? 0 then next;; mret true
    else
      grows ← (if sp_tokencake t then
                 self (on_scheduling (prepare_running r));;
                 t1 ← self tick; t2 ← self tick; self (on_scheduling (can_grow r n t1 t2))
               else mret true);
      if negb grows then next;; mret true
      else
        s ← get_self;
        '(blocks, budget) ← allocate_loop (S (length (sd_running s))) x n budget;
        match blocks with
        | None => mret false
        | Some blocks => record_running x limited n blocks inputs budget external;; mret true
        end.

Fixpoint running_loop (fuel : nat) : run unit :=
  s ← get_self;
  t ← get_step;
  if (sp_req_index t <? lenZ (sd_running s)) && (0 <? sp_token_budget t) then
    match fuel with
    | O => st_raise OutOfFuel
    | S fuel => go ← running_step; if go : bool then running_loop fuel else mret tt
    end
  else mret tt.

(** *** Waiting requests *)

(** How an iteration over the waiting requests goes on: with a value, or to the next
    iteration, or out of the loop. *)
Inductive flow (A : Type) := Go (a : A) | Continue | Break.
#[global] Arguments Go {A} a.
#[global] Arguments Continue {A}.
#[global] Arguments Break {A}.

Definition then_flow {A B} (m : run (flow A)) (f : A → run (flow B)) : run (flow B) :=
  x ← m; match x with Go a => f a | Continue => mret Continue | Break => mret Break end.

Definition skip_prepend x : run unit := fun st =>
  Ok ((st.1, st.2 <| sp_step_skipped_waiting ::= prepend_request (heap_lt (sd_heap st.1)) x |>), tt).

(** The adapter of the request does not fit in the batch. *)
Definition exceeds_loras (s : scheduler) (t : Step) (r : req) : bool :=
  match cf_max_loras (sd_config s), rq_lora_request r with
  | Some max_loras, Some l => (Z.of_nat (size (sp_scheduled_loras t)) =? max_loras) && negb (bool_decide (lora_int_id l ∈ sp_scheduled_loras t))
  | _, _ => false
  end.

(** Every request had its turn within its reserved capacity: those that were deferred
    may use what is idle. *)
Definition reconsider_deferred : run unit :=
  s ← get_self;
  st_when (negb (queue_bool (sd_waiting s)) && negb (queue_bool (sd_skipped_waiting s)))
    (t ← get_step;
     st_iter (fun x =>
       t ← get_step;
       s ← get_self;
       q ← st_lift (remove_request (heap_lt (sd_heap s)) x (sp_step_skipped_waiting t));
       set_step (fun t => t <| sp_step_skipped_waiting := q |>);;
       self (enqueue WaitingQueue x)) (sp_reservation_deferred t);;
     set_step (fun t => t <| sp_reservation_deferred := [] |> <| sp_borrow_reserved := true |> <| sp_agent_order := None |>)).

(** The scan of the annotated candidates: those that cannot run are set aside, and the
    best of the others is chosen, or all are collected when the order can be kept. *)
Fixpoint scan_candidates (keep_order : bool) (candidates : list (Z * queue_id)) (best : Z * queue_id) (eligible : list (Z * queue_id))
    : run ((Z * queue_id) * list (Z * queue_id)) :=
  match candidates with
  | [] => mret (best, eligible)
  | (x, q) :: candidates =>
      r ← self (get_req x);
      aside ←
        (if bool_decide (x ≠ best.1) then
           promoted ← (if is_blocked_waiting_status (rq_status r) then self (try_promote_blocked_waiting_request x) else mret true);
           s ← get_self;
           t ← get_step;
           mret (negb promoted || exceeds_loras s t r)
         else mret false);
      if aside : bool then
        self (dequeue q x);;
        skip_prepend x;;
        scan_candidates keep_order candidates best eligible
      else if keep_order then scan_candidates keep_order candidates best (eligible ++ [(x, q)])
      else
        s ← get_self;
        r ← self (get_req x);
        b ← self (get_req best.1);
        c ← st_lift (or_raise AttributeError (sd_scheduling s));
        k ← st_lift (order_key c r);
        kb ← st_lift (order_key c b);
        scan_candidates keep_order candidates (if order_ltb k kb then (x, q) else best) eligible
  end.

(** The request of the agents that goes next. *)
Definition next_agent_request (keep_order : bool) (x : Z) (q : queue_id) : run (Z * queue_id) :=
  t ← get_step;
  best ←
    match sp_agent_order t with
    | Some _ => mret (x, q)
    | None =>
        s ← get_self;
        c ← st_lift (or_raise AttributeError (sd_scheduling s));
        waiting ← self (get_reqs (queued WaitingQueue s));
        skipped ← self (get_reqs (queued SkippedQueue s));
        let prefix := annotated_prefix c waiting skipped (bool_decide (cf_policy (sd_config s) = FCFS)) in
        '(best, eligible) ← scan_candidates keep_order ((fun rq => (rq_oid rq.1, rq.2)) <$> prefix) (x, q) [];
        st_when keep_order
          (reqs ← self (get_reqs eligible.*1);
           order ← self (on_scheduling (order_candidates (zip reqs eligible.*2)));
           set_step (fun t => t <| sp_agent_order := Some ((fun rq => (rq_oid rq.1, rq.2)) <$> order) |>));;
        mret best
    end;
  t ← get_step;
  match sp_agent_order t with
  | None => mret best
  | Some [] => st_raise IndexError
  | Some (xq :: order) => set_step (fun t => t <| sp_agent_order := Some order |>);; mret xq
  end.

(** The request that is tried next, and its queue. *)
Definition next_request (keep_order : bool) : run (flow (Z * queue_id)) :=
  s ← get_self;
  q ← st_lift (select_waiting_queue_for_scheduling s);
  q ← st_lift (or_raise AssertionError q);
  x ← st_lift (peek_request (get_queue q s));
  r ← self (get_req x);
  promoted ← (if is_blocked_waiting_status (rq_status r) then self (try_promote_blocked_waiting_request x) else mret true);
  if negb promoted then
    self (pop_head q);;
    skip_prepend x;;
    set_step (fun t => t <| sp_agent_order := None |>);;
    mret Continue
  else
    s ← get_self;
    t ← get_step;
    if exceeds_loras s t r then self (pop_head q);; skip_prepend x;; mret Continue
    else if sp_tokencake t && annotated s (rq_request_id r) then xq ← next_agent_request keep_order x q; mret (Go xq)
    else mret (Go (x, q)).

(** What is already computed for a waiting request. *)
Record prefix_hit := mkPrefixHit {
  ph_blocks : KVCacheBlocks;
  ph_local : Z;
  ph_external : Z;
  ph_total : Z;
  ph_load_async : bool;
}.

(** The tokens the connector has; [None] when it cannot tell yet. *)
Definition external_tokens (r : req) (blocks : KVCacheBlocks) (local : Z) (x : Z) (q : queue_id) : run (flow (Z * bool)) :=
  s ← get_self;
  t ← get_step;
  match sd_connector s with
  | None => mret (Go (0, false))
  | Some _ =>
      defers ← (if sp_tokencake t && cf_offload (sd_config s) then self (on_scheduling (defer_cache_lookup r local blocks)) else mret false);
      if defers : bool then
        self (on_scheduling (defer r));;
        self (dequeue q x);;
        skip_prepend x;;
        mret Continue
      else
        '(tokens, load_kv_async) ← self (on_connector (cn_get_num_new_matched_tokens r local));
        match tokens with
        | None =>
            (if sp_tokencake t then self (dequeue q x) else self (pop_head q));;
            skip_prepend x;;
            mret Continue
        | Some n => mret (Go (n, load_kv_async))
        end
  end.

Definition computed_tokens (x : Z) (q : queue_id) : run (flow prefix_hit) :=
  r ← self (get_req x);
  if rq_num_computed_tokens r =? 0 then
    found ← self (on_kv (get_computed_blocks r));
    '(blocks, local) ← st_lift (or_raise OutOfFuel found);
    then_flow (external_tokens r blocks local x q) (fun '(external, load_kv_async) =>
      let total := local + external in
      st_assert (total <=? num_tokens r);;
      (match rq_prefill_stats r with
       | None => mret tt
       | Some _ =>
           st_assert (total <=? rq_num_prompt_tokens r);;
           stats ← st_lift (prefill_stats_set (rq_num_prompt_tokens r) local external);
           self (set_req x (fun r => r <| rq_prefill_stats := Some stats |>))
       end);;
      mret (Go (mkPrefixHit blocks local external total load_kv_async)))
  else mret (Go (mkPrefixHit EmptyBlocks 0 0 (rq_num_computed_tokens r) false)).

(** The tokens to schedule for the request, whether they count as limited prefill, and
    its encoder inputs. *)
Definition waiting_tokens (x : Z) (q : queue_id) (hit : prefix_hit) : run (flow (Z * bool * option (list Z) * Z * list Z)) :=
  r ← self (get_req x);
  s ← get_self;
  t ← get_step;
  let cfg := sd_config s in
  then_flow
    (if ph_load_async hit then
       st_assert (0 <? ph_external hit);; mret (Go (0, false, None, sp_encoder_compute_budget t, []))
     else
       let n := num_tokens r - ph_total hit in
       let threshold := cf_long_prefill_token_threshold cfg in
       let n := if (0 <? threshold) && (threshold <? n) then threshold else n in
       if negb (cf_enable_chunked_prefill cfg) && (sp_token_budget t <? n) then mret Break
       else
         let n := Z.min n (sp_token_budget t) in
         st_assert (0 <? n);;
         let limited := limits_prefill s t r n in
         n ← (if limited then self (on_scheduling (cap_prefill n (sp_prefill_budget t))) else mret n);
         if limited && (n =? 0) then
           self (dequeue q x);;
           skip_prepend x;;
           mret Continue
         else
           '(inputs, n, budget, external) ← plan_encoder r (ph_total hit) n;
           if has_encoder_inputs r && (n =? 0) then mret Break
           else mret (Go (n, limited, inputs, budget, external)))
    (fun '(n, limited, inputs, budget, external) =>
       if cf_mamba_align cfg then
         n ← st_lift (mamba_block_aligned_split cfg r n (ph_local hit) (ph_external hit));
         if n =? 0 then mret Break else mret (Go (n, limited, inputs, budget, external))
       else mret (Go (n, limited, inputs, budget, external))).

(** The blocks are there: the request leaves its queue and runs, or waits for the
    transfer. *)
Definition admit_request (x : Z) (q : queue_id) (hit : prefix_hit) (n : Z) (limited : bool) (inputs : option (list Z)) (budget : Z)
    (external : list Z) : run unit :=
  r ← self (get_req x);
  s ← get_self;
  t ← get_step;
  let rid := rq_request_id r in
  self (with_connector (cn_update_state_after_alloc r (km_get_block_ids (sd_kv_cache_manager s) rid) (ph_external hit)));;
  (if sp_tokencake t then self (dequeue q x) else self (pop_head q));;
  if ph_load_async hit then
    self (set_req x (fun r => r <| rq_status := WAITING_FOR_REMOTE_KVS |>));;
    skip_prepend x;;
    self (set_req x (fun r => r <| rq_num_computed_tokens := ph_total hit |>))
  else
    self (st_modify (fun s => s <| sd_running ::= fun l => l ++ [x] |>));;
    match rq_status r with
    | WAITING => set_step (fun t => t <| sp_scheduled_new_reqs ::= fun l => l ++ [x] |>)
    | Request.PREEMPTED => set_step (fun t => t <| sp_scheduled_resumed_reqs ::= fun l => l ++ [x] |>)
    | _ => st_raise RuntimeError
    end;;
    s ← get_self;
    set_step (fun t => t
      <| sp_scheduled_loras ::= fun l => match cf_max_loras (sd_config s), rq_lora_request r with
                                         | Some _, Some a => {[lora_int_id a]} ∪ l | _, _ => l end |>
      <| sp_req_to_new_blocks ::= od_set rid (km_get_blocks (sd_kv_cache_manager s) rid) |>
      <| sp_num_scheduled_tokens ::= od_set rid n |> <| sp_token_budget ::= fun b => b - n |>
      <| sp_prefill_budget ::= fun b => if limited then b - n else b |>);;
    self (set_req x (fun r => r <| rq_status := RUNNING |> <| rq_num_computed_tokens := ph_total hit |>));;
    r ← self (get_req x);
    allocate_encoder r inputs budget external.

(** The allocation for the request. *)
Definition try_admit (x : Z) (q : queue_id) (hit : prefix_hit) (n : Z) (limited : bool) (inputs : option (list Z)) (budget : Z)
    (external : list Z) : run (flow unit) :=
  r ← self (get_req x);
  s ← get_self;
  t ← get_step;
  let cfg := sd_config s in
  let rid := rq_request_id r in
  let lookahead := if rq_num_computed_tokens r =? 0 then 0 else cf_num_lookahead_tokens cfg in
  embeds ← st_lift (if is_encoder_decoder (sd_encoder_cache_manager s) && has_encoder_inputs r
                    then mapM (get_num_encoder_embeds r) (default [] inputs) else Ok []);
  let num_encoder_tokens := sumZ id embeds in
  allowed ← (if sp_tokencake t then
               self (on_scheduling (can_allocate r n (ph_local hit) (Some (ph_blocks hit)) lookahead (ph_external hit) num_encoder_tokens
                                      (sp_borrow_reserved t)))
             else mret true);
  if negb allowed then
    self (on_scheduling (defer r));;
    s ← get_self;
    st_when (negb (sp_borrow_reserved t) &&
             match sd_scheduling s with Some c => bool_decide (rid ∈ ct_reservation_deferred c) | None => false end)
      (set_step (fun t => t <| sp_reservation_deferred ::= fun l => l ++ [x] |>));;
    self (dequeue q x);;
    skip_prepend x;;
    mret Continue
  else
    '(r', new_blocks) ← self (on_kv (allocate_slots embeds_digest use_int_hashes r n (ph_local hit) (Some (ph_blocks hit)) lookahead
                                (ph_external hit) (ph_load_async hit) num_encoder_tokens (cf_reserve_full_isl cfg)));
    self (set_req x (fun _ => r'));;
    match new_blocks with
    | None => st_when (has_encoder_inputs r) (self (on_enc (en_free iter_ints r)));; mret Break
    | Some _ =>
        st_when (sp_tokencake t)
          (t1 ← self tick; t2 ← self tick;
           self (on_scheduling (commit r' false num_encoder_tokens None (sp_borrow_reserved t) t1 t2));;
           self (on_scheduling (cache_hits r' (ph_local hit) (ph_external hit) (Some (ph_blocks hit)))));;
        admit_request x q hit n limited inputs budget external;;
        mret (Go tt)
    end.

(** One iteration over the waiting requests; [false] for [break]. *)
Definition waiting_step (keep_order : bool) : run bool :=
  s ← get_self;
  if lenZ (sd_running s) =? cf_max_num_running_reqs (sd_config s) then mret false
  else
    reconsider_deferred;;
    done ← then_flow (next_request keep_order) (fun '(x, q) =>
      then_flow (computed_tokens x q) (fun hit =>
        then_flow (waiting_tokens x q hit) (fun '(n, limited, inputs, budget, external) =>
          try_admit x q hit n limited inputs budget external)));
    mret match done with Break => false | _ => true end.

Fixpoint waiting_loop (fuel : nat) (keep_order : bool) : run unit :=
  s ← get_self;
  t ← get_step;
  if (queue_bool (sd_waiting s) || queue_bool (sd_skipped_waiting s) || negb (bool_decide (sp_reservation_deferred t = []))) &&
     (0 <? sp_token_budget t)
  then
    match fuel with
    | O => st_raise OutOfFuel
    | S fuel => go ← waiting_step keep_order; if go : bool then waiting_loop fuel keep_order else mret tt
    end
  else mret tt.

Definition schedule_waiting : run unit :=
  s ← get_self;
  t ← get_step;
  waiting ← self (get_reqs (queued WaitingQueue s));
  skipped ← self (get_reqs (queued SkippedQueue s));
  let keep_order := sp_tokencake t && bool_decide (cf_max_loras (sd_config s) = None) &&
                    forallb (fun r => annotated s (rq_request_id r)) (waiting ++ skipped) in
  let n := (length (queued WaitingQueue s) + length (queued SkippedQueue s))%nat in
  waiting_loop (S (2 * n)) keep_order;;
  t ← get_step;
  st_when (queue_bool (sp_step_skipped_waiting t))
    (self (on_queue SkippedQueue (fun lt l => Ok (prepend_requests lt (sp_step_skipped_waiting t) l)))).

(** *** The output *)

(** [_make_cached_request_data] for one request, the [idx]-th. *)
Definition cached_request (t : Step) (num_running : nat) (d : CachedRequestData) (item : nat * Z) : sm CachedRequestData :=
  let '(idx, x) := item in
  r ← get_req x;
  s ← st_get;
  let rid := rq_request_id r in
  let in_prev_step := bool_decide (rid ∈ sd_prev_step_scheduled_req_ids s) in
  new_tokens ←
    (if cf_use_pp (sd_config s) && negb (cf_async (sd_config s)) then
       n ← st_lift (or_raise KeyError (od_get rid (sp_num_scheduled_tokens t)));
       let n := n - lenZ (default [] (od_get rid (sp_scheduled_spec_decode_tokens t))) in
       mret [py_slice (rq_all_token_ids r) (rq_num_computed_tokens r) (rq_num_computed_tokens r + n)]
     else mret []);
  st_when (num_running <=? idx)%nat (st_assert (negb in_prev_step));;
  blocks ← st_lift (or_raise KeyError (od_get rid (sp_req_to_new_blocks t)));
  mret (d <| cd_req_ids ::= fun l => l ++ [rid] |> <| cd_new_token_ids ::= fun l => l ++ new_tokens |>
          <| cd_resumed_req_ids ::= fun l => if (num_running <=? idx)%nat then {[rid]} ∪ l else l |>
          <| cd_all_token_ids ::= fun l => if in_prev_step then l else od_set rid (rq_all_token_ids r) l |>
          <| cd_new_block_ids ::= fun l => l ++ [blocks_get_block_ids (sd_kv_cache_manager s) true blocks] |>
          <| cd_num_computed_tokens ::= fun l => l ++ [rq_num_computed_tokens r] |>
          <| cd_num_output_tokens ::= fun l => l ++ [num_output_tokens r + rq_num_output_placeholders r] |>).

Fixpoint cached_requests (t : Step) (num_running : nat) (d : CachedRequestData) (items : list (nat * Z)) : sm CachedRequestData :=
  match items with [] => mret d | item :: items => d ← cached_request t num_running d item; cached_requests t num_running d items end.

Definition make_cached_request_data (t : Step) (running resumed : list Z) : sm CachedRequestData :=
  let l := running ++ resumed in
  cached_requests t (length running) empty_cached_data (zip (seq 0 (length l)) l).

Definition new_requests_data (t : Step) (with_tokens : bool) (l : list Z) : sm (list (NewRequestData F E)) :=
  mapM (fun x =>
    r ← get_req x;
    s ← st_get;
    blocks ← st_lift (or_raise KeyError (od_get (rq_request_id r) (sp_req_to_new_blocks t)));
    mret (new_request_data r (blocks_of (sd_kv_cache_manager s) blocks) (if with_tokens then Some (rq_all_token_ids r) else None))) l.

(** [_update_after_schedule] of [Scheduler], for one request. *)
Definition advance_request (structured : bool) (item : string * Z) : sm bool :=
  let '(rid, n) := item in
  s ← st_get;
  x ← st_lift (or_raise KeyError (od_get rid (sd_requests s)));
  set_req x (fun r => r <| rq_num_computed_tokens ::= Z.add n |>);;
  set_req x (fun r => r <| rq_is_prefill_chunk := rq_num_computed_tokens r <? num_tokens r + rq_num_output_placeholders r |>);;
  r ← get_req x;
  mret (structured || (rq_use_structured_output r && negb (rq_is_prefill_chunk r))).

(** [_update_after_schedule] of [AsyncScheduler], for one request. *)
Definition placehold_request (spec : list (string * list Z)) (pending : bool) (rid : string) : sm bool :=
  s ← st_get;
  x ← st_lift (or_raise KeyError (od_get rid (sd_requests s)));
  r ← get_req x;
  if rq_is_prefill_chunk r then mret pending
  else
    set_req x (fun r => r <| rq_num_output_placeholders ::= Z.add (1 + lenZ (default [] (od_get rid spec))) |>
                          <| rq_spec_token_ids := replicate (Z.to_nat (cf_num_spec_tokens (sd_config s))) (-1) |>);;
    mret (pending || (rq_use_structured_output r && (0 <? rq_num_output_placeholders r))).

(** [for a in l: acc = f(acc, a)] *)
Fixpoint st_fold {S A B} (f : B → A → st S B) (b : B) (l : list A) : st S B :=
  match l with [] => mret b | a :: l => b ← f b a; st_fold f b l end.

Definition update_after_schedule (o : SchedulerOutput F E) : sm (SchedulerOutput F E) :=
  structured ← st_fold advance_request (so_has_structured_output_requests o) (so_num_scheduled_tokens o);
  st_modify (fun s => s <| sd_finished_req_ids := ∅ |>);;
  let o := o <| so_has_structured_output_requests := structured |> in
  s ← st_get;
  if cf_async (sd_config s) then
    pending ← st_fold (placehold_request (so_scheduled_spec_decode_tokens o)) (so_pending_structured_output_tokens o)
                (so_num_scheduled_tokens o).*1;
    mret (o <| so_pending_structured_output_tokens := pending |>)
  else mret o.

(** *** [schedule] *)

(** The adapters of the running requests that were scheduled. *)
Definition running_loras : run unit :=
  s ← get_self;
  t ← get_step;
  match cf_max_loras (sd_config s) with
  | None => mret tt
  | Some max_loras =>
      reqs ← self (get_reqs (sp_scheduled_running_reqs t));
      let loras : gset Z := list_to_set (omap (fun r => a ← rq_lora_request r; if 0 <? lora_int_id a then Some (lora_int_id a) else None) reqs) in
      st_assert (Z.of_nat (size loras) <=? max_loras);;
      set_step (fun t => t <| sp_scheduled_loras := loras |>)
  end.

(** What comes before the first loop. *)
Definition begin_schedule : sm Step :=
  s ← st_get;
  let budget := match sd_pause_state s with PAUSED_ALL => 0 | _ => cf_max_num_scheduled_tokens (sd_config s) end in
  on_kv km_new_step_starts;;
  st_when (bool_decide (is_Some (sd_lifecycles s))) (on_lifecycles (expire clock));;
  waiting ← get_reqs (queued SkippedQueue s ++ queued WaitingQueue s);
  running ← get_reqs (sd_running s);
  tokencake ← (if has_scheduling s then now ← tick; on_scheduling (begin_step log1p iter_strings waiting running now) else mret false);
  s ← st_get;
  let prefill := match tokencake, sd_scheduling s with true, Some c => prefill_budget c running budget | _, _ => budget end in
  st_when (cf_offload (sd_config s)) evaluate_pending;;
  s ← st_get;
  let budget := if cf_offload (sd_config s) && match sd_connector s with Some c => cn_has_unpublished c | None => false end then 0 else budget in
  mret (mkStep tokencake budget prefill (cf_max_num_encoder_input_tokens (sd_config s)) 0 [] [] [] [] [] [] [] [] [] ∅
          (create_request_queue (cf_policy (sd_config s))) [] false None).

(** What comes after the loops. *)
Definition finish_schedule (t : Step) : sm (SchedulerOutput F E) :=
  s ← st_get;
  let cfg := sd_config s in
  let total := sumZ snd (sp_num_scheduled_tokens t) in
  st_assert (total <=? cf_max_num_scheduled_tokens cfg);;
  st_assert (0 <=? sp_token_budget t);;
  st_assert (lenZ (sd_running s) <=? cf_max_num_running_reqs cfg);;
  st_assert (lenZ (sp_scheduled_new_reqs t) + lenZ (sp_scheduled_resumed_reqs t) + lenZ (sp_scheduled_running_reqs t) <=? lenZ (sd_running s));;
  common ← match sd_running s with
           | [] => mret (replicate (length (kvc_groups (kc_config (km_coordinator (sd_kv_cache_manager s))))) 0)
           | x :: _ => r ← get_req x; on_kv (km_get_num_common_prefix_blocks (rq_request_id r))
           end;
  let v2 := cf_use_v2_model_runner cfg in
  let new := if v2 then sp_scheduled_new_reqs t ++ sp_scheduled_resumed_reqs t else sp_scheduled_new_reqs t in
  let resumed := if v2 then [] else sp_scheduled_resumed_reqs t in
  new_data ← new_requests_data t v2 new;
  cached ← make_cached_request_data t (sp_scheduled_running_reqs t) resumed;
  st_modify (fun s => s <| sd_prev_step_scheduled_req_ids := list_to_set (sp_num_scheduled_tokens t).*1 |>);;
  zero ← (if cf_needs_kv_cache_zeroing cfg then
            ids ← on_kv km_take_new_block_ids; mret (match ids with [] => None | _ => Some ids end)
          else mret None);
  preempted ← get_reqs (sp_preempted_reqs t);
  freed ← on_enc en_get_freed_mm_hashes;
  s ← st_get;
  let o := mkSchedulerOutput F E new_data cached (sp_num_scheduled_tokens t) total (sp_scheduled_spec_decode_tokens t)
             (sp_scheduled_encoder_inputs t) common (list_to_set (rq_request_id <$> preempted)) (sd_finished_req_ids s) freed zero false false None in
  with_connector (cn_build_connector_meta o);;
  update_after_schedule o.

Definition schedule : sm (SchedulerOutput F E) :=
  t ← begin_schedule;
  t ← (fun s =>
    match (running_loop (length (sd_running s));;
           running_loras;;
           s ← get_self;
           t ← get_step;
           st_when (bool_decide (sp_preempted_reqs t = []) && bool_decide (sd_pause_state s = UNPAUSED)) schedule_waiting) (s, t) with
    | Ok ((s, t), _) => Ok (s, t)
    | Err e => Err e
    end);
  finish_schedule t.

(** ** The output of the model *)

(** The loop of [_update_request_with_output]: the tokens that are kept, and whether the
    request stops. *)
Fixpoint append_tokens x (kept tokens : list Z) : sm (list Z * bool) :=
  match tokens with
  | [] => mret (kept, false)
  | token :: tokens =>
      s ← st_get;
      r ← get_req x;
      r ← st_lift (append_output_token_ids block_hasher [token] r);
      '(r, stopped) ← st_lift (check_stop r (cf_max_model_len (sd_config s)));
      set_req x (fun _ => r);;
      if stopped : bool then mret (kept ++ [token], true) else append_tokens x (kept ++ [token]) tokens
  end.

(** [_update_request_with_output] of [Scheduler] and of [AsyncScheduler]. *)
Definition update_request_with_output x (tokens : list Z) : sm (list Z * bool) :=
  s ← st_get;
  if negb (cf_async (sd_config s)) then append_tokens x [] tokens
  else
    r ← get_req x;
    if 0 <? rq_async_tokens_to_discard r then
      set_req x (fun r => r <| rq_async_tokens_to_discard ::= Z.pred |>);; mret ([], false)
    else
      '(tokens, stopped) ← append_tokens x [] tokens;
      set_req x (fun r => r <| rq_num_output_placeholders ::= fun n => n - lenZ tokens |>);;
      r' ← get_req x;
      st_assert (0 <=? rq_num_output_placeholders r');;
      st_when (bool_decide (rq_status r = RUNNING))
        (r' ← on_kv (km_cache_blocks embeds_digest use_int_hashes r' (rq_num_computed_tokens r' - rq_num_output_placeholders r'));
         set_req x (fun _ => r'));;
      mret (tokens, stopped).

(** What the loop over the scheduled requests carries. *)
Record update_acc := mkUpdateAcc {
  ua_outputs : list (Z * list EngineCoreOutput);
  ua_stopped_running : gset Z;
  ua_stopped_preempted : gset Z;
}.
#[local] Instance update_acc_settable : Settable update_acc := mk_settable _
  (fun a => mkUpdateAcc (ua_outputs a) (ua_stopped_running a) (ua_stopped_preempted a)).

Definition add_output (client_index : Z) (out : EngineCoreOutput) (d : list (Z * list EngineCoreOutput)) : list (Z * list EngineCoreOutput) :=
  od_set client_index (default [] (od_get client_index d) ++ [out]) d.

(** Drafts that were rejected are not computed. *)
Definition reject_drafts x (drafts : option (list Z)) (generated : list Z) : sm unit :=
  match drafts, generated with
  | Some (d :: drafts), _ :: _ =>
      let rejected := lenZ (d :: drafts) - (lenZ generated - 1) in
      set_req x (fun r => if 0 <? rq_num_computed_tokens r then r <| rq_num_computed_tokens ::= fun n => n - rejected |> else r);;
      set_req x (fun r => if 0 <? rq_num_output_placeholders r then r <| rq_num_output_placeholders ::= fun n => n - rejected |> else r)
  | _, _ => mret tt
  end.

(** The grammar of the request takes the new tokens. *)
Definition advance_grammar x (tokens : list Z) (stopped : bool) : sm bool :=
  r ← get_req x;
  s ← st_get;
  match tokens with
  | [] => mret stopped
  | _ :: _ =>
      if so_should_advance r (sd_grammars s) then
        st_assert (rq_use_structured_output r && rq_grammar r);;
        let '(g, accepted) := so_accept_tokens (F := F) (E := E) (rq_request_id r) tokens (sd_grammars s) in
        st_modify (fun s => s <| sd_grammars := g |>);;
        if accepted : bool then mret stopped
        else set_req x (fun r => r <| rq_status := FINISHED_ERROR |> <| rq_resumable := false |>);; mret true
      else mret stopped
  end.

(** The end of a request that stopped: the reason, taken before a session goes on. *)
Definition stop_request x (status_before : RequestStatus) (acc : update_acc) : sm (option FinishReason * update_acc) :=
  r ← get_req x;
  finished ← handle_stopped_request x;
  (if finished : bool then _ ← free_request x false; mret tt else mret tt);;
  mret (get_finished_reason (rq_status r),
        if bool_decide (status_before = RUNNING) then acc <| ua_stopped_running ::= union {[x]} |>
        else acc <| ua_stopped_preempted ::= union {[x]} |>).

(** One scheduled request. *)
Definition update_one (o : SchedulerOutput F E) (m : ModelRunnerOutput) (failed : gset string) (acc : update_acc) (item : string * Z)
    : sm update_acc :=
  let '(rid, n) := item in
  st_assert (0 <? n);;
  s ← st_get;
  if bool_decide (rid ∈ failed) then mret acc
  else
    match req_of s rid with
    | None => mret acc
    | Some r =>
        if is_finished r then mret acc
        else
          let x := rq_oid r in
          index ← st_lift (or_raise KeyError (mo_req_id_to_index m !! rid));
          generated ← st_lift (match mo_sampled_token_ids m with [] => Ok [] | l => py_index l index end);
          reject_drafts x (od_get rid (so_scheduled_spec_decode_tokens o)) generated;;
          r ← get_req x;
          st_when (has_encoder_inputs r) (on_enc (free_encoder_inputs iter_ints r));;
          pooled ← st_lift (match mo_pooler_output m with [] => Ok false | l => py_index l index end);
          '(tokens, stopped) ←
            match generated with
            | _ :: _ => update_request_with_output x generated
            | [] =>
                if bool_decide (is_Some (rq_pooling_params r)) && pooled
                then set_req x (fun r => r <| rq_status := FINISHED_STOPPED |>);; mret ([], true)
                else mret ([], false)
            end;
          stopped ← advance_grammar x tokens stopped;
          '(reason, acc) ← (if stopped : bool then stop_request x (rq_status r) acc else mret (None, acc));
          r ← get_req x;
          if negb (bool_decide (tokens = [])) || pooled || stopped then
            set_req x (fun r => r <| rq_prefill_stats := None |>);;
            mret (acc <| ua_outputs ::= add_output (rq_client_index r)
                           (mkEngineOutput rid tokens reason pooled (rq_stop_reason r) (rq_prefill_stats r)) |>)
          else mret acc
    end.

(** The requests whose blocks failed to load, when such failures are not recomputed. *)
Definition fail_loads (failed : gset string) (outputs : list (Z * list EngineCoreOutput)) : sm (list (Z * list EngineCoreOutput)) :=
  s ← st_get;
  if bool_decide (failed = ∅) || cf_recompute_kv_load_failures (sd_config s) then mret outputs
  else
    xs ← st_lift (mapM (fun rid => or_raise KeyError (od_get rid (sd_requests s))) (iter_strings failed));
    _ ← finish_requests (FinishSet failed) FINISHED_ERROR;
    reqs ← get_reqs xs;
    mret (foldl (fun d r => add_output (rq_client_index r)
            (mkEngineOutput (rq_request_id r) [] (get_finished_reason (rq_status r)) false None None) d) outputs reqs).

(** The outputs of each client, with the requests finished since the last ones. *)
Definition client_outputs (outputs : list (Z * list EngineCoreOutput)) (finished : option (list (Z * gset string)))
    : list (Z * (list EngineCoreOutput * gset string)) :=
  let d := (fun '(client, outs) => (client, (outs, ∅))) <$> outputs in
  foldl (fun d '(client, rids) =>
    match od_get client d with
    | Some (outs, _) => od_set client (outs, rids) d
    | None => od_set client ([], rids) d
    end) d (default [] finished).

Definition update_from_output (o : SchedulerOutput F E) (m : ModelRunnerOutput) : sm (list (Z * (list EngineCoreOutput * gset string))) :=
  failed ← match mo_kv_connector_output m with
           | Some k => if bool_decide (ko_invalid_block_ids k = ∅) then mret ∅
                       else handle_invalid_blocks (ko_invalid_block_ids k) (so_num_scheduled_tokens o)
           | None => mret ∅
           end;
  s ← st_get;
  st_when (has_scheduling s)
    (on_scheduling (executed (zip (cd_req_ids (so_scheduled_cached_reqs o)) (cd_num_computed_tokens (so_scheduled_cached_reqs o)))
       ((fun d => (nd_req_id d, nd_num_computed_tokens d)) <$> so_scheduled_new_reqs o) (so_num_scheduled_tokens o)
       (dom (mo_req_id_to_index m)) failed));;
  acc ← st_fold (update_one o m failed) (mkUpdateAcc [] ∅ ∅) (so_num_scheduled_tokens o);
  st_modify (fun s => s <| sd_running ::= fun l => remove_all l (ua_stopped_running acc) |>);;
  st_when (negb (bool_decide (ua_stopped_preempted acc = ∅)))
    (on_queue WaitingQueue (fun lt l => Ok (remove_requests lt (elements (ua_stopped_preempted acc)) l)));;
  outputs ← fail_loads failed (ua_outputs acc);
  (match mo_kv_connector_output m with Some k => update_from_kv_xfer_finished k | None => mret tt end);;
  _ ← on_kv (km_take_events);
  s ← st_get;
  let result := client_outputs outputs (sd_finished_req_ids_dict s) in
  st_modify (fun s => s <| sd_finished_req_ids_dict ::= fmap (M := option) (fun _ => []) |>);;
  _ ← on_kv make_prefix_cache_stats;
  mret result.

(** ** Drafts *)

Definition update_draft (item : string * list Z) : sm unit :=
  let '(rid, tokens) := item in
  s ← st_get;
  match req_of s rid with
  | None => mret tt
  | Some r =>
      if is_finished r then mret tt
      else if rq_is_prefill_chunk r then set_req (rq_oid r) (fun r => r <| rq_spec_token_ids := [] |>)
      else
        let tokens := if so_should_advance r (sd_grammars s) then so_validate_tokens (F := F) (E := E) rid tokens (sd_grammars s) else tokens in
        set_req (rq_oid r) (fun r => r <| rq_spec_token_ids := tokens |>)
  end.
Definition update_draft_token_ids (drafts : list (string * list Z)) : sm unit := st_iter update_draft drafts.

(** The drafts of one request, cut to the scheduled number and filled up with -1. *)
Definition fill_draft (s : scheduler) (acc : list (string * list Z) * list (string * Z)) (item : string * list Z)
    : list (string * list Z) * list (string * Z) :=
  let '(sched, invalid) := acc in
  let '(rid, tokens) := item in
  match req_of s rid with
  | None => acc
  | Some r =>
      if is_finished r then acc
      else
        match od_get rid sched with
        | None | Some [] => acc
        | Some placeholders =>
            let tokens := take (length placeholders) tokens in
            let tokens := if so_should_advance r (sd_grammars s) then so_validate_tokens (F := F) (E := E) rid tokens (sd_grammars s) else tokens in
            let missing := lenZ placeholders - lenZ tokens in
            if missing =? 0 then (od_set rid tokens sched, invalid)
            else (od_set rid (tokens ++ replicate (Z.to_nat missing) (-1)) sched, od_set rid missing invalid)
        end
  end.
Definition update_draft_token_ids_in_output (drafts : list (string * list Z)) (o : SchedulerOutput F E) : sm (SchedulerOutput F E) :=
  s ← st_get;
  let '(sched, invalid) := foldl (fill_draft s) (so_scheduled_spec_decode_tokens o, []) drafts in
  mret (o <| so_scheduled_spec_decode_tokens := sched |> <| so_num_invalid_spec_tokens := Some invalid |>).

(** ** Other operations *)

Definition get_request_counts (s : scheduler) : Z * Z :=
  (lenZ (sd_running s), queue_len (sd_waiting s) + queue_len (sd_skipped_waiting s)).

Definition get_num_unfinished_requests (s : scheduler) : Z :=
  match sd_pause_state s with
  | PAUSED_ALL => 0
  | PAUSED_NEW => lenZ (sd_running s)
  | UNPAUSED => queue_len (sd_waiting s) + queue_len (sd_skipped_waiting s) - sd_num_waiting_for_streaming_input s + lenZ (sd_running s)
  end.

Definition has_finished_requests (s : scheduler) : bool :=
  (cf_offload (sd_config s) && match sd_connector s with Some c => cn_has_pending_work c | None => false end) ||
  match sd_lifecycles s with Some g => has_pending_evaluation g | None => false end ||
  negb (bool_decide (sd_finished_req_ids s = ∅)) ||
  (bool_decide (is_Some (sd_connector s)) &&
   (queue_len (sd_waiting s) + queue_len (sd_skipped_waiting s) + lenZ (sd_running s) <? lenZ (sd_requests s))).

Definition set_pause_state (p : PauseState) : sm unit := st_modify (fun s => s <| sd_pause_state := p |>).

(** The [while self.running] loop of [reset_prefix_cache]. *)
Fixpoint preempt_all (fuel : nat) : sm unit :=
  s ← st_get;
  match last (sd_running s) with
  | None => mret tt
  | Some x =>
      match fuel with
      | O => st_raise OutOfFuel
      | S fuel =>
          st_modify (fun s => s <| sd_running ::= fun l => take (length l - 1) l |>);;
          preempt_request x false;;
          set_req x (fun r => r <| rq_async_tokens_to_discard := rq_num_output_placeholders r |>);;
          set_req x (fun r => r <| rq_num_output_placeholders := 0 |>);;
          preempt_all fuel
      end
  end.

Definition reset_connector_cache : sm bool :=
  s ← st_get;
  match sd_connector s with
  | None => mret false
  | Some _ => done ← on_connector (fun c => Ok (cn_reset_cache (F := F) (E := E) c)); mret (match done with Some false => false | _ => true end)
  end.

Definition scheduler_reset_prefix_cache (reset_running_requests reset_connector : bool) : sm bool :=
  s ← st_get;
  st_when reset_running_requests
    (preempt_all (length (sd_running s));; st_modify (fun s => s <| sd_prev_step_scheduled_req_ids := ∅ |>));;
  done ← on_kv km_reset_prefix_cache;
  st_when (done && bool_decide (is_Some (sd_lifecycles s))) (on_lifecycles invalidate_snapshots);;
  st_when (reset_running_requests && negb done) (st_raise RuntimeError);;
  if reset_connector then ok ← reset_connector_cache; mret (ok && done) else mret done.

Definition reset_encoder_cache : sm unit := on_enc en_reset.

(** The requests whose grammars mask the next tokens. *)
Definition get_grammar_bitmask (o : SchedulerOutput F E) (s : scheduler) : option (list string) :=
  if negb (so_has_structured_output_requests o) then None
  else
    match filter (fun rid => from_option (fun r => rq_use_structured_output r && negb (rq_is_prefill_chunk r)) false (req_of s rid) = true)
            (so_num_scheduled_tokens o).*1 with
    | [] => None
    | l => Some l
    end.

End scheduler.
