(* ===== verification/SchedulerRuns.v ===== *)
(** * Runs of the scheduler

    An engine around the scheduler of [Scheduler.v]: steps of scheduling, each followed
    by the output of a model that samples one token for every request whose scheduled
    tokens reach its last one.  The runs below are whole executions, evaluated by the
    kernel, that show where the code does not do what it means to. *)

From stdpp Require Import pretty.
From S2P Require Import Prelude PyFloat Metrics Protocol CachePolicy OffloadManager Lifecycle Request BlockHash FreeQueue BlockPool SingleType KVManager.
From S2P Require Import Scheduling RequestQueue EncoderCache Scheduler.

(** ** The positions a step computes *)

Section positions.
Context {F E : Type}.

(** The positions of the request that the workers compute for an output: they start at
    the number of computed tokens that the output states for it. *)
Definition step_positions (o : SchedulerOutput F E) (rid : string) : list Z :=
  let starts := ((fun d => (nd_req_id d, nd_num_computed_tokens d)) <$> so_scheduled_new_reqs o) ++
                zip (cd_req_ids (so_scheduled_cached_reqs o)) (cd_num_computed_tokens (so_scheduled_cached_reqs o)) in
  match od_get rid starts, od_get rid (so_num_scheduled_tokens o) with
  | Some start, Some n => seqZ start n
  | _, _ => []
  end.

End positions.

(** ** The engine *)

#[local] Instance no_connector : KVConnector b64 unit unit := {
  cn_on_new_request _ c := c;
  cn_get_num_new_matched_tokens _ _ c := Ok (c, (Some 0, false));
  cn_update_state_after_alloc _ _ _ c := Ok c;
  cn_build_connector_meta _ c := Ok c;
  cn_update_connector_output _ c := Ok c;
  cn_request_finished _ _ c := Ok (c, (false, None));
  cn_reset_cache c := (c, Some true);
  cn_has_unpublished _ := false;
  cn_has_pending_work _ := false;
  cn_estimate_recompute_tokens _ _ := 0;
}.
#[local] Instance no_grammar : StructuredOutput b64 unit unit := {
  so_should_advance _ _ := false;
  so_accept_tokens _ _ g := (g, true);
  so_validate_tokens _ tokens _ := tokens;
}.

Notation engine := (Scheduler b64 unit lru unit unit).

(** Two names for the parameters that the runs do not use. *)
Definition rn_digest (e : unit) (a b : Z) : string := EmptyString.
Definition rn_hash (x : string * list Z * option (list extra_key)) : string := x.1.1 +:+ String.concat "," (pretty <$> x.1.2) +:+ ";".
Definition rn_hasher : option (Request b64 unit → res (Request b64 unit * list string)) := Some (request_block_hasher rn_digest rn_hash "none" 4).
Definition rn_clock (n : nat) : b64 := flt (Z.of_nat n).
Definition rn_settled : res (OffloadConfig b64) := validate_offload [].
Definition rn_offload : OffloadConfig b64 := from_ok rn_settled ltac:(vm_compute; reflexivity).

Definition rn_schedule : st engine (SchedulerOutput b64 unit) :=
  schedule rn_digest false (fun x => Ok x) elements elements rn_clock None (mret tt).

(** What the model samples: a token for each request whose prefill is complete. *)
Definition rn_sampled (token : Z) (s : engine) (item : string * Z) : list Z :=
  match req_of s item.1 with
  | Some r => if rq_is_prefill_chunk r || bool_decide (is_Some (rq_pooling_params r)) then [] else [token]
  | None => []
  end.
Definition rn_model (token : Z) (s : engine) (o : SchedulerOutput b64 unit) : ModelRunnerOutput :=
  let items := so_num_scheduled_tokens o in
  mkModelOutput (list_to_map (zip items.*1 (seqZ 0 (lenZ items)))) (rn_sampled token s <$> items) [] None.

(** A step of the engine; the output of the scheduler is the record of what ran. *)
Definition rn_step (token : Z) : st engine (SchedulerOutput b64 unit) :=
  o ← rn_schedule;
  s ← st_get;
  _ ← update_from_output rn_digest false rn_hasher elements elements rn_offload rn_clock o (rn_model token s o);
  mret o.
Definition rn_add (r : res (Request b64 unit)) : st engine unit :=
  r ← st_lift r;
  scheduler_add_request rn_hasher elements elements rn_offload rn_clock r.

Definition rn_kv (num_blocks max_model_len : Z) : res KVCacheManager :=
  kv_cache_manager_init (mkKVConfig num_blocks [mkGroup (mkSpec (FullAttentionSpec FullPlain) 4 0) false]) max_model_len 4 None true false true false 1 1 false.
Definition rn_settings (policy : SchedulingPolicy) (max_model_len threshold : Z) : SchedulerConfig :=
  mkSchedulerConfig policy 4 16 max_model_len threshold true false None false 0 0 4 false false false false false false 0 false true false.
Definition rn_start (policy : SchedulingPolicy) (num_blocks max_model_len threshold : Z) : res engine :=
  kv ← rn_kv num_blocks max_model_len;
  Ok (scheduler_init (rn_settings policy max_model_len threshold) kv (CacheManager (encoder_cache_init 0)) None None None tt false).

Definition rn_sampling (max_tokens : Z) : SamplingParams b64 := mkSamplingParams b64 (Some max_tokens) 0 None [] None None None None.
Definition rn_request (oid : Z) (rid : string) (priority : Z) (sp : option (SamplingParams b64)) (pp : option PoolingParams) (tokens : list Z)
    (resumable : bool) : res (Request b64 unit) :=
  request_init (fun _ => 0) rn_hasher oid rid 0 priority sp pp (flt oid) (Some tokens) None None None None resumable false.

(** ** A request preempted in the step that scheduled it *)

(** A long prompt [b] is computed in chunks; a request [a] of better priority arrives and
    takes its blocks. *)
Definition rn_preempted : res (list (SchedulerOutput b64 unit)) :=
  s ← rn_start PRIORITY 8 32 8;
  '(_, outs) ← (rn_add (rn_request 1 "b" 1 (Some (rn_sampling 4)) None (seqZ 100 25) false);;
                o1 ← rn_step 7;
                rn_add (rn_request 2 "a" 0 (Some (rn_sampling 2)) None (seqZ 200 4) false);;
                o2 ← rn_step 7;
                o3 ← rn_step 7;
                o4 ← rn_step 7;
                mret [o1; o2; o3; o4]) s;
  Ok outs.

(** C38. Blocks enter the prefix cache when they are allocated, before the step computes
    them.  When a request is scheduled and then preempted in the same step, which the
    priority policy does, its blocks are freed with their hashes.  In this run the
    request [b] computes the positions below 16 only, and resumes at position 20: four
    positions are taken from blocks that nothing was ever written to. *)
Theorem preempted_prefix_trusted :
  ∃ o1 o2 o3 o4, rn_preempted = Ok [o1; o2; o3; o4] ∧
    (∀ p, p ∈ step_positions o1 "b" ++ step_positions o2 "b" ++ step_positions o3 "b" → p < 16) ∧
    so_preempted_req_ids o3 = {["b"]} ∧ step_positions o4 "b" = [20; 21; 22; 23; 24].
Proof.
  eexists _, _, _, _. split; [vm_compute; reflexivity|]. split_and!; [|vm_compute; reflexivity..].
  apply Forall_forall. vm_compute. repeat (constructor; [reflexivity|]). constructor.
Qed.

(** ** A session that goes on *)

(** The session [s] generates two tokens, the second of which ends a block and is
    dropped when the next input arrives; the prompt of [q] contains it. *)
Definition rn_session : res (engine * list (SchedulerOutput b64 unit)) :=
  s ← rn_start FCFS 8 32 0;
  (rn_add (rn_request 1 "s" 0 (Some (rn_sampling 2)) None (seqZ 100 6) true);;
   o1 ← rn_step 7;
   o2 ← rn_step 7;
   rn_add (rn_request 2 "s" 0 (Some (rn_sampling 2)) None [50; 51] true);;
   o3 ← rn_step 8;
   rn_add (rn_request 3 "q" 0 (Some (rn_sampling 2)) None (seqZ 100 6 ++ [7; 7; 1]) false);;
   o4 ← rn_step 8;
   mret [o1; o2; o3; o4]) s.

(** C39. When a session takes its next input, its last sampled token is dropped but the
    hash of the block that this token completed is kept, so the block is cached under
    the tokens it does not hold.  In this run a request [q] is given the first two
    blocks of the session as computed, whose last position was computed for the token
    50, while its prompt has 7 there. *)
Theorem session_stale_hash :
  ∃ s o1 o2 o3 o4 session q, rn_session = Ok (s, [o1; o2; o3; o4]) ∧
    sd_heap s !! 1 = Some session ∧ sd_heap s !! 3 = Some q ∧
    step_positions o3 "s" = [7; 8] ∧ step_positions o4 "q" = [8] ∧
    take 2 <$> km_get_block_ids (sd_kv_cache_manager s) "q" = take 2 <$> km_get_block_ids (sd_kv_cache_manager s) "s" ∧
    rq_all_token_ids session !! 7%nat = Some 50 ∧ rq_all_token_ids q !! 7%nat = Some 7.
Proof.
  eexists _, _, _, _, _, _, _. split; [vm_compute; reflexivity|]. split_and!; vm_compute; reflexivity.
Qed.

(** ** A pooling request as long as the model allows *)

Definition rn_pooling : res engine :=
  s ← rn_start FCFS 8 16 12;
  '(s, _) ← (rn_add (rn_request 1 "p" 0 None (Some (mkPoolingParams None)) (seqZ 100 16) false);; mapM rn_step [0; 0; 0]) s;
  Ok s.
Definition rn_stuck : engine := from_ok rn_pooling ltac:(vm_compute; reflexivity).

(** C40. The running loop schedules positions below [max_model_len - 1] only, which is
    meant for drafts.  A pooling request whose prompt has [max_model_len] tokens, which
    is accepted, and is computed in chunks, never gets its last token scheduled: from
    the state of this run every further step succeeds, schedules nothing, and leaves
    the request running with one token to compute, however many steps are taken. *)
Theorem pooling_never_finishes (tokens : list Z) :
  ∃ s outs, mapM rn_step tokens rn_stuck = Ok (s, outs) ∧
    (∀ o, o ∈ outs → so_num_scheduled_tokens o = []) ∧ sd_running s = [1] ∧
    ∃ r, sd_heap s !! 1 = Some r ∧ rq_status r = RUNNING ∧ rq_num_computed_tokens r = 15 ∧ num_tokens r = 16.
Proof.
  assert (∀ token, ∃ o, rn_step token rn_stuck = Ok (rn_stuck, o) ∧ so_num_scheduled_tokens o = []) as Hstep.
  { intros token. eexists. split; vm_compute; reflexivity. }
  exists rn_stuck. induction tokens as [|token tokens (outs & He & Hout & Hs)].
  - exists []. split; [done|]. split; [by intros o ?%elem_of_nil|]. split; [vm_compute; reflexivity|].
    eexists. split; [vm_compute; reflexivity|]. split_and!; vm_compute; reflexivity.
  - destruct (Hstep token) as (o & Ho & Hn). exists (o :: outs). split; [cbn [mapM]; st_step Ho; by st_step He|].
    split; [|exact Hs]. intros o' [->|Hin]%elem_of_cons; [exact Hn|by apply Hout].
Qed.
