(* ===== verification/SchedulerCore.v ===== *)
(** * The scheduler without its extensions: the invariant

    What the operations of [Scheduler.v] keep in a scheduler of text and multi-modal
    requests over one group of full attention, without a KV connector, agent
    scheduling, drafts, adapters and sessions: [world] says where each request is and
    which blocks it holds.  The steps and the updates are in the files that follow. *)

From S2P Require Import Prelude PyFloat Metrics Protocol CachePolicy OffloadManager Lifecycle Request BlockHash FreeQueue BlockPool BlockPoolThms.
From S2P Require Import SingleType KVManager KVManagerThms CacheHitThms Scheduling SchedulingThms RequestQueue EncoderCache EncoderCacheThms Scheduler.

(** ** What a computation returns *)

Definition yields {S A} (Q : A → Prop) (m : st S A) : Prop := ∀ s s' a, m s = Ok (s', a) → Q a.

Section yields_lemmas.
Context {S A : Type} (Q : A → Prop).

Lemma yields_ret a : Q a → yields Q (mret a : st S A).
Proof. by intros HQ s s' a' [= _ <-]. Qed.
Lemma yields_bind {B} (m : st S B) (f : B → st S A) : (∀ b, yields Q (f b)) → yields Q (m ≫= f).
Proof. intros Hf s s' a (s1 & b & _ & H2)%st_bind_Ok. by eapply Hf. Qed.
Lemma yields_then {B} (R : B → Prop) (m : st S B) (f : B → st S A) : yields R m → (∀ b, R b → yields Q (f b)) → yields Q (m ≫= f).
Proof. intros Hm Hf s s' a (s1 & b & H1 & H2)%st_bind_Ok. eapply Hf; [|done]. by eapply Hm. Qed.
Lemma yields_raise e : yields Q (st_raise e : st S A).
Proof. done. Qed.

End yields_lemmas.

(** ** Dictionaries *)

Section dictionaries.
Context {K V : Type} `{EqDecision K}.
Implicit Types (k : K) (v : V) (d : list (K * V)).

Lemma od_del_perm k v d : od_get k d = Some v → d ≡ₚ (k, v) :: od_del k d.
Proof.
  induction d as [|[k' v'] d IH]; cbn; [done|]. destruct (decide (k' = k)) as [->|Hne]; [by intros [= ->]|]. intros Hg. rewrite (IH Hg) at 1. apply Permutation_swap.
Qed.

End dictionaries.

(** ** Requests whose digests are the only change *)

Section digests.
Context {F E : Type} `{PyFloat F}.
Context (embeds_digest : E → Z → Z → string) (use_int_hashes : bool).
Notation req := (Request F E).
Implicit Types (r : req).

Definition digests_only r r' : Prop := r' = r <| rq_embeds_hashes := rq_embeds_hashes r' |>.

#[global] Instance digests_refl : Reflexive digests_only.
Proof. intros r. by destruct r. Qed.
#[global] Instance digests_trans : Transitive digests_only.
Proof. unfold digests_only. intros r1 r2 r3 H12 H23. rewrite H23, H12. done. Qed.

Lemma digests_set r e : digests_only r (r <| rq_embeds_hashes := e |>).
Proof. done. Qed.

Lemma extra_keys_digests s e i r r' keys i' :
  generate_block_hash_extra_keys embeds_digest s e i r = Ok (r', keys, i') → digests_only r r'.
Proof.
  unfold generate_block_hash_extra_keys. destruct (gen_mm_extra_hash_keys _ _ _ _) as [[mm j]|]; [|done]. cbn [mbind res_bind].
  assert (digests_only r (gen_prompt_embeds_extra_hash_keys embeds_digest s e r).1) as Hd.
  { unfold gen_prompt_embeds_extra_hash_keys. repeat case_match; done. }
  destruct (gen_prompt_embeds_extra_hash_keys embeds_digest s e r) as [r1 ek]. destruct (_ ++ _); by intros [= <- _ _].
Qed.

Lemma event_keys_digests blocks mask bs nc indices i r :
  yields (fun x => digests_only r x.1) (event_keys_loop embeds_digest blocks mask bs nc indices i r).
Proof.
  revert i r; induction indices as [|j indices IH]; intros i r; [by apply yields_ret|]. cbn [event_keys_loop].
  do 2 (apply yields_bind; intros ?). apply yields_bind; intros []; [apply IH|].
  apply (yields_then _ (fun x => digests_only r x.1.1)).
  { intros s s' [[r1 keys] i1]. unfold st_lift. destruct (generate_block_hash_extra_keys _ _ _ _ _) as [[[r2 k2] i2]|] eqn:He; [|done].
    intros [= <- <- <- <-]. by eapply extra_keys_digests. }
  intros [[r1 keys] i1] H1. apply (yields_then _ (fun x => digests_only r1 x.1)); [apply IH|]. intros [r2 rest] H2. apply yields_ret. cbn in *. by etrans.
Qed.

Lemma cache_full_digests r blocks nc nf bs gid mask : yields (digests_only r) (cache_full_blocks embeds_digest use_int_hashes r blocks nc nf bs gid mask).
Proof.
  unfold cache_full_blocks. destruct (_ <=? _); [by apply yields_ret|]. apply yields_bind; intros p. do 4 (apply yields_bind; intros ?).
  destruct (negb _); [by apply yields_ret|]. apply yields_bind; intros parent.
  apply (yields_then _ (fun x => digests_only r x.1)); [apply event_keys_digests|]. intros [r' keys] Hr. apply yields_bind; intros _. by apply yields_ret.
Qed.

Lemma on_pool_yields {A} (Q : A → Prop) (m : pool A) : yields Q m → yields Q (on_pool m).
Proof. intros Hm [p g] s' a. unfold on_pool. cbn. destruct (m p) as [[p' a']|] eqn:He; [|done]. intros [= _ <-]. by eapply Hm. Qed.

Lemma sm_cache_digests r nt al : yields (digests_only r) (sm_cache_blocks embeds_digest use_int_hashes r nt al).
Proof.
  assert (yields (digests_only r) (base_cache_blocks embeds_digest use_int_hashes r nt al)) as Hb.
  { unfold base_cache_blocks. apply yields_bind; intros m. destruct (_ <=? _); [by apply yields_ret|]. do 2 (apply yields_bind; intros ?).
    eapply yields_then; [apply on_pool_yields, cache_full_digests|]. intros r' Hr. apply yields_bind; intros _. by apply yields_ret. }
  unfold sm_cache_blocks. apply yields_bind; intros m. destruct (spec_type_of (sm_spec m)); try done; try by apply yields_ret.
  eapply yields_then; [apply Hb|]. intros r' Hr. do 2 (apply yields_bind; intros ?). by apply yields_ret.
Qed.

Lemma each_cache_digests r nt al ms : yields (fun x => digests_only r x.2) (each_cache embeds_digest use_int_hashes r nt al ms).
Proof.
  revert r; induction ms as [|m ms IH]; intros r; [by apply yields_ret|]. cbn [each_cache].
  apply (yields_then _ (fun x => digests_only r x.2)).
  { intros p p' [m' r']. unfold run_manager. destruct (sm_cache_blocks _ _ _ _ _ _) as [[[p1 m1] r1]|] eqn:He; [|done]. intros [= _ _ <-].
    by apply (sm_cache_digests _ _ _ _ _ _ He). }
  intros [m1 r1] H1. apply (yields_then _ (fun x => digests_only r1 x.2)); [apply IH|]. intros [ms' r2] H2. apply yields_ret. cbn in *. by etrans.
Qed.

Lemma kc_cache_digests r nt : yields (digests_only r) (on_coordinator (kc_cache_blocks embeds_digest use_int_hashes r nt)).
Proof.
  intros k k' r'. unfold on_coordinator, kc_cache_blocks. set (na := match kc_kind _ with Hybrid _ _ _ _ => _ | _ => _ end). destruct na as [n a].
  destruct (each_cache _ _ _ _ _ _ _) as [[p [ms r1]]|] eqn:He; [|done]. intros [= _ <-]. by apply (each_cache_digests _ _ _ _ _ _ _ He).
Qed.

(** The request that [allocate_slots] returns. *)
Lemma slots_digests r nnew nnc ncb nla ext delay enc must :
  yields (fun x => digests_only r x.1) (allocate_slots embeds_digest use_int_hashes r nnew nnc ncb nla ext delay enc must).
Proof.
  unfold allocate_slots. destruct (_ && _); [apply yields_raise|]. apply yields_bind; intros k. apply yields_bind; intros [|]; cbn [negb]; [|by apply yields_ret].
  do 3 (apply yields_bind; intros ?). destruct (_ <? _); [by apply yields_ret|]. do 2 (apply yields_bind; intros ?). destruct (_ || _); [by apply yields_ret|].
  eapply yields_then; [apply kc_cache_digests|]. intros r' Hr. by apply yields_ret.
Qed.

(** The manager keeps its settings. *)
Definition km_fixed (k : KVCacheManager) := (km_max_model_len k, km_enable_caching k, km_log_stats k, km_num_kv_cache_groups k).

Lemma keeps_coordinator {A} (c : coord A) : keeps km_fixed (on_coordinator c).
Proof. intros k k' a. unfold on_coordinator. destruct (c (km_coordinator k)) as [[c' a']|]; [|done]. by intros [= <- _]. Qed.
Lemma slots_fixed r nnew nnc ncb nla ext delay enc must : keeps km_fixed (allocate_slots embeds_digest use_int_hashes r nnew nnc ncb nla ext delay enc must).
Proof.
  unfold allocate_slots. repeat first [ apply keeps_coordinator | apply keeps_ret | apply keeps_get | apply keeps_raise | apply keeps_when
    | apply keeps_bind; [|intros ?] | case_match ].
Qed.
Lemma free_fixed r : keeps km_fixed (km_free r).
Proof. apply keeps_coordinator. Qed.
Lemma lookup_fixed r : keeps km_fixed (get_computed_blocks r).
Proof.
  intros k k' a. unfold get_computed_blocks. rewrite st_bind_get. destruct (_ || _); [by intros [= <- _]|].
  destruct (kc_find_longest_cache_hit _ _ _) as [found|]; [|done]. rewrite (st_bind_lift _ found) by done.
  destruct found as [[bs n]|]; [|by intros [= <- _]]. unfold st_when. destruct (km_log_stats k) eqn:Hl; [|by intros [= <- _]].
  destruct (km_prefix_cache_stats k); [|done]. by intros [= <- _].
Qed.

End digests.

(** ** The requests in a queue, in any order *)

Section members.
Context (lt : Z → Z → bool).
Implicit Types (q : RequestQueue Z) (x : Z) (l h : list Z).

Definition members q : list Z := match q with FCFSRequestQueue l => l | PriorityRequestQueue h => h end.

Lemma heappop_perm h : match h with
  | [] => heappop lt h = Err IndexError
  | x :: _ => ∃ h', heappop lt h = Ok (x, h') ∧ h ≡ₚ x :: h'
  end.
Proof.
  destruct h as [|x h1]; [done|]. unfold heappop. destruct (last (x :: h1)) as [y|] eqn:Hl; [|by apply last_None in Hl]. apply last_Some in Hl as [h2 Hl].
  assert (take (length (x :: h1) - 1) (x :: h1) = h2) as -> by (rewrite Hl, length_app; cbn; rewrite Nat.add_sub; apply take_app_length).
  destruct h2 as [|x' h2]; [injection Hl as -> ->; by exists []|]. injection Hl as -> ->. eexists. split; [done|].
  rewrite siftup_perm, Permutation_app_comm. done.
Qed.

Lemma add_members x q : members (add_request lt x q) ≡ₚ x :: members q ∧ policy_of (add_request lt x q) = policy_of q.
Proof. destruct q; cbn; split; try done; [by rewrite Permutation_app_comm|apply heappush_perm]. Qed.

Lemma prepend_members x q : members (prepend_request lt x q) ≡ₚ x :: members q ∧ policy_of (prepend_request lt x q) = policy_of q.
Proof. destruct q; [done|]. apply add_members. Qed.

Lemma head_members q : members q ≠ [] →
  ∃ x q', peek_request q = Ok x ∧ pop_request lt q = Ok (x, q') ∧ members q ≡ₚ x :: members q' ∧ policy_of q' = policy_of q.
Proof.
  destruct q as [[|x l]|[|x h]]; cbn; try done; intros _.
  - by exists x, (FCFSRequestQueue l).
  - destruct (heappop_perm (x :: h)) as (h' & He & Hp). exists x, (PriorityRequestQueue h'). rewrite He. by split_and!.
Qed.

Lemma iter_members q : queue_iter lt q ≡ₚ members q.
Proof.
  destruct q as [l|h]; [done|]. cbn. remember (length h) as n eqn:Hn. revert h Hn; induction n as [|n IH]; intros h Hn.
  { by destruct h. }
  cbn [pop_all]. pose proof (heappop_perm h) as Hp. destruct h as [|x h1]; [done|]. destruct Hp as (h' & -> & Hp). rewrite Hp. constructor. apply IH.
  apply Permutation_length in Hp. cbn in *. lia.
Qed.

Lemma prepend_all_members q1 q : members (prepend_requests lt q1 q) ≡ₚ members q1 ++ members q ∧ policy_of (prepend_requests lt q1 q) = policy_of q.
Proof.
  destruct q as [l|h]; cbn.
  { split; [|done]. by rewrite reverse_Permutation, (iter_members q1). }
  assert (∀ l q, members (foldl (fun q x => add_request lt x q) q l) ≡ₚ l ++ members q ∧ policy_of (foldl (fun q x => add_request lt x q) q l) = policy_of q) as Hall.
  { clear. induction l as [|x l IH]; intros q; [done|]. cbn. destruct (IH (add_request lt x q)) as [Hm Hp]. destruct (add_members x q) as [Hm1 Hp1].
    split; [|congruence]. rewrite Hm, Hm1. by rewrite Permutation_middle. }
  rewrite <- (iter_members q1). apply (Hall (queue_iter lt q1) (PriorityRequestQueue h)).
Qed.

Lemma remove_all_members l q : members (remove_requests lt l q) ≡ₚ filter (fun x => x ∉ l) (members q) ∧ policy_of (remove_requests lt l q) = policy_of q.
Proof. destruct q; cbn; [done|]. split; [apply heapify_perm|done]. Qed.

Lemma len_members q : queue_len q = lenZ (members q).
Proof. by destruct q. Qed.
Lemma bool_members q : queue_bool q = true ↔ members q ≠ [].
Proof. unfold queue_bool. rewrite len_members. destruct (members q); cbn; [done|]. split; [done|]. intros _. apply Z.ltb_lt. lia. Qed.
Lemma bool_members_false q : queue_bool q = false ↔ members q = [].
Proof. unfold queue_bool. rewrite len_members. destruct (members q); cbn; [done|]. split; [|done]. intros ?%Z.ltb_ge. lia. Qed.

End members.

(** ** The hashes of the requests *)

(** What the scheduler relies on: a request that is hashed has distinct hashes for its
    full blocks, stays so when it changes otherwise, and can be extended. *)
Class RequestHashes {F E : Type} (block_hasher : option (Request F E → res (Request F E * list string))) (block_size : Z) (caching : bool) := {
  hash_ok : Request F E → Prop;
  hash_ok_same : ∀ r r', hash_ok r → same_hash_inputs r r' → hash_ok r';
  hash_ok_distinct : ∀ r, hash_ok r → NoDup (rq_block_hashes r);
  hash_ok_full : ∀ r, hash_ok r → caching = true → num_tokens r / block_size <= lenZ (rq_block_hashes r);
  hash_ok_append : ∀ r token, hash_ok r → ∃ hs e, let r' := r <| rq_output_token_ids ::= fun l => l ++ [token] |>
      <| rq_all_token_ids ::= fun l => l ++ [token] |> <| rq_block_hashes := hs |> <| rq_embeds_hashes := e |> in
    append_output_token_ids block_hasher [token] r = Ok r' ∧ hash_ok r';
}.

(** Without prefix caching there are no hashes. *)
#[global] Program Instance unhashed_requests {F E : Type} block_size : RequestHashes (F := F) (E := E) None block_size false :=
  {| hash_ok r := rq_block_hashes r = [] |}.
Next Obligation. intros F E bs r r' Hr [_ ->]. done. Qed.
Next Obligation. intros F E bs r ->. apply NoDup_nil_2. Qed.
Next Obligation. done. Qed.
Next Obligation. intros F E bs r token Hr. exists (rq_block_hashes r), (rq_embeds_hashes r). by destruct r. Qed.

(** The hasher of the engine, with a collision-free hash function. *)
Section hashed.
Context {F E : Type} `{PyFloat F}.
Context (embeds_digest : E → Z → Z → string).
Context (hash_function : string * list Z * option (list extra_key) → string) (NONE_HASH : string) `{!CollisionFree hash_function NONE_HASH}.
Context (block_size : Z) (Hbs : 0 < block_size) (caching : bool).
Notation hasher := (request_block_hasher (F := F) embeds_digest hash_function NONE_HASH block_size).
Notation hashed := (BlockHash.hashed (F := F) (E := E) hash_function NONE_HASH block_size).
Implicit Types (r : Request F E).

Lemma hash_loop_digests fuel start i prev r r' hs :
  hash_loop embeds_digest hash_function NONE_HASH fuel block_size start i prev r = Ok (Some (r', hs)) → digests_only r r'.
Proof.
  revert start i prev r r' hs; induction fuel as [|fuel IH]; intros start i prev r r' hs; [done|]. cbn [hash_loop].
  destruct (_ <? _); [by intros [= <- _]|]. destruct (generate_block_hash_extra_keys _ _ _ _ _) as [[[r1 keys] i1]|] eqn:Hg; [|done]. cbn [mbind res_bind].
  destruct (hash_loop _ _ _ _ _ _ _ _ _) as [[[r2 hs2]|]|] eqn:Hl; [|done..]. cbn [mbind res_bind]. intros [= <- _].
  etrans; [by eapply extra_keys_digests|by eapply IH].
Qed.

Lemma hasher_digests r r' hs : hasher r = Ok (r', hs) → digests_only r r'.
Proof.
  unfold request_block_hasher. destruct (_ <? _); [by intros [= <- _]|]. destruct (hash_loop _ _ _ _ _ _ _ _ _) as [[[r1 hs1]|]|] eqn:Hl; [|done..].
  intros [= <- _]. by eapply hash_loop_digests.
Qed.

Lemma hashed_distinct r : hashed r → NoDup (rq_block_hashes r).
Proof.
  intros [Hc _]. apply NoDup_alt. intros i j h Hi Hj.
  by destruct (chain_injective hash_function NONE_HASH block_size Hbs _ _ _ _ i j h Hc Hc Hi Hj).
Qed.

Lemma hashed_append r token : hashed r → ∃ hs e, let r' := r <| rq_output_token_ids ::= fun l => l ++ [token] |>
    <| rq_all_token_ids ::= fun l => l ++ [token] |> <| rq_block_hashes := hs |> <| rq_embeds_hashes := e |> in
  append_output_token_ids (Some hasher) [token] r = Ok r' ∧ hashed r'.
Proof.
  intros Hr. apply (hashed_chained hash_function NONE_HASH block_size Hbs) in Hr as [Hc Hl]. unfold append_output_token_ids.
  set (r0 := r <| rq_output_token_ids ::= _ |> <| rq_all_token_ids ::= _ |>).
  destruct (update_block_hashes_spec embeds_digest hash_function NONE_HASH block_size Hbs r0) as (r2 & Heq & Hok & _).
  { split; [by apply chain_from_tokens|]. unfold r0, num_tokens in *. cbn. rewrite length_app. lia. }
  exists (rq_block_hashes r2), (rq_embeds_hashes r2). cbn zeta. fold r0.
  enough (r2 = r0 <| rq_block_hashes := rq_block_hashes r2 |> <| rq_embeds_hashes := rq_embeds_hashes r2 |>) as H2 by (rewrite <- H2; done).
  unfold update_block_hashes in Heq. destruct (hasher r0) as [[r1 hs]|] eqn:Hh; [|done]. injection Heq as <-.
  apply hasher_digests in Hh. rewrite Hh. by destruct r0.
Qed.

#[global] Instance hashed_requests : RequestHashes (Some hasher) block_size caching.
Proof.
  refine {| hash_ok := hashed |}.
  - intros r r' Hr [Ht Hh]. unfold BlockHash.hashed, num_tokens in *. by rewrite Ht, Hh.
  - apply hashed_distinct.
  - intros r [_ ->] _. done.
  - apply hashed_append.
Defined.

End hashed.

(** ** Where the requests are *)

(** Settings without drafts of an asynchronous scheduler, adapters, Mamba layers and
    offloading. *)
Record plain_config (cfg : SchedulerConfig) : Prop := {
  pc_async : cf_async cfg = false;
  pc_loras : cf_max_loras cfg = None;
  pc_mamba : cf_mamba_align cfg = false;
  pc_offload : cf_offload cfg = false;
  pc_lookahead : 0 <= cf_num_lookahead_tokens cfg;
  pc_running : 0 <= cf_max_num_running_reqs cfg;
  pc_tokens : 0 <= cf_max_num_scheduled_tokens cfg;
  pc_inputs : 0 <= cf_max_num_encoder_input_tokens cfg;
}.

Section world.
Context {F E P C G : Type} `{PyFloat F}.
Context (cfg : SchedulerConfig) (size : string → Z) (capacity bs : Z) (caching : bool).
Context (block_hasher : option (Request F E → res (Request F E * list string))) `{!RequestHashes block_hasher bs caching}.
Notation scheduler := (Scheduler F E P C G).
Notation req := (Request F E).
Implicit Types (s : scheduler) (r : req) (x y : Z) (rid : string) (act que hole l : list Z) (m : SingleTypeKVCacheManager).

(** A request of the scheduler.  Its output is shorter than the model allows, also when
    a minimal length delays its end. *)
Record req_ok r : Prop := {
  rk_tokens : num_tokens r = rq_num_prompt_tokens r + num_output_tokens r;
  rk_prompt : 0 < rq_num_prompt_tokens r;
  rk_room : num_tokens r < cf_max_model_len cfg;
  rk_params : rq_pooling_params r = None → ∃ sp, rq_sampling_params r = Some sp ∧ rq_num_prompt_tokens r + sp_min_tokens sp <= cf_max_model_len cfg;
  rk_stats : rq_prefill_stats r ≠ None → rq_output_token_ids r = [];
  rk_spec : rq_spec_token_ids r = [];
  rk_placeholders : rq_num_output_placeholders r = 0;
  rk_resumable : rq_resumable r = false;
  rk_inputs : request_ok size r;
  rk_hash : hash_ok (block_hasher := block_hasher) (block_size := bs) (caching := caching) r;
  rk_grammar : rq_status r = WAITING_FOR_STRUCTURED_OUTPUT_GRAMMAR ∨ (rq_use_structured_output r = true → rq_grammar r = true);
}.

(** What [req_ok] reads of a request, besides its status. *)
Definition req_core r :=
  (rq_all_token_ids r, rq_output_token_ids r, rq_num_prompt_tokens r, rq_pooling_params r, rq_sampling_params r, rq_prefill_stats r, rq_spec_token_ids r,
   rq_num_output_placeholders r, rq_resumable r, rq_mm_features r, rq_block_hashes r, rq_use_structured_output r, rq_grammar r).

Lemma req_ok_eq r r' : req_ok r → req_core r' = req_core r →
  (rq_status r = WAITING_FOR_STRUCTURED_OUTPUT_GRAMMAR → rq_status r' = WAITING_FOR_STRUCTURED_OUTPUT_GRAMMAR ∨ rq_grammar r' = true) → req_ok r'.
Proof.
  intros [] Heq Hg. injection Heq as E1 E2 E3 E4 E5 E6 E7 E8 E9 E10 E11 E12 E13.
  assert (same_hash_inputs r r') as Hs by by split.
  split; unfold num_tokens, num_output_tokens, request_ok, sized, placed in *; rewrite ?E1, ?E2, ?E3, ?E4, ?E5, ?E6, ?E7, ?E8, ?E9, ?E10, ?E12, ?E13; try done.
  - by eapply hash_ok_same.
  - rewrite E13 in Hg. destruct rk_grammar0 as [Hst|Hgr]; [|by right]. destruct (Hg Hst) as [?|?]; [by left|by right].
Qed.

(** A running request holds blocks for the tokens it computed. *)
Definition run_ok m r : Prop :=
  rq_status r = RUNNING ∧ 0 <= rq_num_computed_tokens r <= num_tokens r ∧
  rq_num_computed_tokens r <= lenZ (held m (rq_request_id r)) * bs.

(** A request in a queue starts from nothing. *)
Definition wait_ok r : Prop :=
  (rq_status r = WAITING ∨ rq_status r = Request.PREEMPTED ∨ rq_status r = WAITING_FOR_STRUCTURED_OUTPUT_GRAMMAR) ∧ rq_num_computed_tokens r = 0.

Definition idle m rid : Prop := held m rid = [] ∧ sm_num_cached_block m !! rid = None.

(** The requests are running, [act], in a queue, [que], or between the two, [hole]. *)
Record world s act que hole m l : Prop := {
  w_config : sd_config s = cfg;
  w_plain : sd_connector s = None ∧ sd_scheduling s = None ∧ sd_lifecycles s = None;
  w_enc : ∃ e, sd_encoder_cache_manager s = CacheManager e ∧ ec_wf size capacity e;
  w_kv : km_state (sd_kv_cache_manager s) m l;
  w_spec : is_full (sm_spec m) = true ∧ sm_block_size m = bs ∧ sm_enable_caching m = caching;
  w_len : km_max_model_len (sd_kv_cache_manager s) = cf_max_model_len cfg;
  w_keys : od_wf (sd_requests s);
  w_places : (sd_requests s).*2 ≡ₚ act ++ que ++ hole;
  w_objects : ∀ rid x, (rid, x) ∈ sd_requests s → ∃ r, sd_heap s !! x = Some r ∧ rq_oid r = x ∧ rq_request_id r = rid ∧ req_ok r ∧
    (x ∈ act → run_ok m r) ∧ (x ∈ que → wait_ok r);
  w_idle : ∀ rid, (∀ x, (rid, x) ∈ sd_requests s → x ∈ que) → idle m rid;
}.

(** Objects keep their identity, and a request that ran once does not start anew. *)
Definition started r : Prop := rq_status r = RUNNING ∨ rq_status r = Request.PREEMPTED.
Definition grows r r' : Prop :=
  rq_oid r' = rq_oid r ∧ rq_request_id r' = rq_request_id r ∧ (started r → started r' ∨ is_finished r' = true) ∧
  (is_finished r = true → is_finished r' = true).
Definition evolves s s' : Prop := ∀ x r, sd_heap s !! x = Some r → ∃ r', sd_heap s' !! x = Some r' ∧ grows r r'.

#[global] Instance grows_refl : Reflexive grows.
Proof. intros r. unfold grows. auto. Qed.
#[global] Instance grows_trans : Transitive grows.
Proof. unfold grows. intros r1 r2 r3 (? & ? & Hs1 & ?) (? & ? & Hs2 & ?). split_and!; try congruence; [|by auto]. intros [?|?]%Hs1; auto. Qed.
#[global] Instance evolves_refl : Reflexive evolves.
Proof. intros s x r Hr. by exists r. Qed.
#[global] Instance evolves_trans : Transitive evolves.
Proof. intros s1 s2 s3 H12 H23 x r (r2 & Hr2 & Hg2)%H12. destruct (H23 x r2 Hr2) as (r3 & Hr3 & Hg3). exists r3. split; [done|by etrans]. Qed.

Lemma evolves_heap s s' : sd_heap s' = sd_heap s → evolves s s'.
Proof. intros Heq x r Hr. exists r. by rewrite Heq. Qed.

Lemma world_perm s act que hole m l act' que' :
  world s act que hole m l → act' ≡ₚ act → que' ≡ₚ que → world s act' que' hole m l.
Proof.
  intros [] Ha Hq. split; try done; [by rewrite Ha, Hq| |].
  - intros rid x Hin. destruct (w_objects0 rid x Hin) as (r & Hr & Ho & Hi & Hok & Hrun & Hwait). exists r. split_and!; try done; by rewrite ?Ha, ?Hq.
  - intros rid Hall. apply w_idle0. intros x Hx. rewrite <- Hq. by apply Hall.
Qed.

Lemma world_object s act que hole m l x :
  world s act que hole m l → x ∈ act ++ que ++ hole → ∃ r, sd_heap s !! x = Some r ∧ rq_oid r = x ∧ (rq_request_id r, x) ∈ sd_requests s ∧ req_ok r ∧
    (x ∈ act → run_ok m r) ∧ (x ∈ que → wait_ok r).
Proof.
  intros Hw. rewrite <- (w_places _ _ _ _ _ _ Hw). intros ((rid & x') & -> & Hin)%list_elem_of_fmap. cbn.
  destruct (w_objects _ _ _ _ _ _ Hw rid x' Hin) as (r & Hr & Ho & Hi & Hok & Hrun & Hwait). exists r. rewrite Hi. by split_and!.
Qed.

Lemma world_nodup s act que hole m l : world s act que hole m l → NoDup (act ++ que ++ hole).
Proof.
  intros Hw. rewrite <- (w_places _ _ _ _ _ _ Hw). pose proof (w_keys _ _ _ _ _ _ Hw) as Hk. unfold od_wf in Hk.
  apply NoDup_alt. intros i j x Hi Hj. rewrite !list_lookup_fmap in Hi, Hj.
  destruct (sd_requests s !! i) as [[rid1 x1]|] eqn:Ei; [|done]. destruct (sd_requests s !! j) as [[rid2 x2]|] eqn:Ej; [|done].
  cbn in Hi, Hj. injection Hi as ->. injection Hj as ->. pose proof (w_objects _ _ _ _ _ _ Hw) as Ho.
  destruct (Ho rid1 x) as (r1 & Hr1 & _ & Hi1 & _); [by eapply list_elem_of_lookup_2|].
  destruct (Ho rid2 x) as (r2 & Hr2 & _ & Hi2 & _); [by eapply list_elem_of_lookup_2|].
  rewrite Hr1 in Hr2. injection Hr2 as <-. rewrite Hi1 in Hi2. subst rid2.
  apply (NoDup_lookup _ i j rid1 Hk); rewrite list_lookup_fmap; [by rewrite Ei|by rewrite Ej].
Qed.

(** The object of an identifier. *)
Lemma world_req_of s act que hole m l rid :
  world s act que hole m l → match req_of s rid with
  | Some r => rq_request_id r = rid ∧ sd_heap s !! rq_oid r = Some r ∧ rq_oid r ∈ act ++ que ++ hole ∧ (rid, rq_oid r) ∈ sd_requests s
  | None => rid ∉ (sd_requests s).*1
  end.
Proof.
  intros Hw. unfold req_of. destruct (od_get rid (sd_requests s)) as [x|] eqn:He; [|by apply od_get_None in He]. cbn [mbind option_bind].
  apply od_get_In in He. destruct (w_objects _ _ _ _ _ _ Hw rid x He) as (r & Hr & <- & Hi & _). rewrite Hr. split_and!; try done.
  rewrite <- (w_places _ _ _ _ _ _ Hw). by apply (list_elem_of_fmap_2' snd _ (rid, rq_oid r)).
Qed.

Lemma world_unique s act que hole m l rid x y : world s act que hole m l → (rid, x) ∈ sd_requests s → (rid, y) ∈ sd_requests s → x = y.
Proof.
  intros Hw Hx Hy. pose proof (od_In_get _ _ _ (w_keys _ _ _ _ _ _ Hw) Hx). pose proof (od_In_get _ _ _ (w_keys _ _ _ _ _ _ Hw) Hy). congruence.
Qed.

Lemma world_distinct s act que hole m l x y r q :
  world s act que hole m l → x ∈ act ++ que ++ hole → y ∈ act ++ que ++ hole → sd_heap s !! x = Some r → sd_heap s !! y = Some q → x ≠ y →
  rq_request_id r ≠ rq_request_id q.
Proof.
  intros Hw Hx Hy Hr Hq Hne He. destruct (world_object _ _ _ _ _ _ x Hw Hx) as (r' & Hr' & _ & Hin & _). destruct (world_object _ _ _ _ _ _ y Hw Hy) as (q' & Hq' & _ & Hin' & _).
  rewrite Hr in Hr'. injection Hr' as <-. rewrite Hq in Hq'. injection Hq' as <-. rewrite He in Hin.
  pose proof (od_In_get _ _ _ (w_keys _ _ _ _ _ _ Hw) Hin). pose proof (od_In_get _ _ _ (w_keys _ _ _ _ _ _ Hw) Hin'). congruence.
Qed.

(** What [world] reads of the scheduler. *)
Definition core_of s := (sd_config s, sd_connector s, sd_scheduling s, sd_lifecycles s, sd_encoder_cache_manager s, sd_kv_cache_manager s, sd_requests s, sd_heap s).

Lemma world_eq s s' act que hole m l : world s act que hole m l → core_of s' = core_of s → world s' act que hole m l.
Proof. intros [] [= H1' H2' H3' H4' H5' H6' H7' H8']. split; rewrite ?H1', ?H2', ?H3', ?H4', ?H5', ?H6', ?H7', ?H8'; done. Qed.

(** Opening and closing the hole. *)
Lemma world_open_act s x act que m l : world s (x :: act) que [] m l → world s act que [x] m l.
Proof.
  intros []. split; try done.
  - rewrite w_places0, app_nil_r. rewrite (app_assoc act). symmetry. by rewrite <- Permutation_cons_append.
  - intros rid y Hin. destruct (w_objects0 rid y Hin) as (r & Hr & Ho & Hi & Hok & Hrun & Hwait). exists r. split_and!; try done. intros Hy. apply Hrun. by right.
Qed.

Lemma world_open_que s x act que m l : world s act (x :: que) [] m l → world s act que [x] m l.
Proof.
  intros []. split; try done.
  - rewrite w_places0, app_nil_r. by rewrite <- (Permutation_cons_append que).
  - intros rid y Hin. destruct (w_objects0 rid y Hin) as (r & Hr & Ho & Hi & Hok & Hrun & Hwait). exists r. split_and!; try done. intros Hy. apply Hwait. by right.
  - intros rid Hall. apply w_idle0. intros y Hy. right. by apply Hall.
Qed.

Lemma world_close_act s x act que m l r : world s act que [x] m l → sd_heap s !! x = Some r → run_ok m r → world s (x :: act) que [] m l.
Proof.
  intros [] Hx Hrun. split; try done.
  - rewrite w_places0, app_nil_r, (app_assoc act). symmetry. apply Permutation_cons_append.
  - intros rid y Hin. destruct (w_objects0 rid y Hin) as (q & Hq & Ho & Hi & Hok & Hr & Hwait). exists q. split_and!; try done.
    intros [->|Hy]%elem_of_cons; [|by apply Hr]. congruence.
Qed.

Lemma world_close_que s x act que m l r :
  world s act que [x] m l → sd_heap s !! x = Some r → wait_ok r → idle m (rq_request_id r) → world s act (x :: que) [] m l.
Proof.
  intros [] Hx Hwait Hidle. split; try done.
  - rewrite w_places0, app_nil_r. by rewrite (Permutation_cons_append que).
  - intros rid y Hin. destruct (w_objects0 rid y Hin) as (q & Hq & Ho & Hi & Hok & Hr & Hw). exists q. split_and!; try done.
    intros [->|Hy]%elem_of_cons; [|by apply Hw]. congruence.
  - intros rid Hall. destruct (decide (rid = rq_request_id r)) as [->|Hne]; [done|]. apply w_idle0. intros y Hy.
    specialize (Hall y Hy). apply elem_of_cons in Hall as [->|]; [|done]. destruct (w_objects0 rid x Hy) as (q & Hq & _ & Hi & _). congruence.
Qed.

(** A request changes. *)
Lemma world_set s act que hole m l x r (f : req → req) :
  world s act que hole m l → sd_heap s !! x = Some r → rq_oid (f r) = rq_oid r → rq_request_id (f r) = rq_request_id r → req_ok (f r) →
  (x ∈ act → run_ok m (f r)) → (x ∈ que → wait_ok (f r)) → world (s <| sd_heap ::= alter f x |>) act que hole m l.
Proof.
  intros [] Hx Ho Hi Hok Hrun Hwait. split; try done. intros rid y Hin. cbn. destruct (w_objects0 rid y Hin) as (q & Hq & Hoq & Hiq & Hokq & Hrq & Hwq).
  destruct (decide (x = y)) as [<-|Hne].
  - rewrite Hx in Hq. injection Hq as <-. exists (f r). rewrite lookup_alter_eq, Hx. split_and!; try done; congruence.
  - exists q. rewrite lookup_alter_ne by done. by split_and!.
Qed.

Lemma evolves_set s x r (f : req → req) : sd_heap s !! x = Some r → grows r (f r) → evolves s (s <| sd_heap ::= alter f x |>).
Proof.
  intros Hx Hg y q Hq. cbn. destruct (decide (x = y)) as [<-|Hne].
  - rewrite Hx in Hq. injection Hq as <-. exists (f r). by rewrite lookup_alter_eq, Hx.
  - exists q. by rewrite lookup_alter_ne.
Qed.

(** The blocks of one request change. *)
Lemma world_kv s act que hole m l k' m' l' rid :
  world s act que hole m l → km_state k' m' l' → same_mgr m m' → km_max_model_len k' = km_max_model_len (sd_kv_cache_manager s) →
  (∀ rid', rid' ≠ rid → held m' rid' = held m rid') → cached_kept rid m m' →
  (∀ x r, (rid, x) ∈ sd_requests s → sd_heap s !! x = Some r → x ∉ que ∧ (x ∈ act → run_ok m' r)) → rid ∈ (sd_requests s).*1 →
  world (s <| sd_kv_cache_manager := k' |>) act que hole m' l'.
Proof.
  intros [] Hks (Hs1 & Hs2 & _ & Hs3 & _) Hlen Hoth Hck Hmine Hin. split; cbn; try done; [by rewrite Hs1, Hs2, Hs3|congruence| |].
  - intros rid' x Hx. destruct (w_objects0 rid' x Hx) as (r & Hr & Ho & Hi & Hok & Hrun & Hwait). exists r. split_and!; try done. intros Ha.
    destruct (decide (rid' = rid)) as [->|Hne]; [by apply (Hmine x r Hx Hr)|]. unfold run_ok. rewrite Hi, Hoth by done. rewrite <- Hi. by apply Hrun.
  - intros rid' Hall. destruct (decide (rid' = rid)) as [->|Hne].
    + apply list_elem_of_fmap in Hin as ((rid' & x) & -> & Hx). cbn in *. destruct (w_objects0 rid' x Hx) as (r & Hr & _). destruct (Hmine x r Hx Hr) as [Hn _].
      by destruct Hn; apply Hall.
    + unfold idle. rewrite Hoth, Hck by done. by apply w_idle0.
Qed.

Lemma world_kv_same s act que hole m l k' m' l' :
  world s act que hole m l → km_state k' m' l' → same_mgr m m' → km_max_model_len k' = km_max_model_len (sd_kv_cache_manager s) →
  (∀ rid, held m' rid = held m rid) → sm_num_cached_block m' = sm_num_cached_block m → world (s <| sd_kv_cache_manager := k' |>) act que hole m' l'.
Proof.
  intros [] Hks (Hs1 & Hs2 & _ & Hs3 & _) Hlen Hh Hc. split; cbn; try done; [by rewrite Hs1, Hs2, Hs3|congruence| |].
  - intros rid x Hx. destruct (w_objects0 rid x Hx) as (r & Hr & Ho & Hi & Hok & Hrun & Hwait). exists r. split_and!; try done. intros Ha. unfold run_ok. rewrite Hh. by apply Hrun.
  - intros rid Hall. unfold idle. rewrite Hh, Hc. by apply w_idle0.
Qed.

Lemma world_set_enc s act que hole m l e : world s act que hole m l → ec_wf size capacity e → world (s <| sd_encoder_cache_manager := CacheManager e |>) act que hole m l.
Proof. intros [] He. split; try done. by exists e. Qed.

(** A request leaves. *)
Lemma world_delete s x act que hole m l r :
  world s act que (x :: hole) m l → sd_heap s !! x = Some r → idle m (rq_request_id r) → world (s <| sd_requests ::= od_del (rq_request_id r) |>) act que hole m l.
Proof.
  intros Hw Hx Hidle. destruct (world_object _ _ _ _ _ _ x Hw) as (r' & Hr' & _ & Hin & _); [set_solver|]. rewrite Hx in Hr'. injection Hr' as <-. destruct Hw.
  assert (∀ rid y, (rid, y) ∈ od_del (rq_request_id r) (sd_requests s) ↔ rid ≠ rq_request_id r ∧ (rid, y) ∈ sd_requests s) as Hdel.
  { intros rid y. rewrite (od_del_filter _ _ _ w_keys0 Hin), list_elem_of_filter. split; [|intros [Hne ?]; split; [congruence|done]].
    intros [Hne Hy]. split; [|done]. intros ->. apply Hne. pose proof (od_In_get _ _ _ w_keys0 Hin). pose proof (od_In_get _ _ _ w_keys0 Hy). congruence. }
  split; cbn; try done; [by apply od_wf_del| | |].
  - apply (Permutation_cons_inv (a := x)). rewrite Permutation_middle, (Permutation_middle que), <- w_places0.
    symmetry. apply (fmap_Permutation snd _ _ (od_del_perm _ _ _ (od_In_get _ _ _ w_keys0 Hin))).
  - intros rid y [_ Hy]%Hdel. by apply w_objects0.
  - intros rid Hall. destruct (decide (rid = rq_request_id r)) as [->|Hne]; [done|]. apply w_idle0. intros y Hy. apply Hall. by apply Hdel.
Qed.

(** A request arrives. *)
Lemma world_add s act que m l r :
  world s act que [] m l → rq_request_id r ∉ (sd_requests s).*1 → rq_oid r ∉ (sd_requests s).*2 → req_ok r →
  world (s <| sd_heap ::= insert (rq_oid r) r |> <| sd_requests ::= od_set (rq_request_id r) (rq_oid r) |>) act que [rq_oid r] m l.
Proof.
  intros [] Hid Hoid Hok. split; cbn; try done; [by apply od_wf_set| | |].
  - rewrite od_keys_set_new by done. rewrite fmap_app, w_places0, app_nil_r. cbn. by rewrite <- app_assoc.
  - intros rid x. rewrite od_keys_set_new, elem_of_app, list_elem_of_singleton by done. intros [Hin|[= -> ->]].
    + destruct (w_objects0 rid x Hin) as (q & Hq & Ho & Hi & Hokq & Hrun & Hwait). exists q. rewrite lookup_insert_ne; [by split_and!|].
      intros Heq. apply Hoid. rewrite Heq. by apply (list_elem_of_fmap_2' snd _ (rid, x)).
    + exists r. rewrite lookup_insert_eq.
      split_and!; try done; intros Hin; exfalso; apply Hoid; rewrite w_places0; set_solver.
  - intros rid Hall. apply w_idle0. intros x Hx. apply Hall. rewrite od_keys_set_new by done. apply elem_of_app. by left.
Qed.

End world.

#[global] Arguments w_config {F E P C G cfg size capacity bs caching block_hasher _ s act que hole m l} _.
#[global] Arguments w_plain {F E P C G cfg size capacity bs caching block_hasher _ s act que hole m l} _.
#[global] Arguments w_enc {F E P C G cfg size capacity bs caching block_hasher _ s act que hole m l} _.
#[global] Arguments w_kv {F E P C G cfg size capacity bs caching block_hasher _ s act que hole m l} _.
#[global] Arguments w_spec {F E P C G cfg size capacity bs caching block_hasher _ s act que hole m l} _.
#[global] Arguments w_len {F E P C G cfg size capacity bs caching block_hasher _ s act que hole m l} _.
#[global] Arguments w_keys {F E P C G cfg size capacity bs caching block_hasher _ s act que hole m l} _.
#[global] Arguments w_places {F E P C G cfg size capacity bs caching block_hasher _ s act que hole m l} _.
#[global] Arguments w_objects {F E P C G cfg size capacity bs caching block_hasher _ s act que hole m l} _.
#[global] Arguments w_idle {F E P C G cfg size capacity bs caching block_hasher _ s act que hole m l} _.
#[global] Arguments rk_tokens {F E cfg size bs caching block_hasher _ r} _.
#[global] Arguments rk_prompt {F E cfg size bs caching block_hasher _ r} _.
#[global] Arguments rk_room {F E cfg size bs caching block_hasher _ r} _.
#[global] Arguments rk_params {F E cfg size bs caching block_hasher _ r} _.
#[global] Arguments rk_stats {F E cfg size bs caching block_hasher _ r} _.
#[global] Arguments rk_spec {F E cfg size bs caching block_hasher _ r} _.
#[global] Arguments rk_placeholders {F E cfg size bs caching block_hasher _ r} _.
#[global] Arguments rk_resumable {F E cfg size bs caching block_hasher _ r} _.
#[global] Arguments rk_inputs {F E cfg size bs caching block_hasher _ r} _.
#[global] Arguments rk_hash {F E cfg size bs caching block_hasher _ r} _.
#[global] Arguments rk_grammar {F E cfg size bs caching block_hasher _ r} _.
#[global] Arguments world_perm {F E P C G cfg size capacity bs caching block_hasher _ s act que hole m l} act' que' _ _ _.
#[global] Arguments world_object {F E P C G cfg size capacity bs caching block_hasher _ s act que hole m l} x _ _.
#[global] Arguments world_nodup {F E P C G cfg size capacity bs caching block_hasher _ s act que hole m l} _.
#[global] Arguments world_req_of {F E P C G cfg size capacity bs caching block_hasher _ s act que hole m l} rid _.
#[global] Arguments world_unique {F E P C G cfg size capacity bs caching block_hasher _ s act que hole m l} rid x y _ _ _.
#[global] Arguments world_distinct {F E P C G cfg size capacity bs caching block_hasher _ s act que hole m l} x y r q _ _ _ _ _ _ _.
#[global] Arguments world_eq {F E P C G cfg size capacity bs caching block_hasher _} s s' {act que hole m l} _ _.
#[global] Arguments world_open_act {F E P C G cfg size capacity bs caching block_hasher _ s} x {act que m l} _.
#[global] Arguments world_open_que {F E P C G cfg size capacity bs caching block_hasher _ s} x {act que m l} _.
#[global] Arguments world_close_act {F E P C G cfg size capacity bs caching block_hasher _ s} x {act que m l} r _ _ _.
#[global] Arguments world_close_que {F E P C G cfg size capacity bs caching block_hasher _ s} x {act que m l} r _ _ _ _.
#[global] Arguments world_delete {F E P C G cfg size capacity bs caching block_hasher _ s} x {act que hole m l} r _ _ _.
#[global] Arguments world_set {F E P C G cfg size capacity bs caching block_hasher _ s act que hole m l} x r f _ _ _ _ _ _ _.
#[global] Arguments world_kv {F E P C G cfg size capacity bs caching block_hasher _ s act que hole m l} k' m' l' rid _ _ _ _ _ _ _ _.
#[global] Arguments world_kv_same {F E P C G cfg size capacity bs caching block_hasher _ s act que hole m l} k' m' l' _ _ _ _ _ _.
#[global] Arguments world_set_enc {F E P C G cfg size capacity bs caching block_hasher _ s act que hole m l} e _ _.
#[global] Arguments world_add {F E P C G cfg size capacity bs caching block_hasher _ s} {act que m l} r _ _ _ _.
#[global] Arguments req_ok_eq {F E cfg size bs caching block_hasher _ r} r' _ _ _.
