(* ===== verification/SchedulerStepThms.v ===== *)
(** * A step of the scheduler

    [schedule] from a state where every request is in its place ([world]): no assertion
    fails and no lookup raises, the loops end, and what the step gives out stays
    within its budgets. *)

From S2P Require Import Prelude PyFloat Metrics Protocol CachePolicy OffloadManager Lifecycle Request BlockHash FreeQueue BlockPool BlockPoolThms.
From S2P Require Import SingleType KVManager KVManagerThms CacheHitThms Scheduling SchedulingThms RequestQueue EncoderCache EncoderCacheThms Scheduler SchedulerCore.

(** Membership in a list that is written out. *)
Ltac in_list := rewrite ?elem_of_app, ?elem_of_cons, ?list_elem_of_singleton; auto 8.

(** ** Access to the state *)

Lemma bind_ret {S A B} (a : A) (f : A → st S B) s : (mret a ≫= f) s = f a s.
Proof. done. Qed.

Section access.
Context {F E P C G : Type} `{PyFloat F}.
Notation scheduler := (Scheduler F E P C G).
Notation sm := (st scheduler).
Notation run := (st (scheduler * Step)).
Implicit Types (s : scheduler) (t : Step) (x : Z).

Lemma get_req_eq s x r : sd_heap s !! x = Some r → get_req x s = Ok (s, r).
Proof. intros Hr. unfold get_req. rewrite st_bind_get, Hr. done. Qed.
Lemma get_reqs_eq s l rs : Forall2 (fun x r => sd_heap s !! x = Some r) l rs → get_reqs l s = Ok (s, rs).
Proof.
  induction 1 as [|x r l rs Hr _ IH]; [done|]. unfold get_reqs in *. cbn. st_step (get_req_eq s x r Hr). by st_step IH.
Qed.
Lemma get_reqs_total s xs : (∀ x, x ∈ xs → is_Some (sd_heap s !! x)) → ∃ reqs, get_reqs xs s = Ok (s, reqs).
Proof.
  induction xs as [|x xs IH]; intros Hall; [by exists []|]. destruct IH as (reqs & Hreqs); [intros y Hy; apply Hall; by right|]. destruct (Hall x) as [r Hr]; [by left|].
  exists (r :: reqs). unfold get_reqs in *. cbn. st_step (get_req_eq s x r Hr). by st_step Hreqs.
Qed.
Lemma get_reqs_objects s xs s' reqs : get_reqs xs s = Ok (s', reqs) → Forall2 (fun x r => sd_heap s !! x = Some r) xs reqs.
Proof.
  revert reqs; induction xs as [|x xs IH]; intros reqs; [by intros [= _ <-]|]. unfold get_reqs in *. cbn. intros (s1 & r & Hr & (s2 & rs & Hrs & [= -> <-])%st_bind_Ok)%st_bind_Ok.
  unfold get_req in Hr. rewrite st_bind_get in Hr. destruct (sd_heap s !! x) as [r'|] eqn:He; [|done]. injection Hr as <- <-. constructor; [done|]. by apply IH.
Qed.
Lemma on_kv_eq {A} (c : kvm A) s k' a : c (sd_kv_cache_manager s) = Ok (k', a) → on_kv c s = Ok (s <| sd_kv_cache_manager := k' |>, a).
Proof. intros Hc. unfold on_kv. by rewrite Hc. Qed.
Lemma on_enc_eq {A} (c : st encoder_manager A) s e' a : c (sd_encoder_cache_manager s) = Ok (e', a) → on_enc c s = Ok (s <| sd_encoder_cache_manager := e' |>, a).
Proof. intros Hc. unfold on_enc. by rewrite Hc. Qed.
Lemma self_eq {A} (c : sm A) s t s' a : c s = Ok (s', a) → self c (s, t) = Ok ((s', t), a).
Proof. intros Hc. unfold self. cbn. by rewrite Hc. Qed.
Lemma bind_get_self {A} (f : scheduler → run A) s t : (get_self ≫= f) (s, t) = f s (s, t).
Proof. done. Qed.
Lemma bind_get_step {A} (f : Step → run A) s t : (get_step ≫= f) (s, t) = f t (s, t).
Proof. done. Qed.
Lemma bind_set_step {A} g (f : unit → run A) s t : (set_step g ≫= f) (s, t) = f tt (s, g t).
Proof. done. Qed.

(** What the operations on requests leave alone. *)
Definition rest_of s :=
  (sd_config s, sd_connector s, sd_scheduling s, sd_lifecycles s, sd_requests s,
   (sd_finished_req_ids s, sd_finished_req_ids_dict s, sd_prev_step_scheduled_req_ids s, sd_num_waiting_for_streaming_input s, sd_pause_state s, sd_grammars s)).

(** Another request than [x] is as it was. *)
Definition heap_kept x s s' : Prop := ∀ y, y ≠ x → sd_heap s' !! y = sd_heap s !! y.

Lemma heap_kept_set x s f : heap_kept x s (s <| sd_heap ::= alter f x |>).
Proof. intros y Hy. cbn. by rewrite lookup_alter_ne. Qed.

Lemma heap_kept_kv x s k : heap_kept x s (s <| sd_kv_cache_manager := k |>).
Proof. by intros y. Qed.

End access.

Section steps.
Context {F E P C G : Type} `{PyFloat F} `{CachePolicy P} `{KVConnector F E C} `{StructuredOutput F E G}.
Context (embeds_digest : E → Z → Z → string) (use_int_hashes : bool).
Context (log1p : F → res F) (iter_strings : gset string → list string) (iter_ints : gset Z → list Z) (Hiter : ∀ ns, iter_ints ns ≡ₚ elements ns).
Context (offload_config : OffloadConfig F) (clock : nat → F) (has_cache_item : option (string → bool)).
Context (evaluate_pending : st (Scheduler F E P C G) unit).
Context (cfg : SchedulerConfig) (Hcfg : plain_config cfg) (size : string → Z) (capacity bs : Z) (Hbs : 0 < bs) (caching : bool).
Context (block_hasher : option (Request F E → res (Request F E * list string))) `{!RequestHashes block_hasher bs caching}.
Notation scheduler := (Scheduler F E P C G).
Notation run := (st (scheduler * Step)).
Notation req := (Request F E).
Notation world := (world (P := P) (C := C) (G := G) cfg size capacity bs caching block_hasher).
Notation req_ok := (req_ok cfg size bs caching block_hasher).
Notation run_ok := (run_ok bs).
Implicit Types (s : scheduler) (t : Step) (r q : req) (x y : Z) (rid : string) (act que hole l : list Z) (m : SingleTypeKVCacheManager).

(** ** Preemption *)

(** The references of a request in the encoder cache go; what is cached stays. *)
Definition same_room s s' : Prop := ∀ e, sd_encoder_cache_manager s = CacheManager e → ∃ e', sd_encoder_cache_manager s' = CacheManager e' ∧
  ec_wf size capacity e' ∧ dom (ec_cached e') = dom (ec_cached e) ∧ ec_num_free_slots e' = ec_num_free_slots e.

Lemma same_room_trans s1 s2 s3 : same_room s1 s2 → same_room s2 s3 → same_room s1 s3.
Proof.
  intros H12 H23 e (e2 & Hs2 & _ & Hd2 & Hf2)%H12. destruct (H23 e2 Hs2) as (e3 & Hs3 & Hwf3 & Hd3 & Hf3). exists e3. split_and!; try done; congruence.
Qed.

Lemma enc_free_spec s act que hole m l r :
  world s act que hole m l → req_ok r → ∃ e, on_enc (en_free iter_ints r) s = Ok (s <| sd_encoder_cache_manager := CacheManager e |>, tt) ∧
    world (s <| sd_encoder_cache_manager := CacheManager e |>) act que hole m l ∧ same_room s (s <| sd_encoder_cache_manager := CacheManager e |>).
Proof.
  intros Hw Hok. destruct (w_enc Hw) as (e & He & Hwf). destruct (rk_inputs Hok) as [Hsz _].
  destruct (ec_free_spec size capacity iter_ints Hiter r e Hwf Hsz) as (e' & Heq & Hwf' & Hrel & _). exists e'.
  split; [apply on_enc_eq; by rewrite He|]. split; [by apply world_set_enc|]. intros e0 He0. rewrite He in He0. injection He0 as <-. exists e'.
  split_and!; try done; [apply (rl_dom _ _ _ Hrel)|apply (rl_free _ _ _ Hrel)].
Qed.

(** What the preemption of [y] changes. *)
Record preempted y s s' m m' : Prop := {
  pe_heap : heap_kept y s s';
  pe_rest : rest_of s' = rest_of s;
  pe_running : sd_running s' = sd_running s;
  pe_skipped : sd_skipped_waiting s' = sd_skipped_waiting s;
  pe_waiting : members (sd_waiting s') ≡ₚ y :: members (sd_waiting s);
  pe_policy : policy_of (sd_waiting s') = policy_of (sd_waiting s);
  pe_room : same_room s s';
  pe_held : ∀ x q, x ≠ y → sd_heap s !! x = Some q → x ∈ (sd_requests s).*2 → held m' (rq_request_id q) = held m (rq_request_id q);
}.

Lemma preempt_spec s y act que m l ph :
  world s (y :: act) que [] m l →
  ∃ s' m' l', preempt_request iter_ints clock y ph s = Ok (s', tt) ∧ world s' act (y :: que) [] m' l' ∧ evolves s s' ∧ preempted y s s' m m'.
Proof.
  intros Hw. destruct (world_object y Hw) as (r & Hr & Ho & Hin & Hok & Hrun & _); [set_solver|].
  destruct (Hrun ltac:(set_solver)) as (Hst & Hcomp & Hheld). pose proof (w_plain Hw) as (_ & Hsch & _).
  unfold preempt_request. st_step (get_req_eq s y r Hr). rewrite st_bind_assert by by apply bool_decide_eq_true_2.
  destruct (km_free_spec _ m l r (w_kv Hw)) as (k' & m' & fr & Hf & Hks & Hc & Hm & Hck & Hnone & [Hb Hoth]).
  st_step (on_kv_eq (km_free r) s k' tt Hf). set (s1 := s <| sd_kv_cache_manager := k' |>). rewrite st_bind_get.
  assert (has_scheduling s1 = false) as -> by (unfold has_scheduling, s1; cbn; by rewrite Hsch). cbn [st_when]. rewrite bind_ret.
  pose proof (world_nodup Hw) as [Hny Hnd]%NoDup_cons.
  assert (world s1 act que [y] m' (l ++ fr)) as Hw1.
  { apply (world_kv (m := m) (l := l) k' m' (l ++ fr) (rq_request_id r)); try done; [by apply world_open_act|apply (free_fixed _ _ _ _) in Hf; by injection Hf| |].
    - intros x q Hx _. rewrite (world_unique _ _ _ Hw Hx Hin). split; [set_solver|]. intros Hx'. set_solver.
    - by apply (list_elem_of_fmap_2' fst _ (rq_request_id r, y)). }
  destruct (enc_free_spec s1 act que [y] m' (l ++ fr) r Hw1 Hok) as (e & Hef & Hw2 & Hroom). st_step Hef.
  set (s2 := s1 <| sd_encoder_cache_manager := CacheManager e |>) in *. unfold set_req. rewrite st_bind_modify. set (f := fun r : req => _).
  set (s3 := s2 <| sd_heap ::= alter f y |>). assert (req_ok (f r)) as Hokf by (apply (req_ok_eq (f r) Hok); [unfold req_core; cbn; by rewrite (rk_spec Hok)|congruence]).
  assert (world s3 act (y :: que) [] m' (l ++ fr)) as Hw3.
  { apply (world_close_que y (f r)).
    - apply (world_set y r f Hw2 Hr); try done; intros Hy; set_solver.
    - cbn. by rewrite lookup_alter_eq, Hr.
    - split; [right; by left|done].
    - by split. }
  destruct (prepend_members (heap_lt (sd_heap s3)) y (sd_waiting s3)) as [Hmem Hpol].
  eexists (s3 <| sd_waiting := _ |>), m', (l ++ fr). split; [done|]. split; [by apply (world_eq s3)|]. split.
  { apply (evolves_set s2 y r f Hr). split_and!; try done; [by left; right|]. unfold is_finished. by rewrite Hst. }
  split; try done.
  - apply (heap_kept_set y s2 f).
  - intros x q Hx Hq Hxin. apply Hoth. apply (world_distinct x y q r Hw); try done; [|set_solver]. by rewrite <- (w_places Hw).
Qed.

(** ** Blocks for a running request *)

(** Only the digests of [x] and the blocks of [x] change. *)
Record regrown x s s' m m' : Prop := {
  rg_heap : ∃ r r', sd_heap s !! x = Some r ∧ digests_only r r' ∧ sd_heap s' = <[x := r']> (sd_heap s);
  rg_same : rest_of s' = rest_of s ∧ sd_running s' = sd_running s ∧ sd_waiting s' = sd_waiting s ∧ sd_skipped_waiting s' = sd_skipped_waiting s ∧
    sd_encoder_cache_manager s' = sd_encoder_cache_manager s;
  rg_held : ∀ y q, y ≠ x → sd_heap s !! y = Some q → y ∈ (sd_requests s).*2 → held m' (rq_request_id q) = held m (rq_request_id q);
}.

Lemma digests_core r r' : digests_only r r' → req_core r' = req_core r ∧ grows r r' ∧ rq_status r' = rq_status r ∧
  rq_num_computed_tokens r' = rq_num_computed_tokens r ∧ num_tokens r' = num_tokens r ∧ rq_request_id r' = rq_request_id r ∧ rq_mm_features r' = rq_mm_features r.
Proof. intros ->. split_and!; try done. split_and!; try done. by left. Qed.

Lemma world_digests s act que hole m l x r r' :
  world s act que hole m l → sd_heap s !! x = Some r → x ∈ act ++ que ++ hole → digests_only r r' → world (s <| sd_heap ::= alter (fun _ => r') x |>) act que hole m l.
Proof.
  intros Hw Hr Hx Hd. destruct (world_object x Hw Hx) as (q & Hq & _ & _ & Hok & Hrun & Hwait). rewrite Hr in Hq. injection Hq as <-.
  destruct (digests_core r r' Hd) as (Hcore & (Ho & Hi & _) & Hst & Hc & Hn & _). apply (world_set x r (fun _ => r') Hw Hr Ho Hi).
  - apply (req_ok_eq r' Hok Hcore). rewrite Hst. by left.
  - intros Ha. unfold run_ok, SchedulerCore.run_ok. rewrite Hst, Hc, Hn, Hi. by apply Hrun.
  - intros Hq. unfold wait_ok. rewrite Hst, Hc. by apply Hwait.
Qed.

Lemma resident_slots s act que m l x r n :
  world s act que [] m l → x ∈ act → sd_heap s !! x = Some r → 0 < n → rq_num_computed_tokens r + n <= num_tokens r →
  slot_request (sd_kv_cache_manager s) m r n 0 EmptyBlocks (cf_num_lookahead_tokens cfg) 0 [].
Proof.
  intros Hw Hx Hr Hn Hle. destruct (world_object x Hw) as (q & Hq & _ & _ & Hok & Hrun & _); [set_solver|]. rewrite Hr in Hq. injection Hq as <-.
  destruct (Hrun Hx) as (_ & Hc & Hh). pose proof (rk_room Hok). pose proof (pc_lookahead _ Hcfg). pose proof (w_len Hw). destruct (w_spec Hw) as (_ & Hb & Hca). split.
  - cbn. by rewrite (ks_groups _ _ _ (w_kv Hw)).
  - left. split_and!; try done; [lia|by rewrite Hb].
  - lia.
  - lia.
  - lia.
  - rewrite Hca, Hb. apply (hash_ok_full r (rk_hash Hok)).
Qed.

Lemma grow_spec s act que m l x r n :
  world s act que [] m l → x ∈ act → sd_heap s !! x = Some r → 0 < n → rq_num_computed_tokens r + n <= num_tokens r →
  ∃ k' r' out m' l', let s' := s <| sd_kv_cache_manager := k' |> <| sd_heap ::= alter (fun _ => r') x |> in
    on_kv (allocate_slots embeds_digest use_int_hashes r n 0 None (cf_num_lookahead_tokens cfg) 0 false 0 false) s =
      Ok (s <| sd_kv_cache_manager := k' |>, (r', out)) ∧ world s' act que [] m' l' ∧ evolves s s' ∧ regrown x s s' m m' ∧
    (out ≠ None → rq_num_computed_tokens r + n <= lenZ (held m' (rq_request_id r)) * bs).
Proof.
  intros Hw Hx Hr Hn Hle. pose proof (resident_slots s act que m l x r n Hw Hx Hr Hn Hle) as Hsr.
  destruct (world_object x Hw) as (q & Hq & _ & Hin & Hok & Hrun & _); [set_solver|]. rewrite Hr in Hq. injection Hq as <-. destruct (Hrun Hx) as (Hst & Hc & Hh).
  destruct (allocate_slots_spec embeds_digest use_int_hashes _ m l r n 0 None (cf_num_lookahead_tokens cfg) 0 [] false 0 false (w_kv Hw) Hsr)
    as (k' & m' & l' & r' & out & Heq & _ & Hks & Hconf & Hm & Hoth & Hck & Hout).
  exists k', r', out, m', l'. set (s1 := s <| sd_kv_cache_manager := k' |>). cbn zeta.
  pose proof (slots_digests embeds_digest use_int_hashes r n 0 None (cf_num_lookahead_tokens cfg) 0 false 0 false _ _ _ Heq) as Hd. cbn in Hd.
  pose proof (slots_fixed embeds_digest use_int_hashes r n 0 None (cf_num_lookahead_tokens cfg) 0 false 0 false _ _ _ Heq) as Hfix.
  assert (out ≠ None → rq_num_computed_tokens r + n <= lenZ (held m' (rq_request_id r)) * bs) as Hcover.
  { intros Hsome. destruct out as [blocks|]; [|done]. destruct Hout as (Hcov & _). unfold slots_needed in Hcov. destruct (w_spec Hw) as (_ & Hb & _). rewrite Hb in Hcov.
    set (need := Z.min _ _) in Hcov. assert (rq_num_computed_tokens r + n <= need) by (pose proof (rk_room Hok); pose proof (pc_lookahead _ Hcfg); pose proof (w_len Hw); lia).
    pose proof (cdiv_spec need bs Hbs). nia. }
  assert (run_ok m' r) as Hrun'.
  { split_and!; try done; try lia. destruct out as [blocks|]; [specialize (Hcover ltac:(done)); lia|]. destruct Hout as (-> & _). done. }
  assert (world s1 act que [] m' l') as Hw1.
  { apply (world_kv k' m' l' (rq_request_id r) Hw); try done; [by injection Hfix| |by apply (list_elem_of_fmap_2' fst _ (rq_request_id r, x))].
    intros y q Hy Hq. rewrite (world_unique _ _ _ Hw Hy Hin) in *. rewrite Hr in Hq. injection Hq as <-. split; [|done]. pose proof (world_nodup Hw) as Hnd.
    rewrite app_nil_r in Hnd. apply NoDup_app in Hnd as (_ & Hnd & _). by apply Hnd. }
  split_and!; [by apply on_kv_eq|by apply (world_digests s1 act que [] m' l' x r); [done|done|set_solver|]|..|done].
  - apply (evolves_set s1 x r); [done|]. by apply digests_core.
  - split.
    + exists r, r'. split_and!; try done. cbn. apply map_eq. intros y. destruct (decide (x = y)) as [<-|Hne]; [by rewrite lookup_alter_eq, lookup_insert_eq, Hr|by rewrite lookup_alter_ne, lookup_insert_ne].
    + by split_and!.
    + intros y q Hne Hq Hyin. apply Hoth. apply (world_distinct y x q r Hw); try done; [|set_solver]. by rewrite <- (w_places Hw).
Qed.

(** ** The state within a step *)

Definition sched t : list Z := sp_scheduled_running_reqs t ++ sp_scheduled_new_reqs t ++ sp_scheduled_resumed_reqs t.

(** What is scheduled for a request: at least one token, blocks for its tokens, inputs
    of the request. *)
Definition item_ok t m r : Prop :=
  ∃ n blocks, od_get (rq_request_id r) (sp_num_scheduled_tokens t) = Some n ∧ od_get (rq_request_id r) (sp_req_to_new_blocks t) = Some blocks ∧
    0 < n ∧ rq_num_computed_tokens r + n <= num_tokens r ∧ rq_num_computed_tokens r + n <= lenZ (held m (rq_request_id r)) * bs ∧
    ∀ inputs i, od_get (rq_request_id r) (sp_scheduled_encoder_inputs t) = Some inputs → i ∈ inputs → ∃ j f, i = Z.of_nat j ∧ rq_mm_features r !! j = Some f.

Record stepping s t m (total : Z) : Prop := {
  sg_plain : sp_tokencake t = false ∧ sp_reservation_deferred t = [] ∧ sp_agent_order t = None ∧ sp_scheduled_spec_decode_tokens t = [];
  sg_budget : 0 <= sp_token_budget t;
  sg_total : sumZ snd (sp_num_scheduled_tokens t) + sp_token_budget t = total;
  sg_encoder : 0 <= sp_encoder_compute_budget t;
  sg_keys : od_wf (sp_num_scheduled_tokens t) ∧ od_wf (sp_req_to_new_blocks t) ∧ od_wf (sp_scheduled_encoder_inputs t);
  sg_nodup : NoDup (sched t);
  sg_running : ∀ x, x ∈ sched t → x ∈ sd_running s;
  sg_items : ∀ x r, x ∈ sched t → sd_heap s !! x = Some r → item_ok t m r;
  sg_owner : ∀ rid, rid ∈ (sp_num_scheduled_tokens t).*1 → ∃ x r, x ∈ sched t ∧ sd_heap s !! x = Some r ∧ rq_request_id r = rid;
  sg_inputs : ∀ rid, rid ∈ (sp_scheduled_encoder_inputs t).*1 → rid ∈ (sp_num_scheduled_tokens t).*1;
}.

(** The first loop: nothing was admitted, and what is scheduled is before the index. *)
Record first_loop s t : Prop := {
  fl_none : sp_scheduled_new_reqs t = [] ∧ sp_scheduled_resumed_reqs t = [] ∧ members (sp_step_skipped_waiting t) = [];
  fl_index : lenZ (sp_scheduled_running_reqs t) <= sp_req_index t;
  fl_before : ∀ y, y ∈ sp_scheduled_running_reqs t → ∃ i, sd_running s !! i = Some y ∧ Z.of_nat i < sp_req_index t;
}.

(** A preempted request was not scheduled in the previous step, unless this step
    preempted it. *)
Definition rested s (que fresh : list Z) : Prop :=
  ∀ x r, x ∈ que → sd_heap s !! x = Some r → rq_status r = Request.PREEMPTED → rq_request_id r ∉ sd_prev_step_scheduled_req_ids s ∨ x ∈ fresh.

Definition queues s : list Z := members (sd_waiting s) ++ members (sd_skipped_waiting s).

Record shape s : Prop := {
  sh_policy : policy_of (sd_waiting s) = cf_policy cfg ∧ policy_of (sd_skipped_waiting s) = cf_policy cfg;
  sh_running : lenZ (sd_running s) <= cf_max_num_running_reqs cfg;
}.

(** No request of the list ever ran. *)
Definition unstarted s (xs : list Z) : Prop := ∀ x r, x ∈ xs → sd_heap s !! x = Some r → ¬ started r.

Lemma unstarted_kept s s' y xs xs' : unstarted s xs → (∀ x, x ∈ xs' → x ∈ xs) → heap_kept y s s' → y ∉ xs' → unstarted s' xs'.
Proof. intros Hu Hsub Hk Hy x r Hx. rewrite Hk by (intros ->; done). by apply Hu, Hsub. Qed.

Record inv1 s t m l total : Prop := {
  i1_world : world s (sd_running s) (queues s) [] m l;
  i1_shape : shape s;
  i1_step : stepping s t m total;
  i1_loop : first_loop s t;
  i1_rested : rested s (queues s) (sp_preempted_reqs t);
  i1_preempted : ∀ y, y ∈ sp_preempted_reqs t → is_Some (sd_heap s !! y);
  i1_skipped : unstarted s (members (sd_skipped_waiting s));
}.

(** The request whose blocks are being allocated. *)
Record pending x s t : Prop := {
  pd_sched : x ∉ sched t;
  pd_place : ∃ i, sd_running s !! i = Some x ∧ Z.of_nat i <= sp_req_index t;
  pd_fcfs : cf_policy cfg = FCFS → sd_running s !! Z.to_nat (sp_req_index t) = Some x;
}.

(** *** Victims *)

Lemma py_remove_delete y l : y ∈ l → ∃ p, l !! p = Some y ∧ py_remove y l = Ok (delete p l).
Proof.
  induction l as [|z l IH]; [by intros ?%elem_of_nil|]. cbn [py_remove]. destruct (decide (y = z)) as [<-|Hne]; [by exists 0%nat|].
  intros [?|Hin]%elem_of_cons; [done|]. destruct (IH Hin) as (p & Hp & He). exists (S p). rewrite He. done.
Qed.

Lemma delete_keeps {A} (l : list A) p i z : l !! i = Some z → i ≠ p → ∃ j, delete p l !! j = Some z ∧ ((i < p)%nat → j = i) ∧ ((p < i)%nat → S j = i).
Proof.
  intros Hi Hne. destruct (decide (i < p)%nat) as [Hlt|Hge].
  - exists i. rewrite list_lookup_delete_lt by done. split_and!; [done|done|lia].
  - exists (i - 1)%nat. rewrite list_lookup_delete_ge by lia. split_and!; [|lia|lia]. by replace (S (i - 1)) with i by lia.
Qed.

Lemma take_last_delete {A} (l : list A) (y : A) : last l = Some y → take (length l - 1) l = delete (length l - 1)%nat l ∧ l !! (length l - 1)%nat = Some y.
Proof.
  intros [l' ->]%last_Some. rewrite length_app, Nat.add_sub, take_app_length. split; [|by apply list_lookup_middle].
  rewrite delete_middle. by rewrite app_nil_r.
Qed.

Lemma worst_in (rs : list req) q : worst_request rs = Some q → q ∈ rs.
Proof.
  destruct rs as [|r rs]; [done|]. cbn. intros [= <-]. revert r; induction rs as [|r' rs IH]; intros r; [left|]. cbn.
  destruct (lex _ _ _); [right; apply IH|]. specialize (IH r). apply elem_of_cons in IH as [->|IH]; [left|right; by right].
Qed.

(** The request [q] of [y] gives back what it got in this step. *)
Record unscheduled y q t t' : Prop := {
  us_running : ∃ p, sp_scheduled_running_reqs t !! p = Some y ∧ sp_scheduled_running_reqs t' = delete p (sp_scheduled_running_reqs t);
  us_same : sp_tokencake t' = sp_tokencake t ∧ sp_reservation_deferred t' = sp_reservation_deferred t ∧ sp_agent_order t' = sp_agent_order t ∧
    sp_scheduled_new_reqs t' = sp_scheduled_new_reqs t ∧ sp_scheduled_resumed_reqs t' = sp_scheduled_resumed_reqs t ∧
    sp_preempted_reqs t' = sp_preempted_reqs t ∧ sp_step_skipped_waiting t' = sp_step_skipped_waiting t ∧
    sp_scheduled_spec_decode_tokens t' = od_del (rq_request_id q) (sp_scheduled_spec_decode_tokens t);
  us_tokens : ∃ n, od_get (rq_request_id q) (sp_num_scheduled_tokens t) = Some n ∧ sp_num_scheduled_tokens t' = od_del (rq_request_id q) (sp_num_scheduled_tokens t) ∧
    sp_token_budget t' = n + sp_token_budget t;
  us_blocks : sp_req_to_new_blocks t' = od_del (rq_request_id q) (sp_req_to_new_blocks t);
  us_inputs : sp_scheduled_encoder_inputs t' = od_del (rq_request_id q) (sp_scheduled_encoder_inputs t);
  us_index : sp_req_index t' = sp_req_index t - 1;
  us_encoder : sp_encoder_compute_budget t <= sp_encoder_compute_budget t';
}.

Lemma inputs_embeds q inputs : req_ok q → (∀ i, i ∈ inputs → ∃ j f, i = Z.of_nat j ∧ rq_mm_features q !! j = Some f) →
  ∃ ns, mapM (get_num_encoder_embeds q) inputs = Ok ns ∧ 0 <= sumZ id ns.
Proof.
  intros Hok. destruct (rk_inputs Hok) as [Hsz _]. induction inputs as [|i inputs IH]; intros Hi; [by exists []|].
  destruct (Hi i) as (j & f & -> & Hf); [left|]. destruct IH as (ns & Hns & Hpos); [intros i' Hin; apply Hi; by right|].
  destruct (feature_at q j f Hf) as [_ He]. destruct (Hsz j f Hf) as [Heq Hge]. cbn [mapM]. rewrite He. cbn [mbind res_bind]. rewrite Hns.
  eexists. split; [done|]. unfold id in *. cbn. lia.
Qed.

Lemma od_pop_eq {A} rid (d : list (string * A)) v : od_get rid d = Some v → od_pop rid d = Ok (v, od_del rid d).
Proof. intros Hv. unfold od_pop. by rewrite Hv. Qed.

Lemma unschedule_spec s t m total q y b :
  stepping s t m total → sd_heap s !! y = Some q → rq_oid q = y → req_ok q → y ∈ sp_scheduled_running_reqs t →
  ∃ t', (∀ s0 : scheduler, unschedule q false b (s0, t) = Ok ((s0, t'), b)) ∧ unscheduled y q t t'.
Proof.
  intros Hst Hq Ho Hok Hy. destruct (sg_items _ _ _ _ Hst y q) as (n & blocks & Hn & Hb & _ & _ & _ & Hin); [unfold sched; set_solver|done|].
  destruct (py_remove_delete y (sp_scheduled_running_reqs t) Hy) as (p & Hp & Hrem). set (rid := rq_request_id q) in *.
  set (t1 := t <| sp_scheduled_running_reqs := delete p (sp_scheduled_running_reqs t) |> <| sp_num_scheduled_tokens := od_del rid (sp_num_scheduled_tokens t) |>
    <| sp_token_budget ::= Z.add n |> <| sp_prefill_budget ::= Z.add (default 0 (od_get rid (sp_scheduled_prefill_tokens t))) |>
    <| sp_scheduled_prefill_tokens ::= od_del rid |> <| sp_req_to_new_blocks := od_del rid (sp_req_to_new_blocks t) |>
    <| sp_scheduled_spec_decode_tokens ::= od_del rid |> <| sp_scheduled_encoder_inputs ::= od_del rid |> <| sp_req_index ::= Z.pred |>).
  assert (unscheduled y q t t1) as Hus by (split; try done; [by exists p|by exists n]).
  assert (∀ s0 : scheduler, unschedule q false b (s0, t) = (match od_get rid (sp_scheduled_encoder_inputs t) with
    | Some (i :: inputs) =>
        embeds ← st_lift (mapM (get_num_encoder_embeds q) (i :: inputs));
        set_step (fun t => t <| sp_encoder_compute_budget ::= Z.add (sumZ id embeds) |>);;
        mret (if false then b + sumZ id embeds else b)
    | _ => mret b
    end) (s0, t1)) as Heq.
  { intros s0. unfold unschedule. rewrite bind_get_step, Ho, (st_bind_lift _ _ _ _ Hrem), (st_bind_lift _ _ _ _ (od_pop_eq _ _ _ Hn)). cbv beta iota.
    rewrite (st_bind_lift _ _ _ _ (od_pop_eq _ _ _ Hb)). cbv beta iota. rewrite bind_set_step. reflexivity. }
  revert Hus Heq. generalize t1. clear t1. intros t1 Hus Heq.
  destruct (od_get rid (sp_scheduled_encoder_inputs t)) as [[|i inputs]|] eqn:Hi; [by exists t1| |by exists t1].
  destruct (inputs_embeds q (i :: inputs) Hok) as (ns & Hns & Hpos); [intros i'; by apply Hin|].
  exists (t1 <| sp_encoder_compute_budget ::= Z.add (sumZ id ns) |>). split; [intros s0; by rewrite Heq, (st_bind_lift _ _ _ _ Hns)|].
  destruct Hus as [U1 U2 U3 U4 U5 U6 U7]. split; [exact U1|exact U2|exact U3|exact U4|exact U5|exact U6|]. cbn. lia.
Qed.

Lemma inv1_nodup s t m l total : inv1 s t m l total → NoDup (sd_running s).
Proof. intros Hi. pose proof (world_nodup (i1_world _ _ _ _ _ Hi)) as Hnd. by apply NoDup_app in Hnd as (Hnd & _ & _). Qed.

Lemma heap_objects s act que hole m l xs : world s act que hole m l → (∀ x, x ∈ xs → x ∈ act ++ que ++ hole) →
  ∃ rs, Forall2 (fun x r => sd_heap s !! x = Some r ∧ rq_oid r = x) xs rs.
Proof.
  intros Hw. induction xs as [|x xs IH]; intros Hxs; [by exists []|]. destruct IH as [rs Hrs]; [intros y Hy; apply Hxs; by right|].
  destruct (world_object x Hw) as (r & Hr & Ho & _); [apply Hxs; left|]. exists (r :: rs). by constructor.
Qed.

Lemma objects_gets s xs rs : Forall2 (fun x r => sd_heap s !! x = Some r ∧ rq_oid r = x) xs rs → get_reqs xs s = Ok (s, rs).
Proof. intros Hrs. apply get_reqs_eq. eapply Forall2_impl; [done|]. by intros x r []. Qed.

Lemma take_victim_spec s t m l total x r n b :
  inv1 s t m l total → pending x s t →
  ∃ t' y p q, take_victim r n b (s, t) = Ok ((s <| sd_running := delete p (sd_running s) |>, t'), (y, b)) ∧
    sd_running s !! p = Some y ∧ sd_heap s !! y = Some q ∧
    (t' = t ∧ y ∉ sched t ∨ y ∈ sp_scheduled_running_reqs t ∧ unscheduled y q t t') ∧
    (cf_policy cfg = FCFS → S p = length (sd_running s)).
Proof.
  intros Hinv Hp. pose proof (i1_world _ _ _ _ _ Hinv) as Hw. pose proof (i1_step _ _ _ _ _ Hinv) as Hst. pose proof (inv1_nodup _ _ _ _ _ Hinv) as Hnd.
  destruct (sg_plain _ _ _ _ Hst) as (Htc & _). destruct (pd_place _ _ _ Hp) as (i & Hi & _). destruct (fl_none _ _ (i1_loop _ _ _ _ _ Hinv)) as (Hnew & Hres & _).
  destruct (heap_objects s _ _ _ _ _ (sd_running s) Hw) as [rs Hrs]; [set_solver|].
  unfold take_victim. rewrite bind_get_step, bind_get_self. st_step (self_eq (get_reqs (sd_running s)) s t s rs (objects_gets s _ rs Hrs)).
  rewrite Htc. cbn iota. rewrite bind_ret, (w_config Hw). destruct (cf_policy cfg) eqn:Hpol.
  - destruct (last (sd_running s)) as [y|] eqn:Hl; [|apply last_None in Hl; by rewrite Hl in Hi]. rewrite (st_bind_lift _ y) by done.
    destruct (take_last_delete _ _ Hl) as [Htake Hpos]. set (p := (length (sd_running s) - 1)%nat) in *.
    destruct (world_object y Hw) as (q & Hq & _); [apply list_elem_of_lookup_2 in Hpos; set_solver|].
    exists t, y, p, q. split; [|split; [done|split; [done|split; [left; split; [done|]|intros _; apply lookup_lt_Some in Hi; unfold p; lia]]]].
    + rewrite <- Htake. reflexivity.
    + unfold sched. rewrite Hnew, Hres, !app_nil_r. intros (j & Hj & Hlt)%(fl_before _ _ (i1_loop _ _ _ _ _ Hinv)).
      assert (j = p) as -> by by apply (NoDup_lookup _ _ _ y Hnd). pose proof (pd_fcfs _ _ _ Hp Hpol) as Hx. apply lookup_lt_Some in Hx.
      pose proof (fl_index _ _ (i1_loop _ _ _ _ _ Hinv)). unfold p in Hlt. lia.
  - destruct (worst_request rs) as [q|] eqn:Hq.
    2: { destruct rs; [|done]. inversion Hrs as [Hnil|]; subst. by rewrite <- Hnil in Hi. }
    apply worst_in, list_elem_of_lookup_1 in Hq as [j Hj]. destruct (Forall2_lookup_r _ _ _ _ _ Hrs Hj) as (y & Hy%list_elem_of_lookup_2 & Hhq & Ho). rewrite (st_bind_lift _ q) by done. cbn zeta.
    rewrite Ho. change (bool_decide (is_Some None)) with false. cbn iota. rewrite (st_bind_lift (Ok (-1)) _ _ _ eq_refl).
    destruct (py_remove_delete y (sd_running s) Hy) as (p & Hpos & Hrem). rewrite (st_bind_lift _ _ _ _ Hrem).
    set (s1 := s <| sd_running := delete p (sd_running s) |>) in *.
    assert (∀ A (f : unit → run A), (self (st_modify (fun s0 => s0 <| sd_running := delete p (sd_running s) |>)) ≫= f) (s, t) = f tt (s1, t)) as -> by done.
    destruct (world_object y Hw) as (q' & Hq' & _ & _ & Hok & _); [set_solver|]. rewrite Hhq in Hq'. injection Hq' as <-.
    destruct (bool_decide_reflect (y ∈ sp_scheduled_running_reqs t)) as [Hin|Hin].
    + destruct (unschedule_spec s t m total q y b Hst Hhq Ho Hok Hin) as (t' & Hu & Hus).
      st_step (Hu s1). exists t', y, p, q. split; [done|]. split; [done|]. split; [done|]. split; [by right|congruence].
    + cbn [andb st_when]. exists t, y, p, q. split; [done|]. split; [done|]. split; [done|]. split; [|congruence]. left. split; [done|]. unfold sched.
      by rewrite Hnew, Hres, !app_nil_r.
Qed.

Lemma stepping_kept s t m total s' m' y :
  stepping s t m total → y ∉ sched t → (∀ x, x ∈ sd_running s → x ≠ y → x ∈ sd_running s') → heap_kept y s s' →
  (∀ x r, x ≠ y → x ∈ sd_running s → sd_heap s !! x = Some r → held m' (rq_request_id r) = held m (rq_request_id r)) → stepping s' t m' total.
Proof.
  intros [] Hy Hrun Hheap Hheld. assert (∀ x, x ∈ sched t → x ≠ y) as Hne by (intros x Hx ->; done). split; try done.
  - intros x Hx. apply Hrun; auto.
  - intros x r Hx. rewrite Hheap by auto. intros Hr. destruct (sg_items0 x r Hx Hr) as (n & bl & ? & ? & ? & ? & ? & ?). exists n, bl.
    rewrite (Hheld x r) by auto. by split_and!.
  - intros rid Hrid. destruct (sg_owner0 rid Hrid) as (x & r & Hx & Hr & Hi). exists x, r. rewrite Hheap by auto. by split_and!.
Qed.

Lemma stepping_unscheduled s t m total s' m' y q t' :
  stepping s t m total → unscheduled y q t t' → sd_heap s !! y = Some q → (∀ x, x ∈ sd_running s → x ≠ y → x ∈ sd_running s') → heap_kept y s s' →
  (∀ x r, x ≠ y → x ∈ sd_running s → sd_heap s !! x = Some r → rq_request_id r ≠ rq_request_id q ∧ held m' (rq_request_id r) = held m (rq_request_id r)) →
  stepping s' t' m' total.
Proof.
  intros [] [(p & Hp & Hdel) (E1 & E2 & E3 & E4 & E5 & _ & _ & E6) (n & Hn & Ht & Hb) Hbl Hin _ He] Hq Hrun Hheap Hoth.
  destruct sg_plain0 as (P1 & P2 & P3 & P4). destruct sg_keys0 as (K1 & K2 & K3).
  assert (sched t ≡ₚ y :: sched t') as Hperm by (unfold sched; rewrite Hdel, E4, E5; by rewrite (delete_perm _ _ _ Hp) at 1).
  assert (∀ x, x ∈ sched t' → x ∈ sched t ∧ x ≠ y) as Hsub.
  { intros x Hx. rewrite Hperm. split; [by right|]. intros ->. rewrite Hperm in sg_nodup0. by apply NoDup_cons in sg_nodup0 as [? _]. }
  split; try congruence.
  - rewrite E1, E2, E3, E6, P4. by split_and!.
  - destruct (sg_items0 y q) as (n' & bl & Hn' & _ & Hpos & _); [rewrite Hperm; left|done|]. rewrite Hn in Hn'. injection Hn' as <-. lia.
  - rewrite Ht, Hb, <- sg_total0, (od_del_sum _ _ _ Hn). lia.
  - lia.
  - rewrite Ht, Hbl, Hin. split_and!; by apply od_wf_del.
  - rewrite Hperm in sg_nodup0. by apply NoDup_cons in sg_nodup0 as [_ ?].
  - intros x [Hx Hne]%Hsub. apply Hrun; auto.
  - intros x r [Hx Hne]%Hsub. rewrite Hheap by done. intros Hr. destruct (Hoth x r Hne (sg_running0 x Hx) Hr) as [Hid Hh].
    destruct (sg_items0 x r Hx Hr) as (n' & bl & I1 & I2 & I3 & I4 & I5 & I6). exists n', bl. rewrite Ht, Hbl, Hin, Hh.
    rewrite !od_get_del, !decide_False by done. by split_and!.
  - intros rid. rewrite Ht, elem_of_od_keys_del by done. intros [Hne Hrid]. destruct (sg_owner0 rid Hrid) as (x & r & Hx & Hr & Hi).
    assert (x ≠ y) as Hxy by (intros ->; congruence). exists x, r. rewrite Hheap by done. split_and!; try done. rewrite Hperm in Hx. by apply elem_of_cons in Hx as [?|?].
  - intros rid. rewrite Ht, Hin, !elem_of_od_keys_del by done. intros [Hne Hrid]. auto.
Qed.

(** The running request [y] is preempted for another one. *)
Record evicted y s t s' t' : Prop := {
  ev_running : ∃ p, sd_running s !! p = Some y ∧ sd_running s' = delete p (sd_running s);
  ev_rest : rest_of s' = rest_of s;
  ev_heap : heap_kept y s s';
  ev_room : same_room s s';
  ev_budget : sp_token_budget t <= sp_token_budget t';
  ev_encoder : sp_encoder_compute_budget t <= sp_encoder_compute_budget t';
  ev_measure : lenZ (sd_running s') - sp_req_index t' <= lenZ (sd_running s) - sp_req_index t;
  ev_pending : ∀ x, x ≠ y → pending x s t → pending x s' t';
  ev_fcfs : cf_policy cfg = FCFS → sched t' = sched t;
}.

Lemma stepping_preempted s t m total y : stepping s t m total → stepping s (t <| sp_preempted_reqs ::= fun l => l ++ [y] |>) m total.
Proof. intros []. by split. Qed.

(** The positions of the others when [y] leaves the running requests. *)
Lemma delete_before s t p y z i t' :
  NoDup (sd_running s) → sd_running s !! p = Some y → z ≠ y → sd_running s !! i = Some z → (Z.of_nat i <= sp_req_index t) →
  (sp_req_index t' = sp_req_index t ∨ sp_req_index t' = sp_req_index t - 1 ∧ Z.of_nat p < sp_req_index t) →
  ∃ j, delete p (sd_running s) !! j = Some z ∧ Z.of_nat j <= sp_req_index t' ∧ (Z.of_nat i < sp_req_index t → Z.of_nat j < sp_req_index t').
Proof.
  intros Hnd Hp Hne Hi Hle Hidx. assert (i ≠ p) as Hip by (intros ->; congruence). destruct (delete_keeps _ p i z Hi Hip) as (j & Hj & H1' & H2').
  exists j. split; [done|]. destruct (decide (i < p)%nat) as [Hlt|Hge]; [rewrite H1' in * by done|assert (S j = i) by (apply H2'; lia)]; lia.
Qed.

Lemma first_loop_evicted s t s' t' p y q :
  NoDup (sd_running s) → first_loop s t → sd_running s !! p = Some y → sd_running s' = delete p (sd_running s) →
  (t' = t ∧ y ∉ sched t ∨ y ∈ sp_scheduled_running_reqs t ∧ unscheduled y q t t') → NoDup (sched t) → first_loop s' t'.
Proof.
  intros Hnd [(Hn & Hr & Hsk) Hi Hb] Hp Hrun Hcase Hns. destruct Hcase as [[-> Hy]|[Hy [(p' & Hp' & Hdel) Hsame _ _ _ Hidx _]]].
  - split; [done|done|]. intros z Hz. destruct (Hb z Hz) as (i & Hi1 & Hi2). rewrite Hrun.
    destruct (delete_before s t p y z i t) as (j & Hj & _ & Hlt); try done; [|lia|by left|by exists j; auto]. intros ->. apply Hy. unfold sched. set_solver.
  - destruct Hsame as (_ & _ & _ & Hn' & Hr' & _ & Hsk' & _). split; [by rewrite Hn', Hr', Hsk'|..].
    + rewrite Hdel, Hidx. rewrite length_delete by done. apply lookup_lt_Some in Hp'. lia.
    + intros z. rewrite Hdel, Hrun. intros Hz. destruct (Hb y Hy) as (py & Hpy & Hlt). assert (py = p) as -> by by apply (NoDup_lookup _ _ _ y Hnd).
      assert (z ≠ y ∧ z ∈ sp_scheduled_running_reqs t) as [Hne Hzin].
      { unfold sched in Hns. apply NoDup_app in Hns as (Hns & _). rewrite (delete_perm _ _ _ Hp') in Hns. apply NoDup_cons in Hns as [Hny _].
        split; [intros ->; done|]. rewrite (delete_perm _ _ _ Hp'). by right. }
      destruct (Hb z Hzin) as (i & Hi1 & Hi2). destruct (delete_before s t p y z i t') as (j & Hj & _ & Hlt'); try done; [lia|right; lia|]. exists j. auto.
Qed.

Lemma pending_evicted s t s' t' p y q x :
  NoDup (sd_running s) → first_loop s t → sd_running s !! p = Some y → sd_running s' = delete p (sd_running s) →
  (t' = t ∧ y ∉ sched t ∨ y ∈ sp_scheduled_running_reqs t ∧ unscheduled y q t t') → (cf_policy cfg = FCFS → S p = length (sd_running s)) →
  x ≠ y → pending x s t → pending x s' t'.
Proof.
  intros Hnd Hfl Hp Hrun Hcase Hlast Hne [Hs (i & Hi & Hle) Hf].
  assert (sp_req_index t' = sp_req_index t ∨ sp_req_index t' = sp_req_index t - 1 ∧ Z.of_nat p < sp_req_index t) as Hidx.
  { destruct Hcase as [[-> _]|[Hy Hu]]; [by left|]. right. split; [apply (us_index _ _ _ _ Hu)|]. destruct (fl_before _ _ Hfl y Hy) as (j & Hj & Hlt).
    by rewrite (NoDup_lookup _ _ _ y Hnd Hp Hj). }
  split.
  - destruct Hcase as [[-> _]|[Hy Hu]]; [done|]. destruct (us_running _ _ _ _ Hu) as (p' & Hp' & Hdel). destruct (us_same _ _ _ _ Hu) as (_ & _ & _ & Hn & Hr & _).
    unfold sched in *. rewrite Hdel, Hn, Hr. intros Hx. apply Hs. rewrite (delete_perm _ _ _ Hp'). set_solver.
  - rewrite Hrun. destruct (delete_before s t p y x i t') as (j & Hj & Hlt & _); try done. by exists j.
  - intros Hpol. specialize (Hlast Hpol). specialize (Hf Hpol). destruct Hcase as [[-> _]|[Hy Hu]].
    + rewrite Hrun, list_lookup_delete_lt; [done|]. pose proof (lookup_lt_Some _ _ _ Hf). assert (Z.to_nat (sp_req_index t) ≠ p) by (intros Heq; congruence). lia.
    + destruct Hidx as [Hidx|[Hidx Hlt]]; [rewrite (us_index _ _ _ _ Hu) in Hidx; lia|]. apply lookup_lt_Some in Hf. lia.
Qed.

Lemma unscheduled_sum s t m total y q t' : stepping s t m total → sd_heap s !! y = Some q → y ∈ sched t → unscheduled y q t t' → sp_token_budget t <= sp_token_budget t'.
Proof.
  intros Hst Hq Hy Hu. destruct (us_tokens _ _ _ _ Hu) as (n & Hn & _ & ->). destruct (sg_items _ _ _ _ Hst y q Hy Hq) as (n' & _ & Hn' & _ & Hpos & _).
  rewrite Hn in Hn'. injection Hn' as <-. lia.
Qed.

Lemma inv1_notin s t m l total x : inv1 s t m l total → x ∈ sd_running s → x ∉ queues s.
Proof.
  intros Hinv Hx Hq. pose proof (world_nodup (i1_world _ _ _ _ _ Hinv)) as Hnd. rewrite app_nil_r in Hnd. apply NoDup_app in Hnd as (_ & Hnd & _). by apply (Hnd x).
Qed.

Lemma victim_step {A} s t m l total x r n b (f : Z → Z → run A) :
  inv1 s t m l total → pending x s t →
  ∃ y s' t' m' l', ('(y, b') ← take_victim r n b; self (preempt_request iter_ints clock y true);;
      set_step (fun t => t <| sp_preempted_reqs ::= fun l => l ++ [y] |>);; f y b') (s, t) = f y b (s', t') ∧
    inv1 s' t' m' l' total ∧ evolves s s' ∧ evicted y s t s' t'.
Proof.
  intros Hinv Hpd. pose proof Hinv as Hinv0. pose proof (inv1_nodup _ _ _ _ _ Hinv) as Hnd. destruct (take_victim_spec s t m l total x r n b Hinv Hpd) as (t' & y & p & q & Heq & Hp & Hq & Hcase & Hlast).
  destruct Hinv as [Hw Hsh Hst Hfl Hre Hpp Hun]. set (s1 := s <| sd_running := delete p (sd_running s) |>) in *.
  assert (world s1 (y :: delete p (sd_running s)) (queues s) [] m l) as Hw1.
  { apply (world_eq s); [|done]. apply (world_perm _ _ Hw); [|done]. symmetry. by apply delete_perm. }
  destruct (preempt_spec s1 y _ _ m l true Hw1) as (s' & m' & l' & Hpre & Hw' & Hev & [Hh Hr Hrun Hsk Hwa Hpo Hro Hhe]).
  exists y, s', (t' <| sp_preempted_reqs ::= fun l => l ++ [y] |>), m', l'.
  split; [st_step Heq; st_step (self_eq (preempt_request iter_ints clock y true) s1 t' s' tt Hpre); by rewrite bind_set_step|].
  assert (queues s' ≡ₚ y :: queues s) as Hqs by (unfold queues; by rewrite Hwa, Hsk).
  assert (∀ z, z ∈ sd_running s → z ≠ y → z ∈ sd_running s') as Hin.
  { intros z Hz Hne. rewrite Hrun. cbn. rewrite (delete_perm _ _ _ Hp) in Hz. by apply elem_of_cons in Hz as [?|?]. }
  assert (∀ z r, z ≠ y → z ∈ sd_running s → sd_heap s !! z = Some r → rq_request_id r ≠ rq_request_id q ∧ held m' (rq_request_id r) = held m (rq_request_id r)) as Hheld.
  { intros z rz Hne Hz Hrz. split; [apply (world_distinct z y rz q Hw); try done; [in_list|apply list_elem_of_lookup_2 in Hp; in_list]|].
    apply (Hhe z rz Hne Hrz). cbn. rewrite (w_places Hw). in_list. }
  assert (stepping s' t' m' total) as Hst'.
  { destruct Hcase as [[-> Hy]|[Hy Hu]]; [apply (stepping_kept s t m total s' m' y); try done; intros z rz ???; by apply (Hheld z rz)|].
    by apply (stepping_unscheduled s t m total s' m' y q t'). }
  assert (sp_preempted_reqs t' = sp_preempted_reqs t) as Hpt by (destruct Hcase as [[-> _]|[_ Hu]]; [done|by destruct (us_same _ _ _ _ Hu) as (_ & _ & _ & _ & _ & ? & _)]).
  pose proof (first_loop_evicted s t s' t' p y q Hnd Hfl Hp Hrun Hcase (sg_nodup _ _ _ _ Hst)) as Hfl'.
  split; [split|split; [by etrans; [by apply (evolves_heap s s1)|]|]].
  - rewrite Hrun. by apply (world_perm _ _ Hw').
  - destruct Hsh as [[? ?] Hlen]. split; [split; [by rewrite Hpo|by rewrite Hsk]|]. rewrite Hrun. cbn. rewrite length_delete by done. lia.
  - by apply stepping_preempted.
  - by destruct Hfl'.
  - intros z rz Hz Hrz Hpr. cbn. rewrite Hpt, elem_of_app, list_elem_of_singleton. destruct (decide (z = y)) as [->|Hne]; [by auto|].
    rewrite Hqs in Hz. apply elem_of_cons in Hz as [?|Hz]; [done|]. rewrite (Hh z Hne) in Hrz. injection Hr as _ _ _ _ _ _ _ Hprev _. rewrite Hprev.
    destruct (Hre z rz Hz Hrz Hpr); auto.
  - intros z. cbn. rewrite Hpt, elem_of_app, list_elem_of_singleton. intros Hz. assert (is_Some (sd_heap s !! z)) as [rz Hrz] by (destruct Hz as [Hz| ->]; [by apply Hpp|by exists q]).
    destruct (Hev z rz Hrz) as (r' & ? & _). by exists r'.
  - apply (unstarted_kept s s' y _ _ Hun); [by rewrite Hsk|done|]. rewrite Hsk. intros Hy. apply (inv1_notin s t m l total y Hinv0); [by apply list_elem_of_lookup_2 in Hp|].
    unfold queues. in_list.
  - assert (∀ z, z ≠ y → pending z s t → pending z s' t') as Hpend by (intros z; apply (pending_evicted s t s' t' p y q z Hnd Hfl Hp Hrun Hcase Hlast)).
    split; try done; [by exists p|..]; cbn.
    + destruct Hcase as [[-> _]|[Hy Hu]]; [done|]. apply (unscheduled_sum s t m total y q t' Hst Hq); [unfold sched; in_list|done].
    + destruct Hcase as [[-> _]|[Hy Hu]]; [done|]. apply (us_encoder _ _ _ _ Hu).
    + rewrite Hrun. cbn. rewrite length_delete by done. apply lookup_lt_Some in Hp. destruct Hcase as [[-> _]|[Hy Hu]]; [lia|]. rewrite (us_index _ _ _ _ Hu). lia.
    + intros z Hne Hz. destruct (Hpend z Hne Hz). by split.
    + intros Hpol. destruct Hcase as [[-> _]|[Hy Hu]]; [done|]. destruct (fl_before _ _ Hfl y Hy) as (j & Hj & Hlt).
      rewrite (NoDup_lookup _ _ _ y Hnd Hj Hp) in Hlt. pose proof (pd_fcfs _ _ _ Hpd Hpol) as Hx. apply lookup_lt_Some in Hx. pose proof (Hlast Hpol). lia.
Qed.

(** *** The allocation of blocks *)

(** What preemptions and allocations within a step do not worsen. *)
Record moved s t s' t' : Prop := {
  mv_evolves : evolves s s';
  mv_room : same_room s s';
  mv_rest : rest_of s' = rest_of s;
  mv_budget : sp_token_budget t <= sp_token_budget t';
  mv_encoder : sp_encoder_compute_budget t <= sp_encoder_compute_budget t';
  mv_measure : lenZ (sd_running s') - sp_req_index t' <= lenZ (sd_running s) - sp_req_index t;
  mv_fcfs : cf_policy cfg = FCFS → sched t' = sched t;
}.

Lemma moved_trans s1 t1 s2 t2 s3 t3 : moved s1 t1 s2 t2 → moved s2 t2 s3 t3 → moved s1 t1 s3 t3.
Proof.
  intros [] []. split; try lia; [by etrans|by eapply same_room_trans|congruence|]. intros Hf. rewrite mv_fcfs1 by done. auto.
Qed.

Lemma evicted_moved y s t s' t' : evolves s s' → evicted y s t s' t' → moved s t s' t'.
Proof. intros He []. by split. Qed.

Lemma same_room_same s act que hole m l s' : world s act que hole m l → sd_encoder_cache_manager s' = sd_encoder_cache_manager s → same_room s s'.
Proof.
  intros Hw Heq e He. destruct (w_enc Hw) as (e' & He' & Hwf). exists e. rewrite Heq. split_and!; try done. congruence.
Qed.

Lemma pending_running x s t : pending x s t → x ∈ sd_running s.
Proof. intros [_ (i & Hi & _) _]. by eapply list_elem_of_lookup_2. Qed.

Lemma grow_inv s t m l total x r n :
  inv1 s t m l total → pending x s t → sd_heap s !! x = Some r → 0 < n → rq_num_computed_tokens r + n <= num_tokens r →
  ∃ s1 s' r' out m' l',
    on_kv (allocate_slots embeds_digest use_int_hashes r n 0 None (cf_num_lookahead_tokens cfg) 0 false 0 false) s = Ok (s1, (r', out)) ∧
    set_req x (fun _ => r') s1 = Ok (s', tt) ∧ inv1 s' t m' l' total ∧ moved s t s' t ∧ pending x s' t ∧ sd_running s' = sd_running s ∧
    sd_heap s' !! x = Some r' ∧ digests_only r r' ∧ (out ≠ None → rq_num_computed_tokens r + n <= lenZ (held m' (rq_request_id r)) * bs).
Proof.
  intros Hinv Hpd Hr Hn Hle. pose proof (pending_running _ _ _ Hpd) as Hx. pose proof (inv1_notin _ _ _ _ _ _ Hinv Hx) as Hxq. destruct Hinv as [Hw Hsh Hst Hfl Hre Hpp Hun].
  destruct (grow_spec s _ _ m l x r n Hw Hx Hr Hn Hle) as (k' & r' & out & m' & l' & Heq & Hw' & Hev & Hrg & Hcov).
  set (s1 := s <| sd_kv_cache_manager := k' |>) in *. set (s' := s1 <| sd_heap ::= alter (fun _ => r') x |>) in *. exists s1, s', r', out, m', l'.
  destruct Hrg as [(r0 & r1 & Hr0 & Hd & Hheap) (Hrest & Hrun & Hwt & Hsk & Hen) Hheld]. rewrite Hr in Hr0. injection Hr0 as <-.
  assert (sd_heap s' !! x = Some r') as Hx' by (unfold s', s1; cbn; by rewrite lookup_alter_eq, Hr).
  assert (r1 = r') as -> by (rewrite Hheap, lookup_insert_eq in Hx'; congruence).
  assert (heap_kept x s s') as Hk by (intros z Hz; rewrite Hheap, lookup_insert_ne by done; done).
  split_and!; try done; [split|split|destruct Hpd; by split]; try done.
  - destruct Hsh. by split.
  - apply (stepping_kept s t m total s' m' x); try done; [apply (pd_sched _ _ _ Hpd)|]. intros z rz Hne Hz Hrz. apply (Hheld z rz Hne Hrz). rewrite (w_places Hw). in_list.
  - destruct Hfl. by split.
  - intros z rz Hz. change (queues s') with (queues s) in Hz. rewrite Hk by (intros ->; done). by apply Hre.
  - intros z Hz. destruct (Hpp z Hz) as [rz Hrz]. destruct (Hev z rz Hrz) as (rz' & ? & _). by exists rz'.
  - apply (unstarted_kept s s' x _ _ Hun); [done|done|]. intros Hq. apply Hxq. unfold queues. in_list.
  - by eapply same_room_same.
Qed.

Lemma allocate_loop_spec fuel s t m l total x r n b :
  inv1 s t m l total → pending x s t → sd_heap s !! x = Some r → 0 < n → rq_num_computed_tokens r + n <= num_tokens r → (length (sd_running s) <= fuel)%nat →
  ∃ s' t' m' l' out, allocate_loop embeds_digest use_int_hashes iter_ints clock fuel x n b (s, t) = Ok ((s', t'), (out, b)) ∧
    inv1 s' t' m' l' total ∧ moved s t s' t' ∧
    (out ≠ None → pending x s' t' ∧ ∃ r', sd_heap s' !! x = Some r' ∧ digests_only r r' ∧ rq_num_computed_tokens r + n <= lenZ (held m' (rq_request_id r)) * bs).
Proof.
  revert s t m l r. induction fuel as [|fuel IH]; intros s t m l r Hinv Hpd Hr Hn Hle Hf.
  { destruct (pd_place _ _ _ Hpd) as (i & Hi%lookup_lt_Some & _). lia. }
  cbn [allocate_loop]. st_step (self_eq (get_req x) s t s r (get_req_eq s x r Hr)). rewrite bind_get_self, bind_get_step.
  rewrite (w_config (i1_world _ _ _ _ _ Hinv)). destruct (sg_plain _ _ _ _ (i1_step _ _ _ _ _ Hinv)) as (Htc & _).
  destruct (grow_inv s t m l total x r n Hinv Hpd Hr Hn Hle) as (s1 & s2 & r2 & out & m2 & l2 & Hkv & Hset & Hinv2 & Hmv & Hpd2 & Hrun2 & Hr2 & Hd & Hcov).
  st_step (self_eq _ s t s1 _ Hkv). st_step (self_eq _ s1 t s2 tt Hset). destruct out as [blocks|].
  - rewrite Htc. cbn [st_when]. rewrite bind_ret. exists s2, t, m2, l2, (Some blocks). split_and!; try done. intros _. split; [done|]. exists r2. auto.
  - destruct (victim_step s2 t m2 l2 total x r2 n b (fun y b' => if decide (y = x) then mret (None, b') else
      allocate_loop embeds_digest use_int_hashes iter_ints clock fuel x n b') Hinv2 Hpd2) as (y & s3 & t3 & m3 & l3 & Heq & Hinv3 & Hev3 & Hevd).
    rewrite Heq. pose proof (moved_trans _ _ _ _ _ _ Hmv (evicted_moved _ _ _ _ _ Hev3 Hevd)) as Hmv3. destruct (decide (y = x)) as [->|Hne].
    + exists s3, t3, m3, l3, None. by split_and!.
    + destruct (digests_core r r2 Hd) as (_ & _ & _ & Hc & Hnt & Hid & _). destruct (ev_running _ _ _ _ _ Hevd) as (p & Hp & Hrun).
      destruct (IH s3 t3 m3 l3 r2) as (s' & t' & m' & l' & out & Heq' & Hinv' & Hmv' & Hout); try done.
      * apply (ev_pending _ _ _ _ _ Hevd); [congruence|done].
      * rewrite (ev_heap _ _ _ _ _ Hevd) by congruence. done.
      * congruence.
      * rewrite Hrun, length_delete by done. apply lookup_lt_Some in Hp. rewrite Hrun2 in *. lia.
      * exists s', t', m', l', out. split; [done|]. split; [done|]. split; [by eapply moved_trans|]. intros Ho. destruct (Hout Ho) as (Hp' & r' & Hr' & Hd' & Hcov').
        split; [done|]. exists r'. rewrite Hc, Hid in Hcov'. split_and!; try done. by etrans.
Qed.

(** *** Encoder inputs *)

(** The inputs planned for [r] can be allocated. *)
Definition inputs_planned r s (inputs : option (list Z)) (budget : Z) (external : list Z) : Prop :=
  ∃ e p total, sd_encoder_cache_manager s = CacheManager e ∧ plan_ok size r total e p ∧ default [] inputs = ep_inputs p ∧ external = ep_external p ∧ budget = ep_budget p.

Lemma planned_room r s s' inputs budget external : same_room s s' → inputs_planned r s inputs budget external → inputs_planned r s' inputs budget external.
Proof.
  intros Hr (e & p & total & He & Hp & H1' & H2' & H3'). destruct (Hr e He) as (e' & He' & _ & Hd & Hf). exists e', p, total.
  split_and!; try done. destruct Hp. split; try done; [lia|]. by rewrite Hd.
Qed.

Lemma planned_request r r' s inputs budget external :
  rq_mm_features r' = rq_mm_features r → rq_request_id r' = rq_request_id r → inputs_planned r s inputs budget external → inputs_planned r' s inputs budget external.
Proof.
  intros Hf Hi (e & p & total & He & Hp & H1' & H2' & H3'). exists e, p, total. split_and!; try done.
  assert (∀ i, embeds_of r' i = embeds_of r i) as Hemb by (intros i; unfold embeds_of, get_num_encoder_embeds; by rewrite Hf).
  destruct Hp as [(fs & Hfs & Hrest) ? ? ? ? Hsp]. split; try done; [exists fs; split; [|done]; intros j f Hin; rewrite Hf; by apply Hfs|].
  rewrite <- Hsp. f_equal. apply sumZ_ext. intros i _. apply Hemb.
Qed.

Lemma planned_inputs r s inputs budget external i :
  inputs_planned r s inputs budget external → i ∈ default [] inputs → ∃ j f, i = Z.of_nat j ∧ rq_mm_features r !! j = Some f.
Proof.
  intros (e & p & total & _ & Hp & -> & _) Hi. destruct (po_items _ _ _ _ _ Hp) as (fs & Hfs & _ & Hperm & _).
  assert (i ∈ ids fs) as ((j & f) & -> & Hin)%list_elem_of_fmap by (rewrite <- Hperm; apply elem_of_app; by left). exists j, f. split; [done|by apply Hfs].
Qed.

Lemma planned_budget r s inputs budget external : inputs_planned r s inputs budget external → 0 <= budget.
Proof. intros (e & p & total & _ & [] & _ & _ & ->). done. Qed.

Lemma plan_encoder_spec s act que hole m l t r c n :
  world s act que hole m l → req_ok r → 0 <= n → 0 <= sp_encoder_compute_budget t →
  ∃ e inputs n' b external, let s' := s <| sd_encoder_cache_manager := CacheManager e |> in
    plan_encoder has_cache_item r c n (s, t) = Ok ((s', t), (inputs, n', b, external)) ∧ world s' act que hole m l ∧
    0 <= n' <= n ∧ (has_encoder_inputs r = false → n' = n) ∧ inputs_planned r s' inputs b external.
Proof.
  intros Hw Hok Hn Hb. destruct (w_enc Hw) as (e & He & Hwf). destruct (rk_inputs Hok) as [Hsz Hpl]. unfold plan_encoder. rewrite bind_get_self, bind_get_step.
  destruct (has_encoder_inputs r).
  - set (sh := if cf_use_eagle (sd_config s) then 1 else 0). assert (0 <= sh <= 1) as Hsh by (unfold sh; case_match; lia).
    destruct (try_schedule_spec size capacity (cf_disable_chunked_mm_input (sd_config s)) has_cache_item r e c sh n _ Hwf Hsz Hpl Hsh Hn Hb)
      as (e' & inputs & n' & b' & ext & hs & Heq & Hwf' & _ & Hp & Hn' & _). exists e', (Some inputs), n', b', ext. cbn zeta.
    split_and!; try done; try lia; [|by apply world_set_enc|].
    + rewrite <- He in Heq. by st_step (self_eq _ s t _ _ (on_enc_eq _ s _ _ Heq)).
    + exists e', (mkEncoderPlan inputs ext hs (occupied size hs) n' b'), (sp_encoder_compute_budget t). by split_and!.
  - exists e, None, n, (sp_encoder_compute_budget t), []. assert (s <| sd_encoder_cache_manager := CacheManager e |> = s) as -> by (rewrite <- He; by destruct s). cbn zeta.
    split_and!; try done. exists e, (mkEncoderPlan [] [] ∅ 0 n (sp_encoder_compute_budget t)), (sp_encoder_compute_budget t). split_and!; try done.
    pose proof (ew_slots _ _ _ Hwf). split; cbn; try done; [|lia]. exists []. split_and!; try done; [by intros ? ? ?%elem_of_nil|apply NoDup_nil_2].
Qed.

Lemma iter_encoder r (xs : list Z) s t e' :
  st_iter (en_allocate r) xs (sd_encoder_cache_manager s) = Ok (e', tt) →
  st_iter (fun i => self (on_enc (en_allocate r i))) xs (s, t) = Ok ((s <| sd_encoder_cache_manager := e' |>, t), tt).
Proof.
  revert s; induction xs as [|i xs IH]; intros s; cbn [st_iter]; [intros [= <-]; by destruct s|]. intros (e1 & [] & He1 & He2)%st_bind_Ok.
  st_step (self_eq _ s t _ _ (on_enc_eq _ s _ _ He1)). by rewrite (IH (s <| sd_encoder_cache_manager := e1 |>)).
Qed.

(** The step after the inputs are allocated. *)
Definition with_inputs r (inputs : option (list Z)) (budget : Z) t : Step :=
  match inputs with
  | Some (i :: xs) => t <| sp_scheduled_encoder_inputs ::= od_set (rq_request_id r) (i :: xs) |> <| sp_encoder_compute_budget := budget |>
  | _ => t
  end.

Lemma allocate_encoder_spec s act que hole m l t r inputs b external :
  world s act que hole m l → req_ok r → inputs_planned r s inputs b external →
  ∃ e, let s' := s <| sd_encoder_cache_manager := CacheManager e |> in
    allocate_encoder r inputs b external (s, t) = Ok ((s', with_inputs r inputs b t), tt) ∧ world s' act que hole m l.
Proof.
  intros Hw Hok (e & p & total & He & Hp & Hi & -> & ->). destruct (rk_inputs Hok) as [Hsz Hpl]. assert (ec_wf size capacity e) as Hwf.
  { destruct (w_enc Hw) as (e' & He' & Hwf). congruence. }
  destruct (plan_allocates size capacity r e total p Hwf Hsz Hp) as (e1 & e2 & He1 & He2 & _ & Hwf2 & _). rewrite <- He in He1.
  exists e2. cbn zeta. split; [|by apply world_set_enc].
  unfold allocate_encoder. destruct inputs as [[|i xs]|]; cbn [default option_fmap from_option] in Hi; rewrite <- Hi in He1; try (cbn in He1; injection He1 as He1;
    rewrite bind_ret; rewrite <- He1 in He2; apply (iter_encoder r (ep_external p) s t _ He2)).
  rewrite st_bind_assoc, bind_set_step, st_bind_assoc. st_step (iter_encoder r (i :: xs) s (t <| sp_scheduled_encoder_inputs ::= od_set (rq_request_id r) (i :: xs) |>) _ He1).
  rewrite bind_set_step. etrans; [apply iter_encoder; exact He2|reflexivity].
Qed.

(** *** A request gets tokens *)

Record joins x r (n : Z) (blocks : KVCacheBlocks) t t' : Prop := {
  jn_sched : sched t' ≡ₚ x :: sched t;
  jn_same : sp_tokencake t' = sp_tokencake t ∧ sp_reservation_deferred t' = sp_reservation_deferred t ∧ sp_agent_order t' = sp_agent_order t ∧
    sp_scheduled_spec_decode_tokens t' = sp_scheduled_spec_decode_tokens t;
  jn_tokens : sp_num_scheduled_tokens t' = od_set (rq_request_id r) n (sp_num_scheduled_tokens t);
  jn_budget : sp_token_budget t' = sp_token_budget t - n;
  jn_blocks : sp_req_to_new_blocks t' = od_set (rq_request_id r) blocks (sp_req_to_new_blocks t);
  jn_inputs : sp_scheduled_encoder_inputs t' = sp_scheduled_encoder_inputs t ∨
    ∃ inputs, sp_scheduled_encoder_inputs t' = od_set (rq_request_id r) inputs (sp_scheduled_encoder_inputs t) ∧
      ∀ i, i ∈ inputs → ∃ j f, i = Z.of_nat j ∧ rq_mm_features r !! j = Some f;
  jn_encoder : 0 <= sp_encoder_compute_budget t';
}.

Lemma stepping_joins s t m total s' t' m' x r n blocks :
  stepping s t m total → joins x r n blocks t t' → 0 < n <= sp_token_budget t → x ∉ sched t → sd_heap s' !! x = Some r →
  rq_num_computed_tokens r + n <= num_tokens r → rq_num_computed_tokens r + n <= lenZ (held m' (rq_request_id r)) * bs →
  (∀ z q, z ∈ sched t → sd_heap s' !! z = Some q → sd_heap s !! z = Some q ∧ rq_request_id q ≠ rq_request_id r ∧ held m' (rq_request_id q) = held m (rq_request_id q)) →
  (∀ z, z ∈ sched t → is_Some (sd_heap s' !! z)) →
  (∀ z, z ∈ x :: sched t → z ∈ sd_running s') → stepping s' t' m' total.
Proof.
  intros [] [] Hn Hx Hr Hle Hcov Hoth Hsome Hrun. destruct sg_plain0 as (P1 & P2 & P3 & P4). destruct jn_same0 as (S1' & S2' & S3' & S4'). destruct sg_keys0 as (K1 & K2 & K3).
  assert (rq_request_id r ∉ (sp_num_scheduled_tokens t).*1) as Hnew.
  { intros (z & q & Hz & Hq & Hid)%sg_owner0. destruct (Hsome z Hz) as [q' Hq']. destruct (Hoth z q' Hz Hq') as (Hq2 & Hne & _). congruence. }
  assert (od_get (rq_request_id r) (sp_scheduled_encoder_inputs t) = None) as Hnone by (apply od_get_None; intros Hin; by apply Hnew, sg_inputs0).
  split.
  - split_and!; congruence.
  - lia.
  - rewrite jn_tokens0, od_set_new_sum by done. lia.
  - done.
  - rewrite jn_tokens0, jn_blocks0. split_and!; [by apply od_wf_set|by apply od_wf_set|]. destruct jn_inputs0 as [->|(ins & -> & _)]; [done|by apply od_wf_set].
  - rewrite jn_sched0. by apply NoDup_cons.
  - intros z. rewrite jn_sched0. apply Hrun.
  - intros z q. rewrite jn_sched0. intros [->|Hz]%elem_of_cons Hq.
    + rewrite Hr in Hq. injection Hq as <-. exists n, blocks. rewrite jn_tokens0, jn_blocks0, !od_get_set, !decide_True by done. split_and!; try (done || lia).
      intros ins i. destruct jn_inputs0 as [->|(ins' & -> & Hins)]; [congruence|]. rewrite od_get_set, decide_True by done. intros [= <-]. apply Hins.
    + destruct (Hoth z q Hz Hq) as (Hq' & Hne & Hh). destruct (sg_items0 z q Hz Hq') as (n' & bl & I1 & I2 & I3 & I4 & I5 & I6). exists n', bl.
      rewrite jn_tokens0, jn_blocks0, Hh, !od_get_set, !decide_False by done. split_and!; try done.
      destruct jn_inputs0 as [->|(ins' & -> & Hins)]; [done|]. by rewrite od_get_set, decide_False.
  - intros rid. rewrite jn_tokens0, elem_of_od_keys_set. intros [->|Hin]; [exists x, r; rewrite jn_sched0; split_and!; try done; left|].
    destruct (sg_owner0 rid Hin) as (z & q & Hz & Hq & Hid). destruct (Hsome z Hz) as [q' Hq']. destruct (Hoth z q' Hz Hq') as (Hq2 & _).
    exists z, q'. rewrite jn_sched0. split_and!; [by right|done|congruence].
  - intros rid. rewrite jn_tokens0, elem_of_od_keys_set. destruct jn_inputs0 as [->|(ins & -> & _)]; [auto|]. rewrite elem_of_od_keys_set. intros [->|?]; auto.
Qed.

(** What [joins] needs of the step that has the tokens but not the inputs. *)
Lemma joins_inputs x r n blocks t t' s inputs b ext :
  joins x r n blocks t t' → sp_scheduled_encoder_inputs t' = sp_scheduled_encoder_inputs t → inputs_planned r s inputs b ext → joins x r n blocks t (with_inputs r inputs b t').
Proof.
  intros [] Hin Hp. pose proof (planned_budget _ _ _ _ _ Hp) as Hb. destruct inputs as [[|i xs]|]; [by split; auto| |by split; auto]. split; try done. cbn. right.
  exists (i :: xs). split; [by rewrite Hin|]. intros i'. apply (planned_inputs r s (Some (i :: xs)) b ext i' Hp).
Qed.

Lemma inv1_others s t m l total x r : inv1 s t m l total → x ∈ sd_running s → x ∉ sched t → sd_heap s !! x = Some r →
  ∀ z q, z ∈ sched t → sd_heap s !! z = Some q → rq_request_id q ≠ rq_request_id r.
Proof.
  intros Hinv Hx Hn Hr z q Hz Hq. pose proof (sg_running _ _ _ _ (i1_step _ _ _ _ _ Hinv) z Hz). apply (world_distinct z x q r (i1_world _ _ _ _ _ Hinv)); try done; [in_list..|].
  by intros ->.
Qed.

Lemma with_inputs_same r inputs b t : sp_req_index (with_inputs r inputs b t) = sp_req_index t ∧ sp_scheduled_running_reqs (with_inputs r inputs b t) = sp_scheduled_running_reqs t ∧
  sp_scheduled_new_reqs (with_inputs r inputs b t) = sp_scheduled_new_reqs t ∧ sp_scheduled_resumed_reqs (with_inputs r inputs b t) = sp_scheduled_resumed_reqs t ∧
  sp_preempted_reqs (with_inputs r inputs b t) = sp_preempted_reqs t ∧ sp_step_skipped_waiting (with_inputs r inputs b t) = sp_step_skipped_waiting t.
Proof. by destruct inputs as [[|i xs]|]. Qed.

Lemma record_running_spec s t m l total x r n blocks inputs b ext :
  inv1 s t m l total → pending x s t → sd_heap s !! x = Some r → 0 < n <= sp_token_budget t → rq_num_computed_tokens r + n <= num_tokens r →
  rq_num_computed_tokens r + n <= lenZ (held m (rq_request_id r)) * bs → inputs_planned r s inputs b ext →
  ∃ s' t', record_running x false n blocks inputs b ext (s, t) = Ok ((s', t'), tt) ∧ inv1 s' t' m l total ∧ sp_req_index t' = sp_req_index t + 1 ∧
    sd_running s' = sd_running s ∧ sd_heap s' = sd_heap s ∧ rest_of s' = rest_of s ∧ sched t' ≡ₚ x :: sched t.
Proof.
  intros Hinv Hpd Hr Hn Hle Hcov Hpl. pose proof (pending_running _ _ _ Hpd) as Hx. destruct (world_object x (i1_world _ _ _ _ _ Hinv)) as (r' & Hr' & _ & _ & Hok & _); [in_list|].
  rewrite Hr in Hr'. injection Hr' as <-. pose proof (inv1_others _ _ _ _ _ x r Hinv Hx (pd_sched _ _ _ Hpd) Hr) as Hoth. destruct Hinv as [Hw Hsh Hst Hfl Hre Hpp Hun].
  set (t1 := t <| sp_scheduled_running_reqs ::= fun l => l ++ [x] |> <| sp_req_to_new_blocks ::= od_set (rq_request_id r) blocks |>
    <| sp_num_scheduled_tokens ::= od_set (rq_request_id r) n |> <| sp_token_budget ::= fun b => b - n |> <| sp_req_index ::= Z.succ |>).
  assert (record_running x false n blocks inputs b ext (s, t) = allocate_encoder r inputs b ext (s, t1)) as ->.
  { unfold record_running. st_step (self_eq (get_req x) s t s r (get_req_eq s x r Hr)). rewrite bind_set_step. cbn [st_when]. rewrite bind_ret, (rk_spec Hok), bool_decide_true by done.
    cbn [negb st_when]. by rewrite bind_ret. }
  assert (sp_scheduled_running_reqs t1 = sp_scheduled_running_reqs t ++ [x] ∧ sp_req_index t1 = sp_req_index t + 1 ∧ sp_preempted_reqs t1 = sp_preempted_reqs t ∧
    sp_scheduled_new_reqs t1 = sp_scheduled_new_reqs t ∧ sp_scheduled_resumed_reqs t1 = sp_scheduled_resumed_reqs t ∧ sp_scheduled_encoder_inputs t1 = sp_scheduled_encoder_inputs t ∧
    sp_step_skipped_waiting t1 = sp_step_skipped_waiting t ∧ joins x r n blocks t t1) as (Hsr & Hix & Hpre & Hne & Hres & Hin & Hsk & Hj).
  { split_and!; try done. split; try done; [|by left|apply (sg_encoder _ _ _ _ Hst)]. unfold sched. cbn. rewrite <- app_assoc. symmetry. apply Permutation_middle. }
  revert Hsr Hix Hpre Hne Hres Hin Hsk Hj. generalize t1. clear t1. intros t1 Hsr Hix Hpre Hne Hres Hin Hsk Hj.
  destruct (allocate_encoder_spec s _ _ _ m l t1 r inputs b ext Hw Hok Hpl) as (e & Heq & Hw'). pose proof (joins_inputs _ _ _ _ _ _ _ _ _ _ Hj Hin Hpl) as Hj'.
  destruct (with_inputs_same r inputs b t1) as (W1 & W2 & W3 & W4 & W5 & W6).
  exists (s <| sd_encoder_cache_manager := CacheManager e |>), (with_inputs r inputs b t1). split; [done|]. revert W1 W2 W3 W4 W5 W6 Hj'. generalize (with_inputs r inputs b t1).
  intros t2 W1 W2 W3 W4 W5 W6 Hj'. split; [|split_and!; try done; [congruence|apply (jn_sched _ _ _ _ _ _ Hj')]]. split.
  - done.
  - destruct Hsh. by split.
  - apply (stepping_joins s t m total _ t2 m x r n blocks Hst Hj'); try done; [apply (pd_sched _ _ _ Hpd)|intros z q Hz Hq; split_and!; [exact Hq|by apply (Hoth z q)|done]|..].
    + intros z Hz. destruct (world_object z Hw) as (q & Hq & _); [|by exists q]. apply (sg_running _ _ _ _ Hst) in Hz. in_list.
    + intros z [->|Hz]%elem_of_cons; [done|by apply (sg_running _ _ _ _ Hst)].
  - destruct Hfl as [(F1 & F2 & F5) F3 F4]. split; [rewrite W3, W4, W6, Hne, Hres, Hsk; done|rewrite W1, W2, Hsr, Hix, length_app; cbn; lia|]. intros z. rewrite W1, W2, Hsr, Hix, elem_of_app, list_elem_of_singleton.
    intros [Hz| ->]; [destruct (F4 z Hz) as (i & ? & ?)|destruct (pd_place _ _ _ Hpd) as (i & ? & ?)]; exists i; split; try done; lia.
  - by rewrite W5, Hpre.
  - rewrite W5, Hpre. apply Hpp.
  - done.
Qed.

(** ** The loop over the running requests *)

(** What holds between the states of a step. *)
Record advanced s t s' t' : Prop := {
  ad_evolves : evolves s s';
  ad_rest : rest_of s' = rest_of s;
  ad_fcfs : cf_policy cfg = FCFS → ∀ x, x ∈ sched t → x ∈ sched t';
}.

Lemma advanced_refl s t : advanced s t s t.
Proof. by split. Qed.
Lemma advanced_trans s1 t1 s2 t2 s3 t3 : advanced s1 t1 s2 t2 → advanced s2 t2 s3 t3 → advanced s1 t1 s3 t3.
Proof. intros [] []. split; [by etrans|congruence|auto]. Qed.

Lemma inv1_enc s t m l total e :
  inv1 s t m l total → world (s <| sd_encoder_cache_manager := CacheManager e |>) (sd_running s) (queues s) [] m l → inv1 (s <| sd_encoder_cache_manager := CacheManager e |>) t m l total.
Proof. intros [_ [? ?] [] [] ? ? ?] Hw. by split. Qed.

Lemma inv1_next s t m l total : inv1 s t m l total → inv1 s (t <| sp_req_index ::= Z.succ |>) m l total.
Proof.
  intros [Hw Hsh Hst [F1 F2 F3] Hre Hpp Hun]. split; try done; [by destruct Hst|]. split; try done; cbn; [lia|]. intros y Hy. destruct (F3 y Hy) as (i & ? & ?). exists i. split; [done|lia].
Qed.

(** The request at the index, and the tokens it asks for. *)
Lemma running_head s t m l total :
  inv1 s t m l total → sp_req_index t < lenZ (sd_running s) → 0 < sp_token_budget t →
  ∃ x r, py_index (sd_running s) (sp_req_index t) = Ok x ∧ sd_heap s !! x = Some r ∧ pending x s t ∧ req_ok r ∧
    let n := Z.min (running_tokens s t r) (cf_max_model_len cfg - 1 - rq_num_computed_tokens r) in
    0 <= n <= sp_token_budget t ∧ rq_num_computed_tokens r + n <= num_tokens r.
Proof.
  intros [Hw Hsh Hst [(F1 & F2 & _) F3 F4] Hre Hpp Hun] Hlt Hb. assert (0 <= sp_req_index t) as Hpos by lia.
  destruct (lookup_lt_is_Some_2 (sd_running s) (Z.to_nat (sp_req_index t))) as [x Hx]; [lia|]. pose proof (list_elem_of_lookup_2 _ _ _ Hx) as Hin.
  destruct (world_object x Hw) as (r & Hr & _ & _ & Hok & Hrun & _); [in_list|]. destruct (Hrun Hin) as (_ & Hc & _). exists x, r. split_and!; try done.
  - rewrite <- (Z2Nat.id (sp_req_index t)) at 1 by done. by rewrite py_index_nonneg, Hx.
  - split; [|exists (Z.to_nat (sp_req_index t)); split; [done|lia]|done]. unfold sched. rewrite F1, F2, !app_nil_r. intros (i & Hi & Hlt')%F4.
    pose proof (world_nodup Hw) as Hnd. apply NoDup_app in Hnd as (Hnd & _). rewrite (NoDup_lookup _ _ _ x Hnd Hi Hx) in Hlt'. lia.
  - unfold running_tokens, num_tokens_with_spec. rewrite (rk_spec Hok), (rk_placeholders Hok). change (lenZ (rq_all_token_ids r)) with (num_tokens r). pose proof (rk_room Hok).
    destruct (Z.ltb_spec 0 (cf_long_prefill_token_threshold (sd_config s))); cbn [andb length]; [destruct (Z.ltb_spec (cf_long_prefill_token_threshold (sd_config s)) (num_tokens r + Z.of_nat 0 + 0 - rq_num_computed_tokens r))|]; lia.
Qed.

Lemma running_step_spec s t m l total :
  inv1 s t m l total → sp_req_index t < lenZ (sd_running s) → 0 < sp_token_budget t →
  ∃ s' t' m' l' go, running_step embeds_digest use_int_hashes iter_ints clock has_cache_item (s, t) = Ok ((s', t'), go) ∧ inv1 s' t' m' l' total ∧
    advanced s t s' t' ∧ (go = true → lenZ (sd_running s') - sp_req_index t' < lenZ (sd_running s) - sp_req_index t).
Proof.
  intros Hinv Hlt Hb. destruct (running_head s t m l total Hinv Hlt Hb) as (x & r & Hx & Hr & Hpd & Hok & Hn & Hle). pose proof (i1_world _ _ _ _ _ Hinv) as Hw.
  destruct (sg_plain _ _ _ _ (i1_step _ _ _ _ _ Hinv)) as (Htc & _). cbn zeta in Hn. unfold running_step. rewrite bind_get_self, bind_get_step, (st_bind_lift _ _ _ _ Hx).
  st_step (self_eq (get_req x) s t s r (get_req_eq s x r Hr)). rewrite (rk_placeholders Hok). cbn [Z.ltb Z.compare andb]. cbn zeta.
  unfold limits_prefill. rewrite Htc. cbn [andb]. rewrite andb_false_r, bind_ret, (w_config Hw), (pc_mamba _ Hcfg). set (n := Z.min _ _) in *.
  destruct (plan_encoder_spec s _ _ _ m l t r (rq_num_computed_tokens r) n Hw Hok (proj1 Hn) (sg_encoder _ _ _ _ (i1_step _ _ _ _ _ Hinv)))
    as (e & inputs & n' & b & ext & Hpe & Hw1 & Hn' & _ & Hpl). st_step Hpe. set (s1 := s <| sd_encoder_cache_manager := CacheManager e |>) in *.
  rewrite (st_bind_lift _ n') by done. pose proof (inv1_enc s t m l total e Hinv Hw1) as Hinv1.
  destruct (Z.eqb_spec n' 0) as [_|Hne].
  { rewrite bind_set_step. eexists s1, _, m, l, true. split; [done|]. split; [by apply inv1_next|]. split; [split; [by apply evolves_heap|done|done]|]. intros _. cbn. lia. }
  rewrite bind_ret. cbn [negb]. rewrite bind_get_self.
  destruct (allocate_loop_spec (S (length (sd_running s1))) s1 t m l total x r n' b Hinv1) as (s2 & t2 & m2 & l2 & out & Hal & Hinv2 & Hmv & Hout); try done; try lia.
  { by destruct Hpd. }
  st_step Hal. destruct Hmv as [Mev Mro Mre Mbu Men Mme Mfc].
  destruct out as [blocks|].
  2: { exists s2, t2, m2, l2, false. split; [done|]. split; [done|]. split; [split; try done|done]. intros Hpol z. by rewrite Mfc. }
  destruct (Hout ltac:(done)) as (Hpd2 & r2 & Hr2 & Hd & Hcov). destruct (digests_core r r2 Hd) as (_ & _ & _ & Hc2 & Hnt2 & Hid2 & Hmm2).
  destruct (record_running_spec s2 t2 m2 l2 total x r2 n' blocks inputs b ext Hinv2 Hpd2 Hr2) as (s3 & t3 & Hrec & Hinv3 & Hix3 & Hrun3 & Hheap3 & Hrest3 & Hperm3);
    rewrite ?Hc2, ?Hnt2, ?Hid2; try done; try lia; [by eapply planned_request, planned_room|].
  st_step Hrec. exists s3, t3, m2, l2, true. split; [done|]. split; [done|]. split; [|intros _; rewrite Hix3, Hrun3; change (sd_running s) with (sd_running s1); lia].
  split; [etrans; [exact Mev|by apply evolves_heap]|by rewrite Hrest3, Mre|]. intros Hpol z Hz. rewrite Hperm3, Mfc by done. by right.
Qed.

Lemma running_loop_spec fuel s t m l total :
  inv1 s t m l total → lenZ (sd_running s) - sp_req_index t <= Z.of_nat fuel →
  ∃ s' t' m' l', running_loop embeds_digest use_int_hashes iter_ints clock has_cache_item fuel (s, t) = Ok ((s', t'), tt) ∧ inv1 s' t' m' l' total ∧ advanced s t s' t'.
Proof.
  revert s t m l. induction fuel as [|fuel IH]; intros s t m l Hinv Hf; cbn [running_loop]; rewrite bind_get_self, bind_get_step.
  - destruct (Z.ltb_spec (sp_req_index t) (lenZ (sd_running s))); [lia|]. exists s, t, m, l. split; [done|]. split; [done|apply advanced_refl].
  - destruct (Z.ltb_spec (sp_req_index t) (lenZ (sd_running s))) as [Hlt|]; cbn [andb]; [|exists s, t, m, l; split; [done|]; split; [done|apply advanced_refl]].
    destruct (Z.ltb_spec 0 (sp_token_budget t)) as [Hb|]; [|exists s, t, m, l; split; [done|]; split; [done|apply advanced_refl]].
    destruct (running_step_spec s t m l total Hinv Hlt Hb) as (s1 & t1 & m1 & l1 & go & Heq & Hinv1 & Had & Hgo). st_step Heq. destruct go.
    + destruct (IH s1 t1 m1 l1 Hinv1) as (s' & t' & m' & l' & Heq' & Hinv' & Had'); [specialize (Hgo eq_refl); lia|].
      exists s', t', m', l'. split; [done|]. split; [done|]. by eapply advanced_trans.
    + by exists s1, t1, m1, l1.
Qed.

(** ** The loop over the waiting requests *)

(** No request was preempted; those set aside in this step are in a queue of their own. *)
Record inv2 s t m l total : Prop := {
  i2_world : world s (sd_running s) (queues s ++ members (sp_step_skipped_waiting t)) [] m l;
  i2_shape : shape s;
  i2_step : stepping s t m total;
  i2_rested : rested s (queues s ++ members (sp_step_skipped_waiting t)) [];
  i2_resumed : ∀ x r, x ∈ sp_scheduled_resumed_reqs t → sd_heap s !! x = Some r → rq_request_id r ∉ sd_prev_step_scheduled_req_ids s;
  i2_fresh : sp_preempted_reqs t = [];
  i2_skipped : unstarted s (members (sd_skipped_waiting s) ++ members (sp_step_skipped_waiting t));
}.

(** The request that is tried, the first one of the queue [q]. *)
Record candidate s t m l total x (q : queue_id) r : Prop := {
  cd_inv : inv2 s t m l total;
  cd_head : peek_request (get_queue q s) = Ok x;
  cd_heap : sd_heap s !! x = Some r;
  cd_status : rq_status r = WAITING ∨ rq_status r = Request.PREEMPTED;
}.

Lemma peek_in (w : RequestQueue Z) x : peek_request w = Ok x → ∀ lt, ∃ w', pop_request lt w = Ok (x, w') ∧ members w ≡ₚ x :: members w' ∧ policy_of w' = policy_of w.
Proof.
  intros Hp lt. destruct (head_members lt w) as (y & w' & Hp' & Hpop & Hperm & Hpol); [intros Hn; by destruct w as [[]|[]]|]. rewrite Hp in Hp'. injection Hp' as <-. eauto.
Qed.

Lemma head_queued s (q : queue_id) x : peek_request (get_queue q s) = Ok x → x ∈ queues s.
Proof. intros Hp. destruct (peek_in _ x Hp (fun _ _ => false)) as (w' & _ & Hperm & _). unfold queues. destruct q; cbn in Hperm; rewrite Hperm; in_list. Qed.

Lemma select_spec s : queue_bool (sd_waiting s) || queue_bool (sd_skipped_waiting s) = true →
  ∃ (q : queue_id) x, select_waiting_queue_for_scheduling s = Ok (Some q) ∧ peek_request (get_queue q s) = Ok x.
Proof.
  intros Hb. unfold select_waiting_queue_for_scheduling.
  assert (∀ w : RequestQueue Z, queue_bool w = true → ∃ x, peek_request w = Ok x) as Hpk.
  { intros w Hw%bool_members. destruct (head_members (fun _ _ => false) w Hw) as (x & _ & Hx & _). by exists x. }
  destruct (queue_bool (sd_waiting s)) eqn:Hw; [destruct (Hpk _ Hw) as (x & Hx)|]; (destruct (queue_bool (sd_skipped_waiting s)) eqn:Hk; [destruct (Hpk _ Hk) as (y & Hy)|]); try done;
    destruct (cf_policy (sd_config s)); cbn [andb]; try (by exists SkippedQueue, y); try (by exists WaitingQueue, x).
  rewrite Hx, Hy. cbn [mbind res_bind]. destruct (heap_lt _ _ _); [by exists WaitingQueue, x|by exists SkippedQueue, y].
Qed.

Lemma pop_head_spec s (q : queue_id) x : peek_request (get_queue q s) = Ok x → shape s →
  ∃ s', pop_head q s = Ok (s', tt) ∧ queues s ≡ₚ x :: queues s' ∧ core_of s' = core_of s ∧ rest_of s' = rest_of s ∧ sd_running s' = sd_running s ∧ shape s' ∧
    (∀ y, y ∈ members (sd_skipped_waiting s') → y ∈ members (sd_skipped_waiting s)).
Proof.
  intros Hp [[S1 S2] S3]. destruct (peek_in _ x Hp (heap_lt (sd_heap s))) as (w' & Hpop & Hperm & Hpol). unfold pop_head, on_queue. rewrite Hpop. cbn [mbind res_bind].
  unfold queues. eexists. split; [done|]. destruct q; cbn in *; (split; [rewrite Hperm; cbn; by rewrite ?Permutation_middle|]); split_and!; try done; try (split; [split; cbn; congruence|done]). intros y Hy. rewrite Hperm. by right.
Qed.

Lemma stepping_heap s t m total s' : stepping s t m total → (∀ z, z ∈ sched t → sd_heap s' !! z = sd_heap s !! z) → sd_running s' = sd_running s → stepping s' t m total.
Proof.
  intros [] Hh Hr. split; try done; [by rewrite Hr|..].
  - intros x r Hx. rewrite Hh by done. by apply sg_items0.
  - intros rid Hrid. destruct (sg_owner0 rid Hrid) as (x & r & ? & ? & ?). exists x, r. by rewrite Hh.
Qed.

Lemma inv2_notin s t m l total x : inv2 s t m l total → x ∈ queues s ++ members (sp_step_skipped_waiting t) → x ∉ sd_running s ∧ x ∉ sched t.
Proof.
  intros Hinv Hx. assert (x ∉ sd_running s) as Hn.
  { pose proof (world_nodup (i2_world _ _ _ _ _ Hinv)) as Hnd. rewrite app_nil_r in Hnd. apply NoDup_app in Hnd as (_ & Hnd & _). intros Hr. by apply (Hnd x Hr). }
  split; [done|]. by intros ?%(sg_running _ _ _ _ (i2_step _ _ _ _ _ Hinv)).
Qed.

(** A request of a queue changes. *)
Lemma inv2_set s t m l total x r (f : req → req) :
  inv2 s t m l total → x ∈ queues s → sd_heap s !! x = Some r → rq_oid (f r) = rq_oid r → rq_request_id (f r) = rq_request_id r → req_ok (f r) → wait_ok (f r) →
  (rq_status (f r) = Request.PREEMPTED → rq_status r = Request.PREEMPTED) → inv2 (s <| sd_heap ::= alter f x |>) t m l total.
Proof.
  intros Hinv Hx Hr Ho Hi Hok Hwt Hst. destruct (inv2_notin s t m l total x Hinv) as [Hnr Hns]; [in_list|]. destruct Hinv as [Iw Is It Ir Iu If Ik]. split; try done.
  - by apply (world_set x r f Iw Hr).
  - by destruct Is.
  - apply (stepping_heap s); [done| |done]. intros z Hz. cbn. rewrite lookup_alter_ne by (intros ->; done). done.
  - intros z rz Hz. cbn. destruct (decide (x = z)) as [<-|Hne]; [|rewrite lookup_alter_ne by done; by apply Ir].
    rewrite lookup_alter_eq, Hr. cbn. intros [= <-] Hp. rewrite Hi. apply (Ir x r Hz Hr). by apply Hst.
  - intros z rz Hz. cbn. rewrite lookup_alter_ne; [by apply Iu|]. intros ->. apply Hns. unfold sched. in_list.
  - intros z rz Hz. cbn. destruct (decide (x = z)) as [<-|Hne]; [|rewrite lookup_alter_ne by done; by apply Ik]. rewrite lookup_alter_eq, Hr. intros [= <-] Hsta.
    apply (Ik x r Hz Hr). right. apply Hst. destruct Hsta as [Hsta|?]; [|done]. destruct Hwt as [[?|[?|?]] _]; congruence.
Qed.

(** The first request of a queue is set aside. *)
Lemma set_aside s t m l total x (q : queue_id) :
  inv2 s t m l total → peek_request (get_queue q s) = Ok x → unstarted s [x] →
  ∃ s' t', (∀ B (f : unit → run B), (self (pop_head q) ≫= fun _ => skip_prepend x ≫= f) (s, t) = f tt (s', t')) ∧ inv2 s' t' m l total ∧ advanced s t s' t' ∧
    lenZ (queues s') < lenZ (queues s).
Proof.
  intros Hinv Hp Hx. destruct Hinv as [Iw Is It Ir Iu If Ik]. destruct (pop_head_spec s q x Hp Is) as (s' & Heq & Hq & Hc & Hre & Hru & Hsh & Hsub).
  destruct (prepend_members (heap_lt (sd_heap s')) x (sp_step_skipped_waiting t)) as [Hm _]. set (t' := t <| sp_step_skipped_waiting ::= prepend_request (heap_lt (sd_heap s')) x |>).
  assert (queues s' ++ members (sp_step_skipped_waiting t') ≡ₚ queues s ++ members (sp_step_skipped_waiting t)) as Hperm.
  { cbn. rewrite Hm, Hq. symmetry. apply Permutation_middle. }
  exists s', t'. split; [intros B f; by st_step (self_eq (pop_head q) s t s' tt Heq)|]. injection Hc as C1 C2 C3 C4 C5 C6 C7 C8.
  assert (sd_prev_step_scheduled_req_ids s' = sd_prev_step_scheduled_req_ids s) as Rp by by injection Hre. split; [split|].
  - rewrite Hru. apply (world_eq s s'); [|unfold core_of; congruence]. by apply (world_perm _ _ Iw).
  - done.
  - assert (stepping s t' m total) as It' by by destruct It. apply (stepping_heap s); [done|by rewrite C8|done].
  - intros z rz. rewrite Hperm, C8, Rp. apply Ir.
  - intros z rz Hz. rewrite C8, Rp. by apply Iu.
  - done.
  - intros z rz Hz. rewrite C8. revert Hz. cbn. rewrite Hm, elem_of_app, elem_of_cons. intros [Hz|[->|Hz]]; [apply Ik; in_list|by apply Hx; left|apply Ik; in_list].
  - split; [split; [by apply evolves_heap|done|done]|rewrite Hq; cbn; lia].
Qed.

Lemma wait_grammar r : wait_ok r → is_blocked_waiting_status (rq_status r) = true → rq_status r = WAITING_FOR_STRUCTURED_OUTPUT_GRAMMAR.
Proof. intros [[Hst|[Hst|Hst]] _]; by rewrite Hst. Qed.

Lemma inv2_order s t m l total : inv2 s t m l total → inv2 s (t <| sp_agent_order := None |>) m l total.
Proof. intros [Iw Is [(P1 & P2 & P3 & P4) ? ? ? ? ? ? ? ? ?] Ir Iu If Ik]. by split. Qed.

Lemma next_request_spec keep s t m l total :
  inv2 s t m l total → queue_bool (sd_waiting s) || queue_bool (sd_skipped_waiting s) = true →
  (∃ s' t', next_request embeds_digest use_int_hashes keep (s, t) = Ok ((s', t'), Continue) ∧ inv2 s' t' m l total ∧ advanced s t s' t' ∧ lenZ (queues s') < lenZ (queues s)) ∨
  (∃ s' x (q : queue_id) r, next_request embeds_digest use_int_hashes keep (s, t) = Ok ((s', t), Go (x, q)) ∧ candidate s' t m l total x q r ∧ advanced s t s' t ∧ queues s' = queues s ∧ sd_running s' = sd_running s).
Proof.
  intros Hinv Hb. destruct (select_spec s Hb) as (q & x & Hsel & Hp). pose proof (head_queued _ _ _ Hp) as Hx. pose proof (i2_world _ _ _ _ _ Hinv) as Hw.
  destruct (world_object x Hw) as (r & Hr & Ho & _ & Hok & _ & Hwt); [in_list|]. specialize (Hwt ltac:(in_list)).
  destruct (sg_plain _ _ _ _ (i2_step _ _ _ _ _ Hinv)) as (Htc & _). unfold next_request. rewrite bind_get_self, (st_bind_lift _ _ _ _ Hsel).
  rewrite (st_bind_lift (or_raise AssertionError (Some q)) q) by done. rewrite (st_bind_lift _ _ _ _ Hp).
  st_step (self_eq (get_req x) s t s r (get_req_eq s x r Hr)). destruct (is_blocked_waiting_status (rq_status r)) eqn:Hbl.
  - pose proof (wait_grammar r Hwt Hbl) as Hst. destruct (rq_use_structured_output r && rq_grammar r) eqn:Hg.
    + right. set (f := fun r : req => r <| rq_status := WAITING |>). set (s' := s <| sd_heap ::= alter f x |>).
      assert (try_promote_blocked_waiting_request embeds_digest use_int_hashes x s = Ok (s', true)) as Hpr.
      { unfold try_promote_blocked_waiting_request. st_step (get_req_eq s x r Hr). by rewrite st_bind_get, Hst, Hg. }
      st_step (self_eq _ s t s' true Hpr). cbn [negb]. rewrite bind_get_self, bind_get_step. unfold exceeds_loras. change (sd_config s') with (sd_config s).
      rewrite (w_config Hw), (pc_loras _ Hcfg), Htc. cbn [andb]. exists s', x, q, (f r). split; [done|]. apply andb_true_iff in Hg as [_ Hg].
      assert (inv2 s' t m l total) as Hinv'.
      { apply (inv2_set s t m l total x r f Hinv Hx Hr); try done; [|by destruct Hwt; split; [left|]]. apply (req_ok_eq (f r) Hok); [done|]. by right. }
      split; [|split; [split; [|done|done]|done]].
      * split; [done| |cbn; by rewrite lookup_alter_eq, Hr|by left]. by destruct q.
      * apply (evolves_set s x r f Hr). split_and!; try done; [intros [?|?]; congruence|]. unfold is_finished. by rewrite Hst.
    + left. assert (try_promote_blocked_waiting_request embeds_digest use_int_hashes x s = Ok (s, false)) as Hpr.
      { unfold try_promote_blocked_waiting_request. st_step (get_req_eq s x r Hr). by rewrite st_bind_get, Hst, Hg. }
      st_step (self_eq _ s t s false Hpr). cbn [negb]. destruct (set_aside s t m l total x q Hinv Hp) as (s' & t' & Heq & Hinv' & Had & Hlt).
      { intros z rz Hz%list_elem_of_singleton Hrz. subst z. rewrite Hr in Hrz. injection Hrz as <-. intros [?|?]; congruence. }
      rewrite Heq, bind_set_step.
      eexists s', _. split; [done|]. split; [by apply inv2_order|]. split; [|done]. by destruct Had.
  - right. rewrite bind_ret. cbn [negb]. rewrite bind_get_self, bind_get_step. unfold exceeds_loras. rewrite (w_config Hw), (pc_loras _ Hcfg), Htc. cbn [andb].
    exists s, x, q, r. split; [done|]. split; [|split; [apply advanced_refl|done]]. split; try done. destruct Hwt as [[Hst|[Hst|Hst]] _]; auto. by rewrite Hst in Hbl.
Qed.

(** The prefix of [r] that is cached: whole blocks, and a token is left to compute. *)
Definition hit_ok s r (hit : prefix_hit) : Prop :=
  ∃ h, blocks_of (sd_kv_cache_manager s) (ph_blocks hit) = [h] ∧ valid_hits (km_pool (sd_kv_cache_manager s)) h ∧ (caching = false → h = []) ∧
    ph_local hit = lenZ h * bs ∧ ph_total hit = ph_local hit ∧ ph_external hit = 0 ∧ ph_load_async hit = false ∧ ph_total hit <= num_tokens r - 1.

Lemma inv2_kv_same s t m l total k' m' l' :
  inv2 s t m l total → km_state k' m' l' → same_mgr m m' → km_max_model_len k' = km_max_model_len (sd_kv_cache_manager s) →
  (∀ rid, held m' rid = held m rid) → sm_num_cached_block m' = sm_num_cached_block m → inv2 (s <| sd_kv_cache_manager := k' |>) t m' l' total.
Proof.
  intros [Iw [] [] Ir Iu If Ik] Hks Hm Hlen Hh Hc. split; try done; [by apply (world_kv_same k' m' l' Iw)|]. split; try done.
  intros x r Hx Hr. destruct (sg_items0 x r Hx Hr) as (n & bl & I). exists n, bl. by rewrite Hh.
Qed.

Lemma stats_ok r stats : req_ok r → rq_output_token_ids r = [] → req_ok (r <| rq_prefill_stats := Some stats |>).
Proof. intros [] Ho. split; try done. by eapply hash_ok_same. Qed.

Lemma computed_tokens_spec s t m l total x (q : queue_id) r :
  candidate s t m l total x q r → ∃ s' r' hit, computed_tokens x q (s, t) = Ok ((s', t), Go hit) ∧ candidate s' t m l total x q r' ∧ advanced s t s' t ∧
    queues s' = queues s ∧ sd_running s' = sd_running s ∧ hit_ok s' r' hit.
Proof.
  intros [Hinv Hp Hr Hst]. pose proof (head_queued _ _ _ Hp) as Hx. pose proof (i2_world _ _ _ _ _ Hinv) as Hw. destruct (w_spec Hw) as (Hfull & Hsz & Hca).
  destruct (world_object x Hw) as (r0 & Hr0 & Ho & _ & Hok & _ & Hwt); [in_list|]. rewrite Hr in Hr0. injection Hr0 as <-. specialize (Hwt ltac:(in_list)). pose proof (proj2 Hwt) as Hc.
  unfold computed_tokens. st_step (self_eq (get_req x) s t s r (get_req_eq s x r Hr)). rewrite Hc. cbn [Z.eqb].
  assert (0 < num_tokens r) as Hpos by (rewrite (rk_tokens Hok); pose proof (rk_prompt Hok); unfold num_output_tokens; lia).
  destruct (lookup_result _ m l r (w_kv Hw) Hfull (hash_ok_distinct r (rk_hash Hok)) Hpos) as (k' & blocks & n & h & Heq & Hbl & Hv & Hoff & Hn & Hle & Hlen).
  pose proof (km_lookup_spec _ m l r k' _ (w_kv Hw) Heq) as Hks.
  st_step (self_eq (on_kv (get_computed_blocks r)) s t _ _ (on_kv_eq _ s _ _ Heq)). rewrite (st_bind_lift _ (blocks, n)) by done. set (s1 := s <| sd_kv_cache_manager := k' |>).
  pose proof (inv2_kv_same s t m l total k' m l Hinv Hks (reflexivity m) Hlen ltac:(done) eq_refl) as Hinv1. fold s1 in Hinv1.
  assert (external_tokens r blocks n x q (s1, t) = Ok ((s1, t), Go (0, false))) as Hext.
  { unfold external_tokens. rewrite bind_get_self, bind_get_step. cbn. by rewrite (proj1 (w_plain Hw)). }
  unfold then_flow. st_step Hext. rewrite Z.add_0_r. rewrite st_bind_assert by (apply Z.leb_le; lia).
  rewrite Hsz in Hn. rewrite Hca in Hoff. destruct (rq_prefill_stats r) as [st0|] eqn:Hps.
  2: { rewrite bind_ret. exists s1, r, (mkPrefixHit blocks n 0 n false). split; [done|]. split; [by split; [|by destruct q|..]|]. split; [split; [by apply evolves_heap|done|done]|].
    split; [done|]. split; [done|]. by exists h. }
  assert (rq_output_token_ids r = []) as Hout by (apply (rk_stats Hok); by rewrite Hps).
  assert (num_tokens r = rq_num_prompt_tokens r) as Hnp by (rewrite (rk_tokens Hok); unfold num_output_tokens; rewrite Hout; cbn; lia).
  rewrite st_bind_assoc, st_bind_assert by (apply Z.leb_le; lia). rewrite st_bind_assoc.
  assert (∃ stats, prefill_stats_set (rq_num_prompt_tokens r) n 0 = Ok stats) as [stats Hset] by (unfold prefill_stats_set; rewrite (proj2 (Z.leb_le _ _)) by lia; by eexists).
  rewrite (st_bind_lift _ _ _ _ Hset). set (f := fun r : req => r <| rq_prefill_stats := Some stats |>). set (s2 := s1 <| sd_heap ::= alter f x |>).
  st_step (self_eq (set_req x f) s1 t s2 tt eq_refl). exists s2, (f r), (mkPrefixHit blocks n 0 n false). split; [done|].
  assert (inv2 s2 t m l total) as Hinv2 by (apply (inv2_set s1 t m l total x r f Hinv1 Hx Hr); try done; by apply stats_ok).
  split; [split; [done|by destruct q|cbn; by rewrite lookup_alter_eq, Hr|done]|]. split; [split; [|done|done]|].
  { apply (evolves_set s1 x r f Hr). by split_and!; auto. }
  split; [done|]. split; [done|]. by exists h.
Qed.

Lemma inv2_enc s t m l total e :
  inv2 s t m l total → world (s <| sd_encoder_cache_manager := CacheManager e |>) (sd_running s) (queues s ++ members (sp_step_skipped_waiting t)) [] m l →
  inv2 (s <| sd_encoder_cache_manager := CacheManager e |>) t m l total.
Proof. intros [_ [? ?] [] ? ? ? ?] Hw. by split. Qed.

Lemma candidate_object s t m l total x (q : queue_id) r :
  candidate s t m l total x q r → x ∈ queues s ∧ rq_oid r = x ∧ (rq_request_id r, x) ∈ sd_requests s ∧ req_ok r ∧ wait_ok r.
Proof.
  intros [Hinv Hp Hr Hst]. pose proof (head_queued _ _ _ Hp) as Hx. destruct (world_object x (i2_world _ _ _ _ _ Hinv)) as (r0 & Hr0 & Ho & Hin & Hok & _ & Hwt); [in_list|].
  rewrite Hr in Hr0. injection Hr0 as <-. split_and!; try done. apply Hwt. in_list.
Qed.

Lemma waiting_tokens_spec s t m l total x (q : queue_id) r hit :
  candidate s t m l total x q r → hit_ok s r hit → 0 < sp_token_budget t →
  ∃ s' out, waiting_tokens has_cache_item x q hit (s, t) = Ok ((s', t), out) ∧ advanced s t s' t ∧ queues s' = queues s ∧ sd_running s' = sd_running s ∧
    match out with
    | Go (n, limited, inputs, b, ext) => limited = false ∧ candidate s' t m l total x q r ∧ hit_ok s' r hit ∧ 0 < n <= sp_token_budget t ∧
        ph_total hit + n <= num_tokens r ∧ inputs_planned r s' inputs b ext
    | Continue => False
    | Break => inv2 s' t m l total
    end.
Proof.
  intros Hcd Hhit Hb. destruct (candidate_object _ _ _ _ _ _ _ _ Hcd) as (Hx & _ & _ & Hok & _). destruct Hcd as [Hinv Hp Hr Hst]. pose proof (i2_world _ _ _ _ _ Hinv) as Hw.
  destruct (sg_plain _ _ _ _ (i2_step _ _ _ _ _ Hinv)) as (Htc & _). pose proof Hhit as (h & Hh1 & Hh2 & Hh3 & Hh4 & Hh5 & Hh6 & Hasync & Hle).
  unfold waiting_tokens. st_step (self_eq (get_req x) s t s r (get_req_eq s x r Hr)). rewrite bind_get_self, bind_get_step, (w_config Hw), (pc_mamba _ Hcfg), Hasync.
  set (n0 := num_tokens r - ph_total hit). cbn zeta. set (n1 := if (0 <? cf_long_prefill_token_threshold cfg) && _ then _ else n0).
  assert (0 < n1 <= n0) as Hn1.
  { unfold n1, n0. destruct (Z.ltb_spec 0 (cf_long_prefill_token_threshold cfg)); cbn [andb]; [case_match eqn:Hlt; [apply Z.ltb_lt in Hlt|]|]; lia. }
  unfold then_flow at 1. destruct (negb (cf_enable_chunked_prefill cfg) && _).
  { rewrite bind_ret. exists s, Break. split; [done|]. split; [apply advanced_refl|]. by split_and!. }
  rewrite st_bind_assoc, st_bind_assert by (apply Z.ltb_lt; lia). unfold limits_prefill. rewrite Htc. cbn [andb]. rewrite st_bind_assoc, bind_ret.
  destruct (plan_encoder_spec s _ _ _ m l t r (ph_total hit) (Z.min n1 (sp_token_budget t)) Hw Hok ltac:(lia) (sg_encoder _ _ _ _ (i2_step _ _ _ _ _ Hinv)))
    as (e & inputs & n & b & ext & Hpe & Hw1 & Hn & Hnone & Hpl). set (s1 := s <| sd_encoder_cache_manager := CacheManager e |>) in *.
  pose proof (inv2_enc s t m l total e Hinv Hw1) as Hinv1. rewrite st_bind_assoc. st_step Hpe.
  assert (advanced s t s1 t) as Had by (split; [by apply evolves_heap|done|done]).
  assert (candidate s1 t m l total x q r) as Hcd by by split; [|by destruct q|..].
  destruct (has_encoder_inputs r) eqn:Henc; cbn [andb]; [destruct (Z.eqb_spec n 0)|]; rewrite bind_ret; eexists s1, _; (split; [done|]); try (by split_and!).
  - split_and!; try done; [lia..|unfold n0 in *; lia].
  - specialize (Hnone eq_refl). split_and!; try done; [lia..|unfold n0 in *; lia].
Qed.

(** *** Admission *)

(** The request has its blocks, and is still in its queue. *)
Record granted s t m l total x (q : queue_id) r : Prop := {
  gr_head : peek_request (get_queue q s) = Ok x;
  gr_heap : sd_heap s !! x = Some r;
  gr_status : (rq_status r = WAITING ∨ rq_status r = Request.PREEMPTED) ∧ req_ok r;
  gr_world : ∀ rest, queues s ++ members (sp_step_skipped_waiting t) ≡ₚ x :: rest → world s (sd_running s) rest [x] m l;
  gr_shape : shape s;
  gr_step : stepping s t m total;
  gr_sched : x ∉ sched t;
  gr_rested : rested s (queues s ++ members (sp_step_skipped_waiting t)) [];
  gr_resumed : ∀ y r, y ∈ sp_scheduled_resumed_reqs t → sd_heap s !! y = Some r → rq_request_id r ∉ sd_prev_step_scheduled_req_ids s;
  gr_fresh : sp_preempted_reqs t = [];
  gr_skipped : unstarted s (members (sd_skipped_waiting s) ++ members (sp_step_skipped_waiting t));
}.

Lemma rested_set s s' que fresh x :
  rested s que fresh → heap_kept x s s' → sd_prev_step_scheduled_req_ids s' = sd_prev_step_scheduled_req_ids s →
  (∀ r', sd_heap s' !! x = Some r' → ∃ r, sd_heap s !! x = Some r ∧ rq_request_id r = rq_request_id r' ∧ (rq_status r' = Request.PREEMPTED → rq_status r = Request.PREEMPTED)) →
  rested s' que fresh.
Proof.
  intros Hre Hk Hp Hx z rz Hz Hrz Hpr. rewrite Hp. destruct (decide (z = x)) as [->|Hne].
  - destruct (Hx rz Hrz) as (r & Hr & <- & Hs). apply (Hre x r Hz Hr). auto.
  - rewrite Hk in Hrz by done. by apply (Hre z rz).
Qed.

Lemma newcomer_slots s t m l total x (q : queue_id) r hit h n :
  candidate s t m l total x q r → blocks_of (sd_kv_cache_manager s) (ph_blocks hit) = [h] → valid_hits (km_pool (sd_kv_cache_manager s)) h → (caching = false → h = []) →
  ph_local hit = lenZ h * bs → ph_local hit <= num_tokens r - 1 → 0 < n → slot_request (sd_kv_cache_manager s) m r n (ph_local hit) (ph_blocks hit) 0 0 h ∧ idle m (rq_request_id r).
Proof.
  intros Hcd Hbl Hv Hoff Hloc Hle Hn. destruct (candidate_object _ _ _ _ _ _ _ _ Hcd) as (Hx & Ho & Hin & Hok & _ & Hc). destruct Hcd as [Hinv Hp Hr Hst].
  pose proof (i2_world _ _ _ _ _ Hinv) as Hw. destruct (w_spec Hw) as (_ & Hb & Hca).
  assert (idle m (rq_request_id r)) as Hidle.
  { apply (w_idle Hw). intros y Hy. rewrite (world_unique _ _ _ Hw Hy Hin). in_list. }
  pose proof (rk_room Hok). pose proof (w_len Hw). split; [|done]. split; [done| |lia|lia|lia|].
  - right. destruct Hidle. split_and!; try done; [by rewrite Hca|]. rewrite Hb. lia.
  - rewrite Hca, Hb. apply (hash_ok_full r (rk_hash Hok)).
Qed.

Lemma idle_denied m m' rid : idle m rid → lenZ (held m' rid) = lenZ (held m rid) → (∀ rid', rid' ≠ rid → held m' rid' = held m rid') → ∀ rid', held m' rid' = held m rid'.
Proof. intros [Hh _] Hl Hoth rid'. destruct (decide (rid' = rid)) as [->|Hne]; [|auto]. rewrite Hh in *. by destruct (held m' rid). Qed.

Lemma grant_spec s t m l total x (q : queue_id) r hit n must :
  candidate s t m l total x q r → hit_ok s r hit → 0 < n → ph_total hit + n <= num_tokens r →
  ∃ k' r' out m' l', let s' := s <| sd_kv_cache_manager := k' |> <| sd_heap ::= alter (fun _ => r') x |> in
    on_kv (allocate_slots embeds_digest use_int_hashes r n (ph_local hit) (Some (ph_blocks hit)) 0 0 false 0 must) s = Ok (s <| sd_kv_cache_manager := k' |>, (r', out)) ∧
    digests_only r r' ∧ match out with
    | None => inv2 s' t m' l' total
    | Some _ => granted s' t m' l' total x q r' ∧ ph_total hit + n <= lenZ (held m' (rq_request_id r)) * bs
    end.
Proof.
  intros Hcd (h & Hbl & Hv & Hoff & Hloc & Htot & _ & _ & Hle) Hn Hfit. destruct (candidate_object _ _ _ _ _ _ _ _ Hcd) as (Hx & Ho & Hin & Hok & Hwt).
  destruct (newcomer_slots s t m l total x q r hit h n Hcd Hbl Hv Hoff Hloc ltac:(lia) Hn) as [Hsr Hidle]. destruct Hcd as [Hinv Hp Hr Hst].
  pose proof (i2_world _ _ _ _ _ Hinv) as Hw. destruct (w_spec Hw) as (_ & Hb & _).
  destruct (allocate_slots_spec embeds_digest use_int_hashes _ m l r n (ph_local hit) (Some (ph_blocks hit)) 0 0 h false 0 must (w_kv Hw) Hsr)
    as (k' & m' & l' & r' & out & Heq & _ & Hks & Hconf & Hm & Hoth & Hck & Hout). exists k', r', out, m', l'. cbn zeta.
  pose proof (slots_digests embeds_digest use_int_hashes r n (ph_local hit) (Some (ph_blocks hit)) 0 0 false 0 must _ _ _ Heq) as Hd. cbn in Hd.
  pose proof (slots_fixed embeds_digest use_int_hashes r n (ph_local hit) (Some (ph_blocks hit)) 0 0 false 0 must _ _ _ Heq) as Hfix.
  assert (km_max_model_len k' = km_max_model_len (sd_kv_cache_manager s)) as Hlen by by injection Hfix.
  destruct (digests_core r r' Hd) as (Hcore & (Ho' & Hi' & _) & Hst' & Hc' & Hnt' & _).
  assert (req_ok r') as Hok' by (apply (req_ok_eq r' Hok Hcore); rewrite Hst'; by left).
  set (s1 := s <| sd_kv_cache_manager := k' |>). split; [by apply on_kv_eq|]. split; [done|]. destruct out as [blocks|].
  2: { destruct Hout as (Hl & Hcc & _). apply (inv2_set s1 t m' l' total x r (fun _ => r')); try done; [|by unfold wait_ok; rewrite Hst', Hc'|congruence].
    apply (inv2_kv_same s t m l total k' m' l' Hinv Hks Hm Hlen); [|done]. by apply (idle_denied m m' (rq_request_id r)). }
  destruct Hout as (Hcov & _). destruct (inv2_notin s t m l total x Hinv) as [Hnr Hns]; [in_list|]. set (s2 := s1 <| sd_heap ::= alter (fun _ => r') x |>).
  assert (heap_kept x s s2) as Hk by apply (heap_kept_set x s1). split; [split; try done|].
  - unfold s2, s1. cbn. by rewrite lookup_alter_eq, Hr.
  - by rewrite Hst'.
  - intros rest Hrest. change (queues s2) with (queues s) in Hrest.
    assert (world s (sd_running s) (x :: rest) [] m l) as Hw0 by by apply (world_perm _ _ Hw). pose proof (world_nodup Hw0) as Hnd0. apply world_open_que in Hw0.
    assert (world s1 (sd_running s) rest [x] m' l') as Hw1.
    { apply (world_kv k' m' l' (rq_request_id r) Hw0); try done; [|by apply (list_elem_of_fmap_2' fst _ (rq_request_id r, x))].
      intros y qy Hy _. rewrite (world_unique _ _ _ Hw Hy Hin). split; [|done]. rewrite app_nil_r in Hnd0. apply NoDup_app in Hnd0 as (_ & _ & Hnd0). by apply NoDup_cons in Hnd0 as [? _]. }
    apply (world_set x r (fun _ => r') Hw1 Hr); try done. intros Hxr. exfalso. pose proof (world_nodup Hw1) as Hnd1. rewrite app_assoc in Hnd1. apply NoDup_app in Hnd1 as (_ & Hnd1 & _).
    apply (Hnd1 x); in_list.
  - by destruct (i2_shape _ _ _ _ _ Hinv).
  - apply (stepping_kept s t m total s2 m' x (i2_step _ _ _ _ _ Hinv)); try done. intros z rz Hne Hz Hrz. apply Hoth. apply (world_distinct z x rz r Hw); try done; in_list.
  - apply (rested_set s s2 _ _ x (i2_rested _ _ _ _ _ Hinv) Hk); [done|]. intros rz Hrz. exists r. unfold s2, s1 in Hrz. cbn in Hrz. rewrite lookup_alter_eq, Hr in Hrz.
    injection Hrz as <-. split_and!; congruence.
  - intros y ry Hy. rewrite Hk; [by apply (i2_resumed _ _ _ _ _ Hinv)|]. intros ->. apply Hns. unfold sched. in_list.
  - apply (i2_fresh _ _ _ _ _ Hinv).
  - intros z rz Hz. destruct (decide (z = x)) as [->|Hne]; [|rewrite Hk by done; by apply (i2_skipped _ _ _ _ _ Hinv)]. unfold s2, s1. cbn. rewrite lookup_alter_eq, Hr.
    intros [= <-] Hsta. apply (i2_skipped _ _ _ _ _ Hinv x r Hz Hr). unfold started in *. by rewrite <- Hst'.
  - unfold slots_needed in Hcov. rewrite Hb, (proj2 Hwt) in Hcov. pose proof (rk_room Hok). pose proof (w_len Hw). set (need := Z.min _ _) in Hcov.
    assert (ph_total hit + n <= need) by lia. pose proof (cdiv_spec need bs Hbs). nia.
Qed.

(** The step after the request [r] of [x] is admitted with [n] tokens. *)
Lemma admit_steps s t m l total x (q : queue_id) r hit n inputs b ext :
  granted s t m l total x q r → ph_load_async hit = false → sd_connector s = None →
  let f := fun r : req => r <| rq_status := RUNNING |> <| rq_num_computed_tokens := ph_total hit |> in
  ∃ s1 blocks t', let s' := s1 <| sd_running := sd_running s ++ [x] |> <| sd_heap ::= alter f x |> in
    queues s ≡ₚ x :: queues s1 ∧ core_of s1 = core_of s ∧ rest_of s1 = rest_of s ∧ shape s1 ∧
    (∀ y, y ∈ members (sd_skipped_waiting s1) → y ∈ members (sd_skipped_waiting s)) ∧
    admit_request x q hit n false inputs b ext (s, t) = allocate_encoder (f r) inputs b ext (s', t') ∧ joins x (f r) n blocks t t' ∧
    sp_scheduled_encoder_inputs t' = sp_scheduled_encoder_inputs t ∧ sp_preempted_reqs t' = sp_preempted_reqs t ∧ sp_step_skipped_waiting t' = sp_step_skipped_waiting t ∧
    (∀ y, y ∈ sp_scheduled_resumed_reqs t' → y ∈ sp_scheduled_resumed_reqs t ∨ y = x ∧ rq_status r = Request.PREEMPTED).
Proof.
  intros [Hp Hr [Hst Hok] _ Hsh Hsg _ _ _ _ _] Hasync Hconn f. destruct (pop_head_spec s q x Hp Hsh) as (s1 & Hpop & Hq & Hc & Hre & Hru & Hsh1 & Hsub).
  destruct (sg_plain _ _ _ _ Hsg) as (Htc & _). assert (sd_heap s1 = sd_heap s) as Hh by by injection Hc. pose proof (sg_encoder _ _ _ _ Hsg) as He.
  set (s2 := s1 <| sd_running := sd_running s ++ [x] |>). set (s' := s2 <| sd_heap ::= alter f x |>).
  set (blocks := km_get_blocks (sd_kv_cache_manager s2) (rq_request_id r)).
  set (g := fun t : Step => t <| sp_scheduled_loras ::= fun ls => match cf_max_loras (sd_config s2), rq_lora_request r with Some _, Some a => {[lora_int_id a]} ∪ ls | _, _ => ls end |>
      <| sp_req_to_new_blocks ::= od_set (rq_request_id r) blocks |> <| sp_num_scheduled_tokens ::= od_set (rq_request_id r) n |> <| sp_token_budget ::= fun b => b - n |>
      <| sp_prefill_budget ::= fun b => if false then b - n else b |>).
  set (t1 := match rq_status r with WAITING => t <| sp_scheduled_new_reqs ::= fun l => l ++ [x] |> | _ => t <| sp_scheduled_resumed_reqs ::= fun l => l ++ [x] |> end).
  exists s1, blocks, (g t1). cbn zeta. split_and!; try done.
  - unfold admit_request. st_step (self_eq (get_req x) s t s r (get_req_eq s x r Hr)). rewrite bind_get_self, bind_get_step.
    assert (∀ A (k : unit → run A) c, (self (with_connector c) ≫= k) (s, t) = k tt (s, t)) as -> by (intros A k c; unfold self, with_connector, mbind, st_bind; cbn; by rewrite Hconn).
    rewrite Htc. st_step (self_eq (pop_head q) s t s1 tt Hpop). rewrite Hasync.
    assert (∀ A (k : unit → run A), (self (st_modify (fun s0 => s0 <| sd_running ::= fun l => l ++ [x] |>)) ≫= k) (s1, t) = k tt (s2, t)) as -> by (intros A k; unfold s2; rewrite <- Hru; reflexivity).
    assert (∀ A (k : unit → run A), (match rq_status r with
      | WAITING => set_step (fun t => t <| sp_scheduled_new_reqs ::= fun l => l ++ [x] |>)
      | Request.PREEMPTED => set_step (fun t => t <| sp_scheduled_resumed_reqs ::= fun l => l ++ [x] |>)
      | _ => st_raise RuntimeError end ≫= k) (s2, t) = k tt (s2, t1)) as -> by (intros A k; unfold t1; destruct Hst as [-> | ->]; done).
    rewrite bind_get_self, bind_set_step. st_step (self_eq (set_req x f) s2 (g t1) s' tt eq_refl).
    rewrite (st_bind_eq _ (self (get_req x)) _ (s', g t1) (f r)); [done|]. apply self_eq, get_req_eq. unfold s', s2. cbn. by rewrite lookup_alter_eq, Hh, Hr.
  - unfold t1. split; destruct Hst as [-> | ->]; try done; try (by left).
    + unfold sched. cbn. rewrite <- !app_assoc. rewrite (Permutation_middle _ _ x). by rewrite Permutation_middle.
    + unfold sched. cbn. rewrite !app_assoc. symmetry. apply Permutation_cons_append.
  - unfold t1. by destruct Hst as [-> | ->].
  - unfold t1. by destruct Hst as [-> | ->].
  - unfold t1. by destruct Hst as [-> | ->].
  - unfold t1. intros y. destruct Hst as [-> | ->]; cbn; [by left|]. rewrite elem_of_app, list_elem_of_singleton. naive_solver.
Qed.

Lemma admitted_ok r (total : Z) : req_ok r → rq_status r ≠ WAITING_FOR_STRUCTURED_OUTPUT_GRAMMAR → req_ok (r <| rq_status := RUNNING |> <| rq_num_computed_tokens := total |>).
Proof. intros Hok Hst. by apply (req_ok_eq _ Hok). Qed.

Lemma admit_world s s1 m l rest x r f :
  world s (sd_running s) rest [x] m l → core_of s1 = core_of s → sd_heap s !! x = Some r → rq_oid (f r) = rq_oid r → rq_request_id (f r) = rq_request_id r →
  req_ok (f r) → run_ok m (f r) → world (s1 <| sd_running := sd_running s ++ [x] |> <| sd_heap ::= alter f x |>) (sd_running s ++ [x]) rest [] m l.
Proof.
  intros Hw Hc Hr Ho Hi Hok Hrun. assert (x ∉ sd_running s ∧ x ∉ rest) as [Hn1 Hn2].
  { pose proof (world_nodup Hw) as Hnd. apply NoDup_app in Hnd as (_ & H1' & H2'). apply NoDup_app in H2' as (_ & H2' & _). split; intros Hx; [apply (H1' x Hx)|apply (H2' x Hx)]; in_list. }
  assert (world (s1 <| sd_running := sd_running s ++ [x] |>) (sd_running s) rest [x] m l) as Hw1 by (apply (world_eq s); [done|by rewrite <- Hc]).
  assert (sd_heap (s1 <| sd_running := sd_running s ++ [x] |>) !! x = Some r) as Hr1 by (injection Hc as _ _ _ _ _ _ _ Hh; cbn; by rewrite Hh).
  refine (world_perm _ _ (world_close_act x (f r) (world_set x r f Hw1 Hr1 Ho Hi Hok _ _) _ Hrun) _ _); try done; [|by rewrite <- Permutation_cons_append].
  cbn in *. by rewrite lookup_alter_eq, Hr1.
Qed.

Lemma admit_request_spec s t m l total x (q : queue_id) r hit n inputs b ext :
  granted s t m l total x q r → ph_load_async hit = false → sd_connector s = None → lenZ (sd_running s) < cf_max_num_running_reqs cfg → 0 < n <= sp_token_budget t →
  0 <= ph_total hit → ph_total hit + n <= num_tokens r → ph_total hit + n <= lenZ (held m (rq_request_id r)) * bs → inputs_planned r s inputs b ext →
  ∃ s' t', admit_request x q hit n false inputs b ext (s, t) = Ok ((s', t'), tt) ∧ inv2 s' t' m l total ∧ advanced s t s' t' ∧ lenZ (queues s') < lenZ (queues s).
Proof.
  intros Hg Hasync Hconn Hroom Hn Htot Hle Hcov Hpl. destruct (admit_steps s t m l total x q r hit n inputs b ext Hg Hasync Hconn) as
    (s1 & blocks & t1 & Hq & Hc & Hre & Hsh & Hsub & Heq & Hj & Hin & Hpre & Hsk & Hres). destruct Hg as [Hp Hr [Hst Hok] Hw _ Hsg Hns Hrest Hresm Hfr Hun]. rewrite Heq. clear Heq.
  set (f := fun r : req => r <| rq_status := RUNNING |> <| rq_num_computed_tokens := ph_total hit |>) in *.
  specialize (Hw (queues s1 ++ members (sp_step_skipped_waiting t)) ltac:(by rewrite Hq)).
  assert (req_ok (f r)) as Hokf by (apply admitted_ok; [done|destruct Hst as [-> | ->]; done]).
  assert (run_ok m (f r)) as Hrunf.
  { split; [done|]. change (num_tokens (f r)) with (num_tokens r). change (rq_num_computed_tokens (f r)) with (ph_total hit). change (rq_request_id (f r)) with (rq_request_id r). lia. }
  pose proof (admit_world s s1 m l _ x r f Hw Hc Hr eq_refl eq_refl Hokf Hrunf) as Hw1.
  assert (sd_heap s1 = sd_heap s) as Hh by by injection Hc.
  assert (sd_prev_step_scheduled_req_ids s1 = sd_prev_step_scheduled_req_ids s) as Hprev by by injection Hre.
  set (s2 := s1 <| sd_running := sd_running s ++ [x] |> <| sd_heap ::= alter f x |>) in *.
  assert (sd_heap s2 !! x = Some (f r)) as Hx2 by (unfold s2; cbn; by rewrite lookup_alter_eq, Hh, Hr).
  assert (heap_kept x s s2) as Hk by (intros z Hz; unfold s2; cbn; by rewrite lookup_alter_ne, Hh).
  assert (sd_running s2 = sd_running s ++ [x]) as Hrun2 by done.
  assert (queues s2 = queues s1 ∧ rest_of s2 = rest_of s ∧ sd_skipped_waiting s2 = sd_skipped_waiting s1 ∧ shape s2) as (Hqs2 & Hrest2 & Hskip2 & Hsh2).
  { split; [done|]. split; [by rewrite <- Hre|]. split; [done|]. destruct Hsh. split; [done|]. rewrite Hrun2, length_app. cbn. lia. }
  assert (sd_prev_step_scheduled_req_ids s2 = sd_prev_step_scheduled_req_ids s) as Hprev2 by done.
  assert (inputs_planned (f r) s2 inputs b ext) as Hpl2.
  { apply (planned_room _ s); [|by apply (planned_request r)]. eapply same_room_same; [exact Hw|]. by injection Hc. }
  clearbody s2. destruct (allocate_encoder_spec s2 _ _ _ m l t1 (f r) inputs b ext Hw1 Hokf Hpl2) as (e & Heq & Hw2). pose proof (joins_inputs x (f r) n blocks t t1 s2 inputs b ext Hj Hin Hpl2) as Hj2.
  destruct (with_inputs_same (f r) inputs b t1) as (_ & _ & _ & W4 & W5 & W6). eexists _, _. split; [exact Heq|]. revert W4 W5 W6 Hj2. generalize (with_inputs (f r) inputs b t1).
  intros t2 W4 W5 W6 Hj2.
  assert (inv2 s2 t2 m l total) as Hinv2.
  { assert (x ∉ queues s1 ++ members (sp_step_skipped_waiting t)) as Hxn.
    { intros Hz. pose proof (world_nodup Hw) as Hnd. apply NoDup_app in Hnd as (_ & _ & Hnd). apply NoDup_app in Hnd as (_ & Hnd & _). apply (Hnd x Hz). in_list. }
    split; [by rewrite W6, Hsk, Hrun2, Hqs2|done| | | |congruence|].
    - apply (stepping_joins s t m total s2 t2 m x (f r) n blocks Hsg Hj2); try done.
      + intros z qz Hz Hqz. assert (z ≠ x) as Hne by (intros ->; done). rewrite Hk in Hqz by done. split_and!; try done.
        apply (world_distinct z x qz r Hw); try done; [apply (sg_running _ _ _ _ Hsg) in Hz|]; in_list.
      + intros z Hz. rewrite Hk by (intros ->; done). destruct (world_object z Hw) as (qz & Hqz & _); [|by exists qz]. apply (sg_running _ _ _ _ Hsg) in Hz. in_list.
      + intros z [->|Hz]%elem_of_cons; rewrite Hrun2, elem_of_app; [right; in_list|left; by apply (sg_running _ _ _ _ Hsg)].
    - rewrite W6, Hsk, Hqs2. intros z rz Hz Hrz. rewrite Hprev2. assert (z ≠ x) as Hne by (intros ->; done).
      rewrite Hk in Hrz by done. apply (Hrest z rz); [|done]. rewrite Hq. cbn. by right.
    - intros y ry. rewrite W4, Hprev2. intros Hy Hry. destruct (Hres y Hy) as [Hy'|[-> Hpr]].
      + assert (y ≠ x) as Hne by (intros ->; apply Hns; unfold sched; in_list). rewrite Hk in Hry by done. by apply (Hresm y).
      + rewrite Hx2 in Hry. injection Hry as <-. destruct (Hrest x r) as [?|Hnil]; try done; [rewrite Hq; in_list|by apply elem_of_nil in Hnil].
    - rewrite W6, Hsk, Hskip2. apply (unstarted_kept s s2 x _ _ Hun); [|done|].
      + intros z. rewrite !elem_of_app. intros [?|?]; auto.
      + intros Hz. apply Hxn. unfold queues. revert Hz. rewrite !elem_of_app. tauto. }
  split; [apply inv2_enc; [done|]; by rewrite W6, Hsk, Hrun2, Hqs2|]. split; [split|].
  - intros z qz Hqz. destruct (decide (z = x)) as [->|Hne]; [|exists qz; by rewrite Hk]. exists (f r). split; [done|]. rewrite Hr in Hqz. injection Hqz as <-.
    split_and!; try done; [by left; left|]. unfold is_finished. destruct Hst as [-> | ->]; done.
  - by rewrite <- Hrest2.
  - intros _ z Hz. rewrite (jn_sched _ _ _ _ _ _ Hj2). by right.
  - change (queues (s2 <| sd_encoder_cache_manager := CacheManager e |>)) with (queues s2). rewrite Hqs2, Hq. cbn. lia.
Qed.

Lemma try_admit_spec s t m l total x (q : queue_id) r hit n inputs b ext :
  candidate s t m l total x q r → hit_ok s r hit → lenZ (sd_running s) < cf_max_num_running_reqs cfg → 0 < n <= sp_token_budget t →
  ph_total hit + n <= num_tokens r → inputs_planned r s inputs b ext →
  ∃ s' t' m' l' out, try_admit embeds_digest use_int_hashes iter_ints clock x q hit n false inputs b ext (s, t) = Ok ((s', t'), out) ∧ inv2 s' t' m' l' total ∧ advanced s t s' t' ∧
    (out ≠ Break → lenZ (queues s') < lenZ (queues s)).
Proof.
  intros Hcd Hhit Hroom Hn Hle Hpl. pose proof (candidate_object _ _ _ _ _ _ _ _ Hcd) as (Hx & Ho & Hin & Hok & Hwt). pose proof (cd_heap _ _ _ _ _ _ _ _ Hcd) as Hr.
  pose proof (i2_world _ _ _ _ _ (cd_inv _ _ _ _ _ _ _ _ Hcd)) as Hw. destruct (sg_plain _ _ _ _ (i2_step _ _ _ _ _ (cd_inv _ _ _ _ _ _ _ _ Hcd))) as (Htc & _).
  destruct (w_enc Hw) as (e & He & _). pose proof Hhit as (h & _ & _ & _ & Hloc & Htot & Hext & Hasync & _).
  unfold try_admit. st_step (self_eq (get_req x) s t s r (get_req_eq s x r Hr)). rewrite bind_get_self, bind_get_step, (proj2 Hwt), He, (w_config Hw), Htc, Hext, Hasync.
  cbn [Z.eqb is_encoder_decoder andb]. rewrite (st_bind_lift (Ok []) []) by done. rewrite bind_ret. cbn [negb sumZ sum_map foldr].
  destruct (grant_spec s t m l total x q r hit n (cf_reserve_full_isl cfg) Hcd Hhit (proj1 Hn) Hle) as (k' & r' & out & m' & l' & Heq & Hd & Hout).
  st_step (self_eq _ s t _ _ Heq). set (s1 := s <| sd_kv_cache_manager := k' |>) in *. set (s2 := s1 <| sd_heap ::= alter (fun _ => r') x |>) in *.
  st_step (self_eq (set_req x (fun _ => r')) s1 t s2 tt eq_refl). destruct (digests_core r r' Hd) as (_ & Hgr & _ & _ & Hnt & Hid & Hmm).
  assert (evolves s s2) as Hev by (apply (evolves_set s1 x r); done).
  assert (same_room s s2) as Hsr by by apply (same_room_same s _ _ _ _ _ s2 Hw).
  assert (sd_connector s2 = None ∧ sd_running s2 = sd_running s ∧ queues s2 = queues s ∧ rest_of s2 = rest_of s) as (Hconn & Hru & Hqs & Hre).
  { split_and!; try done. apply (proj1 (w_plain Hw)). }
  clearbody s2. clear s1 Heq. destruct out as [blocks|].
  - destruct Hout as [Hg Hcov]. cbn [st_when]. rewrite bind_ret.
    destruct (admit_request_spec s2 t m' l' total x q r' hit n inputs b ext Hg Hasync Hconn) as (s3 & t3 & Heq & Hinv & [A1 A2 A3] & Hlt); rewrite ?Hru, ?Hnt, ?Hid; try done; [nia| |].
    { by apply (planned_room _ s), (planned_request r). }
    st_step Heq. exists s3, t3, m', l', (Go tt). split; [done|]. split; [done|]. rewrite <- Hqs. split; [split; [by etrans|congruence|done]|done].
  - destruct (has_encoder_inputs r); cbn [st_when].
    2: { rewrite bind_ret. exists s2, t, m', l', Break. split; [done|]. split; [done|]. split; [by split|done]. }
    destruct (enc_free_spec s2 _ _ _ m' l' r (i2_world _ _ _ _ _ Hout) Hok) as (e' & Hef & Hw' & _). st_step (self_eq _ s2 t _ _ Hef).
    eexists _, t, m', l', Break. split; [done|]. split; [by apply inv2_enc|]. split; [|done]. split; [|done|done]. etrans; [exact Hev|by apply evolves_heap].
Qed.

Lemma waiting_step_spec keep s t m l total :
  inv2 s t m l total → queue_bool (sd_waiting s) || queue_bool (sd_skipped_waiting s) = true → 0 < sp_token_budget t →
  ∃ s' t' m' l' go, waiting_step embeds_digest use_int_hashes iter_ints clock has_cache_item keep (s, t) = Ok ((s', t'), go) ∧ inv2 s' t' m' l' total ∧ advanced s t s' t' ∧
    (go = true → lenZ (queues s') < lenZ (queues s)).
Proof.
  intros Hinv Hb Hbud. unfold waiting_step. rewrite bind_get_self, (w_config (i2_world _ _ _ _ _ Hinv)).
  destruct (Z.eqb_spec (lenZ (sd_running s)) (cf_max_num_running_reqs cfg)) as [_|Hne].
  { exists s, t, m, l, false. split; [done|]. split; [done|]. split; [apply advanced_refl|done]. }
  pose proof (sh_running _ (i2_shape _ _ _ _ _ Hinv)) as Hmax.
  assert (∀ A (k : unit → run A), (reconsider_deferred ≫= k) (s, t) = k tt (s, t)) as ->.
  { intros A k. unfold reconsider_deferred. rewrite st_bind_assoc, bind_get_self. by destruct (queue_bool (sd_waiting s)), (queue_bool (sd_skipped_waiting s)). }
  unfold then_flow at 1. destruct (next_request_spec keep s t m l total Hinv Hb) as [(s1 & t1 & Heq & Hinv1 & Had1 & Hlt)|(s1 & x & q & r & Heq & Hcd & Had1 & Hq1 & Hru1)].
  { rewrite st_bind_assoc. st_step Heq. rewrite bind_ret. exists s1, t1, m, l, true. by split_and!. }
  rewrite st_bind_assoc. st_step Heq. unfold then_flow at 1. destruct (computed_tokens_spec s1 t m l total x q r Hcd) as (s2 & r2 & hit & Heq2 & Hcd2 & Had2 & Hq2 & Hru2 & Hhit).
  rewrite st_bind_assoc. st_step Heq2. unfold then_flow at 1.
  destruct (waiting_tokens_spec s2 t m l total x q r2 hit Hcd2 Hhit Hbud) as (s3 & out & Heq3 & Had3 & Hq3 & Hru3 & Hout). rewrite st_bind_assoc. st_step Heq3.
  pose proof (advanced_trans _ _ _ _ _ _ Had1 (advanced_trans _ _ _ _ _ _ Had2 Had3)) as Had. destruct out as [[[[[n limited] inputs] b] ext]| |]; [|done|].
  2: { rewrite bind_ret. exists s3, t, m, l, false. by split_and!. }
  destruct Hout as (-> & Hcd3 & Hhit3 & Hn & Hle & Hpl).
  destruct (try_admit_spec s3 t m l total x q r2 hit n inputs b ext Hcd3 Hhit3) as (s4 & t4 & m4 & l4 & out & Heq4 & Hinv4 & Had4 & Hlt); try done; [rewrite Hru3, Hru2, Hru1; lia|].
  st_step Heq4. exists s4, t4, m4, l4, (match out with Break => false | _ => true end). split; [done|]. split; [done|]. split; [by eapply advanced_trans|].
  rewrite <- Hq1, <- Hq2, <- Hq3. intros Hgo. apply Hlt. by destruct out.
Qed.

Lemma waiting_loop_spec fuel keep s t m l total :
  inv2 s t m l total → lenZ (queues s) <= Z.of_nat fuel →
  ∃ s' t' m' l', waiting_loop embeds_digest use_int_hashes iter_ints clock has_cache_item fuel keep (s, t) = Ok ((s', t'), tt) ∧ inv2 s' t' m' l' total ∧ advanced s t s' t'.
Proof.
  revert s t m l. induction fuel as [|fuel IH]; intros s t m l Hinv Hf; cbn [waiting_loop]; rewrite bind_get_self, bind_get_step;
    destruct (sg_plain _ _ _ _ (i2_step _ _ _ _ _ Hinv)) as (_ & Hdef & _); rewrite Hdef, bool_decide_true by done; cbn [negb]; rewrite orb_false_r.
  all: destruct (queue_bool (sd_waiting s) || queue_bool (sd_skipped_waiting s)) eqn:Hb; cbn [andb];
    [|exists s, t, m, l; split; [done|]; split; [done|apply advanced_refl]].
  { exfalso. unfold queues in Hf. rewrite length_app in Hf. apply orb_true_iff in Hb as [Hb%bool_members|Hb%bool_members]; [destruct (members (sd_waiting s))|destruct (members (sd_skipped_waiting s))]; cbn in Hf; done || lia. }
  destruct (Z.ltb_spec 0 (sp_token_budget t)) as [Hbud|]; [|exists s, t, m, l; split; [done|]; split; [done|apply advanced_refl]].
  destruct (waiting_step_spec keep s t m l total Hinv Hb Hbud) as (s1 & t1 & m1 & l1 & go & Heq & Hinv1 & Had & Hlt). st_step Heq. destruct go.
  - destruct (IH s1 t1 m1 l1 Hinv1) as (s' & t' & m' & l' & Heq' & Hinv' & Had'); [specialize (Hlt eq_refl); lia|]. exists s', t', m', l'. split; [done|]. split; [done|]. by eapply advanced_trans.
  - by exists s1, t1, m1, l1.
Qed.

Lemma schedule_waiting_spec s t m l total :
  inv2 s t m l total → members (sp_step_skipped_waiting t) = [] →
  ∃ s' t' m' l', schedule_waiting embeds_digest use_int_hashes iter_ints clock has_cache_item (s, t) = Ok ((s', t'), tt) ∧ advanced s t s' t' ∧
    world s' (sd_running s') (queues s') [] m' l' ∧ shape s' ∧ stepping s' t' m' total ∧ rested s' (queues s') [] ∧ sp_preempted_reqs t' = [] ∧ unstarted s' (members (sd_skipped_waiting s')) ∧
    (∀ x r, x ∈ sp_scheduled_resumed_reqs t' → sd_heap s' !! x = Some r → rq_request_id r ∉ sd_prev_step_scheduled_req_ids s').
Proof.
  intros Hinv Hnil. unfold schedule_waiting. rewrite bind_get_self, bind_get_step. pose proof (i2_world _ _ _ _ _ Hinv) as Hw.
  destruct (heap_objects s _ _ _ _ _ (queued WaitingQueue s) Hw) as [rs1 Hrs1]; [intros x; unfold queued; rewrite iter_members; unfold queues; cbn; in_list|].
  destruct (heap_objects s _ _ _ _ _ (queued SkippedQueue s) Hw) as [rs2 Hrs2]; [intros x; unfold queued; rewrite iter_members; unfold queues; cbn; in_list|].
  st_step (self_eq _ s t s rs1 (objects_gets s _ rs1 Hrs1)). st_step (self_eq _ s t s rs2 (objects_gets s _ rs2 Hrs2)). set (keep := _ && _).
  destruct (waiting_loop_spec (S (2 * (length (queued WaitingQueue s) + length (queued SkippedQueue s)))) keep s t m l total Hinv) as (s1 & t1 & m1 & l1 & Heq & [Iw [[S1' S2'] S3'] It Ir Iu If Ik] & Had).
  { unfold queues, queued. rewrite !(Permutation_length (iter_members _ _)). cbn [get_queue]. rewrite length_app. lia. }
  st_step Heq. rewrite bind_get_step. destruct (queue_bool (sp_step_skipped_waiting t1)) eqn:Hb; cbn [st_when].
  2: { apply bool_members_false in Hb. rewrite Hb, app_nil_r in *. exists s1, t1, m1, l1. split; [done|]. by split_and!. }
  destruct (prepend_all_members (heap_lt (sd_heap s1)) (sp_step_skipped_waiting t1) (sd_skipped_waiting s1)) as [Hm Hp].
  set (s2 := s1 <| sd_skipped_waiting := prepend_requests (heap_lt (sd_heap s1)) (sp_step_skipped_waiting t1) (sd_skipped_waiting s1) |>).
  assert (queues s2 ≡ₚ queues s1 ++ members (sp_step_skipped_waiting t1)) as Hq.
  { unfold queues, s2. cbn. rewrite Hm, <- app_assoc. apply Permutation_app_head, Permutation_app_comm. }
  exists s2, t1, m1, l1. split; [done|]. split; [destruct Had as [A1 A2 A3]; split; [etrans; [exact A1|by apply evolves_heap]|done|done]|]. split_and!; try done.
  - apply (world_eq s1); [|done]. by apply (world_perm _ _ Iw).
  - split; [split; [done|cbn; by rewrite Hp]|done].
  - by apply (stepping_heap s1).
  - intros x r. rewrite Hq. apply Ir.
  - intros x r. cbn. rewrite Hm. intros Hx. apply Ik. revert Hx. rewrite !elem_of_app. tauto.
Qed.

(** ** The step *)

(** Between the calls of the scheduler. *)
Record steady s m l : Prop := {
  st_world : world s (sd_running s) (queues s) [] m l;
  st_shape : shape s;
  st_rested : rested s (queues s) [];
  st_skipped : unstarted s (members (sd_skipped_waiting s));
}.

(** The tokens a step may give out. *)
Definition step_budget s : Z := match sd_pause_state s with PAUSED_ALL => 0 | _ => cf_max_num_scheduled_tokens cfg end.

Lemma begin_spec s m l :
  steady s m l → ∃ t, begin_schedule log1p iter_strings clock evaluate_pending s = Ok (s, t) ∧ inv1 s t m l (step_budget s) ∧ sp_req_index t = 0 ∧ sched t = [] ∧ sp_preempted_reqs t = [].
Proof.
  intros [Hw Hsh Hre Hun]. destruct (w_plain Hw) as (Hconn & Hsched & Hlife). unfold begin_schedule. rewrite st_bind_get.
  assert (s <| sd_kv_cache_manager := sd_kv_cache_manager s |> = s) as Hs by by destruct s.
  pose proof (on_kv_eq _ s _ _ (km_new_step_spec _ m l (w_kv Hw))) as Hkv. rewrite Hs in Hkv. st_step Hkv. rewrite Hlife. rewrite bool_decide_false by by intros [].
  cbn [st_when]. rewrite bind_ret.
  destruct (heap_objects s _ _ _ _ _ (queued SkippedQueue s ++ queued WaitingQueue s) Hw) as [rs1 Hrs1].
  { intros x. unfold queued. rewrite !iter_members. unfold queues. cbn. in_list. intros [?|?]; auto. }
  destruct (heap_objects s _ _ _ _ _ (sd_running s) Hw) as [rs2 Hrs2]; [intros x; in_list|].
  st_step (objects_gets s _ rs1 Hrs1). st_step (objects_gets s _ rs2 Hrs2).
  assert (has_scheduling s = false) as -> by (unfold has_scheduling; by rewrite Hsched). rewrite bind_ret, st_bind_get, (w_config Hw), (pc_offload _ Hcfg).
  cbn [st_when]. rewrite bind_ret, st_bind_get, (w_config Hw), (pc_offload _ Hcfg). cbn [andb]. eexists. split; [done|].
  pose proof (pc_inputs _ Hcfg). pose proof (pc_tokens _ Hcfg). assert (0 <= step_budget s) as Hb by (unfold step_budget; destruct (sd_pause_state s); lia).
  split; [|done]. split; try done; [|split; [|done|]|]; cbn.
  - split; try done; cbn; try apply NoDup_nil_2; try (by intros ? ?%elem_of_nil); try (by intros ? ? ?%elem_of_nil). split_and!; apply NoDup_nil_2.
  - split_and!; try done. by destruct (cf_policy cfg).
  - by intros y ?%elem_of_nil.
  - by intros y ?%elem_of_nil.
Qed.

(** When the loops are done. *)
Record settled s t m l total : Prop := {
  se_world : world s (sd_running s) (queues s) [] m l;
  se_shape : shape s;
  se_step : stepping s t m total;
  se_preempted : ∀ y, y ∈ sp_preempted_reqs t → is_Some (sd_heap s !! y);
  se_skipped : unstarted s (members (sd_skipped_waiting s));
  se_resumed : ∀ x r, x ∈ sp_scheduled_resumed_reqs t → sd_heap s !! x = Some r → rq_request_id r ∉ sd_prev_step_scheduled_req_ids s;
}.

Lemma loops_spec s t m l total :
  inv1 s t m l total → sp_req_index t = 0 →
  ∃ s' t' m' l', (running_loop embeds_digest use_int_hashes iter_ints clock has_cache_item (length (sd_running s));;
      running_loras;;
      s ← get_self;
      t ← get_step;
      st_when (bool_decide (sp_preempted_reqs t = []) && bool_decide (sd_pause_state s = UNPAUSED))
        (schedule_waiting embeds_digest use_int_hashes iter_ints clock has_cache_item)) (s, t) = Ok ((s', t'), tt) ∧ settled s' t' m' l' total ∧ advanced s t s' t'.
Proof.
  intros Hinv Hidx. destruct (running_loop_spec (length (sd_running s)) s t m l total Hinv) as (s1 & t1 & m1 & l1 & Heq & Hinv1 & Had); [lia|]. st_step Heq.
  assert (∀ A (k : unit → run A), (running_loras ≫= k) (s1, t1) = k tt (s1, t1)) as ->.
  { intros A k. unfold running_loras. rewrite st_bind_assoc, bind_get_self, st_bind_assoc, bind_get_step, (w_config (i1_world _ _ _ _ _ Hinv1)), (pc_loras _ Hcfg). done. }
  rewrite bind_get_self, bind_get_step. destruct Hinv1 as [Hw Hsh Hst [(F1 & F2 & F5) F3 F4] Hre Hpp Hun].
  destruct (bool_decide_reflect (sp_preempted_reqs t1 = [])) as [Hnil|]; [destruct (bool_decide (sd_pause_state s1 = UNPAUSED))|]; cbn [andb st_when].
  2,3: exists s1, t1, m1, l1; split; [done|]; split; [|done]; split; try done; rewrite F2; by intros x r ?%elem_of_nil.
  destruct (schedule_waiting_spec s1 t1 m1 l1 total) as (s2 & t2 & m2 & l2 & Heq2 & Had2 & Hw2 & Hsh2 & Hst2 & _ & Hpre2 & Hun2 & Hres2); [|done|].
  { split; try done; rewrite ?F2, ?F5, ?app_nil_r; try done; [by rewrite <- Hnil|by intros x r ?%elem_of_nil]. }
  exists s2, t2, m2, l2. split; [done|]. split; [split; try done; rewrite Hpre2; by intros y ?%elem_of_nil|by eapply advanced_trans].
Qed.

(** *** The output *)

Lemma scheduled_item s t m l total x :
  settled s t m l total → x ∈ sched t → ∃ r n blocks, sd_heap s !! x = Some r ∧ rq_oid r = x ∧ (rq_request_id r, x) ∈ sd_requests s ∧ x ∈ sd_running s ∧
    od_get (rq_request_id r) (sp_num_scheduled_tokens t) = Some n ∧ od_get (rq_request_id r) (sp_req_to_new_blocks t) = Some blocks ∧ 0 < n ∧
    rq_num_computed_tokens r + n <= num_tokens r ∧ rq_num_computed_tokens r + n <= lenZ (held m (rq_request_id r)) * bs.
Proof.
  intros Hse Hx. pose proof (sg_running _ _ _ _ (se_step _ _ _ _ _ Hse) x Hx) as Hrun. destruct (world_object x (se_world _ _ _ _ _ Hse)) as (r & Hr & Ho & Hin & _); [in_list|].
  destruct (sg_items _ _ _ _ (se_step _ _ _ _ _ Hse) x r Hx Hr) as (n & blocks & Hn & Hb & Hpos & Hle & Hcov & _). exists r, n, blocks. by split_and!.
Qed.

Lemma scheduled_fits s t m total : stepping s t m total → lenZ (sp_scheduled_new_reqs t) + lenZ (sp_scheduled_resumed_reqs t) + lenZ (sp_scheduled_running_reqs t) <= lenZ (sd_running s).
Proof.
  intros Hst. pose proof (submseteq_length _ _ (NoDup_submseteq _ _ (sg_nodup _ _ _ _ Hst) (sg_running _ _ _ _ Hst))) as Hlen. unfold sched in Hlen. rewrite !length_app in Hlen. lia.
Qed.

Lemma new_data_spec s t m l total v2 xs :
  settled s t m l total → (∀ x, x ∈ xs → x ∈ sched t) → ∃ ds, new_requests_data t v2 xs s = Ok (s, ds).
Proof.
  intros Hse. unfold new_requests_data. induction xs as [|x xs IH]; intros Hxs; [by exists []|]. cbn [mapM]. destruct IH as [ds Hds]; [intros y Hy; apply Hxs; by right|].
  destruct (scheduled_item s t m l total x Hse) as (r & n & blocks & Hr & _ & _ & _ & _ & Hb & _); [apply Hxs; left|].
  rewrite st_bind_assoc. st_step (get_req_eq s x r Hr). rewrite st_bind_assoc, st_bind_get, st_bind_assoc. rewrite (st_bind_lift _ blocks) by by rewrite Hb.
  rewrite bind_ret. st_step Hds. by eexists.
Qed.

Lemma cached_spec s t m l total num d items :
  settled s t m l total → (∀ i x, (i, x) ∈ items → x ∈ sched t ∧ ((num <= i)%nat → x ∈ sp_scheduled_resumed_reqs t)) → ∃ d', cached_requests t num d items s = Ok (s, d').
Proof.
  intros Hse. revert d; induction items as [|[i x] items IH]; intros d Hit; [by exists d|]. cbn [cached_requests]. destruct (Hit i x) as [Hx Hres]; [left|].
  destruct (scheduled_item s t m l total x Hse Hx) as (r & n & blocks & Hr & _ & _ & _ & Hn & Hb & _).
  assert (∃ d', cached_request t num d (i, x) s = Ok (s, d')) as [d1 Hd1].
  { unfold cached_request. st_step (get_req_eq s x r Hr). rewrite st_bind_get. set (c := cf_use_pp _ && _).
    assert (∃ toks, (if c then n ← st_lift (or_raise KeyError (od_get (rq_request_id r) (sp_num_scheduled_tokens t)));
       let n := n - lenZ (default [] (od_get (rq_request_id r) (sp_scheduled_spec_decode_tokens t))) in
       mret [py_slice (rq_all_token_ids r) (rq_num_computed_tokens r) (rq_num_computed_tokens r + n)] else mret []) s = Ok (s, toks)) as [toks Htoks].
    { destruct c; [rewrite (st_bind_lift _ n) by by rewrite Hn|]; cbn zeta; eexists; reflexivity. }
    st_step Htoks. destruct (Nat.leb_spec num i) as [Hle|_]; cbn [st_when].
    - rewrite st_bind_assert; [rewrite (st_bind_lift _ blocks) by (by rewrite Hb); by eexists|].
      rewrite bool_decide_false; [done|]. apply (se_resumed _ _ _ _ _ Hse x r); auto.
    - rewrite bind_ret. rewrite (st_bind_lift _ blocks) by by rewrite Hb. by eexists. }
  st_step Hd1. apply IH. intros j y Hy. apply Hit. by right.
Qed.

Lemma zip_seq_lookup {A} (xs : list A) k i (a : A) : (i, a) ∈ zip (seq k (length xs)) xs → (k <= i)%nat ∧ xs !! (i - k)%nat = Some a.
Proof.
  revert k; induction xs as [|a0 xs IH]; intros k; cbn; [by intros ?%elem_of_nil|]. intros [[= -> ->]|Hin]%elem_of_cons; [by rewrite Nat.sub_diag|].
  destruct (IH (S k) Hin) as [Hle Hl]. split; [lia|]. by replace (i - k)%nat with (S (i - S k)) by lia.
Qed.

Lemma make_cached_spec s t m l total (v2 : bool) :
  settled s t m l total → ∃ d, make_cached_request_data t (sp_scheduled_running_reqs t) (if v2 then [] else sp_scheduled_resumed_reqs t) s = Ok (s, d).
Proof.
  intros Hse. unfold make_cached_request_data. eapply cached_spec; [done|]. intros i x [_ Hl]%zip_seq_lookup. rewrite Nat.sub_0_r in Hl. split.
  - apply list_elem_of_lookup_2 in Hl. unfold sched. destruct v2; revert Hl; in_list; rewrite ?elem_of_nil; tauto.
  - intros Hle. rewrite lookup_app_r in Hl by done. apply list_elem_of_lookup_2 in Hl. by destruct v2; [apply elem_of_nil in Hl|].
Qed.

(** *** The requests after the step *)

(** A request that gets [n] tokens of the step. *)
Definition due s m rid (n : Z) : Prop := ∃ x r, (rid, x) ∈ sd_requests s ∧ x ∈ sd_running s ∧ sd_heap s !! x = Some r ∧ rq_request_id r = rid ∧ 0 < n ∧
  rq_num_computed_tokens r + n <= num_tokens r ∧ rq_num_computed_tokens r + n <= lenZ (held m rid) * bs.

(** The tokens of [todo] count as computed; nothing else changes. *)
Record counted (todo : list (string * Z)) s s' : Prop := {
  ct_heap : ∀ x r, x ∈ (sd_requests s).*2 → sd_heap s !! x = Some r → ∃ r', sd_heap s' !! x = Some r' ∧ rq_oid r' = rq_oid r ∧ rq_request_id r' = rq_request_id r ∧
    rq_status r' = rq_status r ∧ num_tokens r' = num_tokens r ∧ rq_num_computed_tokens r' = rq_num_computed_tokens r + default 0 (od_get (rq_request_id r) todo);
  ct_other : ∀ x, x ∉ (sd_requests s).*2 → sd_heap s' !! x = sd_heap s !! x;
}.

Lemma advance_one s m l b rid n :
  world s (sd_running s) (queues s) [] m l → due s m rid n → ∃ s' b', advance_request b (rid, n) s = Ok (s', b') ∧ world s' (sd_running s) (queues s) [] m l ∧ (∃ h, s' = s <| sd_heap := h |>) ∧
    counted [(rid, n)] s s' ∧ ∃ x, (rid, x) ∈ sd_requests s ∧ heap_kept x s s'.
Proof.
  intros Hw (x & r & Hin & Hx & Hr & Hid & Hn & Hle & Hcov). destruct (world_object x Hw) as (r0 & Hr0 & Ho & _ & Hok & Hrun & Hwait); [in_list|].
  rewrite Hr in Hr0. injection Hr0 as <-. destruct (Hrun Hx) as (Hst & Hc & Hh). unfold advance_request. rewrite st_bind_get.
  rewrite (st_bind_lift _ x) by by rewrite (od_In_get _ _ _ (w_keys Hw) Hin). set (f := fun r : req => r <| rq_num_computed_tokens ::= Z.add n |>).
  set (g := fun r : req => r <| rq_is_prefill_chunk := rq_num_computed_tokens r <? num_tokens r + rq_num_output_placeholders r |>). set (s1 := s <| sd_heap ::= alter f x |>).
  set (s2 := s1 <| sd_heap ::= alter g x |>). unfold set_req. rewrite !st_bind_modify. fold s1. fold s2.
  assert (sd_heap s1 !! x = Some (f r)) as Hr1 by (unfold s1; cbn; by rewrite lookup_alter_eq, Hr).
  assert (sd_heap s2 !! x = Some (g (f r))) as Hr2 by (unfold s2, s1; cbn; by rewrite !lookup_alter_eq, Hr). st_step (get_req_eq s2 x (g (f r)) Hr2).
  assert (x ∉ queues s) as Hxq.
  { pose proof (world_nodup Hw) as Hnd. rewrite app_nil_r in Hnd. apply NoDup_app in Hnd as (_ & Hnd & _). by apply Hnd. }
  assert (∀ r' : req, req_core r' = req_core r → rq_status r' = rq_status r → req_ok r') as Hok' by (intros r' Hcr Hsr; apply (req_ok_eq r' Hok Hcr); rewrite Hsr; by left).
  assert (∀ r' : req, rq_status r' = rq_status r → rq_num_computed_tokens r' = n + rq_num_computed_tokens r → rq_request_id r' = rid → num_tokens r' = num_tokens r → run_ok m r') as Hrun'.
  { intros r' R1 R2 R3 R4. unfold run_ok, SchedulerCore.run_ok. rewrite R1, R2, R3, R4. split; [done|]. lia. }
  assert (world s1 (sd_running s) (queues s) [] m l) as Hw1 by (apply (world_set x r f Hw Hr); try done; [by apply Hok'|intros _; by apply Hrun']).
  assert (world s2 (sd_running s) (queues s) [] m l) as Hw2 by (apply (world_set x (f r) g Hw1 Hr1); try done; [by apply Hok'|intros _; by apply Hrun']).
  assert (heap_kept x s s2) as Hk by (intros z Hz; unfold s2, s1; cbn; by rewrite !lookup_alter_ne).
  eexists s2, _. split; [done|]. split; [done|]. split; [by exists (alter g x (alter f x (sd_heap s)))|]. split; [|by exists x]. split.
  - intros z rz Hz Hrz. destruct (decide (z = x)) as [->|Hne].
    + rewrite Hr in Hrz. injection Hrz as <-. exists (g (f r)). split_and!; try done. cbn [od_get]. rewrite decide_True by done. cbn. lia.
    + exists rz. rewrite Hk by done. split_and!; try done. cbn [od_get]. rewrite decide_False; [cbn; lia|]. rewrite <- Hid. intros Heq. symmetry in Heq. revert Heq.
      apply (world_distinct z x rz r Hw); try done; [by rewrite <- (w_places Hw)|in_list].
  - intros z Hz. apply Hk. intros ->. apply Hz. by apply (list_elem_of_fmap_2' snd _ (rid, x)).
Qed.

Lemma advance_all todo s m l b :
  world s (sd_running s) (queues s) [] m l → NoDup todo.*1 → (∀ rid n, (rid, n) ∈ todo → due s m rid n) →
  ∃ s' b', st_fold advance_request b todo s = Ok (s', b') ∧ world s' (sd_running s) (queues s) [] m l ∧ (∃ h, s' = s <| sd_heap := h |>) ∧ counted todo s s'.
Proof.
  revert s b; induction todo as [|[rid n] todo IH]; intros s b Hw Hnd Hdue.
  { exists s, b. split; [done|]. split; [done|]. split; [by exists (sd_heap s); destruct s|]. split; [|done]. intros x r _ Hr. exists r. split_and!; try done. cbn. lia. }
  cbn in Hnd. apply NoDup_cons in Hnd as [Hni Hnd]. cbn [st_fold]. destruct (advance_one s m l b rid n Hw) as (s1 & b1 & Heq & Hw1 & (h & Hs1) & [C2 C3] & x & Hx & Hk); [apply Hdue; left|].
  st_step Heq. destruct (IH s1 b1) as (s' & b' & Heq' & Hw' & (h' & Hs') & [D2 D3]); [by rewrite Hs1 in *|done| |].
  { intros rid' n' Hin. destruct (Hdue rid' n') as (y & ry & Hy & Hyr & Hry & Hid & R1 & R2 & R3); [by right|]. assert (y ≠ x) as Hne.
    { intros ->. apply Hni. apply list_elem_of_fmap. exists (rid', n'). split; [|done]. cbn. destruct (w_objects Hw rid x Hx) as (rx & Hrx & _ & Hidx & _). congruence. }
    exists y, ry. rewrite (Hk y Hne). rewrite Hs1. by split_and!. }
  exists s', b'. split; [done|]. split; [by rewrite Hs1 in Hw'|]. assert (sd_requests s1 = sd_requests s) as Hrq by by rewrite Hs1. split; [exists h'; rewrite Hs', Hs1; done|]. split.
  - intros z rz Hz Hrz. destruct (C2 z rz Hz Hrz) as (r1 & Hr1 & O1 & I1 & S1' & N1 & K1). rewrite Hrq in D2. destruct (D2 z r1 Hz Hr1) as (r2 & Hr2 & O2 & I2 & S2' & N2 & K2).
    exists r2. split_and!; try congruence. rewrite K2, K1, I1. cbn [od_get]. destruct (decide (rid = rq_request_id rz)) as [->|Hne]; cbn; [|lia].
    rewrite (proj2 (od_get_None _ _) Hni). cbn. lia.
  - intros z Hz. rewrite D3 by by rewrite Hrq. by apply C3.
Qed.

Lemma counted_evolves todo s s' act que hole m l : world s act que hole m l → counted todo s s' → evolves s s'.
Proof.
  intros Hw [C2 C3] x r Hr. destruct (decide (x ∈ (sd_requests s).*2)) as [Hx|Hx]; [|exists r; by rewrite C3].
  destruct (C2 x r Hx Hr) as (r' & Hr' & O & I & S' & _). exists r'. split; [done|]. unfold grows, started, is_finished. rewrite S'. by split_and!; auto.
Qed.

(** What a step gives out. *)
Record step_output s s' m' (o : SchedulerOutput F E) : Prop := {
  sc_tokens : sumZ snd (so_num_scheduled_tokens o) <= step_budget s ∧ so_total_num_scheduled_tokens o = sumZ snd (so_num_scheduled_tokens o);
  sc_positive : ∀ rid n, (rid, n) ∈ so_num_scheduled_tokens o → 0 < n;
  sc_keys : NoDup (so_num_scheduled_tokens o).*1;
  sc_drafts : so_scheduled_spec_decode_tokens o = [];
  sc_running : ∀ rid n, (rid, n) ∈ so_num_scheduled_tokens o → ∃ x r, (rid, x) ∈ sd_requests s' ∧ x ∈ sd_running s' ∧ sd_heap s' !! x = Some r ∧ rq_request_id r = rid ∧
    n <= rq_num_computed_tokens r <= num_tokens r ∧ rq_num_computed_tokens r <= lenZ (held m' rid) * bs;
}.

Lemma settled_due s t m l total rid n : settled s t m l total → (rid, n) ∈ sp_num_scheduled_tokens t → due s m rid n.
Proof.
  intros Hse Hin. pose proof (se_step _ _ _ _ _ Hse) as Hst. destruct (sg_keys _ _ _ _ Hst) as (Hk & _).
  destruct (sg_owner _ _ _ _ Hst rid) as (x & r & Hx & Hr & Hid); [by apply (list_elem_of_fmap_2' fst _ (rid, n))|].
  destruct (scheduled_item s t m l total x Hse Hx) as (r' & n' & bl & Hr' & Ho & Hrq & Hrun & Hn & _ & Hpos & Hle & Hcov). rewrite Hr in Hr'. injection Hr' as <-. subst rid.
  rewrite (od_In_get _ _ _ Hk Hin) in Hn. injection Hn as <-. exists x, r. by split_and!.
Qed.

Lemma settled_kv s t m l total k' m' :
  settled s t m l total → km_state k' m' l → same_holders m m' → km_fixed k' = km_fixed (sd_kv_cache_manager s) → settled (s <| sd_kv_cache_manager := k' |>) t m' l total.
Proof.
  intros [Hw Hsh Hst Hp Hu Hr] Hks (Hm & Hh & Hc) Hfix. split; try done.
  - apply (world_kv_same k' m' l Hw); try done. by injection Hfix.
  - by destruct Hsh.
  - destruct Hst. split; try done. intros x r Hx Hxr. destruct (sg_items0 x r Hx Hxr) as (n & bl & I). exists n, bl. by rewrite Hh.
Qed.

Lemma common_spec s t m l total :
  settled s t m l total → ∃ k' m' ns, (match sd_running s with
      | [] => mret (replicate (length (kvc_groups (kc_config (km_coordinator (sd_kv_cache_manager s))))) 0)
      | x :: _ => r ← get_req x; on_kv (km_get_num_common_prefix_blocks (rq_request_id r))
      end) s = Ok (s <| sd_kv_cache_manager := k' |>, ns) ∧ settled (s <| sd_kv_cache_manager := k' |>) t m' l total ∧ ∀ rid, held m' rid = held m rid.
Proof.
  intros Hse. pose proof (se_world _ _ _ _ _ Hse) as Hw. assert (s <| sd_kv_cache_manager := sd_kv_cache_manager s |> = s) as Hs by by destruct s.
  destruct (sd_running s) as [|x xs] eqn:Hrun.
  { exists (sd_kv_cache_manager s), m. eexists. rewrite Hs. by split_and!. }
  destruct (world_object x Hw) as (r & Hr & _); [in_list|]. st_step (get_req_eq s x r Hr).
  destruct (km_common_spec _ m l (rq_request_id r) (w_kv Hw)) as (k' & m' & ns & Heq & Hks & Hsame). exists k', m', ns. split; [by apply on_kv_eq|].
  split; [|apply Hsame]. apply (settled_kv s t m l total k' m'); try done. apply (keeps_coordinator _ _ _ _ Heq).
Qed.

Lemma zeroed_spec s act que hole m l (zeroing : bool) :
  world s act que hole m l → ∃ k' m' z, (if zeroing then ids ← on_kv km_take_new_block_ids; mret (match ids with [] => None | _ => Some ids end) else mret None) s =
      Ok (s <| sd_kv_cache_manager := k' |>, z) ∧ world (s <| sd_kv_cache_manager := k' |>) act que hole m' l ∧ ∀ rid, held m' rid = held m rid.
Proof.
  intros Hw. assert (s <| sd_kv_cache_manager := sd_kv_cache_manager s |> = s) as Hs by by destruct s.
  destruct zeroing; [|exists (sd_kv_cache_manager s), m; eexists; rewrite Hs; by split_and!].
  destruct (km_take_eq _ m l (w_kv Hw)) as (k' & m' & ids & Heq & Hks & Hm & Hh & Hc). st_step (on_kv_eq _ s _ _ Heq). exists k', m'. eexists. split; [done|].
  split; [|done]. apply (world_kv_same k' m' l Hw); try done. revert Heq. unfold km_take_new_block_ids. intros (k1 & a & H1' & [= <- _])%st_bind_Ok.
  pose proof (keeps_coordinator _ _ _ _ H1') as Hfix. by injection Hfix.
Qed.

(** The output of the step, before the tokens are counted. *)
Lemma finish_output s t m l total :
  settled s t m l total → total <= cf_max_num_scheduled_tokens cfg →
  ∃ s' m' o, finish_schedule t s = update_after_schedule o s' ∧ world s' (sd_running s) (queues s) [] m' l ∧ (∀ rid, held m' rid = held m rid) ∧
    sd_heap s' = sd_heap s ∧ sd_requests s' = sd_requests s ∧ sd_running s' = sd_running s ∧ sd_waiting s' = sd_waiting s ∧ sd_skipped_waiting s' = sd_skipped_waiting s ∧
    sd_prev_step_scheduled_req_ids s' = list_to_set (sp_num_scheduled_tokens t).*1 ∧ sd_pause_state s' = sd_pause_state s ∧
    so_num_scheduled_tokens o = sp_num_scheduled_tokens t ∧ so_total_num_scheduled_tokens o = sumZ snd (sp_num_scheduled_tokens t) ∧
    so_scheduled_spec_decode_tokens o = sp_scheduled_spec_decode_tokens t.
Proof.
  intros Hse Htot. pose proof (se_step _ _ _ _ _ Hse) as Hst. pose proof (sg_total _ _ _ _ Hst). pose proof (sg_budget _ _ _ _ Hst). pose proof (scheduled_fits _ _ _ _ Hst).
  unfold finish_schedule. rewrite st_bind_get, (w_config (se_world _ _ _ _ _ Hse)). pose proof (sh_running _ (se_shape _ _ _ _ _ Hse)).
  do 4 (rewrite st_bind_assert by (apply Z.leb_le; lia)).
  destruct (common_spec s t m l total Hse) as (k1 & m1 & ns & Heq1 & Hse1 & Hh1). st_step Heq1. set (s1 := s <| sd_kv_cache_manager := k1 |>) in *.
  destruct (new_data_spec s1 t m1 l total (cf_use_v2_model_runner cfg) (if cf_use_v2_model_runner cfg then sp_scheduled_new_reqs t ++ sp_scheduled_resumed_reqs t else sp_scheduled_new_reqs t) Hse1) as [ds Hds].
  { intros x. unfold sched. destruct (cf_use_v2_model_runner cfg); in_list; tauto. }
  st_step Hds. destruct (make_cached_spec s1 t m1 l total (cf_use_v2_model_runner cfg) Hse1) as [d Hd]. st_step Hd. rewrite st_bind_modify.
  set (s2 := s1 <| sd_prev_step_scheduled_req_ids := list_to_set (sp_num_scheduled_tokens t).*1 |>).
  assert (world s2 (sd_running s) (queues s) [] m1 l) as Hw2 by (apply (world_eq s1); [exact (se_world _ _ _ _ _ Hse1)|done]).
  destruct (zeroed_spec s2 _ _ _ m1 l (cf_needs_kv_cache_zeroing cfg) Hw2) as (k3 & m3 & z & Heq3 & Hw3 & Hh3). st_step Heq3. set (s3 := s2 <| sd_kv_cache_manager := k3 |>) in *.
  destruct (get_reqs_total s3 (sp_preempted_reqs t)) as [rs Hrs]; [apply (se_preempted _ _ _ _ _ Hse)|].
  st_step Hrs. destruct (w_enc Hw3) as (e & He & Hwf).
  assert (∃ e' freed, en_get_freed_mm_hashes (CacheManager e) = Ok (CacheManager e', freed) ∧ ec_wf size capacity e') as (e' & freed & Hfr & Hwf').
  { eexists _, _. split; [done|]. by destruct Hwf. }
  rewrite <- He in Hfr. st_step (on_enc_eq _ s3 _ _ Hfr). set (s4 := s3 <| sd_encoder_cache_manager := CacheManager e' |>). rewrite st_bind_get.
  assert (world s4 (sd_running s) (queues s) [] m3 l) as Hw4 by by apply world_set_enc.
  assert (∀ A (f : unit → st scheduler A) c, (with_connector c ≫= f) s4 = f tt s4) as Hwc.
  { intros A f c. apply st_bind_eq. unfold with_connector. rewrite st_bind_get, (proj1 (w_plain Hw4)). done. }
  cbn zeta. rewrite Hwc. exists s4, m3. eexists. split; [done|]. split; [done|]. split; [intros rid; by rewrite Hh3|]. by split_and!.
Qed.

Lemma rested_after s t m l total s' :
  settled s t m l total → counted (sp_num_scheduled_tokens t) s s' → sd_prev_step_scheduled_req_ids s' = list_to_set (sp_num_scheduled_tokens t).*1 → rested s' (queues s) [].
Proof.
  intros Hse [C2 _] Hprev x r' Hx Hr' _. left. rewrite Hprev, elem_of_list_to_set. pose proof (se_world _ _ _ _ _ Hse) as Hw.
  destruct (world_object x Hw) as (r & Hr & _ & Hin & _); [in_list|]. destruct (C2 x r) as (r0 & Hr0 & _ & Hid & _); [by apply (list_elem_of_fmap_2' snd _ (rq_request_id r, x))|done|].
  rewrite Hr' in Hr0. injection Hr0 as <-. rewrite Hid. intros (y & ry & Hy & Hry & Hidy)%(sg_owner _ _ _ _ (se_step _ _ _ _ _ Hse)).
  apply (sg_running _ _ _ _ (se_step _ _ _ _ _ Hse)) in Hy. assert (y ≠ x) as Hne.
  { intros ->. pose proof (world_nodup Hw) as Hnd. rewrite app_nil_r in Hnd. apply NoDup_app in Hnd as (_ & Hnd & _). by apply (Hnd x). }
  revert Hidy. apply (world_distinct y x ry r Hw); try done; in_list.
Qed.

Lemma finish_spec s t m l total :
  settled s t m l total → total <= cf_max_num_scheduled_tokens cfg →
  ∃ s' m' o, finish_schedule t s = Ok (s', o) ∧ steady s' m' l ∧ evolves s s' ∧ sd_requests s' = sd_requests s ∧ sd_pause_state s' = sd_pause_state s ∧ sd_running s' = sd_running s ∧
    so_num_scheduled_tokens o = sp_num_scheduled_tokens t ∧ so_total_num_scheduled_tokens o = sumZ snd (sp_num_scheduled_tokens t) ∧ so_scheduled_spec_decode_tokens o = [] ∧
    (∀ rid, held m' rid = held m rid) ∧ counted (sp_num_scheduled_tokens t) s s'.
Proof.
  intros Hse Htot. destruct (finish_output s t m l total Hse Htot) as (s1 & m1 & o & -> & Hw1 & Hh & Ehe & Erq & Eru & Ewa & Esk & Epr & Epa & Eto & Esu & Esp).
  assert (queues s1 = queues s) as Hq1 by (unfold queues; by rewrite Ewa, Esk).
  unfold update_after_schedule. rewrite Eto. destruct (advance_all (sp_num_scheduled_tokens t) s1 m1 l (so_has_structured_output_requests o)) as (s2 & b & Heq & Hw2 & (h & Hs2) & [C1 C2]).
  { by rewrite Eru, Hq1. }
  { apply (sg_keys _ _ _ _ (se_step _ _ _ _ _ Hse)). }
  { intros rid n Hin. destruct (settled_due s t m l total rid n Hse Hin) as (x & r & R1 & R2 & R3 & R4 & R5 & R6 & R7). exists x, r. rewrite Erq, Eru, Ehe, Hh. by split_and!. }
  st_step Heq. rewrite st_bind_modify. set (s3 := s2 <| sd_finished_req_ids := ∅ |>). rewrite st_bind_get.
  assert (world s3 (sd_running s) (queues s) [] m1 l) as Hw3 by (apply (world_eq s2); [by rewrite Eru, Hq1 in Hw2|done]).
  assert (counted (sp_num_scheduled_tokens t) s s3) as Hct by (split; cbn; rewrite <- ?Erq, <- ?Ehe; done).
  assert (sd_running s3 = sd_running s ∧ queues s3 = queues s ∧ sd_prev_step_scheduled_req_ids s3 = list_to_set (sp_num_scheduled_tokens t).*1 ∧ sd_waiting s3 = sd_waiting s ∧
    sd_skipped_waiting s3 = sd_skipped_waiting s ∧ sd_requests s3 = sd_requests s ∧ sd_pause_state s3 = sd_pause_state s) as (Q1 & Q2 & Q3 & Q4 & Q5 & Q6 & Q7).
  { unfold s3. rewrite Hs2. unfold queues in *. cbn in *. split_and!; try done; congruence. }
  clearbody s3. rewrite (w_config Hw3), (pc_async _ Hcfg). eexists s3, m1, _. split; [done|].
  split; [|split; [by eapply counted_evolves, Hct; apply (se_world _ _ _ _ _ Hse)|split_and!; try done]].
  - split; rewrite ?Q1, ?Q2; [done| |by eapply rested_after|].
    + destruct (se_shape _ _ _ _ _ Hse). split; [by rewrite Q4, Q5|by rewrite Q1].
    + rewrite Q5. intros x r' Hx Hr'. destruct (world_object x (se_world _ _ _ _ _ Hse)) as (r & Hr & _ & Hin & _); [unfold queues; in_list|].
      destruct (ct_heap _ _ _ Hct x r) as (r0 & Hr0 & _ & _ & Hst & _); [by apply (list_elem_of_fmap_2' snd _ (rq_request_id r, x))|done|].
      rewrite Hr' in Hr0. injection Hr0 as <-. unfold started. rewrite Hst. by apply (se_skipped _ _ _ _ _ Hse x r).
  - cbn. rewrite Esp. by destruct (sg_plain _ _ _ _ (se_step _ _ _ _ _ Hse)) as (_ & _ & _ & ?).
Qed.

Lemma schedule_spec s m l :
  steady s m l → ∃ s' m' l' o, schedule embeds_digest use_int_hashes log1p iter_strings iter_ints clock has_cache_item evaluate_pending s = Ok (s', o) ∧
    steady s' m' l' ∧ evolves s s' ∧ sd_requests s' = sd_requests s ∧ sd_pause_state s' = sd_pause_state s ∧ step_output s s' m' o.
Proof.
  intros Hs. destruct (begin_spec s m l Hs) as (t & Heq & Hinv & Hidx & _). unfold schedule. st_step Heq.
  destruct (loops_spec s t m l (step_budget s) Hinv Hidx) as (s1 & t1 & m1 & l1 & Heq1 & Hse & [Aev Are _]).
  assert (step_budget s <= cf_max_num_scheduled_tokens cfg) as Htot by (unfold step_budget; pose proof (pc_tokens _ Hcfg); destruct (sd_pause_state s); lia).
  destruct (finish_spec s1 t1 m1 l1 (step_budget s) Hse Htot) as (s2 & m2 & o & Heq2 & Hst & Hev & Erq & Epa & Eru & Eto & Esu & Esp & Hh & Hct).
  match goal with |- context [(?f ≫= ?g) s] => assert (f s = Ok (s1, t1)) as Hf by by rewrite Heq1 end. st_step Hf. exists s2, m2, l1, o. split; [done|]. split; [done|].
  split; [by etrans|]. injection Are as _ _ _ _ R5 _ _ _ _ R10 _. split; [congruence|]. split; [congruence|]. pose proof (se_step _ _ _ _ _ Hse) as Hsg. split; rewrite ?Eto.
  - pose proof (sg_total _ _ _ _ Hsg). pose proof (sg_budget _ _ _ _ Hsg). split; [lia|done].
  - intros rid n Hin. by destruct (settled_due _ _ _ _ _ rid n Hse Hin) as (x & r & _ & _ & _ & _ & ? & _).
  - apply (sg_keys _ _ _ _ Hsg).
  - done.
  - intros rid n Hin. destruct (settled_due _ _ _ _ _ rid n Hse Hin) as (x & r & R1 & R2 & R3 & R4 & R5' & R6 & R7).
    destruct (ct_heap _ _ _ Hct x r) as (r' & Hr' & _ & Hid & _ & Hnt & Hc); [by apply (list_elem_of_fmap_2' snd _ (rid, x))|done|]. exists x, r'. rewrite Erq, Eru, Hh, Hid, Hnt, Hc, R4.
    destruct (sg_keys _ _ _ _ Hsg) as (Hk & _). rewrite (od_In_get _ _ _ Hk Hin). cbn [default from_option id].
    destruct (world_object x (se_world _ _ _ _ _ Hse)) as (r0 & Hr0 & _ & _ & _ & Hrun & _); [in_list|]. rewrite R3 in Hr0. injection Hr0 as <-. destruct (Hrun R2) as (_ & Hc0 & _).
    split_and!; try done; lia.
Qed.

End steps.
