(* ===== verification/SchedulerUpdateThms.v ===== *)
(** * The other operations of the scheduler

    [update_from_output], [finish_requests], [scheduler_add_request],
    [scheduler_reset_prefix_cache] and the events between the steps, from a state where
    every request is in its place: none of them raises, and each keeps the state so.
    The steps and these operations in any order are the runs of the scheduler. *)

From S2P Require Import Prelude PyFloat Metrics Protocol CachePolicy OffloadManager Lifecycle Request BlockHash FreeQueue BlockPool BlockPoolThms.
From S2P Require Import SingleType KVManager KVManagerThms CacheHitThms Scheduling SchedulingThms RequestQueue EncoderCache EncoderCacheThms Scheduler SchedulerCore SchedulerStepThms.

(** ** Lists *)

Section removal.
Implicit Types (x : Z) (l : list Z) (X : gset Z).

Lemma filter_out_one x l X : NoDup (filter (fun y => y ∉ X) l) → x ∈ filter (fun y => y ∉ X) l → filter (fun y => y ∉ X) l ≡ₚ x :: filter (fun y => y ∉ {[x]} ∪ X) l.
Proof.
  intros Hnd [HX Hx]%list_elem_of_filter. apply NoDup_Permutation; [done| |].
  - apply NoDup_cons. split; [rewrite list_elem_of_filter; set_solver|]. rewrite <- (list_filter_filter_l _ (fun y => y ∉ X)) by set_solver. by apply NoDup_filter.
  - intros y. rewrite elem_of_cons, !list_elem_of_filter. destruct (decide (y = x)) as [->|]; set_solver.
Qed.

Lemma remove_first_filter x l : NoDup l → remove_first x l = filter (fun y => y ∉ ({[x]} : gset Z)) l.
Proof.
  induction l as [|y l IH]; [done|]. intros [Hy Hnd]%NoDup_cons. cbn [remove_first]. rewrite filter_cons. destruct (decide (y = x)) as [->|Hne].
  - rewrite decide_False by set_solver. symmetry. apply list_filter_all. set_solver.
  - rewrite decide_True by set_solver. by rewrite IH.
Qed.

Lemma remove_all_filter l X : NoDup l → remove_all l X = filter (fun y => y ∉ X) l.
Proof.
  intros Hnd. unfold remove_all. destruct (elements X) as [|x [|y k]] eqn:He; [| |done].
  - apply elements_empty_inv in He. symmetry. apply list_filter_all. set_solver.
  - rewrite remove_first_filter by done. apply list_filter_iff. intros y. rewrite <- (elem_of_elements X y), He. set_solver.
Qed.

End removal.

(** ** One object *)

Section put.
Context {F E P C G : Type} `{PyFloat F}.
Notation scheduler := (Scheduler F E P C G).
Notation req := (Request F E).
Implicit Types (s : scheduler) (r : req) (x y : Z).

Definition set_heap h s : scheduler := s <| sd_heap := h |>.
Definition put x r s : scheduler := set_heap (<[x:=r]> (sd_heap s)) s.

Lemma put_id x r s : sd_heap s !! x = Some r → put x r s = s.
Proof. intros Hr. unfold put. rewrite insert_id by done. by destruct s. Qed.
Lemma put_put x r r' s : put x r' (put x r s) = put x r' s.
Proof. transitivity (set_heap (<[x:=r']> (<[x:=r]> (sd_heap s))) s); [done|]. by rewrite insert_insert_eq. Qed.
Lemma put_lookup x r s : sd_heap (put x r s) !! x = Some r.
Proof. apply lookup_insert_eq. Qed.
Lemma set_req_eq x (f : req → req) s r : sd_heap s !! x = Some r → set_req x f s = Ok (put x (f r) s, tt).
Proof.
  intros Hr. unfold set_req, st_modify. f_equal. f_equal. transitivity (set_heap (alter f x (sd_heap s)) s); [done|]. unfold put. f_equal.
  apply map_eq. intros y. destruct (decide (x = y)) as [<-|Hne].
  - by rewrite lookup_alter_eq, lookup_insert_eq, Hr.
  - by rewrite lookup_alter_ne, lookup_insert_ne.
Qed.
Lemma set_put_eq x (f : req → req) s r : set_req x f (put x r s) = Ok (put x (f r) s, tt).
Proof. rewrite (set_req_eq x f _ r) by apply put_lookup. by rewrite put_put. Qed.
Lemma get_put_eq x s r : get_req x (put x r s) = Ok (put x r s, r).
Proof. apply get_req_eq, put_lookup. Qed.

End put.

Section steps.
Context {F E P C G : Type} `{PyFloat F} `{CachePolicy P} `{KVConnector F E C} `{StructuredOutput F E G}.
Context (embeds_digest : E → Z → Z → string) (use_int_hashes : bool).
Context (log1p : F → res F) (iter_strings : gset string → list string) (Hstrings : ∀ rids, iter_strings rids ≡ₚ elements rids).
Context (iter_ints : gset Z → list Z) (Hiter : ∀ ns, iter_ints ns ≡ₚ elements ns).
Context (offload_config : OffloadConfig F) (clock : nat → F) (has_cache_item : option (string → bool)).
Context (evaluate_pending : st (Scheduler F E P C G) unit).
(** Only the requests that use structured output advance a grammar. *)
Context (Hgrammar : ∀ (r : Request F E) (g : G), so_should_advance r g = true → rq_use_structured_output r = true).
Context (cfg : SchedulerConfig) (Hcfg : plain_config cfg) (size : string → Z) (capacity bs : Z) (Hbs : 0 < bs) (caching : bool).
Context (block_hasher : option (Request F E → res (Request F E * list string))) `{!RequestHashes block_hasher bs caching}.
Notation scheduler := (Scheduler F E P C G).
Notation sm := (st scheduler).
Notation req := (Request F E).
Notation world := (world (P := P) (C := C) (G := G) cfg size capacity bs caching block_hasher).
Notation req_ok := (req_ok cfg size bs caching block_hasher).
Notation run_ok := (run_ok bs).
Implicit Types (s : scheduler) (r q : req) (x y : Z) (rid : string) (act que hole l : list Z) (m : SingleTypeKVCacheManager).

(** A request changes, or one that left. *)
Lemma world_put s act que hole m l x r r' :
  world s act que hole m l → sd_heap s !! x = Some r → rq_oid r' = rq_oid r → rq_request_id r' = rq_request_id r → req_ok r' →
  (x ∈ act → run_ok m r') → (x ∈ que → wait_ok r') → world (put x r' s) act que hole m l.
Proof.
  intros Hw Hr Ho Hi Hok Hrun Hwait. pose proof (set_req_eq x (fun _ => r') s r Hr) as Heq. unfold set_req, st_modify in Heq.
  assert (put x r' s = s <| sd_heap ::= alter (fun _ => r') x |>) as -> by congruence. by apply (world_set x r (fun _ => r')).
Qed.

Lemma world_put_out s act que hole m l x r : world s act que hole m l → x ∉ (sd_requests s).*2 → world (put x r s) act que hole m l.
Proof.
  intros [] Hx. split; try done. intros rid y Hy. destruct (w_objects rid y Hy) as (q & Hq & Hrest). exists q. split; [|done].
  unfold put. cbn. rewrite lookup_insert_ne; [done|]. intros ->. apply Hx. by apply (list_elem_of_fmap_2' snd _ (rid, y)).
Qed.

(** ** The tokens of a request *)

(** What new tokens leave alone. *)
Definition req_rest r :=
  (rq_oid r, rq_request_id r, rq_num_prompt_tokens r, rq_num_computed_tokens r, rq_pooling_params r, rq_sampling_params r, rq_spec_token_ids r,
   rq_num_output_placeholders r, rq_mm_features r, (rq_use_structured_output r, rq_grammar r, rq_resumable r, rq_prefill_stats r)).

Record extended r r' : Prop := {
  xt_rest : req_rest r' = req_rest r;
  xt_tokens : num_tokens r' = rq_num_prompt_tokens r' + num_output_tokens r' ∧ num_tokens r <= num_tokens r';
  xt_hash : hash_ok (block_hasher := block_hasher) (block_size := bs) (caching := caching) r';
}.

(** The request goes on, or is finished. *)
Definition goes_on r r' (stopped : bool) : Prop :=
  extended r r' ∧ if stopped then is_finished r' = true else rq_status r' = rq_status r ∧ num_tokens r' < cf_max_model_len cfg.

Lemma extended_refl r : req_ok r → extended r r.
Proof. intros Hok. split; [done|by split; [apply (rk_tokens Hok)|]|apply (rk_hash Hok)]. Qed.
Lemma goes_on_refl r : req_ok r → goes_on r r false.
Proof. intros Hok. split; [by apply extended_refl|]. split; [done|apply (rk_room Hok)]. Qed.
Lemma extended_trans r1 r2 r3 : extended r1 r2 → extended r2 r3 → extended r1 r3.
Proof. intros [A1 [A2 A3] A4] [B1 [B2 B3] B4]. split; [congruence| |done]. split; [done|lia]. Qed.

Lemma last_output (l : list Z) token : py_index (l ++ [token]) (-1) = Ok token.
Proof. change (-1) with (- Z.of_nat 1). rewrite py_index_neg, length_app by (rewrite length_app; cbn; lia). cbn. by rewrite Nat.add_sub, list_lookup_middle. Qed.

(** A token that does not end the request leaves room for another. *)
Lemma check_stop_spec r sp :
  rq_pooling_params r = None → rq_sampling_params r = Some sp → rq_num_prompt_tokens r + sp_min_tokens sp <= cf_max_model_len cfg →
  num_tokens r = rq_num_prompt_tokens r + num_output_tokens r → (∃ l token, rq_output_token_ids r = l ++ [token]) →
  ∃ st sr stopped, check_stop r (cf_max_model_len cfg) = Ok (r <| rq_status := st |> <| rq_stop_reason := sr |>, stopped) ∧
    if stopped : bool then status_is_finished st = true else st = rq_status r ∧ num_tokens r < cf_max_model_len cfg.
Proof.
  intros Hp Hsp Hmin Htok (l & token & Hl). unfold check_stop. rewrite Hp, Hsp. cbn [passert bool_decide decide]. rewrite bool_decide_eq_true_2 by done. cbn [passert mbind res_bind or_raise].
  assert (∀ r : req, r = r <| rq_status := rq_status r |> <| rq_stop_reason := rq_stop_reason r |>) as Hid by by intros [].
  destruct (Z.ltb_spec (num_output_tokens r) (sp_min_tokens sp)).
  { exists (rq_status r), (rq_stop_reason r), false. rewrite <- Hid. split; [done|]. split; [done|lia]. }
  rewrite Hl, last_output. cbn [mbind res_bind]. case_bool_decide; [exists FINISHED_STOPPED, (rq_stop_reason r), true; split; [by destruct r|done]|].
  case_bool_decide; [by eexists FINISHED_STOPPED, _, true|]. destruct (Z.leb_spec (cf_max_model_len cfg) (num_tokens r)); cbn [orb].
  { exists FINISHED_LENGTH_CAPPED, (rq_stop_reason r), true. split; [by destruct r|done]. }
  destruct (rq_max_tokens r <=? num_output_tokens r); [exists FINISHED_LENGTH_CAPPED, (rq_stop_reason r), true; split; [by destruct r|done]|].
  assert (∃ b, match sp_repetition_detection sp with Some params => check_sequence_repetition (l ++ [token]) params | None => Ok false end = Ok b) as (b & ->).
  { destruct (sp_repetition_detection sp) as [params|]; [|by eexists]. destruct (check_repetition_spec (l ++ [token]) params) as (b & Hb & _). by exists b. }
  cbn [mbind res_bind]. destruct b; [by eexists FINISHED_REPETITION, _, true|]. exists (rq_status r), (rq_stop_reason r), false. rewrite <- Hid. by split.
Qed.


Lemma append_tokens_spec x tokens kept s r :
  sd_heap s !! x = Some r → sd_config s = cfg → rq_pooling_params r = None →
  (∃ sp, rq_sampling_params r = Some sp ∧ rq_num_prompt_tokens r + sp_min_tokens sp <= cf_max_model_len cfg) → extended r r → num_tokens r < cf_max_model_len cfg →
  ∃ r' out stopped, append_tokens block_hasher x kept tokens s = Ok (put x r' s, (out, stopped)) ∧ goes_on r r' stopped ∧
    (tokens ≠ [] ∨ kept ≠ [] → out ≠ []).
Proof.
  revert kept s r; induction tokens as [|token tokens IH]; intros kept s r Hr Hc Hp (sp & Hsp & Hmin) Hx Hroom.
  { exists r, kept, false. rewrite put_id by done. split_and!; [done|by split|]. by intros [?|?]. }
  cbn [append_tokens]. rewrite st_bind_get. st_step (get_req_eq s x r Hr).
  destruct (hash_ok_append r token (xt_hash _ _ Hx)) as (hs & e & Heq & Hok). cbn zeta in Heq, Hok. rewrite (st_bind_lift _ _ _ _ Heq). rewrite Hc.
  set (r1 := r <| rq_output_token_ids ::= _ |> <| rq_all_token_ids ::= _ |> <| rq_block_hashes := hs |> <| rq_embeds_hashes := e |>) in *.
  destruct (xt_tokens _ _ Hx) as [Htok _].
  assert (num_tokens r1 = num_tokens r + 1 ∧ num_output_tokens r1 = num_output_tokens r + 1) as [Hn1 Hn2].
  { change (num_tokens r1) with (lenZ (rq_all_token_ids r ++ [token])). change (num_output_tokens r1) with (lenZ (rq_output_token_ids r ++ [token])).
    rewrite !length_app. unfold num_tokens, num_output_tokens. cbn. lia. }
  destruct (check_stop_spec r1 sp) as (st & sr & stopped & Hst & Hend); try done; [change (rq_num_prompt_tokens r1) with (rq_num_prompt_tokens r); lia|by exists (rq_output_token_ids r), token|].
  rewrite (st_bind_lift _ _ _ _ Hst). set (r2 := r1 <| rq_status := st |> <| rq_stop_reason := sr |>).
  assert (extended r r2) as Hx2.
  { split; [done| |by apply (hash_ok_same r1)]. change (num_tokens r2) with (num_tokens r1). change (num_output_tokens r2) with (num_output_tokens r1).
    change (rq_num_prompt_tokens r2) with (rq_num_prompt_tokens r). lia. }
  st_step (set_req_eq x (fun _ => r2) s r Hr). destruct stopped.
  { exists r2, (kept ++ [token]), true. split_and!; [done|by split|]. intros _. by destruct kept. }
  destruct Hend as [Hs1 Hs2].
  destruct (IH (kept ++ [token]) (put x r2 s) r2) as (r3 & out & stopped & Heq3 & [Hx3 Hend] & Hout);
    [apply put_lookup|done|done|by exists sp|split; [done|split; [apply (xt_tokens _ _ Hx2)|done]|apply (xt_hash _ _ Hx2)]|done|].
  exists r3, out, stopped. rewrite Heq3, put_put. split; [done|]. split; [split; [by eapply extended_trans|]|intros _; apply Hout; right; by destruct kept].
  destruct stopped; [done|]. destruct Hend as [-> ?]. by split.
Qed.

(** The tokens, or the output of a pooling model, of one request. *)
Definition take_output x (generated : list Z) (pooled : bool) r : sm (list Z * bool) :=
  match generated with
  | _ :: _ => update_request_with_output embeds_digest use_int_hashes block_hasher x generated
  | [] =>
      if bool_decide (is_Some (rq_pooling_params r)) && pooled
      then set_req x (fun r => r <| rq_status := FINISHED_STOPPED |>);; mret ([], true)
      else mret ([], false)
  end.

Lemma take_output_spec x generated pooled s r :
  sd_heap s !! x = Some r → sd_config s = cfg → req_ok r → (generated ≠ [] → rq_pooling_params r = None) →
  ∃ r' tokens stopped, take_output x generated pooled r s = Ok (put x r' s, (tokens, stopped)) ∧ goes_on r r' stopped ∧
    (tokens = [] → stopped = false → r' = r).
Proof.
  intros Hr Hc Hok Hg. unfold take_output. destruct generated as [|token tokens].
  - destruct (_ && _).
    + exists (r <| rq_status := FINISHED_STOPPED |>), [], true. st_step (set_req_eq x (fun r => r <| rq_status := FINISHED_STOPPED |>) s r Hr).
      split_and!; [done| |done]. split; [|done]. destruct (extended_refl r Hok) as [A1 A2 A3]. split; [done|done|by apply (hash_ok_same r)].
    + exists r, [], false. rewrite put_id by done. split_and!; [done|by apply goes_on_refl|done].
  - unfold update_request_with_output. rewrite st_bind_get, Hc, (pc_async _ Hcfg). cbn [negb].
    destruct (append_tokens_spec x (token :: tokens) [] s r) as (r' & out & stopped & Heq & Hgo & Hout); try done; [by apply Hg|by apply (rk_params Hok), Hg|by apply extended_refl|apply (rk_room Hok)|].
    exists r', out, stopped. split_and!; [done|done|]. intros ->. by destruct Hout; [left|].
Qed.

(** The grammar may refuse the tokens. *)
Lemma advance_grammar_spec x tokens stopped s r r' :
  sd_heap s !! x = Some r → req_ok r → started r → goes_on r r' stopped →
  ∃ r'' g stopped', advance_grammar x tokens stopped (put x r' s) = Ok (put x r'' (s <| sd_grammars := g |>), stopped') ∧ goes_on r r'' stopped' ∧
    (tokens = [] → stopped' = stopped ∧ r'' = r').
Proof.
  intros Hr Hok Hst Hgo. assert (∀ s : scheduler, s = s <| sd_grammars := sd_grammars s |>) as Hid by by intros [].
  unfold advance_grammar. st_step (get_put_eq x s r'). rewrite st_bind_get.
  destruct tokens as [|token tokens]; [exists r', (sd_grammars s), stopped; by rewrite <- Hid|].
  destruct (so_should_advance r' _) eqn:Hadv; [|exists r', (sd_grammars s), stopped; by rewrite <- Hid].
  apply Hgrammar in Hadv as Huse. destruct Hgo as [Hx Hend]. pose proof (xt_rest _ _ Hx) as Hrest. injection Hrest as _ _ _ _ _ _ _ _ _ Euse Egr Eres _.
  assert (rq_grammar r' = true) as Hgr.
  { rewrite Egr. destruct (rk_grammar Hok) as [Hs|Hs]; [destruct Hst; congruence|]. apply Hs. congruence. }
  rewrite st_bind_assert by by rewrite Huse, Hgr. destruct (so_accept_tokens _ _ _) as [g accepted]. rewrite st_bind_modify. destruct accepted.
  - exists r', g, stopped. split_and!; [done|by split|done].
  - set (f := fun r : req => r <| rq_status := FINISHED_ERROR |> <| rq_resumable := false |>). exists (f r'), g, true.
    change ((put x r' s) <| sd_grammars := g |>) with (put x r' (s <| sd_grammars := g |>)). st_step (set_put_eq x f (s <| sd_grammars := g |>) r').
    split_and!; [done| |done]. split; [|done]. destruct Hx as [A1 A2 A3]. split; [|done|by apply (hash_ok_same r')].
    rewrite <- A1. unfold req_rest, f. cbn. by rewrite Eres, (rk_resumable Hok).
Qed.


(** ** The end of a request *)

(** What the end of a request leaves alone. *)
Definition places s := (sd_running s, sd_waiting s, sd_skipped_waiting s, sd_prev_step_scheduled_req_ids s, sd_pause_state s).

(** The request [r'], at [x], is gone. *)
Record departed x r' s s' : Prop := {
  de_heap : sd_heap s' = <[x:=r']> (sd_heap s);
  de_requests : sd_requests s' = od_del (rq_request_id r') (sd_requests s);
  de_places : places s' = places s;
}.

Lemma deleted_out s act que hole m l x r :
  world s act que (x :: hole) m l → sd_heap s !! x = Some r → x ∉ (od_del (rq_request_id r) (sd_requests s)).*2.
Proof.
  intros Hw Hr. destruct (world_object x Hw) as (r' & Hr' & _ & Hin & _); [in_list|]. rewrite Hr in Hr'. injection Hr' as <-.
  pose proof (world_nodup Hw) as Hnd. rewrite <- (w_places Hw) in Hnd.
  rewrite (fmap_Permutation snd _ _ (od_del_perm _ _ _ (od_In_get _ _ _ (w_keys Hw) Hin))) in Hnd. cbn in Hnd. by apply NoDup_cons in Hnd as [? _].
Qed.

Lemma free_request_spec s act que hole m l x r r' :
  world s act que (x :: hole) m l → sd_heap s !! x = Some r → rq_request_id r' = rq_request_id r → rq_mm_features r' = rq_mm_features r → is_finished r' = true →
  ∃ s' m' l', free_request iter_ints offload_config clock x false (put x r' s) = Ok (s', None) ∧ world s' act que hole m' l' ∧ departed x r' s s'.
Proof.
  intros Hw Hr Hid Hmm Hfin. destruct (w_plain Hw) as (Hcn & Hsch & Hlc). destruct (world_object x Hw) as (r0 & Hr0 & Ho & Hin & Hok & _); [in_list|].
  rewrite Hr in Hr0. injection Hr0 as <-. unfold free_request. st_step (get_put_eq x s r'). rewrite st_bind_assert by done. rewrite st_bind_get.
  assert (has_scheduling (put x r' s) = false) as -> by (unfold has_scheduling; cbn; by rewrite Hsch). cbn [st_when]. rewrite bind_ret.
  assert (sd_lifecycles (put x r' s) = None) as -> by done. rewrite (bool_decide_eq_false_2 (is_Some None)) by apply is_Some_None. cbn [andb st_when]. rewrite bind_ret.
  assert (connector_finished r' (put x r' s) = Ok (put x r' s, (false, None))) as Hcf by (unfold connector_finished; rewrite st_bind_get; cbn; by rewrite Hcn).
  st_step Hcf. cbn beta iota.
  destruct (w_enc Hw) as (e & He & Hwf). destruct (rk_inputs Hok) as [Hsz _].
  destruct (ec_free_spec size capacity iter_ints Hiter r' e Hwf) as (e' & Hef & Hwf' & _); [unfold sized; by rewrite Hmm|].
  assert (on_enc (en_free iter_ints r') (put x r' s) = Ok ((put x r' s) <| sd_encoder_cache_manager := CacheManager e' |>, tt)) as Heq by (apply on_enc_eq; cbn; by rewrite He).
  st_step Heq. rewrite st_bind_modify. cbn [orb negb st_when]. unfold free_blocks_of_request. rewrite st_bind_assoc, st_bind_assert by done. rewrite st_bind_assoc.
  destruct (km_free_spec (sd_kv_cache_manager s) m l r' (w_kv Hw)) as (k' & m' & fr & Hf & Hks & _ & Hm & Hck & Hnone & [Hb Hoth]).
  match goal with |- context [(on_kv (km_free r') ≫= ?g) ?t] => st_step (on_kv_eq (km_free r') t k' tt Hf) end.
  rewrite st_bind_assoc, st_bind_get. match goal with |- context [has_scheduling ?t] => assert (has_scheduling t = false) as -> by (unfold has_scheduling; cbn; by rewrite Hsch) end.
  cbn [st_when]. rewrite st_bind_assoc, bind_ret, st_bind_assoc, st_bind_get.
  match goal with |- context [od_has ?a ?b] => assert (od_has a b = true) as -> by (apply od_has_true; rewrite Hid; by apply (list_elem_of_fmap_2' fst _ (rq_request_id r, x))) end.
  cbn [negb st_when]. rewrite st_bind_assoc, bind_ret, st_bind_modify. eexists _, m', (l ++ fr). split; [done|]. split; [|done].
  set (s1 := s <| sd_kv_cache_manager := k' |>). set (s2 := s1 <| sd_encoder_cache_manager := CacheManager e' |>).
  assert (world s1 act que (x :: hole) m' (l ++ fr)) as Hw1.
  { apply (world_kv (m := m) (l := l) k' m' (l ++ fr) (rq_request_id r)); try done; rewrite <- ?Hid; try done; [apply (free_fixed _ _ _ _) in Hf; by injection Hf| |].
    - rewrite Hid. intros y q Hy _. rewrite (world_unique _ _ _ Hw Hy Hin). pose proof (world_nodup Hw) as Hnd. apply NoDup_app in Hnd as (_ & N1 & [_ [N2 _]]%NoDup_app).
      split; [intros Hq; apply (N2 x Hq); in_list|]. intros Ha. destruct (N1 x Ha). in_list.
    - rewrite Hid. by apply (list_elem_of_fmap_2' fst _ (rq_request_id r, x)). }
  assert (world s2 act que (x :: hole) m' (l ++ fr)) as Hw2 by by apply world_set_enc.
  pose proof (deleted_out _ _ _ _ _ _ _ r Hw2 Hr) as Hout. apply (world_delete x r) in Hw2; [|done|by rewrite <- Hid]. apply (world_put_out _ _ _ _ _ _ x r') in Hw2; [|done].
  eapply world_eq; [exact Hw2|]. rewrite <- Hid. reflexivity.
Qed.


(** ** The output of the model *)

Definition act_of s (acc : update_acc) : list Z := filter (fun y => y ∉ ua_stopped_running acc) (sd_running s).
Definition que_of s (acc : update_acc) : list Z :=
  filter (fun y => y ∉ ua_stopped_preempted acc) (members (sd_waiting s)) ++ members (sd_skipped_waiting s).

(** A request is as before, but for its tokens, or finished. *)
Definition updates r r' : Prop :=
  rq_oid r' = rq_oid r ∧ rq_request_id r' = rq_request_id r ∧ rq_pooling_params r' = rq_pooling_params r ∧
  (rq_status r' = rq_status r ∨ is_finished r' = true).

Lemma updates_trans r1 r2 r3 : updates r1 r2 → updates r2 r3 → (is_finished r2 = true → is_finished r3 = true) → updates r1 r3.
Proof.
  intros (A1 & A2 & A3 & A4) (B1 & B2 & B3 & B4) Hf. split_and!; try congruence. destruct A4 as [A4|A4]; [|right; by apply Hf]. destruct B4; [left; congruence|by right].
Qed.
Lemma updates_grows r r' : updates r r' → (is_finished r = true → is_finished r' = true) → grows r r'.
Proof. intros (A1 & A2 & _ & A4) Hf. split_and!; try done. intros Hs. destruct A4 as [A4|A4]; [left; unfold started; by rewrite A4|by right]. Qed.
Lemma goes_on_updates r r' b : goes_on r r' b → updates r r'.
Proof.
  intros [[Hx _ _] Hend]. injection Hx as E1 E2 _ _ E5 _ _ _ _ _ _ _ _. split_and!; try done. destruct b; [by right|left; apply Hend].
Qed.

(** In the middle of an update that started in [s0]. *)
Record updating s0 s (acc : update_acc) m l : Prop := {
  up_world : world s (act_of s acc) (que_of s acc) [] m l;
  up_places : places s = places s0;
  up_heap : ∀ x r, sd_heap s0 !! x = Some r → ∃ r', sd_heap s !! x = Some r' ∧ updates r r';
  up_finished : ∀ x r r', sd_heap s0 !! x = Some r → sd_heap s !! x = Some r' → is_finished r = true → is_finished r' = true;
  up_requests : ∀ p, p ∈ sd_requests s → p ∈ sd_requests s0;
}.

(** What the model returns of a request. *)
Definition answers (mo : ModelRunnerOutput) rid r : Prop := ∃ index, mo_req_id_to_index mo !! rid = Some index ∧
  (mo_sampled_token_ids mo = [] ∨ ∃ tokens, py_index (mo_sampled_token_ids mo) index = Ok tokens ∧ (rq_pooling_params r ≠ None → tokens = [])) ∧
  (mo_pooler_output mo = [] ∨ ∃ b, py_index (mo_pooler_output mo) index = Ok b).

(** The accumulator after the end of a request. *)
Definition stop_acc x (status_before : RequestStatus) (acc : update_acc) : update_acc :=
  if bool_decide (status_before = RUNNING) then mkUpdateAcc (ua_outputs acc) ({[x]} ∪ ua_stopped_running acc) (ua_stopped_preempted acc)
  else mkUpdateAcc (ua_outputs acc) (ua_stopped_running acc) ({[x]} ∪ ua_stopped_preempted acc).

Lemma updating_open s0 s acc m l x r :
  updating s0 s acc m l → unstarted s0 (members (sd_skipped_waiting s0)) → (∀ r0, sd_heap s0 !! x = Some r0 → started r0) →
  sd_heap s !! x = Some r → x ∈ act_of s acc ++ que_of s acc → is_Some (sd_heap s0 !! x) → is_finished r = false →
  started r ∧ world s (act_of s (stop_acc x (rq_status r) acc)) (que_of s (stop_acc x (rq_status r) acc)) [x] m l.
Proof.
  intros Hup Hun Hst0 Hr Hin [r0 Hr0] Hnf. pose proof (up_world _ _ _ _ _ Hup) as Hw. destruct (up_heap _ _ _ _ _ Hup x r0 Hr0) as (r1 & Hr1 & Hu).
  rewrite Hr in Hr1. injection Hr1 as <-. pose proof (Hst0 r0 Hr0) as Hs0. destruct Hu as (_ & _ & _ & [Es|Es]); [|congruence].
  assert (started r) as Hst by (unfold started; by rewrite Es). split; [done|].
  pose proof (up_places _ _ _ _ _ Hup) as Hpl. injection Hpl as P1 P2 P3 _ _.
  destruct (world_object x Hw) as (r1 & Hr1 & _ & _ & _ & Hrun & Hwait); [by rewrite app_nil_r|]. rewrite Hr in Hr1. injection Hr1 as <-.
  pose proof (world_nodup Hw) as Hnd. rewrite app_nil_r in Hnd. apply NoDup_app in Hnd as (N1 & N2 & N3). unfold stop_acc.
  apply elem_of_app in Hin as [Hin|Hin].
  - destruct (Hrun Hin) as [-> _]. rewrite bool_decide_eq_true_2 by done. unfold act_of, que_of in *. cbn [ua_stopped_running ua_stopped_preempted] in *.
    apply world_open_act. eapply world_perm; [exact Hw|by rewrite <- filter_out_one|done].
  - destruct (Hwait Hin) as [Hws _]. assert (rq_status r = Request.PREEMPTED) as Hp by (destruct Hst; destruct Hws as [?|[?|?]]; congruence). rewrite Hp.
    rewrite bool_decide_eq_false_2 by done. unfold act_of, que_of in *. cbn [ua_stopped_running ua_stopped_preempted] in *.
    apply elem_of_app in Hin as [Hin|Hin]; [|by destruct (Hun x r0); [by rewrite <- P3|done|]].
    apply world_open_que. eapply world_perm; [exact Hw|done|]. apply NoDup_app in N3 as (N3 & _). by rewrite (app_comm_cons _ _ x), <- filter_out_one.
Qed.


Lemma goes_on_ok r r2 r3 :
  req_ok r → started r → goes_on r r2 false → r3 = r2 <| rq_prefill_stats := None |> ∨ r3 = r →
  req_ok r3 ∧ updates r r3 ∧ rq_status r3 = rq_status r ∧ rq_num_computed_tokens r3 = rq_num_computed_tokens r ∧ num_tokens r <= num_tokens r3.
Proof.
  intros Hok Hst [Hx [Hs Hroom]] [->| ->]; [|split_and!; try done; split_and!; auto]. pose proof Hx as [Hrest [Ht Hle] Hh].
  injection Hrest as E1 E2 E3 E4 E5 E6 E7 E8 E9 E10 E11 E12 E13. split_and!; try done; [|split_and!; auto]. destruct Hok.
  split; try done; cbn; rewrite ?E3, ?E5, ?E6, ?E7, ?E8, ?E10, ?E11, ?E12; try done.
  - unfold request_ok, sized, placed in *. cbn. by rewrite E9.
  - by apply (hash_ok_same r2).
  - right. destruct rk_grammar as [Hg|Hg]; [destruct Hst; congruence|done].
Qed.

(** One object changed. *)
Lemma updating_heap s0 s s' acc m l x r r' :
  updating s0 s acc m l → sd_heap s !! x = Some r → sd_heap s' = <[x:=r']> (sd_heap s) → updates r r' → is_finished r = false →
  (∀ y q, sd_heap s0 !! y = Some q → ∃ q', sd_heap s' !! y = Some q' ∧ updates q q') ∧
  (∀ y q q', sd_heap s0 !! y = Some q → sd_heap s' !! y = Some q' → is_finished q = true → is_finished q' = true).
Proof.
  intros Hup Hr Hh Hu Hnf. rewrite Hh. split.
  - intros y q Hq. destruct (up_heap _ _ _ _ _ Hup y q Hq) as (q' & Hq' & Huq). destruct (decide (x = y)) as [<-|Hne]; [|rewrite lookup_insert_ne by done; by exists q'].
    rewrite Hr in Hq'. injection Hq' as <-. exists r'. rewrite lookup_insert_eq. split; [done|]. apply (updates_trans _ r); try done. by rewrite Hnf.
  - intros y q q' Hq. destruct (decide (x = y)) as [<-|Hne]; [|rewrite lookup_insert_ne by done; by apply (up_finished _ _ _ _ _ Hup)].
    rewrite lookup_insert_eq. intros [= <-] Hf. pose proof (up_finished _ _ _ _ _ Hup x q r Hq Hr Hf). congruence.
Qed.

Lemma updating_continue s0 s s' acc m l x r r2 r3 e :
  updating s0 s acc m l → ec_wf size capacity e → sd_heap s !! x = Some r → x ∈ act_of s acc ++ que_of s acc → is_finished r = false → started r →
  goes_on r r2 false → r3 = r2 <| rq_prefill_stats := None |> ∨ r3 = r →
  core_of s' = core_of (put x r3 (s <| sd_encoder_cache_manager := CacheManager e |>)) → places s' = places s → updating s0 s' acc m l.
Proof.
  intros Hup Hwf Hr Hin Hnf Hst Hgo H3 Hcore Hpl. pose proof (up_world _ _ _ _ _ Hup) as Hw.
  destruct (world_object x Hw) as (r0 & Hr0 & _ & _ & Hok & Hrun & Hwait); [by rewrite app_nil_r|]. rewrite Hr in Hr0. injection Hr0 as <-.
  destruct (goes_on_ok r r2 r3 Hok Hst Hgo H3) as (Hok3 & Hu & Hs3 & Hc3 & Hn3). pose proof Hu as (U1 & U2 & _).
  assert (sd_heap s' = <[x:=r3]> (sd_heap s) ∧ sd_requests s' = sd_requests s) as [Hh Hrq] by (by injection Hcore).
  destruct (updating_heap s0 s s' acc m l x r r3 Hup Hr Hh Hu Hnf) as [A1 A2].
  assert (act_of s' acc = act_of s acc ∧ que_of s' acc = que_of s acc) as [Ea Eq] by (injection Hpl as P1 P2 P3 _ _; unfold act_of, que_of; by rewrite P1, P2, P3).
  split; [|by rewrite Hpl; apply (up_places _ _ _ _ _ Hup)|done|done|rewrite Hrq; apply (up_requests _ _ _ _ _ Hup)].
  rewrite Ea, Eq. eapply world_eq; [|exact Hcore]. eapply world_put; [by apply world_set_enc|exact Hr|done|done|done| |].
  - intros Ha. destruct (Hrun Ha) as (R1 & R2 & R3). split; [by rewrite Hs3|]. rewrite Hc3, U2. split; [lia|done].
  - intros Hq. destruct (Hwait Hq) as (R1 & R2). split; [by rewrite Hs3|by rewrite Hc3].
Qed.

Lemma updating_stop s0 s s' s'' acc acc' m l m' l' x r r2 r3 :
  updating s0 s acc m l → sd_heap s !! x = Some r → is_finished r = false → goes_on r r2 true → r3 = r2 <| rq_prefill_stats := None |> →
  world s' (act_of s acc') (que_of s acc') [] m' l' → departed x r2 s'' s' → sd_heap s'' = sd_heap s → sd_requests s'' = sd_requests s → places s'' = places s →
  x ∉ (sd_requests s').*2 → updating s0 (put x r3 s') acc' m' l'.
Proof.
  intros Hup Hr Hnf Hgo -> Hw [D1 D2 D3] Eh Er Ep Hout. pose proof (goes_on_updates _ _ _ Hgo) as Hu.
  assert (sd_heap (put x (r2 <| rq_prefill_stats := None |>) s') = <[x:=r2 <| rq_prefill_stats := None |>]> (sd_heap s)) as Hh.
  { unfold put. cbn. by rewrite D1, Eh, insert_insert_eq. }
  destruct (updating_heap s0 s _ acc m l x r (r2 <| rq_prefill_stats := None |>) Hup Hr Hh) as [A1 A2]; [by destruct Hu|done|].
  split; [|by rewrite <- (up_places _ _ _ _ _ Hup), <- Ep, <- D3|done|done|].
  - rewrite <- D3 in Ep. injection Ep as P1 P2 P3 _ _. apply world_put_out; [|done].
    unfold act_of, que_of in *. cbn. by rewrite P1, P2, P3.
  - intros p Hp. apply (up_requests _ _ _ _ _ Hup). rewrite <- Er. cbn in Hp. rewrite D2 in Hp. by eapply elem_of_sublist, od_del_sublist.
Qed.


Notation update_one := (update_one embeds_digest use_int_hashes block_hasher iter_ints offload_config clock).

(** What follows the tokens of a request. *)
Definition settle x rid (pooled : bool) (status_before : RequestStatus) (acc : update_acc) (tokens : list Z) (stopped : bool) : sm update_acc :=
  stopped ← advance_grammar x tokens stopped;
  '(reason, acc) ← (if stopped : bool then stop_request block_hasher iter_ints offload_config clock x status_before acc else mret (None, acc));
  r ← get_req x;
  if negb (bool_decide (tokens = [])) || pooled || stopped then
    set_req x (fun r => r <| rq_prefill_stats := None |>);;
    mret (mkUpdateAcc (add_output (rq_client_index r) (mkEngineOutput rid tokens reason pooled (rq_stop_reason r) (rq_prefill_stats r)) (ua_outputs acc))
            (ua_stopped_running acc) (ua_stopped_preempted acc))
  else mret acc.

(** The lists of stopped requests are what matters. *)
Lemma updating_acc s0 s acc acc' m l :
  updating s0 s acc m l → ua_stopped_running acc' = ua_stopped_running acc → ua_stopped_preempted acc' = ua_stopped_preempted acc → updating s0 s acc' m l.
Proof. intros [] E1 E2. split; try done. unfold act_of, que_of in *. by rewrite E1, E2. Qed.

Lemma settle_spec s0 s acc m l x r r1 e rid pooled tokens stopped :
  updating s0 s acc m l → ec_wf size capacity e → sd_heap s !! x = Some r → x ∈ act_of s acc ++ que_of s acc → is_finished r = false → started r →
  world s (act_of s (stop_acc x (rq_status r) acc)) (que_of s (stop_acc x (rq_status r) acc)) [x] m l → req_ok r →
  goes_on r r1 stopped → (tokens = [] → stopped = false → r1 = r) →
  ∃ s' acc' m' l', settle x rid pooled (rq_status r) acc tokens stopped (put x r1 (s <| sd_encoder_cache_manager := CacheManager e |>)) = Ok (s', acc') ∧ updating s0 s' acc' m' l'.
Proof.
  intros Hup Hwf Hr Hin Hnf Hst Hopen Hok Hgo1 Hsame. set (s1 := s <| sd_encoder_cache_manager := CacheManager e |>). unfold settle.
  destruct (advance_grammar_spec x tokens stopped s1 r r1 Hr Hok Hst Hgo1) as (r2 & g & stopped2 & Heq & Hgo2 & Hsame2). st_step Heq.
  set (s2 := s1 <| sd_grammars := g |>). destruct stopped2.
  - unfold stop_request. rewrite st_bind_assoc. st_step (get_put_eq x s2 r2). rewrite st_bind_assoc.
    pose proof Hgo2 as [[Hrest _ _] Hfin]. injection Hrest as _ Eid _ _ _ _ _ _ Emm _ _ Eres _.
    assert (handle_stopped_request block_hasher x (put x r2 s2) = Ok (put x r2 s2, true)) as Hh.
    { unfold handle_stopped_request. st_step (get_put_eq x s2 r2). by rewrite Eres, (rk_resumable Hok). }
    st_step Hh. rewrite st_bind_assoc, st_bind_assoc.
    assert (world s2 (act_of s (stop_acc x (rq_status r) acc)) (que_of s (stop_acc x (rq_status r) acc)) [x] m l) as Hw2 by (apply (world_eq s1); [by apply world_set_enc|done]).
    destruct (free_request_spec s2 _ _ [] m l x r r2 Hw2 Hr Eid Emm Hfin) as (s3 & m' & l' & Hfr & Hw3 & Hdep). st_step Hfr. rewrite !bind_ret. cbn beta iota.
    assert (sd_heap s3 !! x = Some r2) as Hr3 by (rewrite (de_heap _ _ _ _ Hdep); apply lookup_insert_eq). st_step (get_req_eq s3 x r2 Hr3). rewrite orb_true_r.
    st_step (set_req_eq x (fun r => r <| rq_prefill_stats := None |>) s3 r2 Hr3). eexists _, _, m', l'. split; [done|].
    apply (updating_acc _ _ (stop_acc x (rq_status r) acc)).
    + apply (updating_stop s0 s s3 s2 acc (stop_acc x (rq_status r) acc) m l m' l' x r r2); try done.
      rewrite (de_requests _ _ _ _ Hdep), Eid. by apply (deleted_out _ _ _ _ _ _ _ r Hw2).
    + unfold stop_acc. by case_bool_decide.
    + unfold stop_acc. by case_bool_decide.
  - rewrite bind_ret. cbn beta iota. st_step (get_put_eq x s2 r2). rewrite orb_false_r. destruct (negb (bool_decide (tokens = [])) || pooled) eqn:Hout.
    + st_step (set_put_eq x (fun r => r <| rq_prefill_stats := None |>) s2 r2). eexists _, _, m, l. split; [done|]. apply (updating_acc _ _ acc); [|done..].
      apply (updating_continue s0 s _ acc m l x r r2 (r2 <| rq_prefill_stats := None |>) e); try done. by left.
    + eexists _, _, m, l. split; [done|]. apply orb_false_iff in Hout as [Hout _]. apply negb_false_iff, bool_decide_eq_true in Hout. destruct (Hsame2 Hout) as [Est ->].
      rewrite (Hsame Hout) in * by done. apply (updating_continue s0 s _ acc m l x r r r e); try done; by right.
Qed.


Lemma update_one_spec s0 s acc m l (o : SchedulerOutput F E) mo rid n :
  updating s0 s acc m l → unstarted s0 (members (sd_skipped_waiting s0)) → 0 < n →
  (∀ x r0, (rid, x) ∈ sd_requests s0 → sd_heap s0 !! x = Some r0 → started r0 ∧ answers mo rid r0) → (∀ x, x ∈ (sd_requests s0).*2 → is_Some (sd_heap s0 !! x)) →
  so_scheduled_spec_decode_tokens o = [] →
  ∃ s' acc' m' l', update_one o mo ∅ acc (rid, n) s = Ok (s', acc') ∧ updating s0 s' acc' m' l'.
Proof.
  intros Hup Hun Hn Hall Hdom Hspec. pose proof (up_world _ _ _ _ _ Hup) as Hw. unfold Scheduler.update_one. rewrite st_bind_assert by by apply Z.ltb_lt.
  rewrite st_bind_get, bool_decide_eq_false_2 by set_solver. pose proof (world_req_of rid Hw) as Ho. destruct (req_of s rid) as [r|]; [|by exists s, acc, m, l].
  destruct (is_finished r) eqn:Hnf; [by exists s, acc, m, l|]. destruct Ho as (Hid & Hr & Hin & Hrq). rewrite app_nil_r in Hin. set (x := rq_oid r) in *.
  pose proof (up_requests _ _ _ _ _ Hup _ Hrq) as Hrq0. destruct (Hdom x) as [r0 Hr0]; [by apply (list_elem_of_fmap_2' snd _ (rid, x))|].
  destruct (Hall x r0 Hrq0 Hr0) as [Hst0 (index & Hix & Hsam & Hpool)].
  destruct (updating_open s0 s acc m l x r Hup Hun) as [Hst Hopen]; try done; [intros r1 Hr1; by destruct (Hall x r1 Hrq0 Hr1)|].
  destruct (world_object x Hw) as (r1 & Hr1 & _ & _ & Hok & _); [by rewrite app_nil_r|]. rewrite Hr in Hr1. injection Hr1 as <-.
  destruct (up_heap _ _ _ _ _ Hup x r0 Hr0) as (r1 & Hr1 & _ & _ & Epool & _). rewrite Hr in Hr1. injection Hr1 as <-.
  rewrite (st_bind_lift _ index) by by rewrite Hix.
  assert (∃ generated, match mo_sampled_token_ids mo with [] => Ok [] | l => py_index l index end = Ok generated ∧ (generated ≠ [] → rq_pooling_params r = None)) as (generated & Hgen & Hnp).
  { rewrite Epool. destruct Hsam as [->|(tokens & Ht & Hp)]; [by exists []|]. destruct (mo_sampled_token_ids mo); [by exists []|]. exists tokens. split; [done|].
    intros Hne. destruct (rq_pooling_params r0); [|done]. by destruct Hne; apply Hp. }
  rewrite (st_bind_lift _ _ _ _ Hgen). assert (reject_drafts x (od_get rid (so_scheduled_spec_decode_tokens o)) generated s = Ok (s, tt)) as Hrej by by rewrite Hspec.
  st_step Hrej. st_step (get_req_eq s x r Hr). destruct (w_enc Hw) as (e & He & Hwf).
  assert (∃ e', st_when (has_encoder_inputs r) (on_enc (free_encoder_inputs iter_ints r)) s = Ok (s <| sd_encoder_cache_manager := CacheManager e' |>, tt) ∧ ec_wf size capacity e') as (e' & Hfree & Hwf').
  { destruct (has_encoder_inputs r); [|exists e; split; [|done]; cbn; rewrite <- He; by destruct s]. destruct (rk_inputs Hok) as [Hsz _].
    destruct (free_inputs_spec size capacity iter_ints Hiter r e Hwf Hsz) as (e' & Heq & Hwf' & _). exists e'. split; [|done]. apply on_enc_eq. by rewrite He. }
  st_step Hfree. assert (∃ pooled, match mo_pooler_output mo with [] => Ok false | l => py_index l index end = Ok pooled) as (pooled & Hpo).
  { destruct Hpool as [->|(b & Hb)]; [by exists false|]. destruct (mo_pooler_output mo); [by exists false|by exists b]. }
  rewrite (st_bind_lift _ _ _ _ Hpo). set (s1 := s <| sd_encoder_cache_manager := CacheManager e' |>).
  destruct (take_output_spec x generated pooled s1 r Hr (w_config Hw) Hok Hnp) as (r1 & tokens & stopped & Heq & Hgo & Hsame).
  unfold take_output in Heq. st_step Heq. by apply (settle_spec s0 s acc m l x r r1 e' rid pooled tokens stopped).
Qed.


(** The output answers every request it was asked about; [started] holds of the requests
    of a step that are still there. *)
Definition launched s (o : SchedulerOutput F E) : Prop :=
  so_scheduled_spec_decode_tokens o = [] ∧ ∀ rid n, (rid, n) ∈ so_num_scheduled_tokens o → 0 < n ∧ ∀ x r, (rid, x) ∈ sd_requests s → sd_heap s !! x = Some r → started r.
Definition replies s (o : SchedulerOutput F E) (mo : ModelRunnerOutput) : Prop := mo_kv_connector_output mo = None ∧
  ∀ rid n x r, (rid, n) ∈ so_num_scheduled_tokens o → (rid, x) ∈ sd_requests s → sd_heap s !! x = Some r → answers mo rid r.

Notation steady := (steady cfg size capacity bs caching block_hasher).

Lemma update_all s0 (o : SchedulerOutput F E) mo todo : ∀ s acc m l,
  updating s0 s acc m l → unstarted s0 (members (sd_skipped_waiting s0)) →
  (∀ rid n, (rid, n) ∈ todo → 0 < n ∧ ∀ x r0, (rid, x) ∈ sd_requests s0 → sd_heap s0 !! x = Some r0 → started r0 ∧ answers mo rid r0) →
  (∀ x, x ∈ (sd_requests s0).*2 → is_Some (sd_heap s0 !! x)) → so_scheduled_spec_decode_tokens o = [] →
  ∃ s' acc' m' l', st_fold (update_one o mo ∅) acc todo s = Ok (s', acc') ∧ updating s0 s' acc' m' l'.
Proof.
  induction todo as [|[rid n] todo IH]; intros s acc m l Hup Hun Hall Hdom Hspec; [by exists s, acc, m, l|]. cbn [st_fold].
  destruct (Hall rid n) as [Hn Hx]; [by left|]. destruct (update_one_spec s0 s acc m l o mo rid n Hup Hun Hn Hx Hdom Hspec) as (s1 & acc1 & m1 & l1 & Heq & Hup1).
  st_step Heq. apply (IH s1 acc1 m1 l1); try done. intros rid' n' Hin. apply Hall. by right.
Qed.

(** The requests of the scheduler stay, or leave. *)
Definition kept_requests s s' : Prop := ∀ p, p ∈ sd_requests s' → p ∈ sd_requests s.
#[local] Instance kept_refl : Reflexive kept_requests.
Proof. by intros s p. Qed.
#[local] Instance kept_trans : Transitive kept_requests.
Proof. intros s1 s2 s3 K1 K2 p Hp. by apply K1, K2. Qed.

Lemma steady_nodup s m l : steady s m l → NoDup (sd_running s) ∧ NoDup (members (sd_waiting s)).
Proof.
  intros Hs. pose proof (world_nodup (st_world _ _ _ _ _ _ _ _ _ Hs)) as Hnd. apply NoDup_app in Hnd as (N1 & _ & N2).
  rewrite app_nil_r in N2. unfold queues in N2. by apply NoDup_app in N2 as (N2 & _).
Qed.

(** The end of the loop: the stopped requests leave their lists. *)
Lemma updating_done s0 s acc m l m0 l0 :
  updating s0 s acc m l → steady s0 m0 l0 → ∃ s', (st_modify (fun s => s <| sd_running ::= fun l => remove_all l (ua_stopped_running acc) |>);;
    st_when (negb (bool_decide (ua_stopped_preempted acc = ∅)))
      (on_queue WaitingQueue (fun lt w => Ok (remove_requests lt (elements (ua_stopped_preempted acc)) w)))) s = Ok (s', tt) ∧
    steady s' m l ∧ sd_heap s' = sd_heap s ∧ sd_requests s' = sd_requests s.
Proof.
  intros Hup Hs0. pose proof (up_places _ _ _ _ _ Hup) as Hpl. injection Hpl as P1 P2 P3 P4 P5. destruct (steady_nodup s0 m0 l0 Hs0) as [N1 N2]. rewrite st_bind_modify.
  set (s1 := s <| sd_running ::= _ |>). assert (∃ w : RequestQueue Z, st_when (negb (bool_decide (ua_stopped_preempted acc = ∅)))
      (on_queue WaitingQueue (fun lt w => Ok (remove_requests lt (elements (ua_stopped_preempted acc)) w))) s1 = Ok (s1 <| sd_waiting := w |>, tt) ∧
      members w ≡ₚ filter (fun y => y ∉ ua_stopped_preempted acc) (members (sd_waiting s)) ∧ policy_of w = policy_of (sd_waiting s)) as (w & -> & Hq & Hpol).
  { case_bool_decide as He; cbn [negb st_when].
    - exists (sd_waiting s1). split; [by destruct s|]. split; [|done]. rewrite list_filter_all; [done|]. rewrite He. set_solver.
    - eexists. split; [done|]. destruct (remove_all_members (heap_lt (sd_heap s1)) (elements (ua_stopped_preempted acc)) (sd_waiting s1)) as [Hm Hp].
      split; [|exact Hp]. etrans; [exact Hm|]. rewrite (list_filter_iff _ (fun y => y ∉ ua_stopped_preempted acc)); [done|]. intros y. by rewrite elem_of_elements. }
  exists (s1 <| sd_waiting := w |>). split; [done|]. split; [|done]. set (s2 := s1 <| sd_waiting := w |>).
  assert (sd_running s2 = act_of s acc) as Hrun by (unfold act_of; rewrite P1 in *; rewrite <- remove_all_filter by done; by rewrite <- P1).
  assert (queues s2 ≡ₚ que_of s acc) as Hque by (unfold queues, que_of; cbn; by rewrite Hq).
  assert (∀ y, y ∈ queues s2 → y ∈ queues s0) as Hsub.
  { intros y. rewrite Hque. unfold que_of, queues. rewrite P2, P3, !elem_of_app, list_elem_of_filter. tauto. }
  assert (∀ y r', y ∈ queues s0 → sd_heap s2 !! y = Some r' → ∃ r, sd_heap s0 !! y = Some r ∧ updates r r') as Hback.
  { intros y r' Hy Hr'. destruct (world_object y (st_world _ _ _ _ _ _ _ _ _ Hs0)) as (r & Hr & _); [in_list|]. destruct (up_heap _ _ _ _ _ Hup y r Hr) as (r2 & Hr2 & Hu).
    change (sd_heap s2) with (sd_heap s) in Hr'. rewrite Hr2 in Hr'. injection Hr' as <-. by exists r. }
  split.
  - rewrite Hrun. apply (world_perm (act := act_of s acc) (que := que_of s acc)); [|done|done]. apply (world_eq s); [apply (up_world _ _ _ _ _ Hup)|done].
  - destruct (st_shape _ _ _ _ _ _ _ _ _ Hs0) as [[Sh1 Sh2] Sh3]. split; [split; cbn; [by rewrite Hpol, P2|by rewrite P3]|]. rewrite Hrun. unfold act_of. rewrite P1.
    pose proof (length_filter (fun y => y ∉ ua_stopped_running acc) (sd_running s0)). lia.
  - intros y r' Hy Hr' Hst. destruct (Hback y r' (Hsub y Hy) Hr') as (r & Hr & (_ & Hid & _ & [Es|Ef])); [|by unfold is_finished in Ef; rewrite Hst in Ef].
    destruct (st_rested _ _ _ _ _ _ _ _ _ Hs0 y r (Hsub y Hy) Hr ltac:(congruence)) as [Hn|Hn]; [|by apply not_elem_of_nil in Hn]. left.
    rewrite Hid. change (sd_prev_step_scheduled_req_ids s2) with (sd_prev_step_scheduled_req_ids s). by rewrite P4.
  - intros y r' Hy Hr' Hst. change (sd_skipped_waiting s2) with (sd_skipped_waiting s) in Hy. rewrite P3 in Hy.
    destruct (Hback y r') as (r & Hr & (_ & _ & _ & [Es|Ef])); [unfold queues; in_list|done| |].
    + apply (st_skipped _ _ _ _ _ _ _ _ _ Hs0 y r Hy Hr). unfold started in *. by rewrite <- Es.
    + unfold is_finished in Ef. by destruct Hst as [Hst|Hst]; rewrite Hst in Ef.
Qed.


Lemma steady_eq s s' m l :
  steady s m l → core_of s' = core_of s → (sd_running s', sd_waiting s', sd_skipped_waiting s', sd_prev_step_scheduled_req_ids s') =
    (sd_running s, sd_waiting s, sd_skipped_waiting s, sd_prev_step_scheduled_req_ids s) → steady s' m l.
Proof.
  intros [Hw Hsh Hre Hun] Hcore Hpl. injection Hpl as P1 P2 P3 P4. assert (queues s' = queues s) as Hq by (unfold queues; by rewrite P2, P3).
  assert (sd_heap s' = sd_heap s) as Hh by (by injection Hcore). split.
  - rewrite P1, Hq. by apply (world_eq s).
  - destruct Hsh as [Sh1 Sh2]. split; [by rewrite P2, P3|by rewrite P1].
  - unfold rested. rewrite Hq, Hh, P4. exact Hre.
  - unfold unstarted. rewrite P3, Hh. exact Hun.
Qed.

(** The manager changes its records only. *)
Lemma steady_kv s m l k' :
  steady s m l → km_state k' m l → km_max_model_len k' = km_max_model_len (sd_kv_cache_manager s) → steady (s <| sd_kv_cache_manager := k' |>) m l.
Proof. intros [Hw Hsh Hre Hun] Hk Hlen. split; try done; [|by destruct Hsh]. by apply (world_kv_same (m := m) (l := l) k' m l). Qed.

Lemma update_spec s m l (o : SchedulerOutput F E) mo :
  steady s m l → launched s o → replies s o mo →
  ∃ s' m' l' outs, update_from_output embeds_digest use_int_hashes block_hasher iter_strings iter_ints offload_config clock o mo s = Ok (s', outs) ∧
    steady s' m' l' ∧ evolves s s' ∧ kept_requests s s'.
Proof.
  intros Hs [Hspec Hla] [Hnone Hre]. pose proof (st_world _ _ _ _ _ _ _ _ _ Hs) as Hw. unfold update_from_output. rewrite Hnone, bind_ret, st_bind_get.
  assert (has_scheduling s = false) as -> by (unfold has_scheduling; by rewrite (proj1 (proj2 (w_plain Hw)))). cbn [st_when]. rewrite bind_ret.
  assert (updating s s (mkUpdateAcc [] ∅ ∅) m l) as Hup.
  { assert (∀ (X : gset Z) (l : list Z), X = ∅ → filter (fun y => y ∉ X) l = l) as Hall by (intros X l0 ->; apply list_filter_all; set_solver).
    split; [by unfold act_of, que_of; cbn [ua_stopped_running ua_stopped_preempted]; rewrite !Hall by done|done| |intros x r r' Hr Hr'; congruence|done]. intros x r Hr. exists r. split; [done|]. split_and!; auto. }
  destruct (update_all s o mo (so_num_scheduled_tokens o) s (mkUpdateAcc [] ∅ ∅) m l Hup (st_skipped _ _ _ _ _ _ _ _ _ Hs)) as (s1 & acc & m1 & l1 & Heq1 & Hup1); [| |done|].
  { intros rid n Hin. destruct (Hla rid n Hin) as [Hn Hx]. split; [done|]. intros x r Hx1 Hr. split; [by eapply Hx|by eapply Hre]. }
  { intros x ((rid & y) & -> & Hy)%list_elem_of_fmap. destruct (w_objects Hw rid y Hy) as (r & Hr & _). by exists r. }
  st_step Heq1. destruct (updating_done s s1 acc m1 l1 m l Hup1 Hs) as (s2 & Heq2 & Hs2 & Eh & Erq). rewrite st_bind_modify in Heq2. rewrite st_bind_modify. st_step Heq2.
  assert (fail_loads iter_strings iter_ints offload_config clock ∅ (ua_outputs acc) s2 = Ok (s2, ua_outputs acc)) as Hfl.
  { unfold fail_loads. rewrite st_bind_get. by rewrite bool_decide_eq_true_2. }
  st_step Hfl. rewrite bind_ret. pose proof (st_world _ _ _ _ _ _ _ _ _ Hs2) as Hw2.
  destruct (km_events_eq _ m1 l1 (w_kv Hw2)) as (k3 & evs & Heq3 & Hk3 & Hl3). st_step (on_kv_eq km_take_events s2 k3 evs Heq3).
  assert (steady (s2 <| sd_kv_cache_manager := k3 |>) m1 l1) as Hs3 by by apply steady_kv. rewrite st_bind_get, st_bind_modify. set (s3 := s2 <| sd_kv_cache_manager := k3 |>) in *.
  set (s4 := s3 <| sd_finished_req_ids_dict ::= _ |>). assert (steady s4 m1 l1) as Hs4 by by apply (steady_eq s3).
  destruct (km_make_stats_eq _ m1 l1 (w_kv (st_world _ _ _ _ _ _ _ _ _ Hs4))) as (k5 & st & Heq5 & Hk5 & Hl5). st_step (on_kv_eq make_prefix_cache_stats s4 k5 st Heq5).
  eexists _, m1, l1, _. split; [done|]. split; [by apply steady_kv|]. split.
  - intros x r Hr. destruct (up_heap _ _ _ _ _ Hup1 x r Hr) as (r' & Hr' & Hu). exists r'. split; [by change (sd_heap s2 !! x = Some r'); rewrite Eh|].
    apply updates_grows; [done|]. by apply (up_finished _ _ _ _ _ Hup1 x).
  - intros p Hp. apply (up_requests _ _ _ _ _ Hup1). by rewrite <- Erq.
Qed.


(** ** Requests that are finished from outside *)

Lemma take_out l1 l : NoDup l → NoDup l1 → (∀ x, x ∈ l1 → x ∈ l) → l ≡ₚ l1 ++ filter (fun y => y ∉ l1) l.
Proof.
  intros Hl Hl1 Hsub. apply NoDup_Permutation; [done|apply NoDup_app; split_and!; [done| |by apply NoDup_filter]|].
  - intros x Hx. rewrite list_elem_of_filter. tauto.
  - intros x. rewrite elem_of_app, list_elem_of_filter. destruct (decide (x ∈ l1)) as [Hx|Hx]; [|tauto]. pose proof (Hsub x Hx). tauto.
Qed.

Lemma world_open s act que act' que' l1 l2 m l :
  world s act que [] m l → act ≡ₚ l1 ++ act' → que ≡ₚ l2 ++ que' → world s act' que' (l1 ++ l2) m l.
Proof.
  intros [] Ha Hq. split; try done.
  - rewrite w_places, app_nil_r, Ha, Hq. rewrite (Permutation_app_comm l1 act'), <- app_assoc. apply Permutation_app_head.
    rewrite (Permutation_app_comm l2 que'), app_assoc, (Permutation_app_comm l1 que'), <- app_assoc. done.
  - intros rid x Hx. destruct (w_objects rid x Hx) as (r & Hr & Ho & Hi & Hok & Hrun & Hwait). exists r. rewrite Ha, Hq in *. split_and!; try done.
    + intros Hin. apply Hrun. in_list.
    + intros Hin. apply Hwait. in_list.
  - intros rid Hall. apply w_idle. intros x Hx. rewrite Hq. in_list.
Qed.

(** The requests that the caller names, by where they are. *)
Lemma collect_spec s m l rids valid running waiting n :
  steady s m l → NoDup rids → ∃ xs rs ws, collect_finished s rids valid running waiting n = (valid ++ xs, running ++ rs, waiting ++ ws, n) ∧
    xs ≡ₚ rs ++ ws ∧ NoDup xs ∧ (∀ x, x ∈ rs → x ∈ sd_running s) ∧ (∀ x, x ∈ ws → x ∈ queues s) ∧
    (∀ x, x ∈ xs → ∃ r, sd_heap s !! x = Some r ∧ rq_request_id r ∈ rids ∧ rq_status r ≠ WAITING_FOR_REMOTE_KVS) ∧
    (∀ rid x, rid ∈ rids → (rid, x) ∈ sd_requests s → x ∈ xs).
Proof.
  intros Hs. pose proof (st_world _ _ _ _ _ _ _ _ _ Hs) as Hw. revert valid running waiting; induction rids as [|rid rids IH]; intros valid running waiting Hnd.
  { exists [], [], []. rewrite !app_nil_r. split_and!; try done; [apply NoDup_nil_2|intros x Hx; by apply not_elem_of_nil in Hx..|intros rid x Hx; by apply not_elem_of_nil in Hx]. }
  apply NoDup_cons in Hnd as [Hrid Hnd]. cbn [collect_finished]. pose proof (world_req_of rid Hw) as Ho. destruct (req_of s rid) as [r|].
  2: { destruct (IH valid running waiting Hnd) as (xs & rs & ws & -> & A1 & A2 & A3 & A4 & A5 & A6). exists xs, rs, ws. split_and!; try done.
       - intros x Hx. destruct (A5 x Hx) as (r & ? & ? & ?). exists r. split_and!; try done. by right.
       - intros rid' x [->|Hin]%elem_of_cons Hx; [by destruct Ho; apply (list_elem_of_fmap_2' fst _ (rid, x))|by apply (A6 rid')]. }
  destruct Ho as (Hid & Hr & Hin & Hrq). destruct (world_object (rq_oid r) Hw Hin) as (r0 & Hr0 & _ & _ & _ & Hrun & Hwait). rewrite Hr in Hr0. injection Hr0 as <-.
  assert (∀ xs : list Z, (∀ x, x ∈ xs → ∃ r, sd_heap s !! x = Some r ∧ rq_request_id r ∈ rids ∧ rq_status r ≠ WAITING_FOR_REMOTE_KVS) → rq_oid r ∉ xs) as Hnew.
  { intros xs Hxs Hx. destruct (Hxs _ Hx) as (r1 & Hr1 & Hin1 & _). rewrite Hr in Hr1. injection Hr1 as <-. by rewrite Hid in Hin1. }
  assert (∀ xs : list Z, (∀ rid' x, rid' ∈ rids → (rid', x) ∈ sd_requests s → x ∈ xs) → ∀ rid' x, rid' ∈ rid :: rids → (rid', x) ∈ sd_requests s → x ∈ rq_oid r :: xs) as Hfull.
  { intros xs Hxs rid' x [->|Hin']%elem_of_cons Hx; [apply elem_of_cons; left; by apply (world_unique rid x (rq_oid r) Hw)|right; by apply (Hxs rid')]. }
  rewrite app_nil_r in Hin. apply elem_of_app in Hin as [Hin|Hin].
  - destruct (Hrun Hin) as (Hst & _). unfold is_finished. rewrite Hst. cbn [status_is_finished status_value Z.ltb Z.compare]. rewrite bool_decide_eq_true_2 by done.
    destruct (IH (valid ++ [rq_oid r]) (running ++ [rq_oid r]) waiting Hnd) as (xs & rs & ws & -> & A1 & A2 & A3 & A4 & A5 & A6).
    exists (rq_oid r :: xs), (rq_oid r :: rs), ws. rewrite <- !app_assoc. split_and!; try done; [cbn; by rewrite A1|apply NoDup_cons; split; [by apply Hnew|done]| | |by apply Hfull].
    + intros x [->|Hx]%elem_of_cons; [done|by apply A3].
    + intros x [->|Hx]%elem_of_cons; [exists r; split_and!; [done|by rewrite Hid; left|by rewrite Hst]|].
      destruct (A5 x Hx) as (r1 & ? & ? & ?). exists r1. split_and!; try done. by right.
  - destruct (Hwait Hin) as (Hst & _). assert (is_finished r = false ∧ rq_status r ≠ RUNNING ∧ rq_status r ≠ WAITING_FOR_STREAMING_REQ ∧ rq_status r ≠ WAITING_FOR_REMOTE_KVS) as (-> & N1 & N2 & N3).
    { unfold is_finished. by destruct Hst as [->|[->| ->]]. }
    rewrite bool_decide_eq_false_2, bool_decide_eq_false_2 by done. cbn [Z.b2z]. rewrite Z.add_0_r.
    destruct (IH (valid ++ [rq_oid r]) running (waiting ++ [rq_oid r]) Hnd) as (xs & rs & ws & -> & A1 & A2 & A3 & A4 & A5 & A6).
    exists (rq_oid r :: xs), rs, (rq_oid r :: ws). rewrite <- !app_assoc. split_and!; try done.
    + rewrite A1. apply Permutation_middle.
    + apply NoDup_cons. split; [by apply Hnew|done].
    + intros x [->|Hx]%elem_of_cons; [done|by apply A4].
    + intros x [->|Hx]%elem_of_cons; [exists r; split_and!; [done|by rewrite Hid; left|done]|].
      destruct (A5 x Hx) as (r1 & ? & ? & ?). exists r1. split_and!; try done. by right.
    + by apply Hfull.
Qed.


Lemma finish_one_spec st s act que hole m l x r :
  world s act que (x :: hole) m l → sd_heap s !! x = Some r → rq_status r ≠ WAITING_FOR_REMOTE_KVS → status_is_finished st = true →
  ∃ s' m' l', finish_one iter_ints offload_config clock st x s = Ok (s', tt) ∧ world s' act que hole m' l' ∧ departed x (r <| rq_status := st |>) s s'.
Proof.
  intros Hw Hr Hst Hfin. unfold finish_one. st_step (get_req_eq s x r Hr). rewrite st_bind_get, bool_decide_eq_false_2 by done. cbn [andb st_when]. rewrite bind_ret.
  st_step (set_req_eq x (fun r => r <| rq_status := st |>) s r Hr).
  destruct (free_request_spec s act que hole m l x r (r <| rq_status := st |>) Hw Hr) as (s' & m' & l' & Heq & Hw' & Hdep); try done. st_step Heq. by exists s', m', l'.
Qed.

Lemma finish_all_spec st act que xs : ∀ s m l,
  world s act que xs m l → (∀ x r, x ∈ xs → sd_heap s !! x = Some r → rq_status r ≠ WAITING_FOR_REMOTE_KVS) → status_is_finished st = true →
  ∃ s' m' l', st_iter (finish_one iter_ints offload_config clock st) xs s = Ok (s', tt) ∧ world s' act que [] m' l' ∧ places s' = places s ∧ evolves s s' ∧
    kept_requests s s' ∧ (∀ y, y ∉ xs → sd_heap s' !! y = sd_heap s !! y) ∧ (∀ p, p ∈ sd_requests s → p.2 ∉ xs → p ∈ sd_requests s').
Proof.
  induction xs as [|x xs IH]; intros s m l Hw Hst Hfin; [exists s, m, l; split_and!; try done; reflexivity|]. cbn [st_iter].
  destruct (world_object x Hw) as (r & Hr & _); [in_list|]. pose proof (world_nodup Hw) as Hnd. apply NoDup_app in Hnd as (_ & _ & [_ [_ [Hx _]%NoDup_cons]]%NoDup_app).
  destruct (finish_one_spec st s act que xs m l x r Hw Hr) as (s1 & m1 & l1 & Heq & Hw1 & [D1 D2 D3]); [apply (Hst x); [by left|done]|done|]. st_step Heq.
  assert (∀ y, y ≠ x → sd_heap s1 !! y = sd_heap s !! y) as Hk by (intros y Hy; by rewrite D1, lookup_insert_ne).
  destruct (IH s1 m1 l1 Hw1) as (s' & m' & l' & Heq' & Hw' & Hpl & Hev & Hkr & Hh & Hst'); [|done|].
  { intros y q Hy. rewrite Hk by (intros ->; done). apply Hst. by right. }
  exists s', m', l'. split_and!; try done; [congruence| | | |].
  - etrans; [|exact Hev]. intros y q Hq. destruct (decide (y = x)) as [->|Hne]; [|exists q; split; [by rewrite Hk|reflexivity]].
    rewrite Hr in Hq. injection Hq as <-. exists (r <| rq_status := st |>). rewrite D1, lookup_insert_eq. split; [done|]. split_and!; [done|done|by right|done].
  - intros p Hp%Hkr. rewrite D2 in Hp. by eapply elem_of_sublist, od_del_sublist.
  - intros y Hy. apply not_elem_of_cons in Hy as [Hy1 Hy2]. by rewrite Hh, Hk.
  - intros [rid y] Hp [Hy1 Hy2]%not_elem_of_cons. apply Hst'; [|done]. rewrite D2. cbn in Hy1. destruct (world_object x Hw) as (r0 & Hr0 & _ & Hin & _); [in_list|].
    rewrite Hr in Hr0. injection Hr0 as <-. rewrite (od_del_filter _ _ _ (w_keys Hw) Hin), list_elem_of_filter. split; [congruence|done].
Qed.

(** The queues without some requests. *)
Lemma queues_without s l :
  let c : sm unit := st_when (negb (bool_decide (l = [])))
    (on_queue WaitingQueue (fun lt w => Ok (remove_requests lt l w));; on_queue SkippedQueue (fun lt w => Ok (remove_requests lt l w))) in
  ∃ w1 w2 : RequestQueue Z, c s = Ok (s <| sd_waiting := w1 |> <| sd_skipped_waiting := w2 |>, tt) ∧
    members w1 ≡ₚ filter (fun y => y ∉ l) (members (sd_waiting s)) ∧ members w2 ≡ₚ filter (fun y => y ∉ l) (members (sd_skipped_waiting s)) ∧
    policy_of w1 = policy_of (sd_waiting s) ∧ policy_of w2 = policy_of (sd_skipped_waiting s).
Proof.
  intros c. unfold c. clear c. case_bool_decide as He; cbn [negb st_when].
  - exists (sd_waiting s), (sd_skipped_waiting s). split; [by destruct s|]. rewrite He, !list_filter_all by (intros; apply not_elem_of_nil). done.
  - eexists _, _. split; [done|].
    destruct (remove_all_members (heap_lt (sd_heap s)) l (sd_waiting s)) as [Hm1 Hp1]. destruct (remove_all_members (heap_lt (sd_heap s)) l (sd_skipped_waiting s)) as [Hm2 Hp2].
    split_and!; [exact Hm1|exact Hm2|exact Hp1|exact Hp2].
Qed.

(** Some requests leave the lists. *)
Lemma steady_fewer s s2 s3 m l m3 l3 (xs : list Z) :
  steady s m l → world s3 (sd_running s2) (queues s2) [] m3 l3 → places s3 = places s2 → sd_prev_step_scheduled_req_ids s2 = sd_prev_step_scheduled_req_ids s →
  policy_of (sd_waiting s2) = policy_of (sd_waiting s) ∧ policy_of (sd_skipped_waiting s2) = policy_of (sd_skipped_waiting s) →
  (length (sd_running s2) ≤ length (sd_running s))%nat → (∀ y, y ∈ members (sd_skipped_waiting s2) → y ∈ members (sd_skipped_waiting s)) → (∀ y, y ∈ queues s2 → y ∈ queues s) →
  (∀ y, y ∉ xs → sd_heap s3 !! y = sd_heap s !! y) → (∀ y, y ∈ sd_running s2 ++ queues s2 → y ∉ xs) → steady s3 m3 l3.
Proof.
  intros Hs Hw Hpl Hprev [Po1 Po2] Hlen Hsk Hq Hh Hout. injection Hpl as P1 P2 P3 P4 P5. assert (queues s3 = queues s2) as Hq3 by (unfold queues; by rewrite P2, P3). split.
  - by rewrite P1, Hq3.
  - destruct (st_shape _ _ _ _ _ _ _ _ _ Hs) as [[Sh1 Sh2] Sh3]. split; [rewrite P2, P3, Po1, Po2; done|]. rewrite P1. lia.
  - rewrite Hq3. intros y r Hy Hr Hp. rewrite Hh in Hr by (apply Hout; in_list). rewrite P4, Hprev. by apply (st_rested _ _ _ _ _ _ _ _ _ Hs y r); [apply Hq|..].
  - rewrite P3. intros y r Hy Hr. rewrite Hh in Hr by (apply Hout; unfold queues; in_list). by apply (st_skipped _ _ _ _ _ _ _ _ _ Hs y r); [apply Hsk|].
Qed.

(** The identifiers of the objects collected for [rids]. *)
Lemma ids_of_objects s s' xs (reqs : list req) (rids : list string) m l :
  steady s m l → evolves s s' → Forall2 (fun x r => sd_heap s' !! x = Some r) xs reqs → xs ⊆ sd_running s ++ queues s →
  (∀ x, x ∈ xs → ∃ r, sd_heap s !! x = Some r ∧ rq_request_id r ∈ rids) → (∀ rid x, rid ∈ rids → (rid, x) ∈ sd_requests s → x ∈ xs) →
  ∀ rid, rid ∈ (fst ∘ (fun r => (rq_request_id r, rq_client_index r))) <$> reqs ↔ rid ∈ (sd_requests s).*1 ∧ rid ∈ rids.
Proof.
  intros Hs Hev Hall Hsub Hobj Hfull rid. pose proof (st_world _ _ _ _ _ _ _ _ _ Hs) as Hw. rewrite list_elem_of_fmap. cbn. split.
  - intros (r & -> & (i & Hi)%list_elem_of_lookup_1). destruct (Forall2_lookup_r _ _ _ _ _ Hall Hi) as (x & Hx & Hr).
    apply list_elem_of_lookup_2 in Hx. destruct (Hobj x Hx) as (r0 & Hr0 & Hin). destruct (Hev x r0 Hr0) as (r1 & Hr1 & _ & Hid & _).
    destruct (world_object x Hw) as (r2 & Hr2 & _ & Hin2 & _); [rewrite app_nil_r; by apply Hsub|]. assert (r2 = r0 ∧ r1 = r) as [-> ->] by (split; congruence).
    rewrite Hid. split; [by apply (list_elem_of_fmap_2' fst _ (rq_request_id r0, x))|done].
  - intros [((rid' & x) & -> & Hx)%list_elem_of_fmap Hin]. cbn in *. pose proof (Hfull _ _ Hin Hx) as Hxs. apply list_elem_of_lookup_1 in Hxs as (i & Hi).
    destruct (Forall2_lookup_l _ _ _ _ _ Hall Hi) as (r & Hr & Hh). exists r. destruct (w_objects Hw _ _ Hx) as (r0 & Hr0 & _ & Hid & _).
    destruct (Hev x r0 Hr0) as (r1 & Hr1 & _ & Hid1 & _). split; [congruence|by eapply list_elem_of_lookup_2].
Qed.

(** The requests that the caller names. *)
Definition named (arg : finish_arg) s : list string :=
  match arg with FinishOne rid => [rid] | FinishSet rids => iter_strings rids | FinishAll => (sd_requests s).*1 end.

Lemma finish_requests_spec s m l arg st :
  steady s m l → status_is_finished st = true →
  ∃ s' m' l' out, finish_requests iter_strings iter_ints offload_config clock arg st s = Ok (s', out) ∧ steady s' m' l' ∧ evolves s s' ∧
    (∀ rid x, (rid, x) ∈ sd_requests s' ↔ (rid, x) ∈ sd_requests s ∧ rid ∉ named arg s) ∧
    (∀ rid, rid ∈ out.*1 ↔ rid ∈ (sd_requests s).*1 ∧ rid ∈ named arg s).
Proof.
  intros Hs Hfin. pose proof (st_world _ _ _ _ _ _ _ _ _ Hs) as Hw. unfold finish_requests. rewrite st_bind_assert, st_bind_get by done. change (match arg with FinishOne rid => _ | _ => _ end) with (named arg s). set (rids := named arg s).
  assert (NoDup rids) as Hnd by (unfold rids, named; destruct arg; [apply NoDup_singleton|rewrite Hstrings; apply NoDup_elements|apply (w_keys Hw)]).
  destruct (collect_spec s m l rids [] [] [] 0 Hs Hnd) as (xs & rs & ws & Hcol & Hxs & Hndx & Hrs & Hws & Hobj & Hfull). rewrite Hcol. cbn [app]. rewrite st_bind_modify.
  set (s1 := s <| sd_num_waiting_for_streaming_input ::= _ |> <| sd_running ::= _ |>). destruct (queues_without s1 ws) as (w1 & w2 & Heq2 & M1 & M2 & Po1 & Po2). cbn zeta in Heq2.
  st_step Heq2. set (s2 := s1 <| sd_waiting := w1 |> <| sd_skipped_waiting := w2 |>). pose proof (world_nodup Hw) as Hno. rewrite app_nil_r in Hno. apply NoDup_app in Hno as (Hn1 & _ & Hn2).
  rewrite Hxs in Hndx. apply NoDup_app in Hndx as (Hn3 & _ & Hn4).
  assert (sd_running s2 = filter (fun y => y ∉ rs) (sd_running s)) as Hrun.
  { unfold s2, s1. cbn. rewrite remove_all_filter by done. apply list_filter_iff. intros y. by rewrite elem_of_list_to_set. }
  assert (queues s2 ≡ₚ filter (fun y => y ∉ ws) (queues s)) as Hque by (unfold queues; rewrite filter_app; cbn; by rewrite M1, M2).
  assert (world s2 (sd_running s2) (queues s2) xs m l) as Hw2.
  { apply (world_eq s); [|done]. rewrite Hrun. pose proof (world_open s _ _ (filter (fun y => y ∉ rs) (sd_running s)) (queues s2) rs ws m l Hw) as Hop.
    assert (world s (filter (fun y => y ∉ rs) (sd_running s)) (queues s2) (rs ++ ws) m l) as Hw'.
    { apply Hop; [by apply take_out|]. rewrite Hque. by apply take_out. }
    destruct Hw'. split; try done. by rewrite Hxs. }
  destruct (finish_all_spec st (sd_running s2) (queues s2) xs s2 m l Hw2) as (s3 & m3 & l3 & Heq3 & Hw3 & Hpl & Hev & Hkr & Hh & Hst3); [|done|].
  { intros x r Hx Hr. destruct (Hobj x Hx) as (r' & Hr' & _ & ?). change (sd_heap s2) with (sd_heap s) in Hr. congruence. }
  st_step Heq3.
  assert (sd_running s3 = sd_running s2 ∧ sd_waiting s3 = sd_waiting s2 ∧ sd_skipped_waiting s3 = sd_skipped_waiting s2 ∧
    sd_prev_step_scheduled_req_ids s3 = sd_prev_step_scheduled_req_ids s) as (P1 & P2 & P3 & P4) by by injection Hpl. assert (queues s3 = queues s2) as Hq3 by (unfold queues; by rewrite P2, P3).
  destruct (get_reqs_total s3 xs) as (reqs & Hreqs).
  { intros x Hx. destruct (Hobj x Hx) as (r & Hr & _). destruct (Hev x r Hr) as (r' & Hr' & _). by exists r'. }
  apply get_reqs_objects in Hreqs as Hall. st_step Hreqs. eexists s3, m3, l3, _. split; [done|].
  assert (∀ y, y ∈ sd_running s2 ++ queues s2 → y ∉ xs) as Hout.
  { intros y Hy Hx. pose proof (world_nodup Hw2) as Hnw. rewrite app_assoc in Hnw. apply NoDup_app in Hnw as (_ & Hnw & _). by apply (Hnw y). }
  split; [|split; [done|split]].
  - apply (steady_fewer s s2 s3 m l m3 l3 xs); try done; try (split_and!; done).
    + rewrite Hrun. apply length_filter.
    + intros y Hy. change (members w2) with (members (sd_skipped_waiting s2)) in M2. rewrite M2 in Hy. by apply list_elem_of_filter in Hy as [_ ?].
    + intros y Hy. rewrite Hque in Hy. by apply list_elem_of_filter in Hy as [_ ?].
  - intros rid x. split.
    + intros Hx. split; [by apply (Hkr (rid, x))|]. intros Hrid. apply (Hout x); [|apply (Hfull rid); [done|by apply (Hkr (rid, x))]].
      assert (x ∈ (sd_requests s3).*2) as Hx3 by by apply (list_elem_of_fmap_2' snd _ (rid, x)). by rewrite (w_places Hw3), app_nil_r in Hx3.
    + intros [Hx Hrid]. apply (Hst3 (rid, x)); [done|]. intros Hin. destruct (Hobj x Hin) as (r & Hr & Hrid' & _).
      destruct (w_objects Hw rid x Hx) as (r' & Hr' & _ & Hi & _). congruence.
  - intros rid. rewrite <- list_fmap_compose. apply (ids_of_objects s s3 xs reqs rids m l Hs); try done.
    + intros x Hx. rewrite Hxs in Hx. apply elem_of_app in Hx as [?%Hrs|?%Hws]; in_list.
    + intros x Hx. destruct (Hobj x Hx) as (r & ? & ? & _). by exists r.
Qed.

(** ** New requests *)

(** A request that was not seen before. *)
Record arrives s r : Prop := {
  ar_ok : req_ok r;
  ar_status : rq_status r = WAITING ∨ rq_status r = WAITING_FOR_STRUCTURED_OUTPUT_GRAMMAR;
  ar_computed : rq_num_computed_tokens r = 0;
  ar_id : rq_request_id r ∉ (sd_requests s).*1;
  ar_oid : sd_heap s !! rq_oid r = None;
}.

Lemma enqueue_members (q : queue_id) x s : ∃ w : RequestQueue Z, enqueue q x s = Ok (match q with WaitingQueue => s <| sd_waiting := w |> | SkippedQueue => s <| sd_skipped_waiting := w |> end, tt) ∧
  members w ≡ₚ x :: members (get_queue q s) ∧ policy_of w = policy_of (get_queue q s).
Proof.
  destruct (add_members (heap_lt (sd_heap s)) x (get_queue q s)) as [Hm Hp]. exists (add_request (heap_lt (sd_heap s)) x (get_queue q s)). by split.
Qed.

Lemma add_spec s m l r :
  steady s m l → arrives s r →
  ∃ s', scheduler_add_request block_hasher iter_strings iter_ints offload_config clock r s = Ok (s', tt) ∧ steady s' m l ∧ evolves s s' ∧
    sd_requests s' = sd_requests s ++ [(rq_request_id r, rq_oid r)] ∧ sd_heap s' = <[rq_oid r:=r]> (sd_heap s).
Proof.
  intros Hs [Hok Hst Hc Hid Hoid]. pose proof (st_world _ _ _ _ _ _ _ _ _ Hs) as Hw. destruct (w_plain Hw) as (Hcn & Hsch & Hlc). set (x := rq_oid r) in *. set (rid := rq_request_id r) in *.
  unfold scheduler_add_request. fold x rid. rewrite st_bind_modify. set (s1 := s <| sd_heap ::= insert x r |>). rewrite st_bind_get.
  assert (sd_lifecycles s1 = None) as -> by done. rewrite bind_ret, st_bind_get. assert (od_get rid (sd_requests s1) = None) as -> by by apply od_get_None.
  rewrite (rk_resumable Hok). cbn [st_when]. rewrite bind_ret. unfold enqueue_waiting_request.
  assert (sd_heap s1 !! x = Some r) as Hr1 by apply lookup_insert_eq. rewrite st_bind_assoc. st_step (get_req_eq s1 x r Hr1).
  set (q := if is_blocked_waiting_status (rq_status r) then SkippedQueue else WaitingQueue).
  assert ((if is_blocked_waiting_status (rq_status r) then enqueue SkippedQueue x else enqueue WaitingQueue x) = (enqueue q x : sm unit)) as -> by (unfold q; by destruct (is_blocked_waiting_status _)).
  destruct (enqueue_members q x s1) as (w & Heq & Hm & Hp). st_step Heq. rewrite st_bind_modify. set (s2 := match q with WaitingQueue => s1 <| sd_waiting := w |> | _ => _ end).
  set (s3 := s2 <| sd_requests ::= od_set rid x |>).
  assert (sd_heap s3 = <[x:=r]> (sd_heap s) ∧ sd_connector s3 = None ∧ sd_requests s3 = od_set rid x (sd_requests s) ∧ queues s3 ≡ₚ x :: queues s ∧ sd_running s3 = sd_running s ∧
    sd_prev_step_scheduled_req_ids s3 = sd_prev_step_scheduled_req_ids s ∧ core_of s3 = core_of (s <| sd_heap ::= insert x r |> <| sd_requests ::= od_set rid x |>) ∧
    (policy_of (sd_waiting s3) = cf_policy cfg ∧ policy_of (sd_skipped_waiting s3) = cf_policy cfg) ∧ (∀ y, y ∈ members (sd_skipped_waiting s3) → y = x ∨ y ∈ members (sd_skipped_waiting s)))
    as (Eh & Ecn & Erq & Eq & Eru & Epr & Eco & Epo & Esk).
  { destruct (st_shape _ _ _ _ _ _ _ _ _ Hs) as [[Sh1 Sh2] _]. unfold s3, s2, queues. destruct q; cbn; cbn [get_queue] in Hm, Hp; (split_and!; try done).
    - change (sd_waiting s1) with (sd_waiting s) in Hm. by rewrite Hm.
    - change (sd_waiting s1) with (sd_waiting s) in Hp. by rewrite Hp.
    - by right.
    - change (sd_skipped_waiting s1) with (sd_skipped_waiting s) in Hm. rewrite Hm. symmetry. apply Permutation_middle.
    - change (sd_skipped_waiting s1) with (sd_skipped_waiting s) in Hp. by rewrite Hp.
    - intros y. change (sd_skipped_waiting s1) with (sd_skipped_waiting s) in Hm. rewrite Hm. by intros ?%elem_of_cons. }
  clearbody s3. assert (sd_heap s3 !! x = Some r) as Hr3 by (rewrite Eh; apply lookup_insert_eq). st_step (get_req_eq s3 x r Hr3).
  unfold with_connector. rewrite st_bind_get, Ecn. exists s3. split; [done|].
  assert (∀ y q, y ∈ queues s → sd_heap s3 !! y = Some q → y ≠ x ∧ sd_heap s !! y = Some q) as Hother.
  { intros y r' Hy. destruct (decide (y = x)) as [->|Hne]; [|by rewrite Eh, lookup_insert_ne]. destruct (world_object x Hw) as (r0 & Hr0 & _); [in_list|]. congruence. }
  split; [split|split_and!].
  - rewrite Eru. apply (world_perm (act := sd_running s) (que := x :: queues s)); [|done|done]. apply (world_close_que x r).
    + eapply world_eq; [|exact Eco]. apply (world_add r Hw); [done| |done]. rewrite (w_places Hw). intros Hx. destruct (world_object x Hw Hx) as (r0 & Hr0 & _). congruence.
    + done.
    + split; [tauto|done].
    + apply (w_idle Hw). intros y Hy. destruct Hid. by apply (list_elem_of_fmap_2' fst _ (rid, y)).
  - destruct (st_shape _ _ _ _ _ _ _ _ _ Hs). split; [done|by rewrite Eru].
  - intros y r' Hy Hr' Hp'. rewrite Eq in Hy. apply elem_of_cons in Hy as [->|Hy]; [exfalso; rewrite Hr3 in Hr'; injection Hr' as <-; destruct Hst; congruence|].
    destruct (Hother y r' Hy Hr') as [_ Hr0]. rewrite Epr. by apply (st_rested _ _ _ _ _ _ _ _ _ Hs y r').
  - intros y r' Hy Hr' Hs'. apply Esk in Hy as [->|Hy]; [rewrite Hr3 in Hr'; injection Hr' as <-; unfold started in Hs'; destruct Hst, Hs'; congruence|].
    destruct (Hother y r') as [_ Hr0]; [unfold queues; in_list|done|]. by apply (st_skipped _ _ _ _ _ _ _ _ _ Hs y r').
  - intros y r' Hr'. exists r'. split; [|reflexivity]. rewrite Eh, lookup_insert_ne; [done|]. intros <-. congruence.
  - rewrite Erq. by apply od_keys_set_new.
  - done.
Qed.


(** ** Resetting the caches *)

(** [steady], but for the requests preempted since the last step. *)
Record calm s m l : Prop := {
  cl_world : world s (sd_running s) (queues s) [] m l;
  cl_shape : shape cfg s;
  cl_skipped : unstarted s (members (sd_skipped_waiting s));
}.

Lemma preempt_all_spec n : ∀ s m l, calm s m l → length (sd_running s) = n →
  ∃ s' m' l', preempt_all iter_ints clock n s = Ok (s', tt) ∧ calm s' m' l' ∧ sd_running s' = [] ∧ evolves s s' ∧ sd_requests s' = sd_requests s ∧
    sd_scheduling s' = None ∧ sd_lifecycles s' = None ∧ sd_connector s' = None.
Proof.
  induction n as [|n IH]; intros s m l [Hw Hsh Hun] Hlen.
  { apply length_zero_iff_nil in Hlen. exists s, m, l. cbn [preempt_all]. rewrite st_bind_get, Hlen. cbn [last]. destruct (w_plain Hw) as (P1 & P2 & P3). by split_and!; try reflexivity. }
  cbn [preempt_all]. rewrite st_bind_get. destruct (sd_running s) as [|z zs _] eqn:Hrun using rev_ind; [done|]. rewrite last_snoc, st_bind_modify.
  set (s1 := s <| sd_running ::= _ |>). assert (sd_running s1 = zs) as Hr1.
  { unfold s1. cbn. rewrite Hrun, length_app. cbn. by rewrite Nat.add_sub, take_app_length. }
  assert (world s1 (z :: zs) (queues s) [] m l) as Hw1 by (apply (world_eq s); [eapply world_perm; [exact Hw|by rewrite <- Permutation_cons_append|done]|done]).
  destruct (preempt_spec iter_ints Hiter clock cfg Hcfg size capacity bs Hbs caching block_hasher s1 z zs (queues s) m l false Hw1) as (s2 & m2 & l2 & Heq & Hw2 & Hev & Hpe). st_step Heq.
  destruct (world_object z Hw2) as (r & Hr & Hoid & _ & Hok & _ & Hwait); [in_list|]. set (f1 := fun r : req => r <| rq_async_tokens_to_discard := rq_num_output_placeholders r |>).
  st_step (set_req_eq z f1 s2 r Hr). set (f2 := fun r : req => r <| rq_num_output_placeholders := 0 |>). st_step (set_put_eq z f2 s2 (f1 r)).
  set (s3 := put z (f2 (f1 r)) s2). assert (req_ok (f2 (f1 r))) as Hok3 by (apply (req_ok_eq _ Hok); [unfold req_core, f2, f1; cbn; by rewrite (rk_placeholders Hok)|by left]).
  assert (members (sd_waiting s3) ≡ₚ z :: members (sd_waiting s)) as Hm by apply (pe_waiting _ _ _ _ _ _ _ Hpe).
  assert (sd_skipped_waiting s3 = sd_skipped_waiting s) as Hsk by apply (pe_skipped _ _ _ _ _ _ _ Hpe).
  assert (sd_running s3 = zs) as Hr3 by (rewrite <- Hr1; apply (pe_running _ _ _ _ _ _ _ Hpe)).
  assert (queues s3 ≡ₚ z :: queues s) as Hq by (unfold queues; by rewrite Hm, Hsk).
  destruct (IH s3 m2 l2) as (s' & m' & l' & Heq' & Hc' & Hrun' & Hev' & Hrq' & Hpl').
  - split.
    + rewrite Hr3. apply (world_perm (act := zs) (que := z :: queues s)); [|done|done]. eapply world_put; [exact Hw2|exact Hr|done|done|done| |].
      * intros Hz. pose proof (world_nodup Hw1) as [Hz1 _]%NoDup_cons. destruct Hz1. in_list.
      * intros Hz. destruct (Hwait Hz) as [W1 W2]. by split.
    + destruct Hsh as [[Sh1 Sh2] Sh3]. split; [split; [rewrite (pe_policy _ _ _ _ _ _ _ Hpe : policy_of (sd_waiting s3) = _); exact Sh1|by rewrite Hsk]|].
      rewrite Hr3. rewrite Hrun, length_app in Sh3. cbn in Sh3. lia.
    + rewrite Hsk. assert (z ∉ members (sd_skipped_waiting s)) as Hz.
      { intros Hz. pose proof (world_nodup Hw1) as [Hz1 _]%NoDup_cons. destruct Hz1. unfold queues. in_list. }
      intros y r' Hy Hr'. apply (Hun y r' Hy). unfold s3, put in Hr'. cbn in Hr'. rewrite lookup_insert_ne in Hr' by (intros ->; done).
      by rewrite (pe_heap _ _ _ _ _ _ _ Hpe) in Hr' by (intros ->; done).
  - rewrite Hr3. rewrite length_app in Hlen. cbn in Hlen. lia.
  - exists s', m', l'. split_and!; try done; try apply Hpl'.
    + etrans; [exact Hev|]. etrans; [|exact Hev']. intros y q Hq'. unfold s3, put. cbn. destruct (decide (y = z)) as [->|Hne].
      * rewrite Hr in Hq'. injection Hq' as <-. exists (f2 (f1 r)). rewrite lookup_insert_eq. split; [done|]. by split_and!; auto.
      * exists q. rewrite lookup_insert_ne by done. split; [done|reflexivity].
    + rewrite Hrq'. pose proof (pe_rest _ _ _ _ _ _ _ Hpe) as Hrest. by injection Hrest.
Qed.


(** With no running request every block is free. *)
Lemma calm_free s m l : calm s m l → sd_running s = [] → lenZ l = bp_num_gpu_blocks (km_pool (sd_kv_cache_manager s)) - 1.
Proof.
  intros [Hw _ _] Hrun. rewrite <- (km_all_free _ m l (w_kv Hw)).
  - symmetry. apply num_free_wf. apply (kv_wf _ _ _ (ks_kv _ _ _ (w_kv Hw))).
  - intros rid. apply (w_idle Hw). intros x Hx. assert (x ∈ (sd_requests s).*2) as Hx2 by by apply (list_elem_of_fmap_2' snd _ (rid, x)). rewrite (w_places Hw), Hrun, app_nil_r in Hx2. done.
Qed.

Lemma calm_steady s m l : calm s m l → rested s (queues s) [] → steady s m l.
Proof. intros [] Hr. by split. Qed.

Lemma reset_spec s m l reset_running reset_connector :
  steady s m l → ∃ s' m' l' b, scheduler_reset_prefix_cache iter_ints clock reset_running reset_connector s = Ok (s', b) ∧ steady s' m' l' ∧ evolves s s' ∧
    sd_requests s' = sd_requests s ∧ (reset_running = true → sd_running s' = [] ∧ (reset_connector = false → b = true)).
Proof.
  intros Hs. pose proof (st_world _ _ _ _ _ _ _ _ _ Hs) as Hw. unfold scheduler_reset_prefix_cache. rewrite st_bind_get.
  assert (∃ s1 m1 l1, st_when reset_running (preempt_all iter_ints clock (length (sd_running s));; st_modify (fun s => s <| sd_prev_step_scheduled_req_ids := ∅ |>)) s = Ok (s1, tt) ∧
    steady s1 m1 l1 ∧ evolves s s1 ∧ sd_requests s1 = sd_requests s ∧ (reset_running = true → sd_running s1 = [])) as (s1 & m1 & l1 & Heq1 & Hs1 & Hev & Hrq & Hrun).
  { destruct reset_running; cbn [st_when]; [|exists s, m, l; split_and!; try done; reflexivity].
    destruct (preempt_all_spec (length (sd_running s)) s m l) as (s1 & m1 & l1 & Heq & Hc & Hrun & Hev & Hrq & _); [destruct Hs; by split|done|]. st_step Heq.
    eexists _, m1, l1. split; [done|]. split; [|by split_and!]. apply calm_steady; [|intros y r Hy Hr Hp; left; set_solver].
    destruct Hc as [C1 [] C3]. split; [by apply (world_eq s1)|by split|done]. }
  st_step Heq1. pose proof (st_world _ _ _ _ _ _ _ _ _ Hs1) as Hw1. destruct (km_reset_eq _ m1 l1 (w_kv Hw1)) as (k' & Hk & Hks & Hlen).
  set (b := bool_decide _) in *. st_step (on_kv_eq km_reset_prefix_cache s1 k' b Hk). set (s2 := s1 <| sd_kv_cache_manager := k' |>).
  assert (sd_lifecycles s = None) as -> by apply (w_plain Hw). rewrite (bool_decide_eq_false_2 (is_Some None)) by apply is_Some_None. rewrite andb_false_r. cbn [st_when]. rewrite bind_ret.
  assert (reset_running = true → b = true) as Hb.
  { intros Hr. apply bool_decide_eq_true_2, (calm_free s1 m1 l1); [destruct Hs1; by split|by apply Hrun]. }
  assert (reset_running && negb b = false) as -> by (destruct reset_running; [by rewrite Hb|done]). cbn [st_when]. rewrite bind_ret.
  assert (steady s2 m1 l1) as Hs2 by by apply steady_kv. destruct reset_connector.
  - assert (reset_connector_cache s2 = Ok (s2, false)) as Hrc.
    { unfold reset_connector_cache. rewrite st_bind_get. by rewrite (proj1 (w_plain (st_world _ _ _ _ _ _ _ _ _ Hs2))). }
    st_step Hrc. exists s2, m1, l1, false. split_and!; try done. intros Hr. split; [by apply Hrun|done].
  - exists s2, m1, l1, b. split_and!; try done. intros Hr. split; [by apply Hrun|by intros _; apply Hb].
Qed.

(** The encoder cache is emptied. *)
Lemma reset_encoder_spec s m l :
  0 <= capacity → steady s m l → ∃ s', reset_encoder_cache s = Ok (s', tt) ∧ steady s' m l ∧ sd_heap s' = sd_heap s ∧ sd_requests s' = sd_requests s.
Proof.
  intros Hcap [Hw [] Hr Hu]. destruct (w_enc Hw) as (e & He & Hwf). assert (ec_wf size capacity (ec_reset e)) as Hwf' by (unfold ec_reset; rewrite (ew_capacity _ _ _ Hwf); by apply init_ec_wf).
  exists (s <| sd_encoder_cache_manager := CacheManager (ec_reset e) |>). split; [apply on_enc_eq; by rewrite He|]. split; [|done]. split; [by apply world_set_enc|by split|done|done].
Qed.

(** The grammar of a request is compiled, which the grammar backend does in a thread of
    its own: the scheduler then sees the attribute set. *)
Definition grammar_ready x : sm unit := set_req x (fun r => r <| rq_grammar := true |>).

Lemma grammar_spec s m l x r :
  steady s m l → x ∈ (sd_requests s).*2 → sd_heap s !! x = Some r →
  ∃ s', grammar_ready x s = Ok (s', tt) ∧ steady s' m l ∧ evolves s s' ∧ sd_requests s' = sd_requests s.
Proof.
  intros [Hw [] Hre Hu] Hx Hr. set (r' := r <| rq_grammar := true |>). unfold grammar_ready. rewrite (set_req_eq x _ s r Hr). exists (put x r' s). split; [done|].
  rewrite (w_places Hw) in Hx. destruct (world_object x Hw Hx) as (r0 & Hr0 & _ & _ & Hok & Hrun & Hwait). rewrite Hr in Hr0. injection Hr0 as <-.
  assert (req_ok r') as Hok' by (destruct Hok; split; try done; [by apply (hash_ok_same r)|by right]).
  assert (∀ y q, sd_heap (put x r' s) !! y = Some q → ∃ q0, sd_heap s !! y = Some q0 ∧ rq_status q = rq_status q0 ∧ rq_request_id q = rq_request_id q0) as Hback.
  { intros y q. cbn. destruct (decide (x = y)) as [<-|Hne]; [rewrite lookup_insert_eq; intros [= <-]; by exists r|rewrite lookup_insert_ne by done; by exists q]. }
  split; [split|split; [|done]].
  - eapply world_put; [exact Hw|exact Hr|done..].
  - by split.
  - intros y q Hy Hq Hp. destruct (Hback y q Hq) as (q0 & Hq0 & Es & Ei). rewrite Ei. apply (Hre y q0); try done. congruence.
  - intros y q Hy Hq Hst. destruct (Hback y q Hq) as (q0 & Hq0 & Es & Ei). apply (Hu y q0 Hy Hq0). unfold started in *. by rewrite <- Es.
  - intros y q Hq. cbn. destruct (decide (x = y)) as [<-|Hne]; [|exists q; rewrite lookup_insert_ne by done; split; [done|reflexivity]].
    rewrite Hr in Hq. injection Hq as <-. exists r'. rewrite lookup_insert_eq. split; [done|]. split_and!; auto.
Qed.

End steps.
