(* ===== verification/SchedulerThms.v ===== *)
(** * The runs of the scheduler

    The operations of [Scheduler.v] in any order, with any number of steps in flight:
    requests arrive and are aborted, steps are scheduled and their outputs come back
    later, the scheduler is paused and its caches are reset.  On every such run no
    operation raises, the loops of a step end within their fuel, every request is in
    exactly one list, and what a step gives out stays within its budgets.

    The scheduler has one group of full attention and a plain configuration
    ([plain_config]); it has no KV connector and no agent scheduling, and its requests
    ([arrives], by [req_ok]) have no drafts and are not sessions.  Multi-modal inputs,
    pooling, structured output, prefix caching, priorities, chunked prefill and
    preemption are all in. *)

From S2P Require Import Prelude PyFloat Metrics Protocol CachePolicy OffloadManager Lifecycle Request BlockHash FreeQueue BlockPool BlockPoolThms.
From S2P Require Import SingleType KVManager KVManagerThms CacheHitThms Scheduling SchedulingThms RequestQueue EncoderCache EncoderCacheThms Scheduler SchedulerRuns.
From S2P Require Import SchedulerCore SchedulerStepThms SchedulerUpdateThms.

Section runs.
Context {F E P C G : Type} `{PyFloat F} `{CachePolicy P} `{KVConnector F E C} `{StructuredOutput F E G}.
Context (embeds_digest : E → Z → Z → string) (use_int_hashes : bool).
Context (log1p : F → res F) (iter_strings : gset string → list string) (Hstrings : ∀ rids, iter_strings rids ≡ₚ elements rids).
Context (iter_ints : gset Z → list Z) (Hiter : ∀ ns, iter_ints ns ≡ₚ elements ns).
Context (offload_config : OffloadConfig F) (clock : nat → F) (has_cache_item : option (string → bool)).
Context (evaluate_pending : st (Scheduler F E P C G) unit).
(** Only the requests that use structured output advance a grammar. *)
Context (Hgrammar : ∀ (r : Request F E) (g : G), so_should_advance r g = true → rq_use_structured_output r = true).
Context (cfg : SchedulerConfig) (Hcfg : plain_config cfg) (size : string → Z) (capacity bs : Z) (Hcapacity : 0 <= capacity) (Hbs : 0 < bs) (caching : bool).
Context (block_hasher : option (Request F E → res (Request F E * list string))) `{!RequestHashes block_hasher bs caching}.
Notation scheduler := (Scheduler F E P C G).
Notation sm := (st scheduler).
Notation req := (Request F E).
Notation output := (SchedulerOutput F E).
Notation steady := (steady (P := P) (C := C) (G := G) cfg size capacity bs caching block_hasher).
Notation arrives := (arrives cfg size bs caching block_hasher).
Implicit Types (s : scheduler) (r : req) (x : Z) (rid : string) (o : output) (os : list output) (m : SingleTypeKVCacheManager) (l : list Z).

(** What happens to a scheduler. *)
Inductive event :=
  | Schedule
  | Update (o : output) (mo : ModelRunnerOutput)
  | Finish (arg : finish_arg) (status : RequestStatus)
  | Add (r : req)
  | Pause (p : PauseState)
  | ResetPrefixCache (reset_running reset_connector : bool)
  | ResetEncoderCache
  | GrammarReady (x : Z).

Definition perform (e : event) : sm (option output) :=
  match e with
  | Schedule => o ← schedule embeds_digest use_int_hashes log1p iter_strings iter_ints clock has_cache_item evaluate_pending; mret (Some o)
  | Update o mo => _ ← update_from_output embeds_digest use_int_hashes block_hasher iter_strings iter_ints offload_config clock o mo; mret None
  | Finish arg status => _ ← finish_requests iter_strings iter_ints offload_config clock arg status; mret None
  | Add r => scheduler_add_request block_hasher iter_strings iter_ints offload_config clock r;; mret None
  | Pause p => set_pause_state p;; mret None
  | ResetPrefixCache b1 b2 => _ ← scheduler_reset_prefix_cache iter_ints clock b1 b2; mret None
  | ResetEncoderCache => reset_encoder_cache;; mret None
  | GrammarReady x => grammar_ready x;; mret None
  end.

(** When it may happen, with the outputs [os] still in flight: an output comes back once,
    with an answer for each of its requests; a new request is a new object under an
    identifier that neither a request nor an output in flight has. *)
Definition allowed (e : event) s os : Prop :=
  match e with
  | Update o mo => o ∈ os ∧ replies s o mo
  | Finish _ status => status_is_finished status = true
  | Add r => arrives s r ∧ ∀ o, o ∈ os → rq_request_id r ∉ (so_num_scheduled_tokens o).*1
  | GrammarReady x => x ∈ (sd_requests s).*2
  | _ => True
  end.

(** The outputs in flight after it. *)
Definition in_flight (e : event) (out : option output) os os' : Prop :=
  match e, out with
  | Schedule, Some o => os' = o :: os
  | Update o _, _ => os ≡ₚ o :: os'
  | _, _ => os' = os
  end.

(** The runs of a scheduler over one group of full attention, without a connector, a
    controller and a registry: the events that are allowed, in any order. *)
Inductive reach : scheduler → list output → Prop :=
  | start kvc g hbs batch eagle log events dcp pcp metrics kv grammars include :
      kv_cache_manager_init kvc (cf_max_model_len cfg) hbs batch caching eagle log events dcp pcp metrics = Ok kv →
      kvc_groups kvc = [g] → positional (grp_spec g) → is_full (grp_spec g) = true → 0 < spec_block_size (grp_spec g) → 0 < dcp → 0 < pcp →
      bs = (if 1 <? dcp * pcp then spec_block_size (grp_spec g) * (dcp * pcp) else spec_block_size (grp_spec g)) →
      reach (scheduler_init cfg kv (CacheManager (encoder_cache_init capacity)) None None None grammars include) []
  | happens e s os s' out os' : reach s os → allowed e s os → perform e s = Ok (s', out) → in_flight e out os os' → reach s' os'.

Lemma start_steady kv g dcp pcp admission l grammars include :
  km_state kv (single_type_init (grp_spec g) caching 0 dcp pcp admission) l → km_max_model_len kv = cf_max_model_len cfg → is_full (grp_spec g) = true →
  bs = (if 1 <? dcp * pcp then spec_block_size (grp_spec g) * (dcp * pcp) else spec_block_size (grp_spec g)) →
  steady (scheduler_init cfg kv (CacheManager (encoder_cache_init capacity)) None None None grammars include) (single_type_init (grp_spec g) caching 0 dcp pcp admission) l.
Proof.
  intros Hks Hlen Hf Hb. set (m := single_type_init _ _ _ _ _ _) in *. set (s := scheduler_init _ _ _ _ _ _ _ _).
  assert (members (sd_waiting s) = [] ∧ members (sd_skipped_waiting s) = []) as [Hm1 Hm2] by (cbn; by destruct (cf_policy cfg)).
  assert (queues s = []) as Hq by (unfold queues; by rewrite Hm1, Hm2). split.
  - rewrite Hq. split; try done.
    + exists (encoder_cache_init capacity). split; [done|by apply init_ec_wf].
    + apply NoDup_nil_2.
    + intros rid x Hx. by apply not_elem_of_nil in Hx.
  - split; [cbn; by destruct (cf_policy cfg)|]. cbn. apply (pc_running _ Hcfg).
  - rewrite Hq. intros x r Hx. by apply not_elem_of_nil in Hx.
  - rewrite Hm2. intros x r Hx. by apply not_elem_of_nil in Hx.
Qed.


(** A request of a steady state is not finished. *)
Lemma steady_alive s m l rid x r : steady s m l → (rid, x) ∈ sd_requests s → sd_heap s !! x = Some r → is_finished r = false.
Proof.
  intros Hs Hx Hr. pose proof (st_world _ _ _ _ _ _ _ _ _ Hs) as Hw. assert (x ∈ (sd_requests s).*2) as Hin by by apply (list_elem_of_fmap_2' snd _ (rid, x)).
  rewrite (w_places Hw) in Hin. destruct (world_object x Hw Hin) as (r0 & Hr0 & _ & _ & _ & Hrun & Hwait). rewrite Hr in Hr0. injection Hr0 as <-. unfold is_finished.
  rewrite app_nil_r in Hin. apply elem_of_app in Hin as [Hin|Hin]; [by destruct (Hrun Hin) as [-> _]|]. by destruct (Hwait Hin) as [[->|[->| ->]] _].
Qed.

(** The requests of a step in flight ran, also after more happened. *)
Lemma launched_later s s' m l m' l' o :
  launched s o → steady s m l → steady s' m' l' → evolves s s' →
  (∀ rid x, (rid, x) ∈ sd_requests s' → rid ∈ (so_num_scheduled_tokens o).*1 → (rid, x) ∈ sd_requests s) → launched s' o.
Proof.
  intros [Hsp Hla] Hs Hs' Hev Hkr. split; [done|]. intros rid n Hin. destruct (Hla rid n Hin) as [Hn Hst]. split; [done|]. intros x r' Hx Hr'.
  assert ((rid, x) ∈ sd_requests s) as Hx0 by (apply Hkr; [done|by apply (list_elem_of_fmap_2' fst _ (rid, n))]).
  destruct (w_objects (st_world _ _ _ _ _ _ _ _ _ Hs) rid x Hx0) as (r & Hr & _). destruct (Hev x r Hr) as (r1 & Hr1 & _ & _ & Hg & _). rewrite Hr' in Hr1. injection Hr1 as <-.
  destruct (Hg (Hst x r Hx0 Hr)) as [?|Hf]; [done|]. pose proof (steady_alive s' m' l' rid x r' Hs' Hx Hr'). congruence.
Qed.

(** Every event that may happen does, and leaves the requests in their places. *)
Lemma perform_spec e s os m l :
  steady s m l → (∀ o, o ∈ os → launched s o) → allowed e s os →
  ∃ s' out m' l', perform e s = Ok (s', out) ∧ steady s' m' l' ∧ (∀ os' o, in_flight e out os os' → o ∈ os' → launched s' o).
Proof.
  intros Hs Hos Hal. pose proof (st_world _ _ _ _ _ _ _ _ _ Hs) as Hw.
  assert (∀ s' m' l' o, o ∈ os → steady s' m' l' → evolves s s' → (∀ p, p ∈ sd_requests s' → p ∈ sd_requests s) → launched s' o) as Hlater.
  { intros s' m' l' o Ho Hs' Hev Hkr. apply (launched_later s s' m l m' l'); try done; [by apply Hos|]. intros rid x Hx _. by apply Hkr. }
  destruct e as [|o mo|arg st|r|p|b1 b2| |x]; cbn [perform allowed in_flight] in *.
  - destruct (schedule_spec embeds_digest use_int_hashes log1p iter_strings iter_ints Hiter clock has_cache_item evaluate_pending cfg Hcfg size capacity bs Hbs caching block_hasher s m l Hs)
      as (s' & m' & l' & o & Heq & Hs' & Hev & Erq & _ & Hout). st_step Heq. exists s', (Some o), m', l'. split_and!; try done.
    intros os' o' -> [->|Ho']%elem_of_cons; [|apply (Hlater s' m' l'); try done; by rewrite Erq]. split; [apply (sc_drafts _ _ _ _ _ _ Hout)|].
    intros rid n Hin. split; [by apply (sc_positive _ _ _ _ _ _ Hout rid)|]. intros x r Hx Hr. destruct (sc_running _ _ _ _ _ _ Hout rid n Hin) as (x' & r' & Hx' & Hrun & Hr' & _).
    pose proof (st_world _ _ _ _ _ _ _ _ _ Hs') as Hw'. rewrite (world_unique rid x x' Hw' Hx Hx') in *. rewrite Hr' in Hr. injection Hr as <-.
    destruct (world_object x' Hw') as (r0 & Hr0 & _ & _ & _ & Hok & _); [in_list|]. rewrite Hr' in Hr0. injection Hr0 as <-. left. by destruct (Hok Hrun).
  - destruct Hal as [Ho Hre]. destruct (update_spec embeds_digest use_int_hashes iter_strings Hstrings iter_ints Hiter offload_config clock Hgrammar cfg Hcfg size capacity bs Hbs caching block_hasher s m l o mo
      Hs (Hos o Ho) Hre) as (s' & m' & l' & outs & Heq & Hs' & Hev & Hkr). st_step Heq. exists s', None, m', l'. split_and!; try done.
    intros os' o' Hp Ho'. apply (Hlater s' m' l'); try done. rewrite Hp. by right.
  - destruct (finish_requests_spec iter_strings Hstrings iter_ints Hiter offload_config clock cfg size capacity bs caching block_hasher s m l arg st Hs Hal)
      as (s' & m' & l' & out & Heq & Hs' & Hev & Hkr & _). st_step Heq. exists s', None, m', l'. split_and!; try done. intros os' o' -> Ho'. apply (Hlater s' m' l'); try done.
    intros [rid x] Hx. by apply Hkr in Hx as [? _].
  - destruct Hal as [Har Hnew]. destruct (add_spec iter_strings iter_ints offload_config clock cfg size capacity bs caching block_hasher s m l r Hs Har) as (s' & Heq & Hs' & Hev & Erq & _).
    st_step Heq. exists s', None, m, l. split_and!; try done. intros os' o' -> Ho'. apply (launched_later s s' m l m l); try done; [by apply Hos|].
    intros rid x. rewrite Erq, elem_of_app, list_elem_of_singleton. intros [?|[= -> ->]] Hin; [done|]. by destruct (Hnew o' Ho').
  - exists (s <| sd_pause_state := p |>), None, m, l. split; [done|]. assert (steady (s <| sd_pause_state := p |>) m l) as Hs' by by apply (steady_eq cfg size capacity bs caching block_hasher s).
    split; [done|]. intros os' o' -> Ho'. apply (Hlater _ m l o'); try done. by apply evolves_heap.
  - destruct (reset_spec iter_strings Hstrings iter_ints Hiter clock Hgrammar cfg Hcfg size capacity bs Hbs caching block_hasher s m l b1 b2 Hs) as (s' & m' & l' & b & Heq & Hs' & Hev & Erq & _).
    st_step Heq. exists s', None, m', l'. split_and!; try done. intros os' o' -> Ho'. apply (Hlater s' m' l'); try done. by rewrite Erq.
  - destruct (reset_encoder_spec cfg size capacity bs caching block_hasher s m l Hcapacity Hs) as (s' & Heq & Hs' & Eh & Erq).
    st_step Heq. exists s', None, m, l. split_and!; try done. intros os' o' -> Ho'. apply (Hlater s' m l); try done; [by apply evolves_heap|by rewrite Erq].
  - pose proof Hal as ((rid & y) & -> & Hy)%list_elem_of_fmap. destruct (w_objects Hw rid y Hy) as (r & Hr & _).
    destruct (grammar_spec cfg size capacity bs caching block_hasher s m l y r Hs Hal Hr) as (s' & Heq & Hs' & Hev & Erq).
    st_step Heq. exists s', None, m, l. split_and!; try done. intros os' o' -> Ho'. apply (Hlater s' m l); try done. by rewrite Erq.
Qed.


Lemma reach_steady s os : reach s os → ∃ m l, steady s m l ∧ ∀ o, o ∈ os → launched s o.
Proof.
  induction 1 as [kvc g hbs batch eagle log events dcp pcp metrics kv grammars include Hinit Hg Hpos Hfull Hsz Hd Hp Hb|e s os s' out os' _ (m & l & Hs & Hos) Hal Heq Hfl].
  - destruct (init_state _ g _ _ _ _ _ _ _ _ _ _ kv Hinit Hg Hpos Hsz Hd Hp) as (admission & l & Hks & Hlen). eexists _, l. split; [by eapply start_steady|].
    intros o Ho. by apply not_elem_of_nil in Ho.
  - destruct (perform_spec e s os m l Hs Hos Hal) as (s1 & out1 & m' & l' & Heq1 & Hs' & Hla). rewrite Heq in Heq1. injection Heq1 as <- <-. exists m', l'. split; [done|].
    intros o Ho. by apply (Hla os').
Qed.


(** The blocks that a request holds. *)
Definition blocks_held s rid : list Z := match kc_managers (km_coordinator (sd_kv_cache_manager s)) with m :: _ => held m rid | [] => [] end.

Lemma steady_held s m l rid : steady s m l → blocks_held s rid = held m rid.
Proof. intros Hs. unfold blocks_held. by rewrite (ks_managers _ _ _ (w_kv (st_world _ _ _ _ _ _ _ _ _ Hs))). Qed.







(** C23. An abort removes exactly what it names.  On every run [finish_requests], for one
    identifier, a set of them or all, returns the identifiers of the requests that the
    scheduler has among those named, and none else; these are no longer among its
    requests, not in any list, and hold no block, also when a step with them is in
    flight; every other request is still among them. *)
Theorem finish_exact arg status s os :
  reach s os → status_is_finished status = true →
  ∃ s' out, finish_requests iter_strings iter_ints offload_config clock arg status s = Ok (s', out) ∧
    (∀ rid, rid ∈ out.*1 ↔ rid ∈ (sd_requests s).*1 ∧ rid ∈ named iter_strings arg s) ∧
    (∀ rid x, (rid, x) ∈ sd_requests s' ↔ (rid, x) ∈ sd_requests s ∧ rid ∉ named iter_strings arg s) ∧
    (∀ rid, rid ∈ named iter_strings arg s → blocks_held s' rid = []) ∧
    (sd_requests s').*2 ≡ₚ sd_running s' ++ members (sd_waiting s') ++ members (sd_skipped_waiting s').
Proof.
  intros (m & l & Hs & _)%reach_steady Hfin.
  destruct (finish_requests_spec iter_strings Hstrings iter_ints Hiter offload_config clock cfg size capacity bs caching block_hasher s m l arg status Hs Hfin)
    as (s' & m' & l' & out & Heq & Hs' & _ & Hrq & Hout). pose proof (st_world _ _ _ _ _ _ _ _ _ Hs') as Hw'. exists s', out. split_and!; try done.
  - intros rid Hrid. rewrite (steady_held s' m' l' rid Hs'). apply (w_idle Hw'). intros x Hx. by apply Hrq in Hx as [_ []].
  - by rewrite (w_places Hw'), app_nil_r.
Qed.

End runs.

(** ** Witnesses

    A request of five tokens arrives and its prompt is scheduled, with prefix caching and
    the collision-free hash function of the examples. *)

#[local] Existing Instance no_connector.
#[local] Existing Instance no_grammar.

Definition rs_hasher : option (Request b64 unit → res (Request b64 unit * list string)) := Some (request_block_hasher no_digest ex_hash "none" 4).
Definition rs_perform : event → st engine (option (SchedulerOutput b64 unit)) :=
  perform no_digest false (fun x => Ok x) elements elements rn_offload rn_clock None (mret tt) rs_hasher.
Definition rs_kv : KVCacheManager :=
  from_ok (kv_cache_manager_init (mkKVConfig 9 [mkGroup ex_full false]) 32 4 None true false true false 1 1 false) ltac:(vm_compute; reflexivity).
Definition rs_s0 : engine := scheduler_init (rn_settings FCFS 32 0) rs_kv (CacheManager (encoder_cache_init 0)) None None None tt false.
Definition rs_s1 : engine := (from_ok (rs_perform (Add ex_r) rs_s0) ltac:(vm_compute; reflexivity)).1.
Definition rs_step := from_ok (schedule no_digest false (fun x => Ok x) elements elements rn_clock None (mret tt) rs_s1) ltac:(vm_compute; reflexivity).
Definition rs_s2 : engine := rs_step.1.
Definition rs_o : SchedulerOutput b64 unit := rs_step.2.

#[local] Instance rs_hashes : RequestHashes rs_hasher 4 true := hashed_requests no_digest ex_hash "none" 4 eq_refl true.

Notation rs_reach := (reach no_digest false (fun x => Ok x) elements elements rn_offload rn_clock None (mret tt) (rn_settings FCFS 32 0) (fun _ => 0) 0 4 true rs_hasher).

Lemma rs_plain : plain_config (rn_settings FCFS 32 0).
Proof. split; done. Qed.

Lemma ex_r_arrives : arrives (P := lru) (C := unit) (G := unit) (rn_settings FCFS 32 0) (fun _ => 0) 4 true rs_hasher rs_s0 ex_r.
Proof.
  assert (rq_mm_features ex_r = []) as Hmm by (vm_compute; reflexivity). assert (rq_use_structured_output ex_r = false) as Hso by (vm_compute; reflexivity).
  split; [split|..].
  - vm_compute. reflexivity.
  - vm_compute. reflexivity.
  - vm_compute. reflexivity.
  - intros _. exists ex_sampling. split; [vm_compute; reflexivity|vm_compute; discriminate].
  - intros _. vm_compute. reflexivity.
  - vm_compute. reflexivity.
  - vm_compute. reflexivity.
  - vm_compute. reflexivity.
  - unfold request_ok, sized, placed. rewrite Hmm. by split; intros j f Hj.
  - exact (built_hashed no_digest no_len ex_hash "none" 4 eq_refl ex_r (ex_built_built _ ex_r (from_ok_eq _ _))).
  - right. rewrite Hso. discriminate.
  - left. vm_compute. reflexivity.
  - vm_compute. reflexivity.
  - apply not_elem_of_nil.
  - vm_compute. reflexivity.
Qed.

Lemma rs_reach1 : rs_reach rs_s1 [].
Proof.
  refine (happens _ _ _ _ _ _ _ _ _ _ _ _ _ _ _ (Add ex_r) rs_s0 [] rs_s1 None [] _ _ _ _); [|split| |done].
  - apply (start _ _ _ _ _ _ _ _ _ _ _ _ _ _ _ (mkKVConfig 9 [mkGroup ex_full false]) (mkGroup ex_full false) 4 None false true false 1 1 false rs_kv tt false); done.
  - exact ex_r_arrives.
  - intros o Ho. by apply not_elem_of_nil in Ho.
  - vm_compute. reflexivity.
Qed.

Lemma rs_reach2 : rs_reach rs_s2 [rs_o].
Proof.
  refine (happens _ _ _ _ _ _ _ _ _ _ _ _ _ _ _ Schedule rs_s1 [] rs_s2 (Some rs_o) [rs_o] rs_reach1 I _ eq_refl).
  vm_compute. reflexivity.
Qed.

Lemma rs_order {A} `{Countable A} (X : gset A) : elements X ≡ₚ elements X.
Proof. done. Qed.
Lemma rs_no_grammar (r : Request b64 unit) (g : unit) : so_should_advance r g = true → rq_use_structured_output r = true.
Proof. done. Qed.







(** The request is aborted while its step is in flight. *)
Lemma finish_exact_witness :
  ∃ s' out, finish_requests elements elements rn_offload rn_clock (FinishOne "req") FINISHED_ABORTED rs_s2 = Ok (s', out) ∧ "req" ∈ out.*1 ∧
    blocks_held s' "req" = [] ∧ ∀ x, ("req", x) ∉ sd_requests s'.
Proof.
  destruct (finish_exact no_digest false (fun x => Ok x) elements rs_order elements rs_order rn_offload rn_clock None (mret tt) rs_no_grammar
    (rn_settings FCFS 32 0) rs_plain (fun _ => 0) 0 4 (Z.le_refl 0) eq_refl true rs_hasher (FinishOne "req") FINISHED_ABORTED rs_s2 [rs_o] rs_reach2 eq_refl) as (s' & out & Heq & Hout & Hrq & Hb & _).
  exists s', out. split; [exact Heq|]. split; [apply Hout; split; [apply (bool_decide_unpack _); vm_compute; exact I|left]|]. split; [apply Hb; left|].
  intros x Hx. apply Hrq in Hx as [_ Hn]. apply Hn. left.
Defined.
